(* ===== verification/_CoqProject ===== *)
-Q . S2P
Prelude.v
GoStrings.v
Path.v
Flags.v
Profile.v
Utf8.v
Invocation.v
GoFmt.v
Args.v
Sha256.v
Quote.v
Json.v
CappedBuffer.v
HistoryTypes.v
TestCache.v
TestCacheFacts.v
Disk.v
ResultCache.v
Server.v
History.v
HistoryFacts.v
HistoryStore.v
HistoryStoreFacts.v
Runner.v
RunnerFacts.v
Pool.v
DebugCache.v
Fleet.v
FleetInv.v
FleetCommit.v
FleetSteps.v
FleetSystem.v
FleetTheorems.v
FleetGrowth.v
Isolated.v
Worker.v
WorkerLoop.v
WorkerLoopFacts.v
WorkerFacts.v
FleetLink.v
CacheTypes.v
LocalCache.v
LocalCacheFacts.v
CacheClient.v
CacheClientFacts.v
CacheShim.v
CacheShimFacts.v
HistoryDaemon.v
HistoryApi.v
HistoryDaemonFacts.v
HistoryServiceFacts.v
Progress.v
ProgressFacts.v
Summary.v
Discover.v
Run.v
Utf8Facts.v
Live.v
Web.v
WebFacts.v
Capture.v
CaptureFacts.v
Listen.v
ShimSession.v
ShimLife.v
CommandLine.v
Main.v
Closing.v
DaemonMain.v
ShimAccept.v
Stores.v
FleetAlone.v
FleetRun.v
Leader.v
Whole.v
FleetSummary.v
HelperMain.v
