(* ===== verification/Prelude.v ===== *)
(** * gotst: a verification library

    gotst (src/) builds the test binaries of Go packages, runs their tests in
    parallel, reuses the results of tests whose inputs have not changed, keeps a
    history of results, and can spread a run over helpers on other machines.
    This library models the program in Rocq as functions and step relations and
    proves what makes it correct.

    ** The program and the files that model it

    A run ([main], [Run] in gotst.go) reads flags and a profile, discovers
    packages with the go command, has go test build them with gotst itself as the
    wrapper of the test binaries and as the cache program of the build, lists the
    tests, and runs them, alone or through a fleet of helpers.

    - Shared: this file (record update, int64, times and durations, errors,
      sorting, counting), GoStrings, Path, Utf8, Utf8Facts, GoFmt, Quote, Json,
      Sha256, Disk: what the code uses of strings, filepath, utf8, fmt, strconv,
      encoding/json, crypto/sha256 and os.
    - Start: CommandLine (package flag on the declared flags), Flags (their
      checks), Profile (profile.go), Invocation (invocation.go), Args (argument
      lists and quoting), Main (the roles of the executable), Stores (the stores and
      the directory of a run), Leader (the end of [main]: listeners, exit status,
      what is released; [startTailcatWorkers], [startTailcatStatus]), Capture and CaptureFacts (storeTestExecBinary of gotst.go, toolexec.go, cache.go,
      util.go).
    - A run: Server ([Server] of gotst.go with the operations under its mutex),
      Discover (discovery, build and listing), Runner and RunnerFacts ([runTest]),
      Pool ([runAllTests]), DebugCache ([runDebugUncached]), Run ([Run]'s phases
      put together), Closing ([Run]'s deferred steps, the semaphore of the
      processes, the last status page), CappedBuffer (captured output), Whole
      ([main], the run and its tests together).
    - Results and history: TestCache, TestCacheFacts and ResultCache
      (testcache.go; [ResultCache] has the interface of a cache with its laws,
      which the disk discharges), HistoryTypes (history/history.go), History,
      HistoryFacts, HistoryStore and HistoryStoreFacts (history.go).
    - The fleet: Fleet, FleetInv, FleetCommit, FleetSteps, FleetSystem,
      FleetTheorems, FleetGrowth, FleetAlone (distributed.go: the leader without
      its helpers), FleetRun ([Run] with a fleet, in every phase), Isolated (executeIsolated),
      Worker, WorkerLoop, WorkerLoopFacts, WorkerFacts, HelperMain (worker.go), FleetLink (a
      leader, a network and a helper together).
    - The build cache: CacheTypes, CacheClient, CacheClientFacts, CacheShim,
      CacheShimFacts, ShimSession, ShimLife, ShimAccept (cacheprog.go),
      LocalCache and LocalCacheFacts (localcache.go).
    - Display: Progress, ProgressFacts (progress.go), Summary, FleetSummary
      (summary.go, against the fleet), Web,
      WebFacts, Live, Listen (web.go, live.js, tailcatstatus.go).
    - The history service: HistoryDaemon, HistoryApi, HistoryDaemonFacts,
      HistoryServiceFacts, DaemonMain (cmd/testhistoryd).

    ** How code becomes definitions

    Definitions have the names of the source where Rocq allows it.  A struct is a
    record; fields that would clash have a short prefix.  A pointer that is shared
    is a position in the list or map that owns it.  A method that holds a mutex
    throughout is one function on the state; goroutines are interleavings of
    events, each one atomic step of one of them, and [reachable] states are
    those that any order of events leads to.  An error is a value of [error] or
    [result]; [option] around a result stands for a panic, a nil dereference or
    [log.Fatal], as the definition says.  Integers are [Z], wrapped with [i64]
    where the code can overflow.  What the operating system, a library outside
    src/ or the other end of a connection answers is an argument, so that a
    theorem holds for every answer; what is relied on is a hypothesis, with a
    witness where it holds.

    ** What the theorems show

    - The fleet refines an abstract queue of tests: every lease is accounted for,
      a test gets one verdict, which is final, and no message of a helper makes the
      leader panic or loses a test ([fleet_refinement], [link_no_lease_lost],
      [helper_reports_once], [helper_finishes] and others).  A run never depends on
      its helpers to end: the leader can always finish alone ([dist_can_return]).
    - The process exits with status 0 only when every test that was asked for was
      executed and passed ([exit_success], and of its parts [run_success_complete],
      [dist_success_complete], [pool_success_complete]); a local run ends
      ([pool_terminates]).
    - A result is stored only for a clean pass and reused only while the inputs
      it lists are unchanged ([runTest_stores_clean], [runTest_reuses],
      [validateDependencies_sound], [diskPut_atomic]).
    - History survives faults and concurrent writers and is the same through the
      service ([diskRecord_newest], [service_transparent], [service_roundtrip]).
    - The build cache returns what was stored, and only verified executables are
      run ([local_cache_integrity], [forward_verified], [client_responses_match],
      [session_answers], [shim_resources], [shim_close_waits]).
    - The processes of a build get their roles, a run starts only on a consistent
      configuration, and it removes nothing that is not its own ([child_modes],
      [main_typed], [main_total], [resolveProfile_equiv], [capture_sound],
      [run_leaves_stores]); what it leaves when it fails, the next run removes
      ([leader_directory]), and a helper leaves nothing
      ([helper_leaves_nothing]).
    - What is displayed agrees with the state, and the browser shows the page that
      the server pushed last ([status_agrees], [summary_accounts], [testETA_bounds],
      [live_follows], [live_final_delivered], [run_closes]).

    ** Fuel and bounds

    Loops that are not structural take fuel that their caller computes:
    [visit] the number of profiles, [findFrom] and [moduleRootFrom] the elements
    of the directory, [splitQuoted] the length of the text.  The theorems about
    them show that it suffices ([resolveProfile_total], [findProfileConfig_nearest],
    [findGo_spec], [splitQuoted_quote]).  Loops of goroutines have no fuel: their
    termination is a measure that every step decreases.

    ** Not modelled

    The HTML template and the update of the browser's document; the tailcat
    servers, websockets, HTTP and PostgreSQL connections themselves and the bytes
    on them, where decoded messages are exchanged instead; the texts that are only
    logged; YAML decoding, floating-point formatting, [strconv.ParseInt] and
    [time.ParseDuration], which are parameters; the clock, whose readings are
    arguments; Windows paths.  The package testbuildfailure, a fixture that does
    not compile, is left out. *)

From stdpp Require Export prelude gmap strings list sorting pretty.
From Stdlib Require Import Ascii.
From Stdlib Require Export ZArith Lia.

#[export] Set Default Goal Selector "!".

(** ** Record update

    [r <| f := v |>] is the record [r] with field [f] replaced, and
    [r <| f ::= g |>] the record whose field [f] is mapped through [g].  The
    setter of a projection is found by instance search from the eta-expansion
    of its record, declared once per record as an [Eta] instance. *)

Class Eta (R : Type) := eta : R → R.

Class Setter {R E : Type} (proj : R → E) := setter : (E → E) → R → R.
Global Hint Mode Setter - - ! : typeclass_instances.

Definition set_field {R E} (proj : R → E) {s : Setter proj} (g : E → E) (r : R) : R :=
  s g r.
Arguments set_field {R E} proj {s} g r /.

Ltac solve_setter :=
  lazymatch goal with
  | |- @Setter ?R ?E ?proj =>
      let e := constr:(ltac:(typeclasses eauto) : Eta R) in
      let body := eval hnf in e in
      lazymatch (eval pattern proj in body) with
      | ?k proj => exact (λ (g : E → E) (r : R), k (λ r', g (proj r')) r)
      end
  end.

Global Hint Extern 1 (Setter _) => solve_setter : typeclass_instances.

Declare Scope go_scope.
Delimit Scope go_scope with go.
Open Scope go_scope.
Open Scope Z_scope.

Notation "r <| f := v |>" := (set_field f (λ _, v) r)
  (at level 1, f at level 0, v at level 99, left associativity) : go_scope.
Notation "r <| f ::= g |>" := (set_field f g r)
  (at level 1, f at level 0, g at level 99, left associativity) : go_scope.

(** ** Machine integers and time

    A Go [int64] (and [int] on the 64-bit platforms gotst supports) is a [Z];
    [i64] is the wrap-around its arithmetic has.  A [time.Duration] is an
    [int64] count of nanoseconds.  A [time.Time] is the number of nanoseconds
    since the zero time, so that [IsZero] is a comparison with 0. *)

Definition int64_min : Z := - 2 ^ 63.
Definition int64_max : Z := 2 ^ 63 - 1.
Definition in_int64 (z : Z) : Prop := int64_min ≤ z ≤ int64_max.
Definition i64 (z : Z) : Z := (z + 2 ^ 63) `mod` 2 ^ 64 - 2 ^ 63.

Definition Duration := Z.
Definition Nanosecond : Duration := 1.
Definition Microsecond : Duration := 1000.
Definition Millisecond : Duration := 1000000.
Definition Second : Duration := 1000000000.

Definition Time := Z.
Definition zeroTime : Time := 0.
Definition IsZero (t : Time) : bool := t =? zeroTime.
Definition Before (a b : Time) : bool := a <? b.
Definition After (a b : Time) : bool := b <? a.

(** [t.Sub(u)] saturates at the bounds of [time.Duration]. *)
Definition Sub (t u : Time) : Duration := Z.max int64_min (Z.min int64_max (t - u)).

(** Go integer division truncates toward zero. *)
Definition divT (a b : Z) : Z := Z.quot a b.

(** [d.Round(m)] for [m > 0]: to the nearest multiple, halfway values away from
    zero, and the maximum or minimum duration where that overflows. *)
Definition Round (d m : Duration) : Duration :=
  if m <=? 0 then d
  else
    let r := Z.rem d m in
    if d <? 0 then
      let r := - r in
      if r + r <? m then d + r
      else let d1 := d - m + r in if int64_min <=? d1 then d1 else int64_min
    else if r + r <? m then d - r
    else let d1 := d + m - r in if d1 <=? int64_max then d1 else int64_max.

Definition Truncate (d m : Duration) : Duration :=
  if m <=? 0 then d else d - Z.rem d m.

Lemma i64_id z : in_int64 z → i64 z = z.
Proof. unfold i64, in_int64, int64_min, int64_max. intros. rewrite Z.mod_small; lia. Qed.

Lemma i64_range z : in_int64 (i64 z).
Proof.
  unfold i64, in_int64, int64_min, int64_max.
  pose proof (Z.mod_pos_bound (z + 2 ^ 63) (2 ^ 64)). lia.
Qed.

Lemma i64_add_assoc a b c : i64 (i64 (a + b) + c) = i64 (a + i64 (b + c)).
Proof.
  unfold i64.
  replace ((a + b + 2 ^ 63) `mod` 2 ^ 64 - 2 ^ 63 + c + 2 ^ 63)
    with ((a + b + 2 ^ 63) `mod` 2 ^ 64 + c) by lia.
  replace (a + ((b + c + 2 ^ 63) `mod` 2 ^ 64 - 2 ^ 63) + 2 ^ 63)
    with (a + (b + c + 2 ^ 63) `mod` 2 ^ 64) by lia.
  rewrite Zplus_mod_idemp_l, Zplus_mod_idemp_r. do 2 f_equal. lia.
Qed.

Lemma Sub_in_range t u : in_int64 (t - u) → Sub t u = t - u.
Proof. unfold Sub, in_int64. lia. Qed.

(** ** Errors

    An error value with what the code inspects of it: whether it is (or wraps)
    [context.Canceled] or an [*exec.ExitError], and its text. *)

Inductive error : Type :=
  | ECanceled                        (** [context.Canceled] *)
  | EExit (msg : string)             (** [*exec.ExitError] *)
  | EMsg (msg : string)              (** [errors.New], or [fmt.Errorf] without [%w] *)
  | EWrap (msg : string) (e : error) (** [fmt.Errorf("msg%w", e)] *)
  | EWrapIn (msg : string) (e : error) (after : string) (** [fmt.Errorf("msg%wafter", e)] *)
  | EJoin (e1 e2 : error).           (** [errors.Join] *)

#[export] Instance error_eq_dec : EqDecision error.
Proof. solve_decision. Defined.

Definition newline : string := String "010"%char EmptyString.
Definition nul : string := String "000"%char EmptyString.

Fixpoint Error (e : error) : string :=
  match e with
  | ECanceled => "context canceled"
  | EExit m | EMsg m => m
  | EWrap m e => m +:+ Error e
  | EWrapIn m e t => m +:+ Error e +:+ t
  | EJoin e1 e2 => Error e1 +:+ newline +:+ Error e2
  end.

(** [errors.Is(err, context.Canceled)] *)
Fixpoint isCanceled (e : error) : bool :=
  match e with
  | ECanceled => true
  | EWrap _ e | EWrapIn _ e _ => isCanceled e
  | EJoin e1 e2 => isCanceled e1 || isCanceled e2
  | _ => false
  end.

(** [errors.As(err, &ee)] for [ee *exec.ExitError] *)
Fixpoint isExitError (e : error) : bool :=
  match e with
  | EExit _ => true
  | EWrap _ e | EWrapIn _ e _ => isExitError e
  | EJoin e1 e2 => isExitError e1 || isExitError e2
  | _ => false
  end.

(** [errors.Join(errs...)]: nil for no errors. *)
Fixpoint Join_errors (es : list error) : option error :=
  match es with
  | [] => None
  | e :: es => Some (match Join_errors es with None => e | Some e' => EJoin e e' end)
  end.

Lemma Join_errors_None es : Join_errors es = None ↔ es = [].
Proof. destruct es; simpl; split; intros; congruence. Qed.

(** A fallible operation returns a value or an error. *)
Inductive result (A : Type) : Type :=
  | Ok (a : A)
  | Err (e : error).
Arguments Ok {A} a.
Arguments Err {A} e.

#[export] Instance result_ret : MRet result := λ A, Ok.
#[export] Instance result_bind : MBind result := λ A B f m,
  match m with Ok a => f a | Err e => Err e end.

Lemma bind_Ok {A B} (m : result A) (f : A → result B) b :
  m ≫= f = Ok b ↔ ∃ a, m = Ok a ∧ f a = Ok b.
Proof.
  destruct m as [a|e]; simpl; split.
  - eauto.
  - intros (a' & [= ->] & H). done.
  - discriminate.
  - intros (a' & H & _). discriminate.
Qed.

(** ** Sorting

    [slices.SortFunc] and [slices.SortStableFunc] take a comparison that
    returns a negative, zero or positive integer.  [sort_by] is the stable
    sort; for a comparison under which distinct elements never compare equal
    the unstable sort returns the same list ([sort_by_unique]). *)

Section sort_by.
Context {A : Type} (cmp : A → A → Z).

Definition cmp_le (x y : A) : Prop := cmp x y ≤ 0.

#[export] Instance cmp_le_dec : RelDecision cmp_le.
Proof. intros x y. unfold cmp_le. apply _. Defined.

Fixpoint insert_by (x : A) (l : list A) : list A :=
  match l with
  | [] => [x]
  | y :: l' => if decide (cmp_le x y) then x :: l else y :: insert_by x l'
  end.

Fixpoint sort_by (l : list A) : list A :=
  match l with
  | [] => []
  | x :: l => insert_by x (sort_by l)
  end.

Lemma insert_by_perm x l : insert_by x l ≡ₚ x :: l.
Proof.
  induction l as [|y l IH]; simpl; [done|].
  case_decide; [done|]. rewrite IH. by constructor.
Qed.

Lemma sort_by_perm l : sort_by l ≡ₚ l.
Proof. induction l as [|x l IH]; simpl; [done|]. by rewrite insert_by_perm, IH. Qed.

Lemma elem_of_sort_by x l : x ∈ sort_by l ↔ x ∈ l.
Proof. by rewrite sort_by_perm. Qed.

Lemma length_sort_by l : length (sort_by l) = length l.
Proof. by rewrite sort_by_perm. Qed.

Lemma sort_by_NoDup l : NoDup (sort_by l) ↔ NoDup l.
Proof. by rewrite sort_by_perm. Qed.

Context `{!Total cmp_le, !Transitive cmp_le}.

Lemma insert_by_sorted x l : Sorted cmp_le l → Sorted cmp_le (insert_by x l).
Proof using Total0.
  induction 1 as [|y l Hs IH Hhd]; simpl; [by repeat constructor|].
  case_decide as Hc; [by repeat constructor|].
  constructor; [done|].
  assert (cmp_le y x) by (destruct (total cmp_le x y); [done|done]).
  destruct Hhd; simpl; [by constructor|]. case_decide; by constructor.
Qed.

Lemma sort_by_Sorted l : Sorted cmp_le (sort_by l).
Proof using Total0. induction l; simpl; [constructor|]. by apply insert_by_sorted. Qed.

Lemma sort_by_StronglySorted l : StronglySorted cmp_le (sort_by l).
Proof using All. apply Sorted_StronglySorted; [done|]. apply sort_by_Sorted. Qed.

(** A list already in order is left as it is. *)
Lemma sort_by_id l : StronglySorted cmp_le l → sort_by l = l.
Proof using Type.
  induction 1 as [|x l Hs IH Hx]; simpl; [done|]. rewrite IH.
  destruct l as [|y l]; simpl; [done|].
  rewrite decide_True; [done|]. by inversion Hx.
Qed.

(** Any sorted permutation is the list [sort_by] returns when elements that
    compare equal are equal. *)
Lemma sort_by_unique l l' :
  (∀ x y, x ∈ l → y ∈ l → cmp_le x y → cmp_le y x → x = y) →
  Sorted cmp_le l' → l' ≡ₚ l → sort_by l = l'.
Proof using All.
  intros Hanti Hs Hp.
  apply (Sorted_unique_strong cmp_le); [|apply sort_by_Sorted|done|by rewrite sort_by_perm].
  intros x y Hx Hy. rewrite elem_of_sort_by in Hx. rewrite Hp in Hy. auto.
Qed.

(** Stability: elements of one class of ties keep their order. *)
Lemma insert_by_filter (P : A → Prop) `{!∀ x, Decision (P x)} x l :
  (∀ y z, P y → P z → cmp_le y z) →
  filter P (insert_by x l) = filter P (x :: l).
Proof using Type.
  intros HP. induction l as [|y l IH]; simpl; [done|].
  case_decide as Hc; [done|].
  rewrite (filter_cons _ y (insert_by x l)), IH, !filter_cons.
  repeat case_decide; try done. exfalso. by apply Hc, HP.
Qed.

Lemma sort_by_stable (P : A → Prop) `{!∀ x, Decision (P x)} l :
  (∀ y z, P y → P z → cmp_le y z) → filter P (sort_by l) = filter P l.
Proof using Type.
  intros HP. induction l as [|x l IH]; simpl; [done|].
  rewrite insert_by_filter by done. by rewrite !filter_cons, IH.
Qed.
End sort_by.

Arguments sort_by {A} cmp l : simpl never.

Lemma sort_by_ext {A} (c1 c2 : A → A → Z) l :
  (∀ x y, x ∈ l → y ∈ l → c1 x y = c2 x y) → sort_by c1 l = sort_by c2 l.
Proof.
  induction l as [|x l IH]; intros Hc; [done|]. unfold sort_by; fold (sort_by c1 l) (sort_by c2 l).
  rewrite IH by (intros; apply Hc; by right).
  assert (Hin : ∀ k, (∀ y, y ∈ k → y ∈ l) → insert_by c1 x k = insert_by c2 x k).
  { intros k. induction k as [|y k IHk]; intros Hk; [done|]. simpl.
    assert (Hxy : c1 x y = c2 x y) by (apply Hc; [left|right; apply Hk; left]).
    assert (Hrest : insert_by c1 x k = insert_by c2 x k) by (apply IHk; intros z Hz; apply Hk; by right).
    repeat case_decide; unfold cmp_le in *; rewrite ?Hrest; try done; exfalso; lia. }
  apply Hin. intros y. apply elem_of_sort_by.
Qed.

Lemma NoDup_fmap_inj {A B} (g : A → B) (l : list A) x y :
  NoDup (g <$> l) → x ∈ l → y ∈ l → g x = g y → x = y.
Proof.
  induction l as [|z l IH]; [by intros _ ?%not_elem_of_nil|].
  rewrite fmap_cons. intros [Hz Hnd]%NoDup_cons. rewrite !elem_of_cons.
  intros [->|Hx] [->|Hy] Hg; [done|..|by apply IH].
  - exfalso. apply Hz. rewrite Hg. by apply list_elem_of_fmap_2.
  - exfalso. apply Hz. rewrite <- Hg. by apply list_elem_of_fmap_2.
Qed.

(** Comparisons built like the code's: by a first criterion, then, where it
    does not decide, by a second. *)
Class GoodCmp {A} (cmp : A → A → Z) : Prop := {
  cmp_refl : ∀ x, cmp x x = 0;
  cmp_flip : ∀ x y, cmp y x = - cmp x y;
  cmp_trans : ∀ x y z, cmp x y ≤ 0 → cmp y z ≤ 0 → cmp x z ≤ 0
}.

Definition lexCmp {A} (c1 c2 : A → A → Z) (a b : A) : Z := if c1 a b =? 0 then c2 a b else c1 a b.
Definition onCmp {A B} (f : A → B) (c : B → B → Z) (a b : A) : Z := c (f a) (f b).
Definition revCmp {A} (c : A → A → Z) (a b : A) : Z := c b a.

#[export] Typeclasses Opaque lexCmp onCmp revCmp.

(** [cmp.Compare] at integers; [true] before [false]. *)
Definition cmpZ (a b : Z) : Z := Z.sgn (a - b).
Definition trueFirst (a b : bool) : Z := if Bool.eqb a b then 0 else if a then -1 else 1.

#[export] Instance cmpZ_good : GoodCmp cmpZ.
Proof. split; unfold cmpZ; intros; [by rewrite Z.sub_diag| |]; lia. Qed.

#[export] Instance trueFirst_good : GoodCmp trueFirst.
Proof. split; [intros []|intros [] []|intros [] [] []]; unfold trueFirst; simpl; lia. Qed.

#[export] Instance onCmp_good {A B} (f : A → B) c : GoodCmp c → GoodCmp (onCmp f c).
Proof. intros Hc. split; unfold onCmp; intros; [apply cmp_refl|apply cmp_flip|by eapply cmp_trans]. Qed.

#[export] Instance revCmp_good {A} (c : A → A → Z) : GoodCmp c → GoodCmp (revCmp c).
Proof. intros Hc. split; unfold revCmp; intros; [apply cmp_refl|apply cmp_flip|by eapply cmp_trans]. Qed.

#[export] Instance lexCmp_good {A} (c1 c2 : A → A → Z) : GoodCmp c1 → GoodCmp c2 → GoodCmp (lexCmp c1 c2).
Proof.
  intros H1 H2. split; unfold lexCmp.
  - intros x. by rewrite !cmp_refl.
  - intros x y. rewrite (cmp_flip (cmp := c1) x y), (cmp_flip (cmp := c2) x y).
    destruct (Z.eqb_spec (c1 x y) 0), (Z.eqb_spec (- c1 x y) 0); lia.
  - intros x y z Hxy Hyz.
    assert (Hx : c1 x y ≤ 0) by (destruct (Z.eqb_spec (c1 x y) 0); lia).
    assert (Hy : c1 y z ≤ 0) by (destruct (Z.eqb_spec (c1 y z) 0); lia).
    pose proof (cmp_trans (cmp := c1) x y z Hx Hy) as Hz.
    destruct (Z.eqb_spec (c1 x z) 0) as [Ez|]; [|lia].
    assert (Hzx : c1 z x ≤ 0) by (rewrite (cmp_flip (cmp := c1) x z); lia).
    pose proof (cmp_trans (cmp := c1) y z x Hy Hzx) as Hyx. rewrite (cmp_flip (cmp := c1) x y) in Hyx.
    pose proof (cmp_trans (cmp := c1) z x y Hzx Hx) as Hzy. rewrite (cmp_flip (cmp := c1) y z) in Hzy.
    rewrite (proj2 (Z.eqb_eq _ _)) in Hxy by lia. rewrite (proj2 (Z.eqb_eq _ _)) in Hyz by lia.
    by apply (cmp_trans (cmp := c2) x y z).
Qed.

#[export] Instance GoodCmp_total {A} (c : A → A → Z) : GoodCmp c → Total (cmp_le c).
Proof. intros Hc x y. unfold cmp_le. rewrite (cmp_flip (cmp := c) x y). lia. Qed.

#[export] Instance GoodCmp_trans {A} (c : A → A → Z) : GoodCmp c → Transitive (cmp_le c).
Proof. intros Hc x y z. apply cmp_trans. Qed.

Lemma lexCmp_zero {A} (c1 c2 : A → A → Z) a b : lexCmp c1 c2 a b = 0 ↔ c1 a b = 0 ∧ c2 a b = 0.
Proof. unfold lexCmp. destruct (Z.eqb_spec (c1 a b) 0); lia. Qed.

Lemma lexCmp_le {A} (c1 c2 : A → A → Z) a b : lexCmp c1 c2 a b ≤ 0 ↔ c1 a b < 0 ∨ (c1 a b = 0 ∧ c2 a b ≤ 0).
Proof. unfold lexCmp. destruct (Z.eqb_spec (c1 a b) 0); lia. Qed.

Lemma bool_decide_ext_if {A} (P Q : Prop) `{!Decision P, !Decision Q} (x y : A) :
  (P ↔ Q) → (if bool_decide P then x else y) = (if bool_decide Q then x else y).
Proof. intros HPQ. by rewrite (bool_decide_ext P Q HPQ). Qed.

(** ** Lists grown at the end *)

Section snoc.
Context {A : Type} (l : list A) (a : A).

Lemma elem_of_snoc x : x ∈ l ++ [a] ↔ x ∈ l ∨ x = a.
Proof. by rewrite elem_of_app, list_elem_of_singleton. Qed.

Lemma elem_of_snoc_skip (Q : A → Prop) x : ¬ Q a → (x ∈ l ∧ Q x ↔ x ∈ l ++ [a] ∧ Q x).
Proof. rewrite elem_of_snoc. naive_solver. Qed.

Lemma exists_snoc_skip (Q : A → Prop) : ¬ Q a → ((∃ x, x ∈ l ∧ Q x) ↔ ∃ x, x ∈ l ++ [a] ∧ Q x).
Proof.
  intros Ha. split.
  - intros (x & Hx & HQ). exists x. split; [apply elem_of_snoc; by left|done].
  - intros (x & [Hx| ->]%elem_of_snoc & HQ); [by eauto|done].
Qed.

Lemma NoDup_snoc : NoDup l → a ∉ l → NoDup (l ++ [a]).
Proof.
  intros Hl Ha. apply NoDup_app. split_and!; [done| |apply NoDup_singleton].
  intros x Hx ->%list_elem_of_singleton. done.
Qed.
End snoc.

Lemma filter_none {A} (P : A → Prop) `{!∀ x, Decision (P x)} (l : list A) :
  (∀ x, x ∈ l → ¬ P x) → filter P l = [].
Proof.
  induction l as [|x l IH]; intros Hl; [done|].
  rewrite filter_cons_False by (apply Hl; left). apply IH. intros y Hy. apply Hl. by right.
Qed.

Lemma filter_all {A} (P : A → Prop) `{!∀ x, Decision (P x)} (l : list A) :
  (∀ x, x ∈ l → P x) → filter P l = l.
Proof.
  induction l as [|x l IH]; intros Hl; [done|].
  rewrite filter_cons_True by (apply Hl; left). f_equal. apply IH. intros y Hy. apply Hl. by right.
Qed.

(** ** Counting the entries of a map *)

Section map_count.
Context `{Countable K} {A : Type} (P : A → bool).

Definition map_count (m : gmap K A) : Z :=
  Z.of_nat (size (filter (λ kv, P kv.2 = true) m)).

Lemma map_count_empty : map_count ∅ = 0.
Proof. unfold map_count. by rewrite map_filter_empty, map_size_empty. Qed.

Lemma map_count_nonneg m : 0 ≤ map_count m.
Proof. unfold map_count. lia. Qed.

Lemma map_count_insert_new m k x :
  m !! k = None → map_count (<[k := x]> m) = map_count m + (if P x then 1 else 0).
Proof.
  intros Hk. unfold map_count. destruct (P x) eqn:E.
  - rewrite map_filter_insert_True, map_size_insert_None; [lia| |done].
    apply map_lookup_filter_None. by left.
  - rewrite map_filter_insert_False by (simpl; congruence). rewrite delete_id by done. lia.
Qed.

(** Replacing an entry changes the count by the difference of the two. *)
Lemma map_count_insert m k x y :
  m !! k = Some x →
  map_count (<[k := y]> m) = map_count m + (if P y then 1 else 0) - (if P x then 1 else 0).
Proof.
  intros Hk. rewrite <- (insert_delete_id m k x) at 2 by done.
  rewrite <- insert_delete_eq.
  rewrite !map_count_insert_new by apply lookup_delete_eq. lia.
Qed.

Lemma map_count_delete m k x :
  m !! k = Some x → map_count (delete k m) = map_count m - (if P x then 1 else 0).
Proof.
  intros Hk. rewrite <- (insert_delete_id m k x) at 2 by done.
  rewrite map_count_insert_new by apply lookup_delete_eq. lia.
Qed.
End map_count.

(** The sum of a measure over a list. *)
Definition sumZ (l : list Z) : Z := foldr Z.add 0 l.

Lemma sumZ_app l k : sumZ (l ++ k) = sumZ l + sumZ k.
Proof. unfold sumZ. induction l as [|x l IH]; simpl; [done|]. rewrite IH. lia. Qed.

(** Replacing one element changes a sum by the difference of the two. *)
Lemma sumZ_insert {A} (g : A → Z) l i x y :
  l !! i = Some x → sumZ (g <$> <[i := y]> l) = sumZ (g <$> l) + g y - g x.
Proof.
  unfold sumZ. revert i. induction l as [|z l IH]; intros [|i] Hi; simplify_eq/=; [lia|].
  rewrite (IH i) by done. lia.
Qed.

Lemma size_list_to_set_le `{Countable A} (l : list A) : (size (list_to_set l : gset A) ≤ length l)%nat.
Proof.
  induction l as [|x l IH]; [done|]. cbn [list_to_set length]. rewrite size_union_alt, size_singleton.
  assert (size ((list_to_set l : gset A) ∖ {[x]}) ≤ size (list_to_set l : gset A))%nat
    by (apply subseteq_size; set_solver). lia.
Qed.

(** ** Sums over a list in which one element is replaced *)

Lemma sum_list_with_insert {A} (g : A → nat) l i x y :
  l !! i = Some x → (sum_list_with g (<[i := y]> l) + g x = sum_list_with g l + g y)%nat.
Proof. revert i. induction l as [|a l IH]; intros [|i] Hi; simpl in *; try done; [simplify_eq; lia|]. specialize (IH i Hi). lia. Qed.
