(* ===== verification/GoStrings.v ===== *)
(** * The functions of package strings that gotst calls

    A Go string is a sequence of bytes, here a [string] of [ascii].  The
    separators gotst passes to [strings.Cut], [strings.Split] and
    [strings.IndexByte] are single bytes, so these take an [ascii]. *)

From Stdlib Require Import Ascii.
From S2P Require Import Prelude.

(** A double quote, which cannot be written inside a literal. *)
Definition dquote : ascii := "034"%char.
Definition squote : ascii := "039"%char.

Definition strlen (s : string) : Z := Z.of_nat (String.length s).

(** [strings.CutPrefix]: the rest of [s] after [prefix], if it starts with it. *)
Fixpoint CutPrefix (s prefix : string) {struct prefix} : option string :=
  match prefix, s with
  | EmptyString, _ => Some s
  | String a p, String b s' => if Ascii.eqb a b then CutPrefix s' p else None
  | String _ _, EmptyString => None
  end.

Definition HasPrefix (s prefix : string) : bool :=
  match CutPrefix s prefix with Some _ => true | None => false end.

Definition TrimPrefix (s prefix : string) : string :=
  match CutPrefix s prefix with Some r => r | None => s end.

(** [strings.Cut(s, sep)] for a one-byte [sep]: what precedes and what follows
    its first occurrence. *)
Fixpoint Cut (s : string) (sep : ascii) : option (string * string) :=
  match s with
  | EmptyString => None
  | String c s' =>
      if Ascii.eqb c sep then Some ("", s')
      else match Cut s' sep with
           | Some (b, a) => Some (String c b, a)
           | None => None
           end
  end.

(** The first result of [strings.Cut], which is all of [s] without [sep]. *)
Definition CutBefore (s : string) (sep : ascii) : string :=
  match Cut s sep with Some (b, _) => b | None => s end.

(** [strings.Split(s, sep)] (and the sequence of [strings.SplitSeq]). *)
Fixpoint Split (s : string) (sep : ascii) : list string :=
  match s with
  | EmptyString => [""]
  | String c s' =>
      if Ascii.eqb c sep then "" :: Split s' sep
      else match Split s' sep with
           | [] => [String c ""]
           | w :: ws => String c w :: ws
           end
  end.

(** What follows and precedes the last occurrence of [sep]: [s[:i]] and
    [s[i+1:]] for [i = strings.LastIndexByte(s, sep)]. *)
Fixpoint CutLast (s : string) (sep : ascii) : option (string * string) :=
  match s with
  | EmptyString => None
  | String c s' =>
      match CutLast s' sep with
      | Some (b, a) => Some (String c b, a)
      | None => if Ascii.eqb c sep then Some ("", s') else None
      end
  end.

Fixpoint ContainsByte (s : string) (c : ascii) : bool :=
  match s with
  | EmptyString => false
  | String d s' => Ascii.eqb d c || ContainsByte s' c
  end.

(** [strings.Contains(s, sub)] *)
Fixpoint Contains (s sub : string) : bool :=
  HasPrefix s sub ||
  match s with EmptyString => false | String _ s' => Contains s' sub end.

(** [strings.ContainsAny(s, chars)] for ASCII [chars]. *)
Fixpoint ContainsAny (s chars : string) : bool :=
  match s with
  | EmptyString => false
  | String c s' => ContainsByte chars c || ContainsAny s' chars
  end.

(** [strings.Join] *)
Fixpoint Join (l : list string) (sep : string) : string :=
  match l with
  | [] => ""
  | [w] => w
  | w :: l => w +:+ sep +:+ Join l sep
  end.

(** [strings.FieldsFunc(s, func(r) bool { return r == sep })] for one byte. *)
Definition FieldsByte (s : string) (sep : ascii) : list string :=
  filter (λ w, w ≠ "") (Split s sep).

(** [strings.TrimLeft(s, cutset)] for an ASCII cutset. *)
Fixpoint TrimLeft (s cutset : string) : string :=
  match s with
  | EmptyString => EmptyString
  | String c s' => if ContainsByte cutset c then TrimLeft s' cutset else s
  end.

(** [strings.Compare] *)
Definition Compare (a b : string) : Z :=
  match String.compare a b with Lt => -1 | Eq => 0 | Gt => 1 end.

(** ** Lemmas *)

Lemma append_empty_r s : s +:+ "" = s.
Proof. induction s as [|c s IH]; [done|]. change (String c (s +:+ "") = String c s). by rewrite IH. Qed.

Lemma append_assoc a b c : (a +:+ b) +:+ c = a +:+ b +:+ c.
Proof.
  induction a as [|x a IH]; [done|].
  change (String x ((a +:+ b) +:+ c) = String x (a +:+ b +:+ c)). by rewrite IH.
Qed.

Lemma append_cons x a b : String x a +:+ b = String x (a +:+ b).
Proof. done. Qed.

Lemma append_empty_l b : "" +:+ b = b.
Proof. done. Qed.

#[export] Instance append_inj_l a : Inj (=) (=) (String.append a).
Proof.
  intros b c. induction a as [|x a IH]; [done|].
  rewrite !append_cons. intros [= H]. by apply IH.
Qed.

Lemma length_append a b : String.length (a +:+ b) = (String.length a + String.length b)%nat.
Proof. induction a as [|x a IH]; [done|]. rewrite append_cons. simpl. by rewrite IH. Qed.

Lemma strlen_append a b : strlen (a +:+ b) = strlen a + strlen b.
Proof. unfold strlen. rewrite length_append. lia. Qed.

Lemma strlen_nonneg s : 0 ≤ strlen s.
Proof. unfold strlen. lia. Qed.

Lemma CutPrefix_Some s p r : CutPrefix s p = Some r ↔ s = p +:+ r.
Proof.
  revert s. induction p as [|a p IH]; intros s; simpl.
  { change (EmptyString +:+ r) with r. destruct s; naive_solver. }
  rewrite append_cons. destruct s as [|b s].
  { split; [discriminate|]. intros [=]. }
  destruct (Ascii.eqb_spec a b) as [->|Hne].
  - rewrite IH. split; [by intros ->|]. by intros [= ->].
  - split; [discriminate|]. intros [= -> _]. done.
Qed.

Lemma HasPrefix_true s p : HasPrefix s p = true ↔ ∃ r, s = p +:+ r.
Proof.
  unfold HasPrefix. destruct (CutPrefix s p) as [r|] eqn:E.
  - apply CutPrefix_Some in E. split; eauto.
  - split; [discriminate|]. intros [r Hr]. apply CutPrefix_Some in Hr. congruence.
Qed.

Lemma HasPrefix_append p r : HasPrefix (p +:+ r) p = true.
Proof. apply HasPrefix_true. eauto. Qed.

Lemma Cut_Some s sep b a :
  Cut s sep = Some (b, a) ↔ s = b +:+ String sep a ∧ ContainsByte b sep = false.
Proof.
  revert b. induction s as [|c s IH]; intros b; simpl.
  { split; [discriminate|]. intros [H _]. destruct b; discriminate H. }
  destruct (Ascii.eqb_spec c sep) as [->|Hne].
  - split.
    + by intros [= <- <-].
    + intros [H Hb]. destruct b as [|d b]; [by injection H as ->|].
      rewrite append_cons in H. injection H as -> _. simpl in Hb.
      by rewrite Ascii.eqb_refl in Hb.
  - destruct (Cut s sep) as [[b' a']|]; split.
    + intros [= <- <-]. destruct (proj1 (IH b')) as [-> Hb]; [done|].
      split; [done|]. simpl. rewrite Hb, orb_false_r. by apply Ascii.eqb_neq.
    + intros [H Hb]. destruct b as [|d b]; [by injection H as ->|].
      rewrite append_cons in H. injection H as -> H. simpl in Hb.
      apply orb_false_elim in Hb as [_ Hb]. apply conj with (1 := H) in Hb.
      apply IH in Hb. by injection Hb as -> ->.
    + discriminate.
    + intros [H Hb]. destruct b as [|d b]; [by injection H as ->|].
      rewrite append_cons in H. injection H as -> H. simpl in Hb.
      apply orb_false_elim in Hb as [_ Hb]. apply conj with (1 := H) in Hb.
      by apply IH in Hb.
Qed.

Lemma Cut_None s sep : Cut s sep = None ↔ ContainsByte s sep = false.
Proof.
  induction s as [|c s IH]; simpl; [done|].
  destruct (Ascii.eqb_spec c sep) as [->|Hne]; simpl; [by split|].
  rewrite <- IH. destruct (Cut s sep) as [[??]|]; by split.
Qed.

Lemma CutLast_None s sep : CutLast s sep = None ↔ ContainsByte s sep = false.
Proof.
  induction s as [|c s IH]; simpl; [done|].
  destruct (CutLast s sep) as [[??]|].
  - split; [discriminate|]. intros [_ H]%orb_false_elim. by apply IH in H.
  - destruct (Ascii.eqb c sep); simpl; [by split|]. by rewrite <- IH.
Qed.

Lemma CutLast_Some s sep b a :
  CutLast s sep = Some (b, a) ↔ s = b +:+ String sep a ∧ ContainsByte a sep = false.
Proof.
  revert b. induction s as [|c s IH]; intros b; simpl.
  { split; [discriminate|]. intros [H _]. destruct b; discriminate H. }
  destruct (CutLast s sep) as [[b' a']|] eqn:E; split.
  - intros [= <- <-]. destruct (proj1 (IH b') eq_refl) as [-> Ha]. done.
  - intros [H Ha]. destruct b as [|d b].
    + injection H as -> ->. apply CutLast_None in Ha. congruence.
    + rewrite append_cons in H. injection H as -> H.
      by injection (proj2 (IH b) (conj H Ha)) as -> ->.
  - destruct (Ascii.eqb_spec c sep) as [->|]; [|discriminate].
    intros [= <- <-]. split; [done|]. by apply CutLast_None.
  - intros [H Ha]. destruct b as [|d b].
    + injection H as -> ->. by rewrite Ascii.eqb_refl.
    + rewrite append_cons in H. injection H as -> H.
      by discriminate (proj2 (IH b) (conj H Ha)).
Qed.

Lemma ContainsByte_append a b c :
  ContainsByte (a +:+ b) c = ContainsByte a c || ContainsByte b c.
Proof.
  induction a as [|x a IH]; [done|]. rewrite append_cons. simpl. by rewrite IH, orb_assoc.
Qed.

Lemma ContainsAny_false s chars :
  ContainsAny s chars = false ↔ ∀ c, ContainsByte chars c = true → ContainsByte s c = false.
Proof.
  induction s as [|d s IH]; simpl; [by split|]. rewrite orb_false_iff, IH. split.
  - intros [Hd Hs] c Hc. rewrite (Hs c Hc), orb_false_r.
    apply Ascii.eqb_neq. intros ->. congruence.
  - intros H. split.
    + destruct (ContainsByte chars d) eqn:E; [|done].
      specialize (H d E). by rewrite Ascii.eqb_refl in H.
    + intros c Hc. specialize (H c Hc). by apply orb_false_elim in H as [_ ?].
Qed.

Lemma Join_cons w l sep : l ≠ [] → Join (w :: l) sep = w +:+ sep +:+ Join l sep.
Proof. by destruct l. Qed.

(** [Split] and [Join] with the same separator are inverse. *)
Lemma Split_nonempty s sep : Split s sep ≠ [].
Proof. destruct s as [|c s]; simpl; [done|]. destruct (Ascii.eqb c sep); [done|]. by destruct (Split s sep). Qed.

Lemma Join_Split s sep : Join (Split s sep) (String sep "") = s.
Proof.
  induction s as [|c s IH]; simpl; [done|].
  pose proof (Split_nonempty s sep). destruct (Ascii.eqb_spec c sep) as [->|].
  - destruct (Split s sep) as [|w ws]; [done|].
    change (String sep (Join (w :: ws) (String sep "")) = String sep s). by rewrite IH.
  - destruct (Split s sep) as [|w [|w' ws]]; [done|..]; simpl in *; by rewrite <- IH.
Qed.

Lemma Compare_refl a : Compare a a = 0.
Proof.
  unfold Compare. induction a as [|c a IH]; simpl; [done|].
  unfold Ascii.compare. by rewrite N.compare_refl.
Qed.

Lemma Compare_eq a b : Compare a b = 0 ↔ a = b.
Proof.
  unfold Compare. split; [|intros ->; apply Compare_refl].
  pose proof (String.compare_eq_iff a b). destruct (String.compare a b); naive_solver.
Qed.

Lemma Compare_antisym a b : Compare b a = - Compare a b.
Proof. unfold Compare. rewrite String.compare_antisym. by destruct (String.compare a b). Qed.

Lemma Compare_le a b : Compare a b ≤ 0 ↔ String.le a b.
Proof.
  unfold Compare, String.le, String.leb. destruct (String.compare a b); simpl; split; try done; lia.
Qed.

#[export] Instance Compare_good : GoodCmp Compare.
Proof.
  split; [apply Compare_refl|intros; apply Compare_antisym|].
  intros a b c. rewrite !Compare_le. by intros -> ->.
Qed.

#[export] Instance Compare_total : Total (cmp_le Compare).
Proof. intros a b. unfold cmp_le. rewrite (Compare_antisym a b). lia. Qed.

#[export] Instance Compare_trans : Transitive (cmp_le Compare).
Proof. intros a b c. unfold cmp_le. rewrite !Compare_le. by intros -> ->. Qed.

Lemma cmp_le_Compare_antisym a b : cmp_le Compare a b → cmp_le Compare b a → a = b.
Proof. unfold cmp_le. rewrite (Compare_antisym a b). intros. apply Compare_eq. lia. Qed.

(** [sort.Strings] *)
Definition sort_strings : list string → list string := sort_by Compare.

(** Any order of the elements sorts to the same list. *)
Lemma sort_strings_perm l l' : l ≡ₚ l' → sort_strings l = sort_strings l'.
Proof.
  intros Hp. unfold sort_strings. apply sort_by_unique; try apply _.
  - intros. by apply cmp_le_Compare_antisym.
  - apply sort_by_Sorted, _.
  - by rewrite sort_by_perm.
Qed.
