(* ===== verification/Path.v ===== *)
(** * Package filepath on Unix

    The lexical path functions gotst calls.  A path is handled as its list of
    elements between slashes; [Clean] drops empty and [.] elements and cancels
    [..] against what precedes it, as the Go routine does byte by byte. *)

From Stdlib Require Import Ascii.
From S2P Require Import Prelude GoStrings.

Definition slash : ascii := "/"%char.
Definition slashS : string := "/".

Definition IsAbs (p : string) : bool := HasPrefix p slashS.

(** One element of [Clean], on the reversed list of the elements kept so far. *)
Definition clean_step (rooted : bool) (acc : list string) (e : string) : list string :=
  if bool_decide (e = "") || bool_decide (e = ".") then acc
  else if bool_decide (e = "..") then
    match acc with
    | [] => if rooted then [] else [".."]
    | x :: acc' => if bool_decide (x = "..") then ".." :: acc else acc'
    end
  else e :: acc.

Definition clean_elems (rooted : bool) (es : list string) : list string :=
  reverse (foldl (clean_step rooted) [] es).

(** The elements of a cleaned path. *)
Definition elems (p : string) : list string := clean_elems (IsAbs p) (Split p slash).

Definition of_elems (rooted : bool) (es : list string) : string :=
  if rooted then slashS +:+ Join es slashS
  else if bool_decide (es = []) then "." else Join es slashS.

Definition Clean (p : string) : string := of_elems (IsAbs p) (elems p).

(** [filepath.Join]: empty elements are ignored; all empty gives the empty string. *)
Definition PathJoin (ps : list string) : string :=
  match filter (λ p, p ≠ "") ps with
  | [] => ""
  | qs => Clean (Join qs slashS)
  end.

(** [filepath.Base]: the last element, without trailing slashes. *)
Definition Base (p : string) : string :=
  if bool_decide (p = "") then "."
  else match reverse (filter (λ e, e ≠ "") (Split p slash)) with
       | [] => slashS
       | e :: _ => e
       end.

(** [filepath.Dir]: what precedes the last slash, cleaned. *)
Definition Dir (p : string) : string :=
  match CutLast p slash with
  | None => "."
  | Some (d, _) => Clean (d +:+ slashS)
  end.

Fixpoint strip_common (b t : list string) : list string * list string :=
  match b, t with
  | x :: b', y :: t' => if bool_decide (x = y) then strip_common b' t' else (b, t)
  | _, _ => (b, t)
  end.

(** [filepath.Rel(base, targ)] for the absolute paths gotst passes to it;
    [None] is its error. *)
Definition Rel (base targ : string) : option string :=
  if bool_decide (IsAbs base = IsAbs targ) then
    let '(b, t) := strip_common (elems base) (elems targ) in
    match b with
    | ".." :: _ => None
    | _ =>
        let es := replicate (length b) ".." ++ t in
        Some (if bool_decide (es = []) then "." else Join es slashS)
    end
  else None.

(** ** Lemmas *)

(** An element [Split] can produce: no slash in it. *)
Definition elem_ok (e : string) : Prop := ContainsByte e slash = false.

Lemma Split_no_sep s sep : Forall (λ w, ContainsByte w sep = false) (Split s sep).
Proof.
  induction s as [|c s IH]; simpl; [by repeat constructor|].
  destruct (Ascii.eqb c sep) eqn:E; [by constructor|].
  pose proof (Split_nonempty s sep). destruct IH as [|w ws Hw Hws]; [done|].
  constructor; [|done]. simpl. by rewrite E, Hw.
Qed.

Lemma Split_app_sep w s sep :
  ContainsByte w sep = false → Split (w +:+ String sep s) sep = w :: Split s sep.
Proof.
  induction w as [|c w IH]; intros H.
  { simpl. by rewrite Ascii.eqb_refl. }
  simpl in H. apply orb_false_elim in H as [Hc Hw].
  rewrite append_cons. simpl. rewrite Hc, IH by done. done.
Qed.

Lemma Split_no_sep_id w sep : ContainsByte w sep = false → Split w sep = [w].
Proof.
  induction w as [|c w IH]; intros H; [done|].
  simpl in *. apply orb_false_elim in H as [-> Hw]. by rewrite IH.
Qed.

Lemma Split_Join ws sep :
  ws ≠ [] → Forall (λ w, ContainsByte w sep = false) ws →
  Split (Join ws (String sep "")) sep = ws.
Proof.
  intros Hne H. induction H as [|w ws Hw Hws IH]; [done|].
  destruct ws as [|w' ws]; [by apply Split_no_sep_id|].
  change (Join (w :: w' :: ws) ?s) with (w +:+ s +:+ Join (w' :: ws) s).
  rewrite append_cons, append_empty_l, Split_app_sep, IH; done.
Qed.

(** ** Absolute cleaned paths

    [abs es] is the cleaned absolute path with elements [es]. *)

Definition normal_elem (e : string) : Prop := elem_ok e ∧ e ≠ "" ∧ e ≠ "." ∧ e ≠ "..".

Definition abs (es : list string) : string := of_elems true es.

Lemma abs_nil : abs [] = slashS.
Proof. done. Qed.

Lemma IsAbs_abs es : IsAbs (abs es) = true.
Proof. apply HasPrefix_append. Qed.

Lemma clean_elems_normal rooted es : Forall normal_elem es → clean_elems rooted es = es.
Proof.
  intros H. unfold clean_elems.
  enough (∀ acc, foldl (clean_step rooted) acc es = reverse es ++ acc) as ->
    by (by rewrite app_nil_r, reverse_involutive).
  induction H as [|e es (_ & H1 & H2 & H3) _ IH]; intros acc; simpl; [done|].
  rewrite IH, reverse_cons, <- app_assoc. unfold clean_step.
  by rewrite !bool_decide_eq_false_2.
Qed.

Lemma foldl_clean_empty rooted acc es :
  foldl (clean_step rooted) acc ("" :: es) = foldl (clean_step rooted) acc es.
Proof. done. Qed.

Lemma Split_abs es :
  Forall normal_elem es → Split (abs es) slash = "" :: match es with [] => [""] | _ => es end.
Proof.
  intros H. change (abs es) with ("" +:+ String slash (Join es slashS)).
  rewrite Split_app_sep by done. f_equal. destruct es as [|e es]; [done|].
  apply Split_Join; [done|]. eapply Forall_impl; [exact H|]. by intros ? [? _].
Qed.

Lemma elems_abs es : Forall normal_elem es → elems (abs es) = es.
Proof.
  intros H. unfold elems. rewrite IsAbs_abs, Split_abs by done.
  transitivity (clean_elems true es); [|by apply clean_elems_normal].
  unfold clean_elems. rewrite foldl_clean_empty. by destruct es.
Qed.

Lemma Clean_abs es : Forall normal_elem es → Clean (abs es) = abs es.
Proof. intros H. unfold Clean. by rewrite IsAbs_abs, elems_abs. Qed.

Lemma Join_snoc es e sep :
  Join (es ++ [e]) sep = match es with [] => e | _ => Join es sep +:+ sep +:+ e end.
Proof.
  induction es as [|x es IH]; [done|].
  destruct es as [|y es]; [done|].
  change (Join ((x :: y :: es) ++ [e]) sep) with (x +:+ sep +:+ Join ((y :: es) ++ [e]) sep).
  rewrite IH. change (Join (x :: y :: es) sep) with (x +:+ sep +:+ Join (y :: es) sep).
  by rewrite !append_assoc.
Qed.

Lemma abs_snoc es e :
  abs (es ++ [e]) = match es with [] => slashS +:+ e | _ => abs es +:+ slashS +:+ e end.
Proof.
  change (abs (es ++ [e])) with (slashS +:+ Join (es ++ [e]) slashS).
  rewrite Join_snoc. destruct es as [|x es]; [done|].
  change (abs (x :: es)) with (slashS +:+ Join (x :: es) slashS). by rewrite append_assoc.
Qed.

Lemma Clean_abs_slash es : Forall normal_elem es → Clean (abs es +:+ slashS) = abs es.
Proof.
  intros H. destruct es as [|e es]; [done|].
  assert (HS : Split (abs (e :: es) +:+ slashS) slash = "" :: (e :: es) ++ [""]).
  { replace (abs (e :: es) +:+ slashS) with (Join ("" :: (e :: es) ++ [""]) slashS).
    - apply Split_Join; [done|]. constructor; [done|]. apply Forall_app. split; [|by constructor].
      eapply Forall_impl; [exact H|]. by intros ? [? _].
    - change (Join ("" :: (e :: es) ++ [""]) slashS)
        with ("" +:+ slashS +:+ Join ((e :: es) ++ [""]) slashS).
      rewrite Join_snoc, append_empty_r, append_empty_l.
      change (abs (e :: es)) with (slashS +:+ Join (e :: es) slashS).
      by rewrite append_assoc. }
  unfold Clean, elems. rewrite HS.
  assert (IsAbs (abs (e :: es) +:+ slashS) = true) as ->.
  { change (abs (e :: es)) with (slashS +:+ Join (e :: es) slashS).
    rewrite append_assoc. apply HasPrefix_append. }
  change (of_elems true ?x) with (abs x). f_equal.
  transitivity (clean_elems true (e :: es)); [|by apply clean_elems_normal].
  unfold clean_elems. by rewrite foldl_clean_empty, foldl_app.
Qed.

Lemma Dir_abs_snoc es e : Forall normal_elem es → normal_elem e → Dir (abs (es ++ [e])) = abs es.
Proof.
  intros Hes He. unfold Dir.
  assert (CutLast (abs (es ++ [e])) slash =
    Some (match es with [] => "" | _ => abs es end, e)) as ->.
  { apply CutLast_Some. split; [|apply He]. rewrite abs_snoc. by destruct es. }
  destruct es as [|x es]; [done|]. by apply Clean_abs_slash.
Qed.

Lemma Dir_root : Dir slashS = slashS.
Proof. done. Qed.

Lemma abs_inj es es' : Forall normal_elem es → Forall normal_elem es' → abs es = abs es' → es = es'.
Proof. intros H H' Heq. by rewrite <- (elems_abs es H), Heq, elems_abs. Qed.

Lemma normal_elem_nonempty_abs es : abs es ≠ "".
Proof. done. Qed.

Lemma PathJoin_abs es e :
  Forall normal_elem es → normal_elem e → PathJoin [abs es; e] = abs (es ++ [e]).
Proof.
  intros Hes He. unfold PathJoin.
  rewrite filter_cons_True by apply normal_elem_nonempty_abs.
  rewrite filter_cons_True by apply He. rewrite filter_nil.
  change (Join [abs es; e] slashS) with (abs es +:+ slashS +:+ e).
  destruct es as [|x es].
  - change (Clean (abs [] +:+ slashS +:+ e)) with (Clean ("//" +:+ e)).
    assert (HS : Split ("//" +:+ e) slash = [""; ""; e]).
    { change ("//" +:+ e) with ("" +:+ String slash ("" +:+ String slash e)).
      rewrite !Split_app_sep by done. by rewrite Split_no_sep_id by apply He. }
    unfold Clean, elems. rewrite HS. change (IsAbs ("//" +:+ e)) with true.
    change (of_elems true ?x) with (abs x). f_equal.
    change ([] ++ [e]) with [e]. rewrite <- (clean_elems_normal true [e]) at 2 by (by constructor).
    done.
  - rewrite <- (abs_snoc (x :: es) e). apply Clean_abs. apply Forall_app. auto.
Qed.
