(* ===== verification/Flags.v ===== *)
(** * Command-line flags and their validation (gotst.go, [main])

    The package-level flag variables that select what a run does.  [main]
    refuses inconsistent combinations with [log.Fatal] before it does any
    work; [validateFlags] is that sequence of checks, the fatal message being
    its error. *)

From S2P Require Import Prelude.

Record flags := Flags {
  jobs : Z;
  maxOutput : Z;
  useCache : bool;
  progressEvery : Duration;
  failFast : bool;
  testCount : Z;
  testCountSet : bool;
  maxRetries : Z;
  buildOnly : bool;
  debugUncached : bool;
  jsonSummary : bool;
  historyConfig : string;
  distributed : bool;
  distKey : string;
  helperAddr : string;
  verbose : bool
}.

#[export] Instance eta_flags : Eta flags := λ f,
  Flags (jobs f) (maxOutput f) (useCache f) (progressEvery f) (failFast f) (testCount f)
    (testCountSet f) (maxRetries f) (buildOnly f) (debugUncached f) (jsonSummary f)
    (historyConfig f) (distributed f) (distKey f) (helperAddr f) (verbose f).

(** The flags as they are declared, [-j] apart, whose default is the smaller of
    the number of processors and 4. *)
Definition defaultFlags (numCPU : Z) : flags := {|
  jobs := Z.min numCPU 4; maxOutput := Z.shiftl 4 20; useCache := true;
  progressEvery := Second; failFast := false; testCount := 1; testCountSet := false;
  maxRetries := 3; buildOnly := false; debugUncached := false; jsonSummary := false;
  historyConfig := "local"; distributed := false; distKey := ""; helperAddr := "";
  verbose := false
|}.

(** The checks of [main], in order; [args] are the positional arguments.  [None]
    means that [main] goes on to run as a leader or as a helper. *)
Definition validateFlags (f : flags) (args : list string) : option string :=
  if jobs f <? 1 then Some "-j must be at least 1"
  else if maxOutput f <? 0 then Some "-max-output must not be negative"
  else if progressEvery f <? 0 then Some "-progress must not be negative"
  else if testCount f <? 1 then Some "-count must be at least 1"
  else if maxRetries f <? 0 then Some "-max-retries must not be negative"
  else if debugUncached f && testCountSet f then
    Some "-debug-uncached and -count are mutually exclusive"
  else if debugUncached f && negb (useCache f) then
    Some "-debug-uncached requires -cache=true"
  else if debugUncached f && buildOnly f then
    Some "-debug-uncached and -build-only are mutually exclusive"
  else if debugUncached f && failFast f then
    Some "-debug-uncached and -failfast are mutually exclusive"
  else if bool_decide (helperAddr f ≠ "") then
    if distributed f || buildOnly f || debugUncached f || negb (bool_decide (args = [])) then
      Some "-helper cannot be combined with -dist, -build-only, -debug-uncached, or package/profile/test arguments"
    else None
  else if distributed f && (buildOnly f || debugUncached f) then
    Some "-dist cannot be combined with -build-only or -debug-uncached"
  else if bool_decide (distKey f ≠ "") && negb (distributed f) then
    Some "-dist-key requires -dist"
  else None.

(** What every run may rely on. *)
Record flags_ok (f : flags) : Prop := {
  ok_jobs : 1 ≤ jobs f;
  ok_maxOutput : 0 ≤ maxOutput f;
  ok_testCount : 1 ≤ testCount f;
  ok_maxRetries : 0 ≤ maxRetries f;
  ok_debug : debugUncached f = true →
    testCountSet f = false ∧ useCache f = true ∧ buildOnly f = false ∧ failFast f = false;
  ok_dist : distributed f = true → buildOnly f = false ∧ debugUncached f = false
}.

Lemma validateFlags_ok f args : validateFlags f args = None → flags_ok f.
Proof.
  unfold validateFlags. intros H.
  repeat (case_match; try discriminate).
  all: repeat match goal with
    | H : (_ <? _) = false |- _ => apply Z.ltb_ge in H
    | H : _ || _ = false |- _ => apply orb_false_elim in H as [? ?]
    end.
  all: constructor; try done.
  all: destruct (debugUncached f), (testCountSet f), (useCache f), (buildOnly f), (failFast f),
    (distributed f); simpl in *; try discriminate; auto.
Qed.
