(* ===== verification/Profile.v ===== *)
(** * Run profiles (profile.go)

    A [.gotst.yml] file defines named profiles that include one another.
    [resolveProfile] walks the includes depth first with a memo table
    ([resolved]), a stack for error messages and a set of the profiles being
    visited ([visiting]) that catches cycles.

    The reference semantics is [Resolves], which has neither memo table nor
    cycle check: a profile resolves when each of its includes does, to the
    merge of their results with its own fields.  [resolveProfile] is shown to
    terminate on every file, to agree with [Resolves] exactly, and to report
    an include cycle only when there is one. *)

From S2P Require Import Prelude GoStrings Path.

Record rawProfile := RawProfile {
  rIncludes : list string;
  rPackages : list string;
  rExcludePackages : list string;
  rTags : list string;
  rTestFlags : list string;
  rShort : option bool;
  rRace : option bool;
  rTimeout : option string
}.

Record profileFile := ProfileFile {
  pfVersion : Z;
  pfProfiles : gmap string rawProfile
}.

Record runProfile := RunProfile {
  Name : string;
  Root : string;
  Packages : list string;
  ExcludePackages : list string;
  Tags : list string;
  TestFlags : list string;
  Short : bool;
  Race : bool;
  Timeout : Duration;
  shortSet : bool;
  raceSet : bool
}.

#[export] Instance eta_runProfile : Eta runProfile := λ p,
  RunProfile (Name p) (Root p) (Packages p) (ExcludePackages p) (Tags p) (TestFlags p)
    (Short p) (Race p) (Timeout p) (shortSet p) (raceSet p).

Definition zeroProfile : runProfile := RunProfile "" "" [] [] [] [] false false 0 false false.

Record profileDefinitions := ProfileDefinitions {
  dPath : string;
  dRoot : string;
  dProfiles : gmap string rawProfile;
  dImplicit : bool
}.

Definition appendUnique1 (dst : list string) (v : string) : list string :=
  if bool_decide (v ≠ "") && negb (bool_decide (v ∈ dst)) then dst ++ [v] else dst.

Definition appendUnique (dst values : list string) : list string :=
  foldl appendUnique1 dst values.

Definition mergeRunProfile (dst src : runProfile) : runProfile :=
  let dst := dst <| Packages ::= λ l, appendUnique l (Packages src) |>
                 <| ExcludePackages ::= λ l, appendUnique l (ExcludePackages src) |>
                 <| Tags ::= λ l, appendUnique l (Tags src) |>
                 <| TestFlags ::= λ l, appendUnique l (TestFlags src) |> in
  let dst := if shortSet src then dst <| Short := Short src |> <| shortSet := true |> else dst in
  let dst := if raceSet src then dst <| Race := Race src |> <| raceSet := true |> else dst in
  if Timeout src =? 0 then dst else dst <| Timeout := Timeout src |>.

(** Errors of [mergeRawProfile], with what their text is made of. *)
Inductive profileError :=
  | InvalidTimeout (timeout : string)
  | NonPositiveTimeout (d : Duration).

Section Profiles.
(** [time.ParseDuration]; [None] is its error. *)
Variable ParseDuration : string → option Duration.

Definition mergeRawProfile (dst : runProfile) (src : rawProfile)
    : profileError + runProfile :=
  let dst := dst <| Packages ::= λ l, appendUnique l (rPackages src) |>
                 <| ExcludePackages ::= λ l, appendUnique l (rExcludePackages src) |>
                 <| Tags ::= λ l, appendUnique l (rTags src) |>
                 <| TestFlags ::= λ l, appendUnique l (rTestFlags src) |> in
  let dst := match rShort src with
             | Some b => dst <| Short := b |> <| shortSet := true |>
             | None => dst
             end in
  let dst := match rRace src with
             | Some b => dst <| Race := b |> <| raceSet := true |>
             | None => dst
             end in
  match rTimeout src with
  | None => inr dst
  | Some t =>
      match ParseDuration t with
      | None => inl (InvalidTimeout t)
      | Some d =>
          if d <=? 0 then inl (NonPositiveTimeout d)
          else inr (dst <| Timeout := d |>)
      end
  end.

(** The variables [resolved], [visiting] and [stack] that [visit] closes over. *)
Record visitState := VisitState {
  vResolved : gmap string runProfile;
  vVisiting : gset string;
  vStack : list string
}.

(** Errors of [visit], with what their text is made of. *)
Inductive visitError :=
  | UnknownProfile (cur : string)
  | IncludeCycle (cycle : list string)
  | BadProfile (cur : string) (e : profileError).

Inductive visitResult :=
  | VOk (p : runProfile) (st : visitState)
  | VErr (e : visitError).

(** [stack[slices.Index(stack, cur):]] *)
Fixpoint fromFirst (cur : string) (l : list string) : list string :=
  match l with
  | [] => []
  | x :: l' => if bool_decide (x = cur) then l else fromFirst cur l'
  end.

Section visit.
Variable profiles : gmap string rawProfile.

Fixpoint visit (fuel : nat) (cur : string) (st : visitState) : option visitResult :=
  match fuel with
  | O => None
  | S fuel =>
      match vResolved st !! cur with
      | Some p => Some (VOk p st)
      | None =>
          match profiles !! cur with
          | None => Some (VErr (UnknownProfile cur))
          | Some raw =>
              if bool_decide (cur ∈ vVisiting st) then
                Some (VErr (IncludeCycle (fromFirst cur (vStack st) ++ [cur])))
              else
                let st1 := VisitState (vResolved st) ({[cur]} ∪ vVisiting st)
                             (vStack st ++ [cur]) in
                let fix includes (incs : list string) (out : runProfile) (st : visitState)
                    : option visitResult :=
                  match incs with
                  | [] => Some (VOk out st)
                  | inc :: incs =>
                      match visit fuel inc st with
                      | None => None
                      | Some (VErr e) => Some (VErr e)
                      | Some (VOk p st) => includes incs (mergeRunProfile out p) st
                      end
                  end in
                match includes (rIncludes raw) zeroProfile st1 with
                | None => None
                | Some (VErr e) => Some (VErr e)
                | Some (VOk out st2) =>
                    match mergeRawProfile out raw with
                    | inl e => Some (VErr (BadProfile cur e))
                    | inr out =>
                        Some (VOk out
                          (VisitState (<[cur := out]> (vResolved st2))
                             (vVisiting st2 ∖ {[cur]})
                             (take (length (vStack st2) - 1) (vStack st2))))
                    end
                end
          end
      end
  end.

(** The loop over [raw.Include] inside [visit]. *)
Fixpoint visitIncludes (fuel : nat) (incs : list string) (out : runProfile)
    (st : visitState) : option visitResult :=
  match incs with
  | [] => Some (VOk out st)
  | inc :: incs =>
      match visit fuel inc st with
      | None => None
      | Some (VErr e) => Some (VErr e)
      | Some (VOk p st) => visitIncludes fuel incs (mergeRunProfile out p) st
      end
  end.

Definition initVisit : visitState := VisitState ∅ ∅ [].

(** One more call than there are profiles is the deepest the recursion goes. *)
Definition visitFuel : nat := S (size profiles).

(** [resolveProfile], which returns what [visit(name)] returns. *)
Definition resolveProfile (name : string) : option visitResult :=
  visit visitFuel name initVisit.

(** ** Reference semantics *)

Inductive Resolves : string → runProfile → Prop :=
  | resolves cur raw out p :
      profiles !! cur = Some raw →
      ResolvesAll (rIncludes raw) zeroProfile out →
      mergeRawProfile out raw = inr p →
      Resolves cur p
with ResolvesAll : list string → runProfile → runProfile → Prop :=
  | resolves_nil out : ResolvesAll [] out out
  | resolves_cons inc incs out p out' :
      Resolves inc p →
      ResolvesAll incs (mergeRunProfile out p) out' →
      ResolvesAll (inc :: incs) out out'.

(** [cur] includes [inc] directly. *)
Definition includes_edge (cur inc : string) : Prop :=
  ∃ raw, profiles !! cur = Some raw ∧ inc ∈ rIncludes raw.

(** Consecutive profiles of a path include one another. *)
Definition include_path (l : list string) : Prop :=
  ∀ i x y, l !! i = Some x → l !! S i = Some y → includes_edge x y.

(** ** Unfolding *)

Lemma visit_S n cur st :
  visit (S n) cur st =
    match vResolved st !! cur with
    | Some p => Some (VOk p st)
    | None =>
        match profiles !! cur with
        | None => Some (VErr (UnknownProfile cur))
        | Some raw =>
            if bool_decide (cur ∈ vVisiting st) then
              Some (VErr (IncludeCycle (fromFirst cur (vStack st) ++ [cur])))
            else
              match visitIncludes n (rIncludes raw) zeroProfile
                      (VisitState (vResolved st) ({[cur]} ∪ vVisiting st)
                         (vStack st ++ [cur])) with
              | None => None
              | Some (VErr e) => Some (VErr e)
              | Some (VOk out st2) =>
                  match mergeRawProfile out raw with
                  | inl e => Some (VErr (BadProfile cur e))
                  | inr out =>
                      Some (VOk out
                        (VisitState (<[cur := out]> (vResolved st2))
                           (vVisiting st2 ∖ {[cur]})
                           (take (length (vStack st2) - 1) (vStack st2))))
                  end
              end
        end
    end.
Proof.
  simpl. destruct (vResolved st !! cur); [done|].
  destruct (profiles !! cur) as [raw|]; [|done]. case_bool_decide; [done|].
  match goal with |- context [?f (rIncludes raw) zeroProfile _] => set (go := f) end.
  assert (∀ incs out st, go incs out st = visitIncludes n incs out st) as ->; [|done].
  induction incs as [|inc incs IH]; intros; simpl; [done|].
  destruct (visit n inc st0) as [[]|]; [apply IH|done..].
Qed.

(** ** Invariants of the walk *)

(** The set [visiting] holds the profiles on the stack, each of which includes
    the next. *)
Record visit_inv (st : visitState) : Prop := {
  inv_sound : ∀ k p, vResolved st !! k = Some p → Resolves k p;
  inv_visiting : ∀ x, x ∈ vVisiting st ↔ x ∈ vStack st;
  inv_known : vVisiting st ⊆ dom profiles;
  inv_path : include_path (vStack st)
}.

(** [cur] can be visited next: the top of the stack includes it. *)
Definition visit_next (st : visitState) (cur : string) : Prop :=
  ∀ x, last (vStack st) = Some x → includes_edge x cur.

Lemma include_path_snoc l x :
  include_path l → (∀ y, last l = Some y → includes_edge y x) → include_path (l ++ [x]).
Proof.
  intros Hl Hx i a b Ha Hb.
  destruct (decide (S i < length l)%nat) as [Hi|Hi].
  - rewrite lookup_app_l in Ha, Hb by lia. eauto.
  - apply lookup_lt_Some in Hb as Hb'. rewrite length_app in Hb'. simpl in Hb'.
    rewrite lookup_app_l in Ha by lia. rewrite lookup_app_r in Hb by lia.
    replace (S i - length l)%nat with 0%nat in Hb by lia. injection Hb as <-.
    apply Hx. rewrite last_lookup. by replace (pred (length l)) with i by lia.
Qed.

Lemma include_path_take l n : include_path l → include_path (take n l).
Proof.
  intros Hl i a b Ha Hb. apply lookup_take_Some in Ha as [Ha _], Hb as [Hb _]. eauto.
Qed.

Lemma include_path_suffix l1 l2 : include_path (l1 ++ l2) → include_path l2.
Proof.
  intros Hl i a b Ha Hb. apply (Hl (length l1 + i)%nat).
  - rewrite lookup_app_r by lia. by replace (length l1 + i - length l1)%nat with i by lia.
  - rewrite lookup_app_r by lia.
    by replace (S (length l1 + i) - length l1)%nat with (S i) by lia.
Qed.

Lemma visit_inv_push st cur :
  visit_inv st → visit_next st cur → cur ∈ dom profiles →
  visit_inv (VisitState (vResolved st) ({[cur]} ∪ vVisiting st) (vStack st ++ [cur])).
Proof.
  intros [Hs Hv Hk Hp] Hn Hc. constructor; simpl; [done|..].
  - intros x. rewrite elem_of_app, <- Hv, elem_of_union, elem_of_singleton, list_elem_of_singleton.
    tauto.
  - apply union_least; [by apply singleton_subseteq_l|done].
  - by apply include_path_snoc.
Qed.

(** Every profile on the stack leads to the one being visited. *)
Lemma include_path_tc l cur x :
  include_path (l ++ [cur]) → x ∈ l → tc includes_edge x cur.
Proof.
  revert x. induction l as [|y l IH]; intros x Hp Hx; [by apply not_elem_of_nil in Hx|].
  assert (Htl : include_path (l ++ [cur])) by exact (include_path_suffix [y] _ Hp).
  assert (Hhd : ∀ z, (l ++ [cur]) !! 0%nat = Some z → includes_edge y z)
    by (intros z; apply (Hp 0%nat); done).
  apply elem_of_cons in Hx as [->|Hx]; [|auto].
  destruct l as [|z l]; simpl in *; [by apply tc_once, Hhd|].
  eapply tc_l; [by apply Hhd|]. apply IH; [done|left].
Qed.

Scheme Resolves_mind := Induction for Resolves Sort Prop
  with ResolvesAll_mind := Induction for ResolvesAll Sort Prop.

Lemma Resolves_det cur p : Resolves cur p → ∀ p', Resolves cur p' → p = p'.
Proof.
  induction 1 as [cur raw out p Hraw _ IH Hm|out|inc incs out p out' _ IHp _ IH]
    using Resolves_mind with
    (P0 := λ incs out out1 _, ∀ out2, ResolvesAll incs out out2 → out1 = out2).
  - intros p' Hp'. inversion Hp' as [? raw' out' ? Hraw' Hall Hm']; simplify_eq.
    apply IH in Hall. congruence.
  - intros out2. by inversion 1.
  - intros out2. inversion 1 as [|? ? ? p' ? Hp Hall]; subst.
    apply IHp in Hp as <-. by apply IH.
Qed.

Lemma ResolvesAll_det incs : ∀ out out1, ResolvesAll incs out out1 →
  ∀ out2, ResolvesAll incs out out2 → out1 = out2.
Proof.
  induction incs as [|inc incs IH]; intros out out1 H1 out2 H2;
    inversion H1; inversion H2; subst; [done|].
  match goal with
  | Hp : Resolves inc _, Hq : Resolves inc _ |- _ =>
      pose proof (Resolves_det _ _ Hp _ Hq); simplify_eq
  end. eauto.
Qed.

(** A profile that resolves includes no chain that leads back to it. *)
Lemma Resolves_Acc cur p : Resolves cur p → Acc (flip includes_edge) cur.
Proof.
  induction 1 as [cur raw out p Hraw _ IH Hm|out|inc incs out p out' _ IHp _ IH]
    using Resolves_mind with
    (P0 := λ incs _ _ _, ∀ inc, inc ∈ incs → Acc (flip includes_edge) inc).
  - constructor. intros y (raw' & Hraw' & Hy). simplify_eq. auto.
  - intros inc Hi. by apply not_elem_of_nil in Hi.
  - intros inc' [->|Hi]%elem_of_cons; auto.
Qed.

Lemma Acc_no_cycle cur : Acc (flip includes_edge) cur → ¬ tc includes_edge cur cur.
Proof.
  assert (Hgen : ∀ x, Acc (flip includes_edge) x → ∀ y, tc includes_edge x y →
    tc includes_edge y x → False); [|intros Ha Ht; eauto].
  induction 1 as [x _ IH]. intros y Hxy Hyx.
  inversion Hxy as [? z Hxz|? z ? Hxz Hzy]; subst.
  - apply (IH y Hxz x Hyx). by apply tc_once.
  - apply (IH z Hxz x); [by eapply tc_transitive|by apply tc_once].
Qed.

(** What an include-cycle error reports: a chain of includes from a profile
    back to itself. *)
Definition real_cycle (c : list string) : Prop :=
  include_path c ∧ ∃ x mid, c = x :: mid ++ [x].

Lemma fromFirst_elem cur l :
  cur ∈ l → ∃ l1 l2, l = l1 ++ cur :: l2 ∧ fromFirst cur l = cur :: l2.
Proof.
  induction l as [|x l IH]; intros Hin; [by apply not_elem_of_nil in Hin|].
  simpl. case_bool_decide as Hx; [subst; by exists [], l|].
  apply elem_of_cons in Hin as [->|Hin]; [done|].
  destruct (IH Hin) as (l1 & l2 & -> & ->). by exists (x :: l1), l2.
Qed.

Lemma visit_cycle_real st cur :
  visit_inv st → visit_next st cur → cur ∈ vStack st →
  real_cycle (fromFirst cur (vStack st) ++ [cur]).
Proof.
  intros [_ _ _ Hp] Hn Hin. pose proof (include_path_snoc _ _ Hp Hn) as Hp'.
  destruct (fromFirst_elem _ _ Hin) as (l1 & l2 & Hl & ->). rewrite Hl in Hp'. split.
  - eapply (include_path_suffix l1). by rewrite app_assoc.
  - by exists cur, l2.
Qed.

(** The outcome of a visit, and of the loop over includes, in terms of the
    reference semantics. *)
Definition visit_post (R : runProfile → Prop) (st : visitState)
    (r : option visitResult) : Prop :=
  match r with
  | None => False
  | Some (VOk p st') =>
      visit_inv st' ∧ vVisiting st' = vVisiting st ∧ vStack st' = vStack st ∧ R p
  | Some (VErr e) => (∀ p, ¬ R p) ∧ (∀ c, e = IncludeCycle c → real_cycle c)
  end.

Definition fuel_enough (n : nat) (st : visitState) : Prop :=
  (size (dom profiles ∖ vVisiting st) < n)%nat.

Lemma visitIncludes_spec n incs : ∀ out st,
  (∀ cur st, visit_inv st → visit_next st cur → fuel_enough n st →
    visit_post (Resolves cur) st (visit n cur st)) →
  visit_inv st → (∀ inc, inc ∈ incs → visit_next st inc) → fuel_enough n st →
  visit_post (ResolvesAll incs out) st (visitIncludes n incs out st).
Proof.
  induction incs as [|inc incs IH]; intros out st Hvisit Hi Hn Hf; simpl.
  { split_and!; [done..|constructor]. }
  pose proof (Hvisit inc st Hi (Hn inc (list_elem_of_here _ _)) Hf) as Hinc.
  destruct (visit n inc st) as [[p st1|e]|]; simpl in Hinc; [| |done].
  - destruct Hinc as (Hi1 & Hv1 & Hs1 & Hp).
    assert (Hrest : visit_post (ResolvesAll incs (mergeRunProfile out p)) st1
               (visitIncludes n incs (mergeRunProfile out p) st1)).
    { apply IH; [done|done| |].
      - intros inc' Hin x. rewrite Hs1. apply (Hn inc'). by right.
      - unfold fuel_enough. by rewrite Hv1. }
    destruct (visitIncludes n incs _ st1) as [[out' st2|e]|]; simpl in *; [| |done].
    + destruct Hrest as (? & ? & ? & ?). split_and!; [done|congruence..|by econstructor].
    + destruct Hrest as [Hno Hc]. split; [|done].
      intros out' Hall. inversion Hall as [|? ? ? p' ? Hp' Hall']; subst.
      apply (Hno out'). by rewrite (Resolves_det _ _ Hp _ Hp').
  - destruct Hinc as [Hno Hc]. split; [|done].
    intros out' Hall. inversion Hall; subst. by eapply Hno.
Qed.

Lemma visit_spec n : ∀ cur st,
  visit_inv st → visit_next st cur → fuel_enough n st →
  visit_post (Resolves cur) st (visit n cur st).
Proof.
  induction n as [|n IH]; intros cur st Hi Hn Hf; [unfold fuel_enough in Hf; lia|].
  rewrite visit_S. destruct (vResolved st !! cur) as [p|] eqn:Hres.
  { split_and!; [done..|]. by apply (inv_sound st Hi). }
  destruct (profiles !! cur) as [raw|] eqn:Hraw.
  2: { split; [|done]. intros p Hp. inversion Hp. congruence. }
  pose proof (elem_of_dom_2 _ _ _ Hraw) as Hdom.
  case_bool_decide as Hv.
  { apply (inv_visiting st Hi) in Hv. split.
    - intros p Hp%Resolves_Acc%Acc_no_cycle. apply Hp.
      eapply include_path_tc; [|exact Hv]. apply include_path_snoc; [apply Hi|done].
    - intros c [= <-]. by apply visit_cycle_real. }
  set (st1 := VisitState _ _ _). pose proof (visit_inv_push _ _ Hi Hn Hdom) as Hi1.
  assert (Hinc : visit_post (ResolvesAll (rIncludes raw) zeroProfile) st1
            (visitIncludes n (rIncludes raw) zeroProfile st1)).
  { apply visitIncludes_spec; [done..| |].
    - intros inc Hin x. subst st1. simpl. rewrite last_snoc. intros [= <-]. by exists raw.
    - unfold fuel_enough in *. subst st1. simpl.
      enough (size (dom profiles ∖ ({[cur]} ∪ vVisiting st)) <
              size (dom profiles ∖ vVisiting st))%nat by lia.
      apply subset_size. set_solver. }
  destruct (visitIncludes n _ _ st1) as [[out st2|e]|]; simpl in Hinc; [| |done].
  - destruct Hinc as (Hi2 & Hv2 & Hs2 & Hall).
    destruct (mergeRawProfile out raw) as [e|p] eqn:Hm.
    2: { assert (Hp : Resolves cur p) by (by econstructor).
      assert (Hstk : take (length (vStack st2) - 1) (vStack st2) = vStack st).
      { rewrite Hs2. subst st1. simpl. rewrite length_app. simpl.
        replace (length (vStack st) + 1 - 1)%nat with (length (vStack st)) by lia.
        apply take_app_length. }
      assert (Hvis : vVisiting st2 ∖ {[cur]} = vVisiting st)
        by (rewrite Hv2; subst st1; simpl; set_solver).
      split_and!; simpl; [|done..]. rewrite Hstk, Hvis. destruct Hi, Hi2.
      constructor; simpl; [|done..].
      intros k q Hk. apply lookup_insert_Some in Hk as [[<- <-]|[_ Hk]]; auto. }
    split; [|done]. intros p Hp. inversion Hp as [? raw' out' ? Hr Ha Hm']; simplify_eq.
      rewrite (ResolvesAll_det _ _ _ Hall _ Ha) in Hm. congruence.
  - destruct Hinc as [Hno Hc]. split; [|done].
    intros p Hp. inversion Hp; simplify_eq. by eapply Hno.
Qed.

Lemma visit_inv_init : visit_inv initVisit.
Proof. constructor; simpl; [|set_solver..|]; intros; done. Qed.

Lemma resolveProfile_post name : visit_post (Resolves name) initVisit (resolveProfile name).
Proof.
  apply visit_spec; [apply visit_inv_init|done|].
  unfold fuel_enough, visitFuel. simpl.
  rewrite difference_empty_L, size_dom. lia.
Qed.
End visit.

(** ** Selecting a profile *)

(** [profileDefinitions.resolve]; a failure keeps the error of [visit]. *)
Definition resolve (d : profileDefinitions) (name : string)
    : option (visitError + runProfile) :=
  let name := if bool_decide (name = "") then "default" else name in
  match resolveProfile (dProfiles d) name with
  | None => None
  | Some (VErr e) => Some (inl e)
  | Some (VOk p _) =>
      let p := p <| Name := name |> <| Root := dRoot d |> in
      Some (inr (if bool_decide (Packages p = []) then p <| Packages := ["./..."] |> else p))
  end.

(** ** Finding and reading the configuration *)

Definition profileConfigName : string := ".gotst.yml".

(** What [os.Stat] reports of a path. *)
Inductive statResult := StatOk | StatNotExist | StatErr (e : error).

Inductive findResult := Found (path : string) | NotFound | FindErr (e : error).

Section files.
Variable stat : string → statResult.

(** The loop of [findProfileConfig] from directory [dir] upwards. *)
Fixpoint findFrom (fuel : nat) (dir : string) : option findResult :=
  match fuel with
  | O => None
  | S fuel =>
      let path := PathJoin [dir; profileConfigName] in
      match stat path with
      | StatOk => Some (Found path)
      | StatErr e => Some (FindErr e)
      | StatNotExist =>
          let parent := Dir dir in
          if bool_decide (parent = dir) then Some NotFound else findFrom fuel parent
      end
  end.

(** [findProfileConfig], from what [os.Getwd] returns.  Each step up drops an
    element of the working directory. *)
Definition findProfileConfig (getwd : result string) : option findResult :=
  match getwd with
  | Err e => Some (FindErr e)
  | Ok dir => findFrom (S (length (elems dir))) dir
  end.

(** Reading the file at an absolute path and decoding its YAML documents,
    unknown fields refused.  The decoder is an external package. *)
Inductive decodeResult :=
  | OpenFailed (e : error)
  | DecodeFailed (e : error)
  | OneDocument (pf : profileFile)
  | SecondDocument (pf : profileFile)
  | SecondFailed (pf : profileFile) (e : error).

(** Errors of [loadProfileDefinitions], with what their text is made of. *)
Inductive loadError :=
  | LookupError (e : error)
  | AbsError (e : error)
  | OpenError (absConfig : string) (e : error)
  | ParseError (absConfig : string) (e : error)
  | MultipleDocuments (absConfig : string)
  | UnsupportedVersion (absConfig : string) (version : Z)
  | NoProfiles (absConfig : string).

Variable Abs : string → result string.
Variable readConfig : string → decodeResult.

Definition loadConfig (configPath : string) : loadError + profileDefinitions :=
  match Abs configPath with
  | Err e => inl (AbsError e)
  | Ok absConfig =>
      match readConfig absConfig with
      | OpenFailed e => inl (OpenError absConfig e)
      | DecodeFailed e => inl (ParseError absConfig e)
      | SecondDocument _ => inl (MultipleDocuments absConfig)
      | SecondFailed _ e => inl (ParseError absConfig e)
      | OneDocument pf =>
          if negb (pfVersion pf =? 1) then inl (UnsupportedVersion absConfig (pfVersion pf))
          else if bool_decide (size (pfProfiles pf) = 0%nat) then inl (NoProfiles absConfig)
          else inr (ProfileDefinitions absConfig (Dir absConfig) (pfProfiles pf) false)
      end
  end.

Definition implicitProfiles : gmap string rawProfile :=
  {[ "default" := RawProfile [] ["./..."] [] [] [] None None None ]}.

Definition loadProfileDefinitions (getwd : result string) (configPath : string)
    : option (loadError + profileDefinitions) :=
  if bool_decide (configPath = "") then
    match findProfileConfig getwd with
    | None => None
    | Some (Found path) => Some (loadConfig path)
    | Some (FindErr e) => Some (inl (LookupError e))
    | Some NotFound =>
        Some (match getwd with
              | Err e => inl (LookupError e)
              | Ok wd => inr (ProfileDefinitions "" wd implicitProfiles true)
              end)
    end
  else Some (loadConfig configPath).
End files.
End Profiles.

Arguments Found path.
Arguments NotFound.
Arguments FindErr e.

(** ** Lists without duplicates *)

(** What [appendUnique] keeps true of a list: distinct, non-empty strings. *)
Definition unique_names (l : list string) : Prop := NoDup l ∧ "" ∉ l.

Lemma appendUnique1_unique dst v : unique_names dst → unique_names (appendUnique1 dst v).
Proof.
  intros [Hn He]. unfold appendUnique1. do 2 case_bool_decide; simpl; try done.
  split; [apply NoDup_app; split_and!; [done| |apply NoDup_singleton]|]; set_solver.
Qed.

Lemma appendUnique_unique dst vs : unique_names dst → unique_names (appendUnique dst vs).
Proof.
  revert dst. induction vs as [|v vs IH]; intros dst H; simpl; [done|].
  by apply IH, appendUnique1_unique.
Qed.

Lemma elem_of_appendUnique dst vs x :
  x ∈ appendUnique dst vs ↔ x ∈ dst ∨ (x ∈ vs ∧ x ≠ "").
Proof.
  revert dst. induction vs as [|v vs IH]; intros dst; simpl.
  { set_solver. }
  rewrite IH. unfold appendUnique1. do 2 case_bool_decide; simpl; set_solver.
Qed.

(** The list grows at its end only. *)
Lemma appendUnique_prefix dst vs : dst `prefix_of` appendUnique dst vs.
Proof.
  revert dst. induction vs as [|v vs IH]; intros dst; simpl; [done|].
  etrans; [|apply IH]. unfold appendUnique1. destruct (_ && _); [by apply prefix_app_r|done].
Qed.

Lemma unique_names_nil : unique_names [].
Proof. split; [constructor|]. apply not_elem_of_nil. Qed.

#[global] Arguments appendUnique : simpl never.

Create HintDb profile.
#[export] Hint Resolve appendUnique_unique unique_names_nil : profile.

(** Well-formed resolved profiles. *)
Record profile_wf (p : runProfile) : Prop := {
  wf_Packages : unique_names (Packages p);
  wf_Exclude : unique_names (ExcludePackages p);
  wf_Tags : unique_names (Tags p);
  wf_TestFlags : unique_names (TestFlags p);
  wf_Timeout : 0 ≤ Timeout p
}.

Lemma profile_wf_zero : profile_wf zeroProfile.
Proof. constructor; simpl; auto with profile. done. Qed.

Lemma mergeRunProfile_wf dst src :
  profile_wf dst → profile_wf src → profile_wf (mergeRunProfile dst src).
Proof.
  intros [] []. unfold mergeRunProfile.
  destruct (shortSet src), (raceSet src), (_ =? _); constructor; simpl; auto with profile.
Qed.

Lemma mergeRawProfile_wf PD dst src p :
  profile_wf dst → mergeRawProfile PD dst src = inr p → profile_wf p.
Proof.
  intros []. unfold mergeRawProfile.
  destruct (rTimeout src) as [t|]; [destruct (PD t) as [d|]; [|done]|].
  - destruct (d <=? 0) eqn:Hd; [done|]. apply Z.leb_gt in Hd.
    destruct (rShort src), (rRace src); intros [= <-]; constructor; simpl; auto with profile; lia.
  - destruct (rShort src), (rRace src); intros [= <-]; constructor; simpl; auto with profile.
Qed.

Lemma Resolves_wf PD profiles name p : Resolves PD profiles name p → profile_wf p.
Proof.
  induction 1 as [cur raw out p _ _ IH Hm|out|inc incs out p out' _ IHp _ IH]
    using Resolves_mind with
    (P0 := λ incs out out' _, profile_wf out → profile_wf out'); [|done|].
  - eapply mergeRawProfile_wf; [|done]. apply IH, profile_wf_zero.
  - intros Hout. by apply IH, mergeRunProfile_wf.
Qed.

(** ** The nearest configuration *)

Lemma profileConfigName_normal : normal_elem profileConfigName.
Proof. by repeat split. Qed.

(** The candidate path in the directory made of the first [k] elements of [es]. *)
Definition candidate (es : list string) (k : nat) : string :=
  abs (take k es ++ [profileConfigName]).

Definition nearest_config (stat : string → statResult) (es : list string) (r : findResult)
    : Prop :=
  match r with
  | Found path => ∃ k, (k ≤ length es)%nat ∧ path = candidate es k ∧ stat path = StatOk ∧
      ∀ j, (k < j ≤ length es)%nat → stat (candidate es j) = StatNotExist
  | NotFound => ∀ j, (j ≤ length es)%nat → stat (candidate es j) = StatNotExist
  | FindErr e => ∃ k, (k ≤ length es)%nat ∧ stat (candidate es k) = StatErr e ∧
      ∀ j, (k < j ≤ length es)%nat → stat (candidate es j) = StatNotExist
  end.

Lemma findFrom_nearest stat es k :
  Forall normal_elem es → (k ≤ length es)%nat →
  (∀ j, (k < j ≤ length es)%nat → stat (candidate es j) = StatNotExist) →
  ∃ r, findFrom stat (S k) (abs (take k es)) = Some r ∧ nearest_config stat es r.
Proof.
  intros Hes. induction k as [|k IH]; intros Hk Hbelow.
  all: simpl findFrom; rewrite PathJoin_abs by
    (first [by apply Forall_take|apply profileConfigName_normal]).
  all: change (abs (take ?m es ++ [profileConfigName])) with (candidate es m).
  all: destruct (stat (candidate es _)) eqn:Hst;
    [by eexists; split; [done|]; eexists|
    |by eexists; split; [done|]; eexists].
  - eexists. split; [done|]. simpl. intros j Hj.
    destruct (decide (j = 0)%nat) as [->|]; [done|]. apply Hbelow. lia.
  - destruct (lookup_lt_is_Some_2 es k) as [e He]; [lia|].
    assert (Hn : normal_elem e) by (by eapply Forall_lookup_1).
    rewrite (take_S_r _ _ _ He), Dir_abs_snoc by (first [by apply Forall_take|done]).
    rewrite bool_decide_eq_false_2.
    + apply IH; [lia|]. intros j Hj.
      destruct (decide (j = S k)%nat) as [->|]; [done|]. apply Hbelow. lia.
    + intros Heq. apply abs_inj in Heq.
      * apply (f_equal length) in Heq. rewrite length_app in Heq. simpl in Heq. lia.
      * by apply Forall_take.
      * apply Forall_app. split; [by apply Forall_take|by constructor].
Qed.

(** ** Properties *)

(** C9: memoisation and cycle detection do not change what a profile means:
    [resolveProfile] returns a profile exactly when the include graph below the
    name is well-founded and every field is valid, and the profile returned is
    the in-order merge of its includes followed by its own fields. *)
Theorem resolveProfile_equiv PD profiles name p :
  (∃ st, resolveProfile PD profiles name = Some (VOk p st)) ↔ Resolves PD profiles name p.
Proof.
  pose proof (resolveProfile_post PD profiles name) as H.
  destruct (resolveProfile PD profiles name) as [[q st|e]|]; simpl in H; [| |done].
  - destruct H as (_ & _ & _ & Hq). split.
    + by intros (st' & [= -> _]).
    + intros Hp. exists st. by rewrite (Resolves_det _ _ _ _ Hp _ Hq).
  - destruct H as [Hno _]. split; [by intros (? & ?)|]. intros Hp. by apply Hno in Hp.
Qed.

(** the recursion over includes ends on every set of profiles, with at most
    one call more than there are profiles on the stack, and the cycle it reports
    is a chain of includes that starts and ends with the same profile. *)
Theorem resolveProfile_total PD profiles name :
  ∃ r, resolveProfile PD profiles name = Some r ∧
    match r with VErr (IncludeCycle c) => real_cycle profiles c | _ => True end.
Proof.
  pose proof (resolveProfile_post PD profiles name) as H.
  destruct (resolveProfile PD profiles name) as [[q st|e]|]; simpl in H; [by eexists| |done].
  eexists. split; [done|]. destruct e; auto. by apply H.
Qed.

(** a selected profile never has an empty package list, lists no package,
    tag or flag twice, has no negative timeout, and is rooted at the directory
    of its configuration file. *)
Theorem resolve_wf PD d name p :
  resolve PD d name = Some (inr p) →
  profile_wf p ∧ Packages p ≠ [] ∧ Root p = dRoot d.
Proof.
  unfold resolve. set (n := (if bool_decide _ then _ else _) : string).
  destruct (resolveProfile PD (dProfiles d) n) as [[q st|e]|] eqn:E; [|done..].
  assert (Hq : Resolves PD (dProfiles d) n q).
  { pose proof (resolveProfile_post PD (dProfiles d) n) as H. rewrite E in H. apply H. }
  apply Resolves_wf in Hq as []. simpl. case_bool_decide; intros [= <-]; simpl.
  - split_and!; [|done..]. constructor; simpl; try done.
    split; [apply NoDup_singleton|]. apply not_elem_of_cons. by split; [|apply not_elem_of_nil].
  - split_and!; [by constructor|done..].
Qed.

(** from an absolute working directory the search for [.gotst.yml] ends,
    visits the directory and each of its parents in turn, and stops at the first
    one where the file exists or cannot be examined. *)
Theorem findProfileConfig_nearest stat es :
  Forall normal_elem es →
  ∃ r, findProfileConfig stat (Ok (abs es)) = Some r ∧ nearest_config stat es r.
Proof.
  intros Hes. unfold findProfileConfig. rewrite elems_abs by done.
  pose proof (findFrom_nearest stat es (length es) Hes) as H. rewrite firstn_all in H.
  apply H; lia.
Qed.

(** A configuration with a diamond of includes. *)
Definition exampleProfiles : gmap string rawProfile := {[
  "all" := RawProfile [] ["./..."] [] [] [] (Some true) None None;
  "tagged" := RawProfile ["all"] [] [] ["integration"] [] None None None;
  "race" := RawProfile ["all"] [] [] [] [] None (Some true) None;
  "default" := RawProfile ["tagged"; "race"] [] ["./slow"] [] ["-v"] (Some false) None None ]}.

Definition exampleDefs : profileDefinitions :=
  ProfileDefinitions "/repo/.gotst.yml" "/repo" exampleProfiles false.

Definition examplePD (s : string) : option Duration :=
  if bool_decide (s = "30m") then Some (1800 * Second) else None.

Definition exampleResolved : runProfile :=
  RunProfile "default" "/repo" ["./..."] ["./slow"] ["integration"] ["-v"] false true 0 true true.

Lemma resolve_wf_witness :
  resolve examplePD exampleDefs "" = Some (inr exampleResolved) ∧
  (profile_wf exampleResolved ∧ Packages exampleResolved ≠ [] ∧
   Root exampleResolved = dRoot exampleDefs).
Proof.
  assert (H : resolve examplePD exampleDefs "" = Some (inr exampleResolved))
    by (vm_compute; reflexivity).
  split; [exact H|]. exact (resolve_wf examplePD exampleDefs "" exampleResolved H).
Defined.

Definition exampleStat (p : string) : statResult :=
  if bool_decide (p = "/repo/.gotst.yml") then StatOk else StatNotExist.

Lemma findProfileConfig_nearest_witness :
  Forall normal_elem ["repo"; "pkg"; "sub"] ∧
  (∃ r, findProfileConfig exampleStat (Ok (abs ["repo"; "pkg"; "sub"])) = Some r ∧
     nearest_config exampleStat ["repo"; "pkg"; "sub"] r).
Proof.
  assert (H : Forall normal_elem ["repo"; "pkg"; "sub"]) by (by repeat constructor).
  split; [exact H|]. exact (findProfileConfig_nearest exampleStat _ H).
Defined.

Example findProfileConfig_example :
  findProfileConfig exampleStat (Ok "/repo/pkg/sub") = Some (Found "/repo/.gotst.yml").
Proof. vm_compute. reflexivity. Qed.

Example resolveProfile_cycle_example :
  resolveProfile examplePD
    {[ "a" := RawProfile ["b"] [] [] [] [] None None None;
       "b" := RawProfile ["c"] [] [] [] [] None None None;
       "c" := RawProfile ["b"] [] [] [] [] None None None ]} "a" =
  Some (VErr (IncludeCycle ["b"; "c"; "b"])).
Proof. vm_compute. reflexivity. Qed.
