(* ===== verification/Utf8.v ===== *)
(** * Runes of a Go string (package unicode/utf8)

    [chunks s] is the sequence of steps of [for i, r := range s]: each rune with
    the bytes it was decoded from.  A byte that starts no valid encoding is a
    step of one byte with the rune [RuneError]. *)

From Stdlib Require Import Ascii.
From S2P Require Import Prelude GoStrings.

Definition byteZ (a : ascii) : Z := Z.of_N (N_of_ascii a).
Definition ofByteZ (z : Z) : ascii := ascii_of_N (Z.to_N z).

Lemma byteZ_ofByteZ z : 0 ≤ z < 256 → byteZ (ofByteZ z) = z.
Proof. intros Hz. unfold byteZ, ofByteZ. rewrite N_ascii_embedding by lia. lia. Qed.

Lemma byteZ_range a : 0 ≤ byteZ a < 256.
Proof. unfold byteZ. pose proof (N_ascii_bounded a). lia. Qed.

Lemma ofByteZ_byteZ a : ofByteZ (byteZ a) = a.
Proof. unfold byteZ, ofByteZ. rewrite N2Z.id. apply ascii_N_embedding. Qed.

Definition RuneError : Z := 0xFFFD.

Definition isCont (b : Z) : bool := (0x80 <=? b) && (b <=? 0xBF).

(** The bounds on the second byte after each first byte of a longer encoding. *)
Definition second_ok (b0 b1 : Z) : bool :=
  if b0 =? 0xE0 then (0xA0 <=? b1) && (b1 <=? 0xBF)
  else if b0 =? 0xED then (0x80 <=? b1) && (b1 <=? 0x9F)
  else if b0 =? 0xF0 then (0x90 <=? b1) && (b1 <=? 0xBF)
  else if b0 =? 0xF4 then (0x80 <=? b1) && (b1 <=? 0x8F)
  else isCont b1.

(** The length of the encoding a first byte announces; 0 for none. *)
Definition enc_len (b0 : Z) : nat :=
  if b0 <? 0x80 then 1
  else if (0xC2 <=? b0) && (b0 <=? 0xDF) then 2
  else if (0xE0 <=? b0) && (b0 <=? 0xEF) then 3
  else if (0xF0 <=? b0) && (b0 <=? 0xF4) then 4
  else 0.

Fixpoint chunks (s : string) : list (Z * string) :=
  match s with
  | EmptyString => []
  | String a0 s1 =>
      let b0 := byteZ a0 in
      match enc_len b0 with
      | 1%nat => (b0, String a0 "") :: chunks s1
      | 2%nat =>
          match s1 with
          | String a1 s2 =>
              if second_ok b0 (byteZ a1) then
                (Z.lor (Z.shiftl (Z.land b0 0x1F) 6) (Z.land (byteZ a1) 0x3F),
                 String a0 (String a1 "")) :: chunks s2
              else (RuneError, String a0 "") :: chunks s1
          | EmptyString => (RuneError, String a0 "") :: chunks s1
          end
      | 3%nat =>
          match s1 with
          | String a1 (String a2 s3) =>
              if second_ok b0 (byteZ a1) && isCont (byteZ a2) then
                (Z.lor (Z.shiftl (Z.land b0 0x0F) 12)
                   (Z.lor (Z.shiftl (Z.land (byteZ a1) 0x3F) 6) (Z.land (byteZ a2) 0x3F)),
                 String a0 (String a1 (String a2 ""))) :: chunks s3
              else (RuneError, String a0 "") :: chunks s1
          | _ => (RuneError, String a0 "") :: chunks s1
          end
      | 4%nat =>
          match s1 with
          | String a1 (String a2 (String a3 s4)) =>
              if second_ok b0 (byteZ a1) && isCont (byteZ a2) && isCont (byteZ a3) then
                (Z.lor (Z.shiftl (Z.land b0 0x07) 18)
                   (Z.lor (Z.shiftl (Z.land (byteZ a1) 0x3F) 12)
                      (Z.lor (Z.shiftl (Z.land (byteZ a2) 0x3F) 6) (Z.land (byteZ a3) 0x3F))),
                 String a0 (String a1 (String a2 (String a3 "")))) :: chunks s4
              else (RuneError, String a0 "") :: chunks s1
          | _ => (RuneError, String a0 "") :: chunks s1
          end
      | _ => (RuneError, String a0 "") :: chunks s1
      end
  end.

(** [[]rune(s)] *)
Definition runes (s : string) : list Z := (chunks s).*1.

(** A chunk that is not a valid encoding: one byte decoded to [RuneError]. *)
Definition invalid_chunk (c : Z * string) : bool :=
  (c.1 =? RuneError) && (String.length c.2 =? 1)%nat.

(** [utf8.ValidString] *)
Definition ValidString (s : string) : bool := forallb (λ c, negb (invalid_chunk c)) (chunks s).

(** [utf8.AppendRune]: surrogates and values out of range are encoded as
    [RuneError]. *)
Definition validRune (r : Z) : bool :=
  ((0 <=? r) && (r <? 0xD800)) || ((0xDFFF <? r) && (r <=? 0x10FFFF)).

Definition bytes (l : list Z) : string := foldr (λ b s, String (ofByteZ b) s) "" l.

Definition encodeValid (r : Z) : string :=
  if r <? 0x80 then bytes [r]
  else if r <? 0x800 then
    bytes [Z.lor 0xC0 (Z.shiftr r 6); Z.lor 0x80 (Z.land r 0x3F)]
  else if r <? 0x10000 then
    bytes [Z.lor 0xE0 (Z.shiftr r 12); Z.lor 0x80 (Z.land (Z.shiftr r 6) 0x3F);
           Z.lor 0x80 (Z.land r 0x3F)]
  else
    bytes [Z.lor 0xF0 (Z.shiftr r 18); Z.lor 0x80 (Z.land (Z.shiftr r 12) 0x3F);
           Z.lor 0x80 (Z.land (Z.shiftr r 6) 0x3F); Z.lor 0x80 (Z.land r 0x3F)].

Definition encodeRune (r : Z) : string := encodeValid (if validRune r then r else RuneError).

Fixpoint concatS (l : list string) : string :=
  match l with [] => "" | w :: l => w +:+ concatS l end.

(** [string(runes)] *)
Definition ofRunes (rs : list Z) : string := concatS (encodeRune <$> rs).

(** ** Lemmas *)

Lemma string_length_ind (P : string → Prop) :
  (∀ s, (∀ s', (String.length s' < String.length s)%nat → P s') → P s) → ∀ s, P s.
Proof.
  intros H s. enough (∀ n s, (String.length s < n)%nat → P s) by eauto with lia.
  intros n. induction n as [|n IH]; intros s' Hs; [lia|]. apply H. intros. apply IH. lia.
Qed.

Lemma chunks_step a s :
  ∃ r w rest, chunks (String a s) = (r, w) :: chunks rest ∧ String a s = w +:+ rest ∧
    (0 < String.length w)%nat.
Proof.
  cbn [chunks]. repeat case_match; eexists _, _, _; (split; [reflexivity|]); by split; [|simpl; lia].
Qed.

(** The steps of the range loop cover the string, byte for byte. *)
Lemma chunks_concat s : concatS (chunks s).*2 = s.
Proof.
  induction s as [s IH] using string_length_ind. destruct s as [|a s]; [done|].
  destruct (chunks_step a s) as (r & w & rest & -> & Hs & Hw).
  rewrite fmap_cons. simpl concatS. rewrite IH; [done|].
  rewrite Hs, length_append. lia.
Qed.

(** An ASCII string is its own sequence of runes. *)
Definition is_ascii (s : string) : bool := forallb (λ c, byteZ c <? 0x80) (String.list_ascii_of_string s).

Lemma chunks_ascii_cons a s : byteZ a < 0x80 → chunks (String a s) = (byteZ a, String a "") :: chunks s.
Proof.
  intros H. simpl. unfold enc_len. rewrite (proj2 (Z.ltb_lt _ _)) by done. done.
Qed.

Lemma enc_len_1 b : enc_len b = 1%nat ↔ b < 0x80.
Proof.
  unfold enc_len. destruct (b <? 0x80) eqn:E; [by apply Z.ltb_lt in E|].
  apply Z.ltb_ge in E. repeat case_match; split; intros; lia.
Qed.

Lemma second_ok_high b0 b1 : second_ok b0 b1 = true → 0x80 ≤ b1.
Proof. unfold second_ok, isCont. repeat case_match; intros [? ?]%andb_prop; lia. Qed.

Lemma isCont_high b : isCont b = true → 0x80 ≤ b.
Proof. unfold isCont. intros [? ?]%andb_prop. lia. Qed.

(** An ASCII byte is a step of its own: the bytes of longer encodings are all
    0x80 or above. *)
Lemma chunks_step_ascii a s :
  ∃ r w rest, chunks (String a s) = (r, w) :: chunks rest ∧ String a s = w +:+ rest ∧
    ((w = String a "" ∧ (byteZ a < 0x80 → r = byteZ a)) ∨
     (∀ c, ContainsByte w c = true → 0x80 ≤ byteZ c)).
Proof.
  cbn [chunks]. destruct (enc_len (byteZ a)) as [|[|n]] eqn:E.
  - eexists _, _, _. split; [reflexivity|]. split; [done|]. left. split; [done|].
    intros H. apply enc_len_1 in H. congruence.
  - eexists _, _, _. split; [reflexivity|]. split; [done|]. by left.
  - assert (Ha : 0x80 ≤ byteZ a).
    { destruct (decide (byteZ a < 0x80)) as [H|]; [|lia]. apply enc_len_1 in H. congruence. }
    repeat case_match; eexists _, _, _; (split; [reflexivity|]; split; [done|]);
      try (left; split; [done|]; intros; lia).
    all: right; intros c Hc; simpl in Hc.
    all: repeat match goal with
      | H : _ && _ = true |- _ => apply andb_prop in H as [? ?]
      | H : second_ok _ _ = true |- _ => apply second_ok_high in H
      | H : isCont _ = true |- _ => apply isCont_high in H
      end.
    all: repeat match goal with
      | H : (_ || _) = true |- _ => apply orb_prop in H as [?|?]
      | H : Ascii.eqb _ _ = true |- _ => apply Ascii.eqb_eq in H as ->
      end; try done.
Qed.

Lemma chunks_ascii_byte s c :
  ContainsByte s c = true → byteZ c < 0x80 → byteZ c ∈ runes s.
Proof.
  intros Hc Hlt. unfold runes. revert Hc.
  induction s as [s IH] using string_length_ind. destruct s as [|a s]; [done|].
  destruct (chunks_step a s) as (r & w & rest & E & Hs & Hw).
  destruct (chunks_step_ascii a s) as (r' & w' & rest' & E' & Hs' & Hcase).
  rewrite E in E'. injection E' as <- <- Hrest.
  assert (rest' = rest) as ->.
  { rewrite Hs in Hs'. by apply (inj (String.append w)) in Hs'. }
  intros Hc. rewrite E, fmap_cons. rewrite Hs, ContainsByte_append in Hc.
  apply orb_prop in Hc as [Hc|Hc].
  - destruct Hcase as [[-> Hr]|Hhigh]; [|by apply Hhigh in Hc; lia].
    simpl in Hc. rewrite orb_false_r in Hc. apply Ascii.eqb_eq in Hc as ->.
    rewrite Hr by done. left.
  - right. apply IH; [|done]. rewrite Hs, length_append. lia.
Qed.
