(* ===== verification/Invocation.v ===== *)
(** * The command line's packages and tests (invocation.go)

    The positional arguments select a profile, package patterns and tests.  A
    test is named alone ([TestFoo]) or after its package ([./pkg.TestFoo]). *)

From Stdlib Require Import Ascii.
From S2P Require Import Prelude GoStrings Utf8 Profile.

Record qualifiedTest := QualifiedTest {
  packageSpec : string;
  packagePath : string; (** filled in after resolving [packageSpec] with go list *)
  qName : string
}.

#[export] Instance qualifiedTest_eq_dec : EqDecision qualifiedTest.
Proof. solve_decision. Defined.

Record testSelection := TestSelection {
  unqualified : list string;
  qualified : list qualifiedTest
}.

#[export] Instance eta_testSelection : Eta testSelection := λ s,
  TestSelection (unqualified s) (qualified s).

Record invocation := Invocation {
  iProfile : runProfile;
  iTests : testSelection
}.

(** ** Go identifiers *)

Definition inRange (lo hi r : Z) : bool := (lo <=? r) && (r <=? hi).

Definition goKeywords : list string :=
  ["break"; "case"; "chan"; "const"; "continue"; "default"; "defer"; "else"; "fallthrough";
   "for"; "func"; "go"; "goto"; "if"; "import"; "interface"; "map"; "package"; "range";
   "return"; "select"; "struct"; "switch"; "type"; "var"].

Section Invocations.
(** The letters and digits of Unicode beyond ASCII (the tables of package unicode). *)
Variables unicodeLetter unicodeDigit : Z → bool.

Definition IsLetter (r : Z) : bool :=
  if r <? 0x80 then inRange 65 90 r || inRange 97 122 r else unicodeLetter r.

Definition IsDigit (r : Z) : bool :=
  if r <? 0x80 then inRange 48 57 r else unicodeDigit r.

Definition identRune (first : bool) (r : Z) : bool :=
  IsLetter r || (r =? 95) || (negb first && IsDigit r).

(** [token.IsIdentifier] *)
Definition IsIdentifier (s : string) : bool :=
  match runes s with
  | [] => false
  | r :: rs => negb (bool_decide (s ∈ goKeywords)) && identRune true r && forallb (identRune false) rs
  end.

Definition isTestName (s : string) : bool :=
  if negb (IsIdentifier s) then false
  else HasPrefix s "Test" || HasPrefix s "Fuzz" || HasPrefix s "Example".

Definition dot : ascii := "."%char.

Definition splitQualifiedTest (arg : string) : option (string * string) :=
  match CutLast arg dot with
  | None => None
  | Some (pkg, test) =>
      if bool_decide (pkg = "") || bool_decide (test = "") || negb (isTestName test) then None
      else Some (pkg, test)
  end.

(** One positional argument after the profile name. *)
Definition parseArg (acc : list string * testSelection) (arg : string)
    : list string * testSelection :=
  let '(packages, tests) := acc in
  if isTestName arg then (packages, tests <| unqualified ::= λ l, appendUnique l [arg] |>)
  else match splitQualifiedTest arg with
       | Some (pkg, name) =>
           let q := QualifiedTest pkg "" name in
           (packages,
            if bool_decide (q ∈ qualified tests) then tests
            else tests <| qualified ::= λ l, l ++ [q] |>)
       | None => (appendUnique packages [arg], tests)
       end.

Definition parseArgs (args : list string) : list string * testSelection :=
  foldl parseArg ([], TestSelection [] []) args.

Section parse.
Variable ParseDuration : string → option Duration.

(** [parseInvocation]; a failure is an error of resolving the profile. *)
Definition parseInvocation (defs : profileDefinitions) (args : list string)
    : option (visitError + invocation) :=
  let '(profileName, args) :=
    match args with
    | arg :: rest =>
        if bool_decide (is_Some (dProfiles defs !! arg)) then (arg, rest) else ("default", args)
    | [] => ("default", [])
    end in
  match resolve ParseDuration defs profileName with
  | None => None
  | Some (inl e) => Some (inl e)
  | Some (inr profile) =>
      let '(packages, tests) := parseArgs args in
      let profile :=
        if bool_decide (packages = []) then profile else profile <| Packages := packages |> in
      Some (inr (Invocation profile tests))
  end.
End parse.
End Invocations.

(** ** The selection *)

Definition active (s : testSelection) : bool :=
  negb (bool_decide (unqualified s = [])) || negb (bool_decide (qualified s = [])).

Definition requestedNames (s : testSelection) : list string :=
  unqualified s ++ ((λ q, packageSpec q +:+ "." +:+ qName q) <$> qualified s).

Definition wants (s : testSelection) (pkg test : string) : bool :=
  if negb (active s) then true
  else if bool_decide (test ∈ unqualified s) then true
  else existsb (λ q, bool_decide (packagePath q = pkg) && bool_decide (qName q = test)) (qualified s).

Definition packageTests (s : testSelection) (pkg : string) : list string :=
  foldl (λ ret q, if bool_decide (packagePath q = pkg) then appendUnique ret [qName q] else ret)
    [] (qualified s).

(** [describeMissing]: the requested names not in [found]; an empty list is no error. *)
Definition describeMissing (s : testSelection) (found : gset string) : list string :=
  filter (λ name, name ∉ found) (requestedNames s).

(** ** Lemmas *)

Section facts.
Variables unicodeLetter unicodeDigit : Z → bool.
Abbreviation isTestName := (isTestName unicodeLetter unicodeDigit).
Abbreviation splitQualifiedTest := (splitQualifiedTest unicodeLetter unicodeDigit).

Lemma identRune_no_dot first : identRune unicodeLetter unicodeDigit first (byteZ dot) = false.
Proof. by destruct first. Qed.

Lemma IsIdentifier_no_dot s :
  IsIdentifier unicodeLetter unicodeDigit s = true → ContainsByte s dot = false.
Proof.
  intros H. destruct (ContainsByte s dot) eqn:E; [|done]. exfalso.
  apply chunks_ascii_byte in E; [|done]. unfold IsIdentifier in H.
  destruct (runes s) as [|r rs]; [done|].
  apply andb_prop in H as [[_ Hr]%andb_prop Hrs].
  apply elem_of_cons in E as [<-|E].
  - by rewrite identRune_no_dot in Hr.
  - rewrite forallb_forall in Hrs. apply list_elem_of_In, Hrs in E.
    by rewrite identRune_no_dot in E.
Qed.

Lemma isTestName_no_dot s : isTestName s = true → ContainsByte s dot = false.
Proof.
  unfold Invocation.isTestName. destruct (IsIdentifier _ _ s) eqn:E; [|done].
  intros _. by apply IsIdentifier_no_dot in E.
Qed.

Lemma isTestName_nonempty s : isTestName s = true → s ≠ "".
Proof. by intros H ->. Qed.

(** What [parseArgs] has collected from the arguments [args]. *)
Record parsed (args packages : list string) (tests : testSelection) : Prop := {
  parsed_unqualified : ∀ t, t ∈ unqualified tests ↔ t ∈ args ∧ isTestName t = true;
  parsed_qualified : ∀ q, q ∈ qualified tests ↔
    ∃ arg, arg ∈ args ∧ isTestName arg = false ∧
      splitQualifiedTest arg = Some (packageSpec q, qName q) ∧ packagePath q = "";
  parsed_packages : ∀ p, p ∈ packages ↔
    p ∈ args ∧ p ≠ "" ∧ isTestName p = false ∧ splitQualifiedTest p = None;
  parsed_unique : NoDup (unqualified tests) ∧ NoDup (qualified tests) ∧ NoDup packages
}.

Lemma parsed_nil : parsed [] [] (TestSelection [] []).
Proof.
  constructor; simpl; [..|by split_and!; apply NoDup_nil_2]; intros; rewrite !elem_of_nil.
  - naive_solver.
  - setoid_rewrite elem_of_nil. naive_solver.
  - naive_solver.
Qed.

Lemma appendUnique_single_NoDup l v : NoDup l → NoDup (appendUnique l [v]).
Proof.
  intros H. unfold appendUnique. simpl. unfold appendUnique1. do 2 case_bool_decide; simpl; try done.
  by apply NoDup_snoc.
Qed.

Lemma parsed_snoc args packages tests arg :
  parsed args packages tests →
  let '(packages', tests') := parseArg unicodeLetter unicodeDigit (packages, tests) arg in
  parsed (args ++ [arg]) packages' tests'.
Proof.
  intros [Hu Hq Hp (Nu & Nq & Np)]. unfold parseArg.
  destruct (isTestName arg) eqn:Et; simpl.
  { constructor; simpl; [..|split_and!; [by apply appendUnique_single_NoDup|done..]].
    - intros t. rewrite elem_of_appendUnique, Hu, list_elem_of_singleton, elem_of_snoc.
      pose proof (isTestName_nonempty arg Et). clear -Et H; naive_solver.
    - intros q. rewrite Hq. apply exists_snoc_skip. intros [? _]. congruence.
    - intros p. rewrite Hp. apply (elem_of_snoc_skip _ _ (λ p, p ≠ "" ∧ isTestName p = false ∧ splitQualifiedTest p = None)).
      intros (_ & ? & _). congruence. }
  assert (Hu' : ∀ t, t ∈ unqualified tests ↔ t ∈ args ++ [arg] ∧ isTestName t = true).
  { intros t. rewrite Hu. apply (elem_of_snoc_skip _ _ (λ t, isTestName t = true)). congruence. }
  destruct (splitQualifiedTest arg) as [[pkg name]|] eqn:Es.
  2: { constructor; simpl; [done|..|split_and!; [done..|by apply appendUnique_single_NoDup]].
    - intros q. rewrite Hq. apply exists_snoc_skip. intros (_ & ? & _). congruence.
    - intros p. rewrite elem_of_appendUnique, Hp, list_elem_of_singleton.
      rewrite elem_of_snoc. clear -Et Es; naive_solver. }
  assert (Hp' : ∀ p, p ∈ packages ↔
    p ∈ args ++ [arg] ∧ p ≠ "" ∧ isTestName p = false ∧ splitQualifiedTest p = None).
  { intros p. rewrite Hp. apply (elem_of_snoc_skip _ _ (λ p, p ≠ "" ∧ isTestName p = false ∧ splitQualifiedTest p = None)).
    intros (_ & _ & ?). congruence. }
  assert (Hq' : ∀ q, (∃ a, a ∈ args ++ [arg] ∧ isTestName a = false ∧
      splitQualifiedTest a = Some (packageSpec q, qName q) ∧ packagePath q = "") ↔
      q ∈ qualified tests ∨ q = QualifiedTest pkg "" name).
  { intros q. rewrite Hq. setoid_rewrite elem_of_snoc. split.
    - intros (a & [Ha| ->] & Ht & Hs & He); [left; eauto 10|].
      right. destruct q; simpl in *; congruence.
    - intros [(a & Ha & Hr)| ->]; [by eauto|]. exists arg. by eauto. }
  case_bool_decide as Hin; constructor; simpl; try done.
  - intros q. rewrite Hq'. split; [by left|]. by intros [?| ->].
  - intros q. by rewrite Hq', elem_of_snoc.
  - split_and!; [done|by apply NoDup_snoc|done].
Qed.
End facts.

(** ** Properties *)

(** an argument names a qualified test exactly when it is a non-empty package
    specification, a dot and a test name; the split is at the last dot, so it is
    unique. *)
Theorem splitQualifiedTest_spec UL UD arg pkg test :
  splitQualifiedTest UL UD arg = Some (pkg, test) ↔
    arg = pkg +:+ "." +:+ test ∧ pkg ≠ "" ∧ isTestName UL UD test = true.
Proof.
  unfold splitQualifiedTest. split.
  - destruct (CutLast arg dot) as [[b a]|] eqn:E; [|done].
    do 2 case_bool_decide; simpl; try done. destruct (isTestName UL UD a) eqn:Et; simpl; [|done].
    intros [= <- <-]. by apply CutLast_Some in E as [-> _].
  - intros (-> & Hp & Ht). pose proof (isTestName_no_dot _ _ _ Ht) as Hd.
    assert (CutLast (pkg +:+ "." +:+ test) dot = Some (pkg, test)) as ->
      by (by apply CutLast_Some).
    pose proof (isTestName_nonempty _ _ _ Ht).
    by rewrite !bool_decide_eq_false_2, Ht by done.
Qed.

(** every positional argument is classified exactly once, as a test name, as
    a qualified test or as a package pattern, and each class lists its members
    without repetition. *)
Theorem parseArgs_spec UL UD args :
  parsed UL UD args (parseArgs UL UD args).1 (parseArgs UL UD args).2.
Proof.
  unfold parseArgs. induction args as [|arg args IH] using rev_ind; [apply parsed_nil|].
  rewrite foldl_app. simpl.
  destruct (foldl (parseArg UL UD) _ args) as [packages tests]. simpl in IH.
  pose proof (parsed_snoc UL UD args packages tests arg IH) as H.
  by destruct (parseArg UL UD (packages, tests) arg).
Qed.

Example parseArgs_example :
  parseArgs (λ _, false) (λ _, false) ["TestFoo"; "./foo/bar.TestBaz"; "./foo/..."; "TestFoo"; "go.mod"] =
    (["./foo/..."; "go.mod"], TestSelection ["TestFoo"] [QualifiedTest "./foo/bar" "" "TestBaz"]).
Proof. vm_compute. reflexivity. Qed.
