(* ===== verification/GoFmt.v ===== *)
(** * Formatting: packages fmt, strconv and time *)

From Stdlib Require Import Ascii.
From S2P Require Import Prelude GoStrings.

(** [%d] and [strconv.Itoa] *)
Definition itoa (z : Z) : string := pretty z.

(** [%t] *)
Definition boolString (b : bool) : string := if b then "true" else "false".

Definition digitS (d : Z) : string := pretty d.

(** [fmtFrac] of package time: the fraction [v / 10^prec] without trailing zeros
    (nothing at all when it is zero), and the integer part. *)
Fixpoint fmtFrac (v : Z) (prec : nat) (print : bool) (acc : string) : string * Z :=
  match prec with
  | O => ((if print then "." +:+ acc else acc), v)
  | S prec =>
      let digit := v `mod` 10 in
      let print := print || negb (digit =? 0) in
      fmtFrac (v / 10) prec print (if print then digitS digit +:+ acc else acc)
  end.

(** The micro sign, U+00B5. *)
Definition microS : string := String "194"%char (String "181"%char "").

(** [Duration.String] *)
Definition DurationString (d : Duration) : string :=
  let u := Z.abs d in
  let body :=
    if u =? 0 then "0s"
    else if u <? Microsecond then itoa u +:+ "ns"
    else if u <? Millisecond then
      let '(f, v) := fmtFrac u 3 false "" in itoa v +:+ f +:+ microS +:+ "s"
    else if u <? Second then
      let '(f, v) := fmtFrac u 6 false "" in itoa v +:+ f +:+ "ms"
    else
      let '(f, v) := fmtFrac u 9 false "" in
      let secs := itoa (v `mod` 60) +:+ f +:+ "s" in
      let mins := v / 60 in
      if mins =? 0 then secs
      else
        let ms := itoa (mins `mod` 60) +:+ "m" +:+ secs in
        let hours := mins / 60 in
        if hours =? 0 then ms else itoa hours +:+ "h" +:+ ms in
  if d <? 0 then "-" +:+ body else body.

Example DurationString_1 : DurationString (1500 * Millisecond) = "1.5s".
Proof. reflexivity. Qed.

Example DurationString_2 : DurationString (3600 * Second + 60 * Second) = "1h1m0s".
Proof. reflexivity. Qed.

Example DurationString_3 : DurationString (-1234567) = "-1.234567ms".
Proof. reflexivity. Qed.

