(* ===== verification/Args.v ===== *)
(** * Argument lists

    The arguments of a test binary (gotst.go), of GOCACHEPROG commands and
    environments (cacheprog.go) and of compiler invocations (toolexec.go). *)

From Stdlib Require Import Ascii.
From S2P Require Import Prelude GoStrings Utf8 GoFmt Flags Path Profile.

(** ** Test tasks *)

Record capturedTestBinary := CapturedTestBinary {
  pkg : string;
  absBin : string;
  workDir : string;
  binArgs : list string
}.

Record testTask := TestTask {
  bin : capturedTestBinary;
  test : string
}.

#[export] Instance eta_capturedTestBinary : Eta capturedTestBinary := λ b,
  CapturedTestBinary (pkg b) (absBin b) (workDir b) (binArgs b).

#[export] Instance capturedTestBinary_eq_dec : EqDecision capturedTestBinary.
Proof. solve_decision. Defined.

#[export] Instance testTask_eq_dec : EqDecision testTask.
Proof. solve_decision. Defined.

Definition binHash (absBin : string) : string := Base absBin.

(** ** Test binary arguments *)

Definition directTestArgs (args : list string) : list string :=
  filter (λ arg, arg ≠ "-test.v=test2json") args.

Definition normalizeTestFlag (arg : string) : string :=
  if bool_decide (arg ∈ ["-short"; "-testing.short"; "-test.short"]) then "-test.short=true"
  else match CutPrefix arg "-testing." with
       | Some rest => "-test." +:+ rest
       | None => arg
       end.

(** Whether [arg] sets the flag [name], alone or with a value. *)
Definition setsFlag (name arg : string) : bool :=
  bool_decide (arg = name) || HasPrefix arg (name +:+ "=").

Definition setTestArg (args : list string) (name value : string) : list string :=
  filter (λ arg, setsFlag name arg = false) args ++ [name +:+ "=" +:+ value].

Definition profileTestArgs (args : list string) (profile : runProfile) : list string :=
  let ret := directTestArgs args in
  let ret := if shortSet profile
             then setTestArg ret "-test.short" (boolString (Short profile)) else ret in
  let ret := if negb (Timeout profile =? 0)
             then setTestArg ret "-test.timeout" (DurationString (Timeout profile)) else ret in
  ret ++ (normalizeTestFlag <$> TestFlags profile).

Definition effectiveTestArgs (f : flags) (task : testTask) (profile : runProfile) : list string :=
  let args := profileTestArgs (binArgs (bin task)) profile in
  let args := setTestArg args "-test.count" "1" in
  let args := if failFast f then setTestArg args "-test.failfast" "true" else args in
  if jsonSummary f then setTestArg args "-test.v" "true" else args.

Definition splitCommaList (v : string) : list string := FieldsByte v ","%char.

(** ** Environments and tool arguments *)

Definition envWithout (env names : list string) : list string :=
  filter (λ kv, CutBefore kv "="%char ∉ names) env.

(** [flagValue]: the value of a flag, as the next argument or after [=]. *)
Fixpoint flagValue (args : list string) (name : string) : string :=
  match args with
  | [] => ""
  | arg :: rest =>
      match rest with
      | next :: _ =>
          if bool_decide (arg = name) then next
          else match CutPrefix arg (name +:+ "=") with
               | Some value => value
               | None => flagValue rest name
               end
      | [] => match CutPrefix arg (name +:+ "=") with Some value => value | None => "" end
      end
  end.

Definition slicesContains (args : list string) (value : string) : bool :=
  existsb (λ arg, bool_decide (arg = value)) args.

(** ** The quoting language of GOCACHEPROG *)

Definition spaceChars : string :=
  String " "%char (String "009"%char (String "013"%char (String "010"%char ""))).

(** [s[:i]] and [s[i:]] for [i = strings.IndexAny(s, chars)]. *)
Fixpoint CutAny (s chars : string) : option (string * string) :=
  match s with
  | EmptyString => None
  | String c s' =>
      if ContainsByte chars c then Some ("", s)
      else match CutAny s' chars with
           | Some (b, a) => Some (String c b, a)
           | None => None
           end
  end.

(** The loop of [splitQuoted].  [None] is fuel exhausted, [Some None] the
    unterminated-string error. *)
Fixpoint splitQuotedLoop (fuel : nat) (s : string) (ret : list string)
    : option (option (list string)) :=
  match fuel with
  | O => None
  | S fuel =>
      match TrimLeft s spaceChars with
      | EmptyString => Some (Some ret)
      | String c rest =>
          if Ascii.eqb c squote || Ascii.eqb c dquote then
            match Cut rest c with
            | None => Some None
            | Some (word, rest) => splitQuotedLoop fuel rest (ret ++ [word])
            end
          else
            match CutAny (String c rest) spaceChars with
            | None => Some (Some (ret ++ [String c rest]))
            | Some (word, rest) => splitQuotedLoop fuel rest (ret ++ [word])
            end
      end
  end.

(** Every iteration consumes at least one byte. *)
Definition splitQuoted (s : string) : option (option (list string)) :=
  splitQuotedLoop (S (String.length s)) s [].

Definition quoteChars : string := spaceChars +:+ String squote (String dquote "").

Definition quoteCacheProgArg (s : string) : string :=
  if negb (ContainsAny s quoteChars) then s
  else if negb (ContainsByte s squote) then String squote (s +:+ String squote "")
  else if negb (ContainsByte s dquote) then String dquote (s +:+ String dquote "")
  else s.

(** ** Lemmas on argument lists *)

Lemma setsFlag_own name value : setsFlag name (name +:+ "=" +:+ value) = true.
Proof.
  unfold setsFlag. rewrite <- append_assoc, HasPrefix_append. apply orb_true_r.
Qed.

(** After [setTestArg] the flag is set exactly once, by the last argument. *)
Lemma setTestArg_own args name value :
  filter (λ arg, setsFlag name arg = true) (setTestArg args name value) = [name +:+ "=" +:+ value].
Proof.
  unfold setTestArg. rewrite filter_app, list_filter_filter.
  rewrite filter_none by (intros x _ [? ?]; congruence).
  by rewrite filter_cons_True, filter_nil by apply setsFlag_own.
Qed.

(** Arguments that set another flag are kept, in order. *)
Lemma setTestArg_other args name value other :
  setsFlag other (name +:+ "=" +:+ value) = false →
  (∀ arg, setsFlag other arg = true → setsFlag name arg = false) →
  filter (λ arg, setsFlag other arg = true) (setTestArg args name value) =
  filter (λ arg, setsFlag other arg = true) args.
Proof.
  intros Hv Hd. unfold setTestArg.
  rewrite filter_app, list_filter_filter_l by done.
  rewrite (filter_none _ [_]); [by rewrite app_nil_r|].
  intros x ->%list_elem_of_singleton. congruence.
Qed.

(** Two flag names of which neither is the other followed by [=]. *)
Lemma setsFlag_disjoint a b c arg :
  a = "-test." +:+ b → setsFlag a arg = true →
  (∀ rest, HasPrefix (b +:+ rest) (c +:+ "=") = false ∧ b +:+ rest ≠ c) →
  setsFlag ("-test." +:+ c) arg = false.
Proof.
  intros -> Ha Hc.
  assert (∃ rest, arg = ("-test." +:+ b) +:+ rest) as [rest ->].
  { unfold setsFlag in Ha. apply orb_prop in Ha as [Ha|Ha].
    - apply bool_decide_eq_true_1 in Ha as ->. exists "". by rewrite append_empty_r.
    - apply HasPrefix_true in Ha as [r ->]. exists ("=" +:+ r). by rewrite append_assoc. }
  rewrite append_assoc. destruct (Hc rest) as [H1 H2]. unfold setsFlag.
  rewrite bool_decide_eq_false_2 by (intros Heq; by apply (inj (String.append "-test.")) in Heq).
  rewrite append_assoc. cbn. apply H1.
Qed.

Lemma TrimLeft_nonspace c s chars :
  ContainsByte chars c = false → TrimLeft (String c s) chars = String c s.
Proof. simpl. by intros ->. Qed.

Lemma TrimLeft_length s chars : (String.length (TrimLeft s chars) ≤ String.length s)%nat.
Proof. induction s as [|c s IH]; simpl; [done|]. destruct (ContainsByte chars c); simpl; lia. Qed.

Lemma TrimLeft_head s chars c r : TrimLeft s chars = String c r → ContainsByte chars c = false.
Proof.
  induction s as [|d s IH]; simpl; [done|].
  destruct (ContainsByte chars d) eqn:E; [done|]. by intros [= -> ->].
Qed.

Lemma CutAny_Some s chars b a :
  CutAny s chars = Some (b, a) →
  s = b +:+ a ∧ ContainsAny b chars = false ∧ ∃ c a', a = String c a' ∧ ContainsByte chars c = true.
Proof.
  revert b. induction s as [|c s IH]; intros b; simpl; [done|].
  destruct (ContainsByte chars c) eqn:Ec; [intros [= <- <-]; split_and!; [done..|by exists c, s]|].
  destruct (CutAny s chars) as [[b' a']|]; [|done]. intros [= <- <-].
  destruct (IH b') as (-> & Hb & Hex); [done|]. simpl. by rewrite Ec.
Qed.

Lemma CutAny_word w c rest chars :
  ContainsAny w chars = false → ContainsByte chars c = true →
  CutAny (w +:+ String c rest) chars = Some (w, String c rest).
Proof.
  induction w as [|d w IH]; intros Hw Hc.
  { simpl. by rewrite Hc. }
  simpl in Hw. apply orb_false_elim in Hw as [Hd Hw].
  rewrite append_cons. simpl. by rewrite Hd, IH.
Qed.

Lemma CutAny_None w chars : ContainsAny w chars = false → CutAny w chars = None.
Proof.
  induction w as [|d w IH]; intros Hw; [done|].
  simpl in *. apply orb_false_elim in Hw as [-> Hw]. by rewrite IH.
Qed.

Lemma splitQuotedLoop_S n s ret :
  splitQuotedLoop (S n) s ret =
    match TrimLeft s spaceChars with
    | EmptyString => Some (Some ret)
    | String c rest =>
        if Ascii.eqb c squote || Ascii.eqb c dquote then
          match Cut rest c with
          | None => Some None
          | Some (word, rest) => splitQuotedLoop n rest (ret ++ [word])
          end
        else
          match CutAny (String c rest) spaceChars with
          | None => Some (Some (ret ++ [String c rest]))
          | Some (word, rest) => splitQuotedLoop n rest (ret ++ [word])
          end
    end.
Proof. done. Qed.

(** The loop ends: each iteration takes at least one byte off the string. *)
Lemma splitQuotedLoop_total n : ∀ s ret,
  (String.length s < n)%nat → splitQuotedLoop n s ret ≠ None.
Proof.
  induction n as [|n IH]; intros s ret Hn; [lia|]. rewrite splitQuotedLoop_S.
  pose proof (TrimLeft_length s spaceChars) as Hl.
  destruct (TrimLeft s spaceChars) as [|c rest] eqn:Et; [done|]. simpl in Hl.
  destruct (_ || _) eqn:Eq.
  - destruct (Cut rest c) as [[word rest']|] eqn:Ec; [|done].
    apply Cut_Some in Ec as [-> _]. apply IH.
    rewrite length_append in Hl. simpl in Hl. lia.
  - destruct (CutAny (String c rest) spaceChars) as [[word rest']|] eqn:Ec; [|done].
    apply CutAny_Some in Ec as (Hw & _ & c' & a' & -> & Hc').
    apply IH. destruct word as [|d word].
    + exfalso. injection Hw as -> ->. by rewrite (TrimLeft_head _ _ _ _ Et) in Hc'.
    + rewrite append_cons in Hw. injection Hw as _ ->.
      rewrite length_append in Hl. simpl in *. lia.
Qed.

(** ** Quoted words *)

(** What the quoting language can express: a non-empty word without both quotes. *)
Definition quotable (w : string) : Prop :=
  w ≠ "" ∧ (ContainsByte w squote = false ∨ ContainsByte w dquote = false).

(** What may follow a word: nothing, or a space. *)
Definition word_end (rest : string) : Prop :=
  rest = "" ∨ ∃ rest', rest = " " +:+ rest'.

Lemma ContainsAny_append a b chars :
  ContainsAny (a +:+ b) chars = ContainsAny a chars || ContainsAny b chars.
Proof.
  induction a as [|x a IH]; [done|]. rewrite append_cons. simpl. by rewrite IH, orb_assoc.
Qed.

Lemma ContainsAny_weaken s a b :
  (∀ c, ContainsByte a c = true → ContainsByte b c = true) →
  ContainsAny s b = false → ContainsAny s a = false.
Proof. rewrite !ContainsAny_false. eauto. Qed.

Lemma splitQuotedLoop_space n s ret :
  splitQuotedLoop (S n) (" " +:+ s) ret = splitQuotedLoop (S n) s ret.
Proof. done. Qed.

Lemma splitQuotedLoop_quoted n q w rest ret :
  q = squote ∨ q = dquote → ContainsByte w q = false →
  splitQuotedLoop (S n) (String q (w +:+ String q rest)) ret = splitQuotedLoop n rest (ret ++ [w]).
Proof.
  intros Hq Hw. rewrite splitQuotedLoop_S.
  assert (Hsp : ContainsByte spaceChars q = false) by (by destruct Hq as [-> | ->]).
  rewrite TrimLeft_nonspace by done.
  assert (Ascii.eqb q squote || Ascii.eqb q dquote = true) as -> by (by destruct Hq as [-> | ->]).
  by rewrite (proj2 (Cut_Some _ _ _ _) (conj eq_refl Hw)).
Qed.

Lemma splitQuotedLoop_plain n w rest ret :
  w ≠ "" → ContainsAny w quoteChars = false → word_end rest →
  splitQuotedLoop (S (S n)) (w +:+ rest) ret = splitQuotedLoop (S n) rest (ret ++ [w]).
Proof.
  intros Hne Hw Hrest. destruct w as [|c w]; [done|]. rewrite append_cons.
  assert (Hs : ContainsAny (String c w) spaceChars = false).
  { eapply ContainsAny_weaken; [|exact Hw]. intros d Hd. unfold quoteChars.
    by rewrite ContainsByte_append, Hd. }
  rewrite splitQuotedLoop_S, TrimLeft_nonspace.
  2: { simpl in Hs. by apply orb_false_elim in Hs as [? _]. }
  assert (Ascii.eqb c squote || Ascii.eqb c dquote = false) as ->.
  { rewrite ContainsAny_false in Hw. apply orb_false_intro.
    - specialize (Hw squote eq_refl). by apply orb_false_elim in Hw as [? _].
    - specialize (Hw dquote eq_refl). by apply orb_false_elim in Hw as [? _]. }
  rewrite <- append_cons. destruct Hrest as [-> | [rest' ->]].
  - by rewrite append_empty_r, CutAny_None.
  - change (" " +:+ rest') with (String " "%char rest'). by rewrite CutAny_word.
Qed.

Lemma splitQuotedLoop_word n w rest ret :
  quotable w → word_end rest →
  splitQuotedLoop (S (S n)) (quoteCacheProgArg w +:+ rest) ret =
  splitQuotedLoop (S n) rest (ret ++ [w]).
Proof.
  intros [Hne Hq] Hrest. unfold quoteCacheProgArg.
  destruct (ContainsAny w quoteChars) eqn:Ew; [|by apply splitQuotedLoop_plain].
  destruct (ContainsByte w squote) eqn:Es.
  - destruct Hq as [|Hd]; [done|]. rewrite Hd. cbn [negb].
    rewrite append_cons, append_assoc. apply splitQuotedLoop_quoted; auto.
  - cbn [negb]. rewrite append_cons, append_assoc. apply splitQuotedLoop_quoted; auto.
Qed.

Lemma quoteCacheProgArg_nonempty w : quotable w → (0 < String.length (quoteCacheProgArg w))%nat.
Proof.
  intros [Hne _]. unfold quoteCacheProgArg.
  destruct w; [done|]. repeat case_match; simpl; lia.
Qed.

Lemma splitQuotedLoop_words ws : ∀ n ret,
  Forall quotable ws →
  (String.length (Join (quoteCacheProgArg <$> ws) " ") < n)%nat →
  splitQuotedLoop n (Join (quoteCacheProgArg <$> ws) " ") ret = Some (Some (ret ++ ws)).
Proof.
  induction ws as [|w ws IH]; intros [|n] ret Hws Hn; try lia.
  { by rewrite app_nil_r. }
  apply Forall_cons in Hws as [Hw Hws].
  pose proof (quoteCacheProgArg_nonempty w Hw) as Hpos.
  destruct ws as [|w' ws].
  - simpl in Hn |- *. destruct n as [|n]; [lia|].
    pose proof (splitQuotedLoop_word n w "" ret Hw (or_introl eq_refl)) as H.
    by rewrite append_empty_r in H.
  - rewrite fmap_cons in Hn |- *. rewrite Join_cons in Hn |- * by done.
    rewrite !length_append in Hn. change (String.length " ") with 1%nat in Hn. destruct n as [|n]; [lia|].
    rewrite splitQuotedLoop_word by (done || (right; by eexists)).
    rewrite splitQuotedLoop_space, IH by (done || lia).
    by rewrite <- app_assoc.
Qed.

(** ** Properties *)

(** the words gotst quotes for GOCACHEPROG are split back into the same
    words: [splitQuoted] on the space-separated [quoteCacheProgArg]s of
    non-empty words, none with both kinds of quote, terminates without error
    and returns them in order. *)
Theorem splitQuoted_quote ws :
  Forall quotable ws →
  splitQuoted (Join (quoteCacheProgArg <$> ws) " ") = Some (Some ws).
Proof. intros Hws. unfold splitQuoted. rewrite splitQuotedLoop_words; auto with lia. Qed.

Lemma splitQuoted_quote_witness :
  splitQuoted (Join (quoteCacheProgArg <$> ["/bin/go tst"; "--cache-prog-shim"; "it's"]) " ")
    = Some (Some ["/bin/go tst"; "--cache-prog-shim"; "it's"]).
Proof.
  apply (splitQuoted_quote ["/bin/go tst"; "--cache-prog-shim"; "it's"]).
  repeat (apply List.Forall_cons; [split; [discriminate|vm_compute; auto]|]). apply List.Forall_nil.
Defined.

(** Arguments set by a later [setTestArg] leave the others' last word alone. *)
Lemma filter_setTestArg_count args name value :
  name ∈ ["-test.failfast"; "-test.v"] →
  filter (λ arg, setsFlag "-test.count" arg = true) (setTestArg args name value) =
  filter (λ arg, setsFlag "-test.count" arg = true) args.
Proof.
  intros Hn. apply setTestArg_other.
  - apply list_elem_of_In in Hn. simpl in Hn. by destruct Hn as [<-|[<-|[]]].
  - intros arg Ha. apply list_elem_of_In in Hn. simpl in Hn.
    destruct Hn as [<-|[<-|[]]].
    + apply (setsFlag_disjoint "-test.count" "count" "failfast"); done.
    + apply (setsFlag_disjoint "-test.count" "count" "v"); done.
Qed.

(** whatever the captured command line, the profile and the flags say,
    the arguments a test binary is started with set [-test.count] exactly once,
    to 1; with [--fail-fast] they set [-test.failfast] exactly once, to true. *)
Theorem effectiveTestArgs_count f task profile :
  filter (λ arg, setsFlag "-test.count" arg = true) (effectiveTestArgs f task profile)
    = ["-test.count=1"] ∧
  (failFast f = true →
   filter (λ arg, setsFlag "-test.failfast" arg = true) (effectiveTestArgs f task profile)
     = ["-test.failfast=true"]).
Proof.
  unfold effectiveTestArgs. split.
  - set (args := setTestArg _ "-test.count" "1").
    assert (Hargs : filter (λ arg, setsFlag "-test.count" arg = true) args = ["-test.count=1"])
      by apply (setTestArg_own _ "-test.count" "1").
    destruct (failFast f), (jsonSummary f); rewrite ?filter_setTestArg_count by set_solver; done.
  - intros ->. destruct (jsonSummary f).
    + rewrite setTestArg_other; [apply (setTestArg_own _ "-test.failfast" "true")|done|].
      intros arg Ha. by apply (setsFlag_disjoint "-test.failfast" "failfast" "v").
    + apply (setTestArg_own _ "-test.failfast" "true").
Qed.

Lemma effectiveTestArgs_count_witness :
  filter (λ arg, setsFlag "-test.failfast" arg = true)
    (effectiveTestArgs ((defaultFlags 4) <| failFast := true |>)
       (TestTask (CapturedTestBinary "p" "/b" "/w" ["-test.failfast=false"; "-test.count=3"]) "TestA")
       zeroProfile) = ["-test.failfast=true"].
Proof.
  apply (effectiveTestArgs_count ((defaultFlags 4) <| failFast := true |>)
    (TestTask (CapturedTestBinary "p" "/b" "/w" ["-test.failfast=false"; "-test.count=3"]) "TestA")
    zeroProfile).
  reflexivity.
Defined.

(** A path with both kinds of quotes and a space is not quoted, and the word
    before the space is what is run. *)
Theorem quoteCacheProgArg_both_quotes :
  let word := "x" +:+ String squote (String dquote "gotst") in
  splitQuoted (quoteCacheProgArg ("/bin/sh " +:+ word) +:+ " -shim") = Some (Some ["/bin/sh"; word; "-shim"]).
Proof. vm_compute. reflexivity. Qed.
