(* ===== verification/Sha256.v ===== *)
(** * SHA-256 and hexadecimal (packages crypto/sha256 and encoding/hex)

    Cache keys, observation identities and executable contents are all named by
    the hexadecimal SHA-256 of a string.  A 32-bit word is a [Z] in [0, 2^32). *)

From Stdlib Require Import Ascii.
From S2P Require Import Prelude GoStrings Utf8.

(** ** Words *)

Definition w32 (z : Z) : Z := z `mod` 2 ^ 32.
Definition rotr (n x : Z) : Z := Z.lor (Z.shiftr x n) (w32 (Z.shiftl x (32 - n))).

Definition Ch (x y z : Z) : Z := Z.lxor (Z.land x y) (Z.land (Z.lxor x (2 ^ 32 - 1)) z).
Definition Maj (x y z : Z) : Z := Z.lxor (Z.land x y) (Z.lxor (Z.land x z) (Z.land y z)).
Definition bigSigma0 (x : Z) : Z := Z.lxor (rotr 2 x) (Z.lxor (rotr 13 x) (rotr 22 x)).
Definition bigSigma1 (x : Z) : Z := Z.lxor (rotr 6 x) (Z.lxor (rotr 11 x) (rotr 25 x)).
Definition smallSigma0 (x : Z) : Z := Z.lxor (rotr 7 x) (Z.lxor (rotr 18 x) (Z.shiftr x 3)).
Definition smallSigma1 (x : Z) : Z := Z.lxor (rotr 17 x) (Z.lxor (rotr 19 x) (Z.shiftr x 10)).

(** The constants are the first 32 bits of the fractional parts of the cube roots
    (of the square roots, for the initial hash) of the first primes. *)
Definition isPrime (n : nat) : bool :=
  forallb (λ d, negb (n `mod` d =? 0)%nat) (seq 2 (n - 2)).

Definition firstPrimes : list Z := Z.of_nat <$> filter (λ n, isPrime n = true) (seq 2 310).

(** The largest [x] below [lo + 2 ^ bits] with [x ^ 3 ≤ n], bit by bit. *)
Fixpoint cubeRoot (bits : nat) (lo n : Z) : Z :=
  match bits with
  | O => lo
  | S bits =>
      let mid := lo + 2 ^ Z.of_nat bits in
      cubeRoot bits (if mid ^ 3 <=? n then mid else lo) n
  end.

Definition roundConstants : list Z := Eval vm_compute in
  (λ p, w32 (cubeRoot 40 0 (p * 2 ^ 96))) <$> firstPrimes.

(** ** Padding and blocks *)

(** [n] as [len] big-endian bytes. *)
Fixpoint bigEndian (len : nat) (n : Z) : list Z :=
  match len with
  | O => []
  | S len => bigEndian len (n / 256) ++ [n `mod` 256]
  end.

Definition pad (msg : list Z) : list Z :=
  let n := Z.of_nat (length msg) in
  msg ++ [0x80] ++ replicate (Z.to_nat ((55 - n) `mod` 64)) 0 ++ bigEndian 8 (8 * n).

Fixpoint words (bs : list Z) : list Z :=
  match bs with
  | a :: b :: c :: d :: bs => (a * 2 ^ 24 + b * 2 ^ 16 + c * 2 ^ 8 + d) :: words bs
  | _ => []
  end.

(** The message schedule, newest word first, from the first sixteen. *)
Fixpoint expand (n : nat) (rev_ws : list Z) : list Z :=
  match n with
  | O => rev_ws
  | S n =>
      let w i := rev_ws !!! i in
      expand n (w32 (smallSigma1 (w 1%nat) + w 6%nat + smallSigma0 (w 14%nat) + w 15%nat) :: rev_ws)
  end.

Definition schedule (block : list Z) : list Z := rev (expand 48 (rev block)).

(** ** Compression *)

Definition round (h : list Z) (kw : Z * Z) : list Z :=
  match h with
  | [a; b; c; d; e; f; g; i] =>
      let t1 := w32 (i + bigSigma1 e + Ch e f g + kw.1 + kw.2) in
      let t2 := w32 (bigSigma0 a + Maj a b c) in
      [w32 (t1 + t2); a; b; c; w32 (d + t1); e; f; g]
  | _ => h
  end.

Definition compress (h block : list Z) : list Z :=
  zip_with (λ x y, w32 (x + y)) h (foldl round h (zip roundConstants (schedule block))).

Definition initialHash : list Z := Eval vm_compute in
  (λ p, w32 (Z.sqrt (p * 2 ^ 64))) <$> take 8 firstPrimes.

Fixpoint digest (fuel : nat) (h ws : list Z) : list Z :=
  match fuel, ws with
  | S fuel, _ :: _ => digest fuel (compress h (take 16 ws)) (drop 16 ws)
  | _, _ => h
  end.

Definition bytesOf (s : string) : list Z := byteZ <$> String.list_ascii_of_string s.
Definition ofBytes (bs : list Z) : string := String.string_of_list_ascii (ofByteZ <$> bs).

(** [sha256.Sum256], the 32 bytes of the digest. *)
Definition Sum256 (s : string) : string :=
  let ws := words (pad (bytesOf s)) in
  ofBytes (mjoin (bigEndian 4 <$> digest (length ws) initialHash ws)).

(** ** Hexadecimal *)

Definition hexDigit (d : Z) : ascii :=
  ofByteZ (if d <? 10 then 48 + d else 87 + d).

(** [hex.EncodeToString], and [%x] of a byte slice. *)
Fixpoint EncodeToString (s : string) : string :=
  match s with
  | EmptyString => ""
  | String a s => String (hexDigit (byteZ a / 16)) (String (hexDigit (byteZ a `mod` 16)) (EncodeToString s))
  end.

Definition hashString (s : string) : string := EncodeToString (Sum256 s).
Abbreviation hashBytes := hashString (only parsing).

Example hashString_empty :
  hashString "" = "e3b0c44298fc1c149afbf4c8996fb92427ae41e4649b934ca495991b7852b855".
Proof. vm_compute. reflexivity. Qed.

Example hashString_two_blocks :
  hashString "abcdbcdecdefdefgefghfghighijhijkijkljklmklmnlmnomnopnopq" =
  "248d6a61d20638b8e5c026930c3e6039a33ce45964ff2167f6ecedd419db06c1".
Proof. vm_compute. reflexivity. Qed.

(** ** The length of a digest *)

Lemma length_round h kw : length h = 8%nat → length (round h kw) = 8%nat.
Proof. intros Hh. unfold round. repeat case_match; done. Qed.

Lemma length_compress h block : length h = 8%nat → length (compress h block) = 8%nat.
Proof.
  intros Hh. unfold compress. rewrite length_zip_with.
  assert (Hf : ∀ kws h, length h = 8%nat → length (foldl round h kws) = 8%nat).
  { intros kws. induction kws; simpl; auto using length_round. }
  rewrite Hf, Hh; done.
Qed.

Lemma length_digest fuel h ws : length h = 8%nat → length (digest fuel h ws) = 8%nat.
Proof.
  revert h ws. induction fuel as [|fuel IH]; intros h ws Hh; [done|]. simpl. destruct ws; [done|].
  by apply IH, length_compress.
Qed.

Lemma length_bigEndian len n : length (bigEndian len n) = len.
Proof. revert n. induction len as [|len IH]; intros n; simpl; [done|]. rewrite length_app, IH. simpl. lia. Qed.

Lemma length_EncodeToString s : String.length (EncodeToString s) = (2 * String.length s)%nat.
Proof. induction s; simpl; lia. Qed.

Lemma length_ofBytes bs : String.length (ofBytes bs) = length bs.
Proof. unfold ofBytes. induction bs; simpl; [done|]. f_equal. done. Qed.

Lemma length_hashString s : String.length (hashString s) = 64%nat.
Proof.
  unfold hashString, Sum256. rewrite length_EncodeToString, length_ofBytes.
  set (ws := words _). assert (Hd : length (digest (length ws) initialHash ws) = 8%nat) by by apply length_digest.
  assert (Hj : ∀ l, length (mjoin (bigEndian 4 <$> l)) = (4 * length l)%nat).
  { intros l. rewrite length_join. induction l as [|x l IH]; [done|]. rewrite !fmap_cons. cbn [sum_list_with length].
    fold (sum_list (length <$> (bigEndian 4 <$> l))). rewrite IH, length_bigEndian. unfold id. lia. }
  rewrite Hj, Hd. done.
Qed.

(** ** The characters of a digest *)

Fixpoint allChars (P : ascii → bool) (s : string) : bool :=
  match s with EmptyString => true | String a s => P a && allChars P s end.

Lemma allChars_impl (P Q : ascii → bool) s :
  (∀ a, P a = true → Q a = true) → allChars P s = true → allChars Q s = true.
Proof. intros HPQ. induction s; simpl; [done|]. rewrite !andb_true_iff. naive_solver. Qed.

Lemma allChars_not P s c : allChars P s = true → P c = false → ContainsByte s c = false.
Proof.
  intros Hs Hc. induction s as [|a s IH]; simpl in *; [done|]. apply andb_prop in Hs as [Ha Hs].
  rewrite (IH Hs), orb_false_r. apply Ascii.eqb_neq. intros ->. congruence.
Qed.

Definition isHex (a : ascii) : bool :=
  ((48 <=? byteZ a) && (byteZ a <=? 57)) || ((97 <=? byteZ a) && (byteZ a <=? 102)).

Lemma hexDigit_isHex d : 0 ≤ d < 16 → isHex (hexDigit d) = true.
Proof.
  intros Hd. assert (Hall : forallb (λ n, isHex (hexDigit (Z.of_nat n))) (seq 0 16) = true) by reflexivity.
  rewrite forallb_forall in Hall. specialize (Hall (Z.to_nat d)). rewrite Z2Nat.id in Hall by lia.
  apply Hall. apply in_seq. lia.
Qed.

Lemma EncodeToString_isHex s : allChars isHex (EncodeToString s) = true.
Proof.
  induction s as [|a t IH]; [done|]. simpl. pose proof (byteZ_range a).
  rewrite !hexDigit_isHex, IH; [done| |]; split; first [apply Z.div_pos|apply Z.div_lt_upper_bound|apply Z.mod_pos_bound]; lia.
Qed.

Lemma hashString_isHex s : allChars isHex (hashString s) = true.
Proof. apply EncodeToString_isHex. Qed.
