(* ===== verification/Quote.v ===== *)
(** * Quoted strings ([%q], [strconv.Quote])

    Cache keys quote their arguments, so that an argument with a newline cannot
    pass for two lines. *)

From Stdlib Require Import Ascii.
From S2P Require Import Prelude GoStrings Utf8 Sha256.

(** The Go runtime a program was built for and with. *)
Class GoRuntime := {
  GOOS : string;
  GOARCH : string;
  (** the printable runes above Latin-1, a table of package strconv *)
  isPrintTable : Z → bool
}.

Definition backslash : ascii := "092"%char.

Section quote.
Context `{GoRuntime}.

(** [strconv.IsPrint] *)
Definition IsPrint (r : Z) : bool :=
  if r <=? 0xFF then
    ((0x20 <=? r) && (r <? 0x7F)) || ((0xA1 <=? r) && negb (r =? 0xAD))
  else isPrintTable r.

(** The lowest [n] hexadecimal digits of [r], most significant first. *)
Fixpoint hexDigits (n : nat) (r : Z) : string :=
  match n with
  | O => ""
  | S n => hexDigits n (r / 16) +:+ String (hexDigit (r `mod` 16)) ""
  end.

Definition escape (c : ascii) (rest : string) : string := String backslash (String c rest).

(** The letter of a control character's escape. *)
Definition controlEscape (r : Z) : option ascii :=
  match r with
  | 7 => Some "a"%char
  | 8 => Some "b"%char
  | 12 => Some "f"%char
  | 10 => Some "n"%char
  | 13 => Some "r"%char
  | 9 => Some "t"%char
  | 11 => Some "v"%char
  | _ => None
  end.

(** [appendEscapedRune], for a valid rune and the bytes it was decoded from. *)
Definition escapeRune (r : Z) (enc : string) : string :=
  if (r =? byteZ dquote) || (r =? byteZ backslash) then String backslash enc
  else if IsPrint r then enc
  else match controlEscape r with
       | Some c => escape c ""
       | None =>
           if (r <? 0x20) || (r =? 0x7F) then escape "x"%char (hexDigits 2 r)
           else if r <? 0x10000 then escape "u"%char (hexDigits 4 r)
           else escape "U"%char (hexDigits 8 r)
       end.

Definition quoteChunk (c : Z * string) : string :=
  if invalid_chunk c then
    escape "x"%char (hexDigits 2 (match c.2 with String a _ => byteZ a | EmptyString => 0 end))
  else escapeRune c.1 c.2.

Definition quoteBody (s : string) : string := concatS (quoteChunk <$> chunks s).

Definition Quote (s : string) : string := String dquote (quoteBody s +:+ String dquote "").
End quote.

Definition testRuntime : GoRuntime := {|
  GOOS := "linux"; GOARCH := "amd64"; isPrintTable := λ _, true
|}.

Example Quote_example :
  @Quote testRuntime ("a" +:+ String dquote (String "010"%char (String "200"%char "z"))) =
  String dquote ("a" +:+ String backslash (String dquote
    (String backslash ("n" +:+ String backslash ("xc8z" +:+ String dquote "")))))%string.
Proof. vm_compute. reflexivity. Qed.
