(* ===== verification/Json.v ===== *)
(** * JSON and time texts (packages encoding/json and time)

    The encodings that gotst hashes: JSON objects of strings, numbers, booleans
    and times, and times in UTC. *)

From Stdlib Require Import Ascii.
From S2P Require Import Prelude GoStrings Utf8 Sha256 GoFmt Quote.

(** ** Values *)

Inductive json :=
  | JNull
  | JBool (b : bool)
  | JInt (z : Z)
  | JString (s : string)
  | JArray (l : list json)
  | JObject (fields : list (string * json)).

(** [encoding/json]'s escape of a rune, with the bytes it was decoded from; HTML
    characters and the line separators are escaped, and a byte that is not UTF-8
    becomes the replacement character. *)
Definition jsonEscape (c : Z * string) : string :=
  let r := c.1 in
  if invalid_chunk c then escape "u"%char "fffd"
  else if (r =? byteZ dquote) || (r =? byteZ backslash) then String backslash c.2
  else if r =? 8 then escape "b"%char ""
  else if r =? 12 then escape "f"%char ""
  else if r =? 10 then escape "n"%char ""
  else if r =? 13 then escape "r"%char ""
  else if r =? 9 then escape "t"%char ""
  else if (r <? 0x20) || bool_decide (r ∈ [60; 62; 38; 0x2028; 0x2029]) then
    escape "u"%char (hexDigits 4 r)
  else c.2.

Definition jsonString (s : string) : string :=
  String dquote (concatS (jsonEscape <$> chunks s) +:+ String dquote "").

(** [json.Marshal] *)
Fixpoint marshal (j : json) : string :=
  match j with
  | JNull => "null"
  | JBool b => boolString b
  | JInt z => itoa z
  | JString s => jsonString s
  | JArray l => "[" +:+ Join (map marshal l) "," +:+ "]"
  | JObject fields =>
      "{" +:+ Join (map (λ '(k, v), jsonString k +:+ ":" +:+ marshal v) fields) "," +:+ "}"
  end.

Example marshal_example :
  marshal (JObject [("A", JBool true); ("B", JArray [JInt (-3); JNull]); ("C", JString "x<y")]) =
  "{" +:+ String dquote ("A" +:+ String dquote (":true," +:+ String dquote ("B" +:+ String dquote
    (":[-3,null]," +:+ String dquote ("C" +:+ String dquote (":" +:+ String dquote
      ("x" +:+ String backslash ("u003cy" +:+ String dquote "}"))))))))%string.
Proof. vm_compute. reflexivity. Qed.

(** ** Times *)

(** [n] in decimal, padded with zeros to [w] digits. *)
Definition padded (w : nat) (n : Z) : string :=
  let s := itoa n in
  concatS (replicate (w - String.length s) "0") +:+ s.

(** The year, month and day of a number of days since 0001-01-01, by the
    400-year cycle of the Gregorian calendar counted from March. *)
Definition civil (days : Z) : Z * Z * Z :=
  let z := days + 306 in
  let era := z / 146097 in
  let doe := z `mod` 146097 in
  let yoe := (doe - doe / 1460 + doe / 36524 - doe / 146096) / 365 in
  let doy := doe - (365 * yoe + yoe / 4 - yoe / 100) in
  let mp := (5 * doy + 2) / 153 in
  let d := doy - (153 * mp + 2) / 5 + 1 in
  let mo := if mp <? 10 then mp + 3 else mp - 9 in
  (yoe + era * 400 + (if mo <=? 2 then 1 else 0), mo, d).

(** [t.UTC().Format(time.RFC3339Nano)] for years of four digits. *)
Definition formatUTC (t : Time) : string :=
  let secs := t / Second in
  let ns := t `mod` Second in
  let '(y, mo, d) := civil (secs / 86400) in
  let sod := secs `mod` 86400 in
  let frac := (fmtFrac ns 9 false "").1 in
  padded 4 y +:+ "-" +:+ padded 2 mo +:+ "-" +:+ padded 2 d +:+ "T" +:+
  padded 2 (sod / 3600) +:+ ":" +:+ padded 2 ((sod / 60) `mod` 60) +:+ ":" +:+ padded 2 (sod `mod` 60) +:+
  frac +:+ "Z".

Example formatUTC_zero : formatUTC 0 = "0001-01-01T00:00:00Z".
Proof. vm_compute. reflexivity. Qed.

Example formatUTC_unix : formatUTC ((62135596800 + 1709210096) * Second + 120000000) = "2024-02-29T12:34:56.12Z".
Proof. vm_compute. reflexivity. Qed.
