(* ===== verification/CappedBuffer.v ===== *)
(** * Bounded output capture (gotst.go, [cappedBuffer] and [outputMap]) *)

From S2P Require Import Prelude GoStrings Utf8 GoFmt.

(** The first [n] bytes of a string, [p[:n]]. *)
Fixpoint takeS (n : nat) (s : string) : string :=
  match n, s with
  | S n, String a s => String a (takeS n s)
  | _, _ => ""
  end.

Record cappedBuffer := CappedBuffer {
  cbuf : string;
  cmax : Z;
  truncated : bool
}.

#[export] Instance eta_cappedBuffer : Eta cappedBuffer := λ b,
  CappedBuffer (cbuf b) (cmax b) (truncated b).

Definition newCappedBuffer (max : Z) : cappedBuffer := CappedBuffer "" max false.

(** [Write]; the result is the whole length of [p], which is what an
    [io.Writer] that does not fail reports. *)
Definition Write (b : cappedBuffer) (p : string) : Z * cappedBuffer :=
  let n := strlen p in
  let remain := cmax b - strlen (cbuf b) in
  let b1 :=
    if 0 <? remain then
      let p := if remain <? strlen p then takeS (Z.to_nat remain) p else p in
      b <| cbuf ::= λ s, s +:+ p |>
    else b in
  (n, if remain <? n then b1 <| truncated := true |> else b1).

Definition bufString (b : cappedBuffer) : string :=
  if truncated b
  then cbuf b +:+ newline +:+ "[gotst: output truncated after " +:+ itoa (cmax b) +:+ " bytes]" +:+ newline
  else cbuf b.

Record outputMap := OutputMap {
  omMax : Z;
  om : gmap string cappedBuffer
}.

#[export] Instance eta_outputMap : Eta outputMap := λ m, OutputMap (omMax m) (om m).

Definition outAdd (m : outputMap) (pkg out : string) : outputMap :=
  let buf := default (newCappedBuffer (omMax m)) (om m !! pkg) in
  m <| om ::= insert pkg (Write buf out).2 |>.

Definition outGet (m : outputMap) (pkg : string) : string :=
  match om m !! pkg with None => "" | Some buf => bufString buf end.

(** ** Lemmas *)

Lemma takeS_all n s : (String.length s ≤ n)%nat → takeS n s = s.
Proof.
  revert s. induction n as [|n IH]; intros [|a s]; simpl; intros; [done|lia|done|].
  rewrite IH by lia. done.
Qed.

Lemma takeS_append n a b :
  takeS n (a +:+ b) = takeS n a +:+ takeS (n - String.length a) b.
Proof.
  revert n. induction a as [|x a IH]; intros n.
  { destruct n; done. }
  rewrite append_cons. destruct n as [|n]; [done|]. cbn [takeS String.length].
  rewrite IH, append_cons. done.
Qed.

Lemma length_takeS n s : String.length (takeS n s) = (n `min` String.length s)%nat.
Proof. revert s. induction n as [|n IH]; intros [|a s]; simpl; auto. Qed.

(** What the buffer holds after the text [w] was written to it in some pieces:
    the first [cmax] bytes, and whether there were more. *)
Definition holds (b : cappedBuffer) (w : string) : Prop :=
  cbuf b = takeS (Z.to_nat (cmax b)) w ∧ truncated b = bool_decide (cmax b < strlen w).

Lemma holds_new max : 0 ≤ max → holds (newCappedBuffer max) "".
Proof.
  intros. split; simpl; [by destruct (Z.to_nat max)|].
  symmetry. apply bool_decide_eq_false. unfold strlen. simpl. lia.
Qed.

Lemma Write_max b p : cmax (Write b p).2 = cmax b.
Proof. unfold Write. by repeat case_match. Qed.

Lemma Write_holds b w p : 0 ≤ cmax b → holds b w → holds (Write b p).2 (w +:+ p).
Proof.
  intros Hmax [Hb Ht]. unfold holds. rewrite Write_max. unfold Write, strlen in *.
  assert (Hlen : String.length (cbuf b) = (Z.to_nat (cmax b) `min` String.length w)%nat)
    by (by rewrite Hb, length_takeS).
  rewrite length_append, takeS_append, <- Hb.
  set (lw := String.length w) in *. set (lp := String.length p) in *.
  assert (Htrunc : truncated b = true → cmax b < Z.of_nat lw) by (rewrite Ht; apply bool_decide_eq_true_1).
  assert (Hntrunc : truncated b = false → Z.of_nat lw ≤ cmax b)
    by (rewrite Ht; intros ?%bool_decide_eq_false_1; lia).
  destruct (0 <? _) eqn:E0; [apply Z.ltb_lt in E0|apply Z.ltb_ge in E0];
    (destruct (_ <? Z.of_nat lp) eqn:E1; [apply Z.ltb_lt in E1|apply Z.ltb_ge in E1]); simpl.
  - split; [|symmetry; apply bool_decide_eq_true; lia].
    do 2 f_equal. lia.
  - split.
    + f_equal. rewrite takeS_all; [done|]. fold lp. lia.
    + destruct (truncated b); symmetry;
        [apply bool_decide_eq_true|apply bool_decide_eq_false]; intuition lia.
  - split; [|symmetry; apply bool_decide_eq_true; lia].
    replace (Z.to_nat (cmax b) - lw)%nat with 0%nat by lia.
    by rewrite append_empty_r.
  - assert (lp = 0%nat) as Hlp by lia.
    assert (p = "") as -> by (by destruct p). rewrite Hlp.
    split; [|by rewrite Nat.add_0_r].
    destruct (_ - _)%nat; by rewrite append_empty_r.
Qed.

Definition WriteAll (b : cappedBuffer) (ps : list string) : cappedBuffer :=
  foldl (λ b p, (Write b p).2) b ps.

Lemma WriteAll_holds ps : ∀ b w,
  0 ≤ cmax b → holds b w →
  holds (WriteAll b ps) (w +:+ concatS ps) ∧ cmax (WriteAll b ps) = cmax b.
Proof.
  induction ps as [|p ps IH]; intros b w Hmax Hb.
  { cbn. by rewrite append_empty_r. }
  cbn [concatS]. rewrite <- append_assoc.
  destruct (IH (Write b p).2 (w +:+ p)) as [? Hm]; [by rewrite Write_max|by apply Write_holds|].
  rewrite Write_max in Hm. by split.
Qed.

(** bounded capture.  However the output of a process is cut into writes,
    the buffer keeps exactly its first [max] bytes, never more, and appends the
    truncation notice exactly when the output was longer than [max]. *)
Theorem cappedBuffer_spec max ps :
  0 ≤ max →
  let b := WriteAll (newCappedBuffer max) ps in
  let out := concatS ps in
  cbuf b = takeS (Z.to_nat max) out ∧
  strlen (cbuf b) ≤ max ∧
  (strlen out ≤ max → bufString b = out) ∧
  (max < strlen out →
   bufString b = takeS (Z.to_nat max) out +:+ newline +:+
     "[gotst: output truncated after " +:+ itoa max +:+ " bytes]" +:+ newline).
Proof.
  intros Hmax b out.
  destruct (WriteAll_holds ps (newCappedBuffer max) "") as [[Hb Ht] Hm]; [done|by apply holds_new|].
  fold b in Hb, Ht, Hm. simpl in Hm. rewrite append_empty_l in Hb, Ht. fold out in Hb, Ht.
  rewrite Hm in Hb, Ht. split_and!.
  - done.
  - unfold strlen. rewrite Hb, length_takeS. lia.
  - intros Hout. unfold bufString. rewrite Ht, bool_decide_eq_false_2 by lia.
    rewrite Hb. apply takeS_all. unfold strlen in Hout. lia.
  - intros Hout. unfold bufString. rewrite Ht, bool_decide_eq_true_2 by done. by rewrite Hb, Hm.
Qed.

Lemma cappedBuffer_spec_witness :
  cbuf (WriteAll (newCappedBuffer 5) ["abc"; "def"; "gh"]) = "abcde".
Proof. apply (cappedBuffer_spec 5 ["abc"; "def"; "gh"]). discriminate. Defined.
