(* ===== verification/HistoryTypes.v ===== *)
(** * The history data model (history/history.go)

    Keys, observations and histories as the command, the stores and the history
    service exchange them. *)

From S2P Require Import Prelude GoStrings Utf8 Sha256 GoFmt Quote.

Definition Version : Z := 1.

Record Key := MkKey {
  kPackage : string;
  kTest : string;
  kGOOS : string;
  kGOARCH : string;
  kTags : list string; (** an unordered set to [ID] *)
  kArgs : list string  (** order-sensitive *)
}.

#[export] Instance Key_eq_dec : EqDecision Key.
Proof. solve_decision. Defined.

Inductive Outcome := OutcomePass | OutcomeFail | OutcomeFlaky | OutcomeOther (s : string).

#[export] Instance Outcome_eq_dec : EqDecision Outcome.
Proof. solve_decision. Defined.

Record Dependency := MkDependency {
  dOperation : string;
  dName : string;
  dPath : string
}.

#[export] Instance Dependency_eq_dec : EqDecision Dependency.
Proof. solve_decision. Defined.

Record Observation := MkObservation {
  obsID : string;
  obsKey : Key;
  ObservedAt : Time;
  obsOutcome : Outcome;
  obsDuration : Duration;
  obsAttempts : Z;
  PeakRSSBytes : Z;
  obsDependencies : option (list Dependency) (** [None]: input capture failed *)
}.

#[export] Instance eta_Observation : Eta Observation := λ o,
  MkObservation (obsID o) (obsKey o) (ObservedAt o) (obsOutcome o) (obsDuration o)
    (obsAttempts o) (PeakRSSBytes o) (obsDependencies o).

#[export] Instance Observation_eq_dec : EqDecision Observation.
Proof. solve_decision. Defined.

Record History := MkHistory {
  hVersion : Z;
  hKey : Key;
  Observations : list Observation
}.

#[export] Instance eta_History : Eta History := λ h,
  MkHistory (hVersion h) (hKey h) (Observations h).

Record LookupRequest := MkLookupRequest {
  lqVersion : Z;
  lqKeys : list Key;
  RecentPerKey : Z
}.

(** A null element of the JSON array is a nil pointer. *)
Record LookupResponse := MkLookupResponse {
  lrVersion : Z;
  Histories : list (option History)
}.

Record RecordRequest := MkRecordRequest {
  rqVersion : Z;
  rqObservations : list Observation
}.

Section key.
Context `{GoRuntime}.

(** The text [ID] hashes. *)
Definition keyText (k : Key) : string :=
  "gotst history key v" +:+ itoa Version +:+ newline +:+
  "package " +:+ kPackage k +:+ newline +:+ "test " +:+ kTest k +:+ newline +:+
  "goos " +:+ kGOOS k +:+ newline +:+ "goarch " +:+ kGOARCH k +:+ newline +:+
  concatS ((λ tag, "tag " +:+ Quote tag +:+ newline) <$> sort_strings (kTags k)) +:+
  concatS ((λ arg, "arg " +:+ Quote arg +:+ newline) <$> kArgs k).

Definition ID (k : Key) : string := hashString (keyText k).
End key.
