(* ===== verification/TestCache.v ===== *)
(** * The result cache (testcache.go)

    A passed test is stored under a key made of its binary, package, name,
    working directory and arguments, with fingerprints of the inputs it read:
    environment variables and files.  A stored result is reused while every
    recorded input still has the fingerprint it had.

    The operating system is a [world]: what it answers at one moment. *)

From Stdlib Require Import Ascii.
From S2P Require Import Prelude GoStrings Utf8 Sha256 GoFmt Quote Json Path CappedBuffer.

Definition testCacheVersion : Z := 2.

Record testCacheKey := TestCacheKey {
  BinarySHA256 : string;
  ckPackage : string;
  ckTest : string;
  WorkingDir : string;
  ckArgs : list string
}.

#[export] Instance testCacheKey_eq_dec : EqDecision testCacheKey.
Proof. solve_decision. Defined.

Record fileState := FileState {
  Size : Z;
  Mode : string;
  ModTime : Time;
  IsDir : bool
}.

#[export] Instance fileState_eq_dec : EqDecision fileState.
Proof. solve_decision. Defined.

Record fileDependency := FileDependency {
  Exists : bool;
  fdError : string;
  fdStat : option fileState;
  fdLstat : option fileState;
  ContentSHA256 : string;
  DirectorySHA256 : string;
  FingerprintSHA256 : string
}.

#[export] Instance fileDependency_eq_dec : EqDecision fileDependency.
Proof. solve_decision. Defined.

Record cacheDependency := CacheDependency {
  Operation : string; (** getenv, open, stat or chdir *)
  cdName : string;    (** as reported by the test binary *)
  cdPath : string;
  Present : option bool;
  ValueSHA256 : string;
  cdFile : option fileDependency
}.

#[export] Instance cacheDependency_eq_dec : EqDecision cacheDependency.
Proof. solve_decision. Defined.

Record testCacheEntry := TestCacheEntry {
  teVersion : Z;
  teKey : testCacheKey;
  Created : Time;
  PassedIn : Duration;
  Dependencies : list cacheDependency
}.

#[export] Instance testCacheEntry_eq_dec : EqDecision testCacheEntry.
Proof. solve_decision. Defined.

Section id.
Context `{GoRuntime}.

(** The text [id] hashes. *)
Definition idText (k : testCacheKey) : string :=
  "gotst test cache key v" +:+ itoa testCacheVersion +:+ newline +:+
  "binary " +:+ BinarySHA256 k +:+ newline +:+ "package " +:+ ckPackage k +:+ newline +:+
  "test " +:+ ckTest k +:+ newline +:+ "working dir " +:+ WorkingDir k +:+ newline +:+
  concatS ((λ arg, "arg " +:+ Quote arg +:+ newline) <$> ckArgs k).

Definition id (k : testCacheKey) : string := hashString (idText k).
End id.

(** ** The operating system *)

Inductive ioError :=
  | NotExist              (** [fs.ErrNotExist] *)
  | IOError (msg : string).

Definition ioText (e : ioError) : string :=
  match e with NotExist => "file does not exist" | IOError msg => msg end.

Record fileInfo := FileInfo {
  fiSize : Z;
  fiMode : string;    (** [Mode().String()] *)
  fiRegular : bool;   (** [Mode().IsRegular()] *)
  fiIsDir : bool;
  fiModTime : Time
}.

Record world := World {
  LookupEnv : string → option string;
  Stat : string → ioError + fileInfo;
  Lstat : string → ioError + fileInfo;
  ReadFile : string → ioError + string;
  (** the sorted entries, each with what its [Info] answers *)
  ReadDir : string → ioError + list (string * (ioError + fileInfo));
  (** [MarshalJSON] of a time in the local zone, without its quotes *)
  localTime : Time → string
}.

(** ** Fingerprints *)

Definition fileInfoState (i : fileInfo) : fileState :=
  FileState (fiSize i) (fiMode i) (fiModTime i) (fiIsDir i).

Definition hashPresenceAndValue (present : bool) (value : string) : string :=
  hashString (String (if present then "001"%char else "000"%char) value).

Definition environmentDependency (w : world) (name : string) : cacheDependency :=
  let present := bool_decide (is_Some (LookupEnv w name)) in
  CacheDependency "getenv" name "" (Some present)
    (hashPresenceAndValue present (default "" (LookupEnv w name))) None.

Section fingerprint.
Context `{GoRuntime} (w : world).

Definition stateJSON (st : option fileState) : json :=
  match st with
  | None => JNull
  | Some st => JObject [("size", JInt (Size st)); ("mode", JString (Mode st));
      ("mod_time", JString (localTime w (ModTime st))); ("is_dir", JBool (IsDir st))]
  end.

Definition writeFileState (i : fileInfo) : string :=
  itoa (fiSize i) +:+ " " +:+ fiMode i +:+ " " +:+ formatUTC (fiModTime i) +:+ " " +:+
  boolString (fiIsDir i) +:+ newline.

Definition directoryText (entries : list (string * (ioError + fileInfo))) : string :=
  concatS ((λ '(name, info), Quote name +:+ newline +:+
    match info with
    | inl e => "error " +:+ ioText e +:+ newline
    | inr i => writeFileState i
    end) <$> entries).

(** What of a path goes into its fingerprint. *)
Definition canonicalText (exists_ : bool) (err : string) (st lst : option fileState)
    (content directory : string) : string :=
  marshal (JObject [("Exists", JBool exists_); ("Error", JString err); ("Stat", stateJSON st);
    ("Lstat", stateJSON lst); ("Content", JString content); ("Directory", JString directory)]).

(** The hash of a file's content or of a directory's entries, when asked for. *)
Definition contentHashes (path : string) (readContent : bool) : ioError + (string * string) :=
  match Stat w path with
  | inr info =>
      if negb readContent then inr ("", "")
      else if fiRegular info then
        match ReadFile w path with inl e => inl e | inr data => inr (hashString data, "") end
      else if fiIsDir info then
        match ReadDir w path with inl e => inl e | inr es => inr ("", hashString (directoryText es)) end
      else inr ("", "")
  | inl _ => inr ("", "")
  end.

(** The error text of a stat that failed for another reason than absence. *)
Definition statError {A} (r : ioError + A) : string :=
  match r with inl (IOError msg) => msg | _ => "" end.

Definition isInr {A B} (r : A + B) : bool := match r with inr _ => true | inl _ => false end.

Definition fingerprintPath (path : string) (readContent : bool) : ioError + fileDependency :=
  let st := Stat w path in
  let lst := Lstat w path in
  let err := if bool_decide (statError st = "") then statError lst else statError st in
  let exists_ := isInr st || isInr lst in
  let state r := match r with inr i => Some (fileInfoState i) | inl _ => None end in
  match contentHashes path readContent with
  | inl e => inl e
  | inr (content, directory) =>
      inr (FileDependency exists_ err (state st) (state lst) content directory
        (hashString (canonicalText exists_ err (state st) (state lst) content directory)))
  end.
End fingerprint.

(** ** Reading a test log *)

Definition dedupKey (dep : cacheDependency) : string :=
  Operation dep +:+ nul +:+ cdName dep +:+ nul +:+ cdPath dep.

(** The loop of [deduplicateDependencies], over the reversed list. *)
Fixpoint dedupLoop (seen : gset string) (deps : list cacheDependency) : list cacheDependency :=
  match deps with
  | [] => []
  | dep :: deps =>
      if bool_decide (dedupKey dep ∈ seen) then dedupLoop seen deps
      else dep :: dedupLoop ({[dedupKey dep]} ∪ seen) deps
  end.

Definition deduplicateDependencies (deps : list cacheDependency) : list cacheDependency :=
  reverse (dedupLoop ∅ (reverse deps)).

Definition pathWithinRoot (path root : string) : bool :=
  if bool_decide (root = "") then false
  else match Rel root path with
       | None => false
       | Some rel => negb (bool_decide (rel = "..")) && negb (HasPrefix rel "../")
       end.

(** Why a test log was refused. *)
Inductive logError :=
  | LogOpen (e : ioError)
  | LogHeader
  | LogLine (line : string)
  | LogOperation (op : string)
  | LogFingerprint (op path : string) (e : ioError)
  | LogScan (e : ioError).

Section log.
Context `{GoRuntime} (w : world).

(** One line of the log, in the working directory [pwd]: the new working
    directory and the dependency, if the line is one. *)
Definition logLine (packageRoot pwd line : string)
    : logError + (string * option cacheDependency) :=
  match Cut line " "%char with
  | None => inl (LogLine line)
  | Some (op, name) =>
      if bool_decide (name = "") then inl (LogLine line)
      else if bool_decide (op = "getenv") then inr (pwd, Some (environmentDependency w name))
      else if bool_decide (op ∈ ["open"; "stat"; "chdir"]) then
        let path := Clean (if IsAbs name then name else PathJoin [pwd; name]) in
        if negb (bool_decide (op = "chdir")) && negb (pathWithinRoot path packageRoot) then inr (pwd, None)
        else
          match fingerprintPath w path (bool_decide (op = "open")) with
          | inl e => inl (LogFingerprint op path e)
          | inr fd =>
              inr (if bool_decide (op = "chdir") then path else pwd,
                   Some (CacheDependency op name path None "" (Some fd)))
          end
      else inl (LogOperation op)
  end.

Fixpoint logLines (packageRoot pwd : string) (lines : list string) (deps : list cacheDependency)
    : logError + list cacheDependency :=
  match lines with
  | [] => inr deps
  | line :: lines =>
      match logLine packageRoot pwd line with
      | inl e => inl e
      | inr (pwd, None) => logLines packageRoot pwd lines deps
      | inr (pwd, Some dep) => logLines packageRoot pwd lines (deps ++ [dep])
      end
  end.

(** [parseTestLog], on what opening the file and scanning it give: the lines a
    scanner reads and the error it stopped with, if any. *)
Definition parseTestLog (log : ioError + list string * option ioError) (workDir packageRoot : string)
    : logError + list cacheDependency :=
  match log with
  | inl e => inl (LogOpen e)
  | inr ([], _) => inl LogHeader
  | inr (header :: lines, scanErr) =>
      if negb (bool_decide (header = "# test log")) then inl LogHeader
      else
        match logLines packageRoot workDir lines [environmentDependency w "GODEBUG"], scanErr with
        | inl e, _ => inl e
        | inr _, Some e => inl (LogScan e)
        | inr deps, None => inr (deduplicateDependencies deps)
        end
  end.

(** ** Validating recorded dependencies *)

Inductive depError := DepFingerprint (e : ioError) | DepOperation (op : string).

Definition currentDependency (old : cacheDependency) : depError + cacheDependency :=
  if bool_decide (Operation old = "getenv") then inr (environmentDependency w (cdName old))
  else if bool_decide (Operation old ∈ ["open"; "stat"; "chdir"]) then
    match fingerprintPath w (cdPath old) (bool_decide (Operation old = "open")) with
    | inl e => inl (DepFingerprint e)
    | inr fd => inr (CacheDependency (Operation old) (cdName old) (cdPath old) None "" (Some fd))
    end
  else inl (DepOperation (Operation old)).

Definition dependenciesEqual (a b : cacheDependency) : bool :=
  bool_decide (Operation a = Operation b) && bool_decide (cdName a = cdName b) &&
  bool_decide (cdPath a = cdPath b) && bool_decide (ValueSHA256 a = ValueSHA256 b) &&
  bool_decide (Present a = Present b) &&
  bool_decide (FingerprintSHA256 <$> cdFile a = FingerprintSHA256 <$> cdFile b).

Definition shortHash (hash : string) : string :=
  if 12 <? strlen hash then takeS 12 hash else hash.

Definition environmentSummary (dep : cacheDependency) : string :=
  match Present dep with
  | Some true => "set, sha256=" +:+ shortHash (ValueSHA256 dep)
  | _ => "unset"
  end.

Definition fileDependencySummary (dep : option fileDependency) : string :=
  match dep with
  | None => "no fingerprint"
  | Some dep =>
      if negb (Exists dep) then
        if bool_decide (fdError dep = "") then "missing" else "missing/error=" +:+ fdError dep
      else
        Join (match fdStat dep with
              | Some st => ["size=" +:+ itoa (Size st) +:+ " mode=" +:+ Mode st +:+
                  " mtime=" +:+ formatUTC (ModTime st)]
              | None => []
              end ++
              (if bool_decide (ContentSHA256 dep = "") then []
               else ["content=" +:+ shortHash (ContentSHA256 dep)]) ++
              (if bool_decide (DirectorySHA256 dep = "") then []
               else ["directory=" +:+ shortHash (DirectorySHA256 dep)]) ++
              (if bool_decide (fdError dep = "") then [] else ["error=" +:+ fdError dep])) " "
  end.

Definition describeDependencyChange (old current : cacheDependency) : string :=
  if bool_decide (Operation old = "getenv") then
    "getenv " +:+ Quote (cdName old) +:+ " changed (" +:+ environmentSummary old +:+ " -> " +:+
    environmentSummary current +:+ ")"
  else
    Operation old +:+ " " +:+ Quote (cdPath old) +:+ " changed (" +:+
    fileDependencySummary (cdFile old) +:+ " -> " +:+ fileDependencySummary (cdFile current) +:+ ")".

Fixpoint changedDependencies (deps : list cacheDependency) : depError + list string :=
  match deps with
  | [] => inr []
  | old :: deps =>
      match currentDependency old with
      | inl e => inl e
      | inr current =>
          match changedDependencies deps with
          | inl e => inl e
          | inr changes =>
              inr (if dependenciesEqual old current then changes
                   else describeDependencyChange old current :: changes)
          end
      end
  end.

(** The reused result is valid; an error is never read as valid. *)
Definition validateDependencies (deps : list cacheDependency) : depError + bool :=
  match changedDependencies deps with
  | inl e => inl e
  | inr changes => inr (bool_decide (changes = []))
  end.
End log.

(** ** Names of entries *)

Definition safeRune (r : Z) : bool :=
  ((97 <=? r) && (r <=? 122)) || ((65 <=? r) && (r <=? 90)) || ((48 <=? r) && (r <=? 57)) ||
  (r =? 45) || (r =? 95) || (r =? 46).

(** The loop of [safeCacheName]: [n] more bytes may be written. *)
Fixpoint safeLoop (n : nat) (rs : list Z) : string :=
  match n, rs with
  | S n, r :: rs => String (if safeRune r then ofByteZ r else "_"%char) (safeLoop n rs)
  | _, _ => ""
  end.

Definition safeCacheName (s : string) : string :=
  let b := safeLoop 80 (runes s) in
  if bool_decide (b = "") then "test" else b.

Definition entryPath `{GoRuntime} (dir : string) (key : testCacheKey) : string :=
  let bin := if strlen (BinarySHA256 key) <? 2 then "invalid-" +:+ hashString (BinarySHA256 key)
             else BinarySHA256 key in
  PathJoin [dir; takeS 2 bin; bin; safeCacheName (ckTest key) +:+ "-" +:+ id key +:+ ".json"].
