(* ===== verification/TestCacheFacts.v ===== *)
(** * What the result cache guarantees

    A log that was just read validates against the world it was read in; an
    entry validates only while the inputs it lists are what they were, as far
    as SHA-256 separates the texts that were hashed; and the file name of an
    entry is short and harmless. *)

From Stdlib Require Import Ascii.
From S2P Require Import Prelude GoStrings Utf8 Sha256 GoFmt Quote Json Path CappedBuffer TestCache.

(** ** Deduplication *)

Lemma dedupLoop_elem seen deps dep : dep ∈ dedupLoop seen deps → dep ∈ deps.
Proof.
  revert seen. induction deps as [|d deps IH]; intros seen; simpl; [done|].
  case_bool_decide; rewrite !elem_of_cons; [naive_solver|]. intros [->|?]; naive_solver.
Qed.

Lemma dedupLoop_keys seen deps k :
  k ∈ dedupKey <$> dedupLoop seen deps ↔ k ∉ seen ∧ k ∈ dedupKey <$> deps.
Proof.
  revert seen. induction deps as [|d deps IH]; intros seen; simpl; [set_solver|].
  case_bool_decide; rewrite ?fmap_cons, ?elem_of_cons, IH; [set_solver|].
  rewrite ?elem_of_union, elem_of_singleton.
  destruct (decide (k = dedupKey d)) as [->|]; naive_solver.
Qed.

Lemma dedupLoop_NoDup seen deps : NoDup (dedupKey <$> dedupLoop seen deps).
Proof.
  revert seen. induction deps as [|d deps IH]; intros seen; simpl; [constructor|].
  case_bool_decide; [apply IH|]. rewrite fmap_cons. constructor; [|apply IH].
  rewrite dedupLoop_keys. set_solver.
Qed.

(** The loop keeps the first dependency of each key. *)
Lemma dedupLoop_first seen deps dep :
  dep ∈ dedupLoop seen deps →
  ∃ l1 l2, deps = l1 ++ dep :: l2 ∧ dedupKey dep ∉ dedupKey <$> l1.
Proof.
  revert seen. induction deps as [|d deps IH]; intros seen; simpl; [by intros ?%not_elem_of_nil|].
  case_bool_decide as Hd.
  - intros Hin. assert (Hk : dedupKey dep ∈ dedupKey <$> dedupLoop seen deps) by (by apply list_elem_of_fmap_2).
    apply dedupLoop_keys in Hk as [Hk _]. apply IH in Hin as (l1 & l2 & -> & Hl).
    exists (d :: l1), l2. split; [done|]. rewrite fmap_cons, elem_of_cons. intros [Heq|Hc]; [rewrite Heq in Hk; done|exact (Hl Hc)].
  - rewrite elem_of_cons. intros [->|Hin]; [exists [], deps; split; [done|apply not_elem_of_nil]|].
    assert (Hk : dedupKey dep ∈ dedupKey <$> dedupLoop ({[dedupKey d]} ∪ seen) deps) by (by apply list_elem_of_fmap_2).
    apply dedupLoop_keys in Hk as [Hk _]. apply IH in Hin as (l1 & l2 & -> & Hl).
    exists (d :: l1), l2. split; [done|]. rewrite fmap_cons, elem_of_cons. set_solver.
Qed.

(** [deduplicateDependencies] keeps exactly one dependency for each
    operation, name and path that occurs, and it is the last one recorded. *)
Theorem deduplicateDependencies_spec deps :
  NoDup (dedupKey <$> deduplicateDependencies deps) ∧
  (∀ k, k ∈ dedupKey <$> deduplicateDependencies deps ↔ k ∈ dedupKey <$> deps) ∧
  (∀ dep, dep ∈ deduplicateDependencies deps →
     ∃ before after, deps = before ++ dep :: after ∧ dedupKey dep ∉ dedupKey <$> after).
Proof.
  unfold deduplicateDependencies. split_and!.
  - rewrite reverse_Permutation. apply dedupLoop_NoDup.
  - intros k. rewrite fmap_reverse, elem_of_reverse, dedupLoop_keys, fmap_reverse, elem_of_reverse. set_solver.
  - intros dep. rewrite elem_of_reverse. intros (l1 & l2 & Heq & Hl)%dedupLoop_first.
    exists (reverse l2), (reverse l1). split.
    + apply (f_equal reverse) in Heq. rewrite reverse_involutive, reverse_app, reverse_cons in Heq.
      rewrite Heq, <- app_assoc. done.
    + rewrite fmap_reverse, elem_of_reverse. done.
Qed.

Lemma deduplicateDependencies_elem deps dep : dep ∈ deduplicateDependencies deps → dep ∈ deps.
Proof.
  unfold deduplicateDependencies. rewrite elem_of_reverse.
  intros H%dedupLoop_elem. rewrite elem_of_reverse in H; exact H.
Qed.

(** ** Re-validation *)

(** A dependency that has in [w] the fingerprint it carries. *)
Definition current `{GoRuntime} (w : world) (dep : cacheDependency) : Prop :=
  currentDependency w dep = inr dep.

Section validate.
Context `{GoRuntime} (w : world).

Lemma environmentDependency_current name : current w (environmentDependency w name).
Proof using Type. unfold current, currentDependency. reflexivity. Qed.

Lemma logLine_current root pwd line pwd' dep :
  logLine w root pwd line = inr (pwd', Some dep) → current w dep.
Proof using Type.
  unfold logLine. destruct (Cut line " ") as [[op name]|]; [|done].
  case_bool_decide; [done|]. case_bool_decide as Hg.
  { intros [= <- <-]. apply environmentDependency_current. }
  case_bool_decide as Hop; [|done]. destruct (_ && _); [done|].
  set (path := Clean _). destruct (fingerprintPath w path _) as [e|fd] eqn:Hf; [done|].
  intros [= <- <-]. unfold current, currentDependency. cbn [Operation cdPath cdName].
  rewrite bool_decide_false by done. rewrite bool_decide_true by done. rewrite Hf. done.
Qed.

Lemma logLines_current root pwd lines deps deps' :
  logLines w root pwd lines deps = inr deps' → Forall (current w) deps → Forall (current w) deps'.
Proof using Type.
  revert pwd deps. induction lines as [|line lines IH]; intros pwd deps; simpl.
  { by intros [= <-]. }
  destruct (logLine w root pwd line) as [|[pwd' [dep|]]] eqn:Hl; [done| |by apply IH].
  intros Hr Hd. apply (IH _ _ Hr), Forall_app; split; [done|].
  apply Forall_singleton, (logLine_current _ _ _ _ _ Hl).
Qed.

Lemma parseTestLog_current log workDir root deps :
  parseTestLog w log workDir root = inr deps → Forall (current w) deps.
Proof using Type.
  unfold parseTestLog. destruct log as [|[[|header lines] scanErr]]; [done..|].
  destruct (negb _); [done|]. destruct (logLines _ _ _ _ _) as [|all] eqn:Hl; [done|].
  destruct scanErr; [done|]. intros [= <-]. apply Forall_forall. intros dep ?%deduplicateDependencies_elem.
  revert dep H0. apply Forall_forall, (logLines_current _ _ _ _ _ Hl), Forall_singleton, environmentDependency_current.
Qed.

Lemma dependenciesEqual_refl dep : dependenciesEqual dep dep = true.
Proof using Type. unfold dependenciesEqual. rewrite !bool_decide_true by done. done. Qed.

(** Validation succeeds exactly when every dependency can be read again and
    equals what it was. *)
Lemma validateDependencies_true deps :
  validateDependencies w deps = inr true ↔
  ∀ dep, dep ∈ deps → ∃ now, currentDependency w dep = inr now ∧ dependenciesEqual dep now = true.
Proof using Type.
  unfold validateDependencies. induction deps as [|dep deps IH]; simpl.
  { split; [|done]. by intros _ ? ?%not_elem_of_nil. }
  setoid_rewrite elem_of_cons. destruct (currentDependency w dep) as [e|now] eqn:Hc.
  { split; [done|]. intros Hall. destruct (Hall dep (or_introl eq_refl)) as (? & ? & _). congruence. }
  destruct (changedDependencies w deps) as [e|changes].
  { split; [done|]. intros Hall. apply IH. intros d Hd. apply Hall. by right. }
  destruct (dependenciesEqual dep now) eqn:He.
  - rewrite IH. split; [|naive_solver]. intros Hall d [->|Hd]; [by exists now|by apply Hall].
  - split; [done|]. intros Hall. destruct (Hall dep (or_introl eq_refl)) as (? & ? & ?). congruence.
Qed.
End validate.

(** ** Texts of hashes *)

(** Characters that a JSON string shows as they are. *)
Definition jsonPlain (a : ascii) : bool :=
  (0x20 <=? byteZ a) && (byteZ a <? 0x80) && negb (bool_decide (byteZ a ∈ [34; 92; 60; 62; 38])).

Lemma jsonString_plain s :
  allChars jsonPlain s = true → jsonString s = String dquote (s +:+ String dquote "").
Proof.
  intros Hs. unfold jsonString. f_equal. f_equal.
  induction s as [|a s IH]; [done|]. apply andb_prop in Hs as [Ha Hs].
  unfold jsonPlain in Ha. rewrite !andb_true_iff, negb_true_iff, bool_decide_eq_false in Ha.
  destruct Ha as [[Hlo Hhi] Hne]. apply Z.leb_le in Hlo. apply Z.ltb_lt in Hhi.
  rewrite chunks_ascii_cons by done. rewrite fmap_cons. simpl concatS. rewrite (IH Hs).
  assert (jsonEscape (byteZ a, String a "") = String a "") as ->; [|done].
  set_unfold in Hne. unfold jsonEscape, invalid_chunk, RuneError. simpl fst. simpl snd.
  change (byteZ dquote) with 34. change (byteZ backslash) with 92.
  repeat (rewrite (proj2 (Z.eqb_neq _ _)) by lia). simpl.
  rewrite (proj2 (Z.ltb_ge _ _)) by lia. rewrite bool_decide_false; [done|]. set_unfold. lia.
Qed.

Definition hexChar (a : ascii) : bool := jsonPlain a && negb (Ascii.eqb a dquote).

Lemma hashString_hex s : allChars hexChar (hashString s) = true.
Proof. apply (allChars_impl isHex); [|apply hashString_isHex]. intros [[][][][][][][][]]; done. Qed.

Lemma hexChar_plain s : allChars hexChar s = true → allChars jsonPlain s = true.
Proof. induction s; simpl; [done|]. intros [[? _]%andb_prop ?]%andb_prop. apply andb_true_intro. auto. Qed.

Lemma hexChar_quote s : allChars hexChar s = true → ContainsByte s dquote = false.
Proof.
  induction s as [|a s IH]; simpl; [done|]. intros [[_ Ha]%andb_prop Hs]%andb_prop.
  rewrite (IH Hs), orb_false_r. by apply negb_true_iff.
Qed.

Lemma lastQuote_inj a b d d' :
  a +:+ String dquote d = b +:+ String dquote d' →
  allChars hexChar d = true → allChars hexChar d' = true → a = b ∧ d = d'.
Proof.
  intros Heq Hd Hd'. apply hexChar_quote in Hd, Hd'.
  assert (H1 := proj2 (CutLast_Some _ _ _ _) (conj eq_refl Hd) : CutLast (a +:+ String dquote d) dquote = Some (a, d)).
  assert (H2 := proj2 (CutLast_Some _ _ _ _) (conj eq_refl Hd') : CutLast (b +:+ String dquote d') dquote = Some (b, d')).
  rewrite Heq, H2 in H1. by injection H1 as -> ->.
Qed.

Lemma append_inj_r a b c : a +:+ c = b +:+ c → a = b.
Proof.
  intros Heq. assert (Hl : String.length a = String.length b).
  { apply (f_equal String.length) in Heq. rewrite !length_append in Heq. lia. }
  revert b Hl Heq. induction a as [|x a IH]; intros [|y b] Hl Heq; try done; simpl in Hl; try lia.
  rewrite !append_cons in Heq. injection Heq as -> Heq. f_equal. apply IH; [lia|done].
Qed.

(** ** Inputs that have not changed *)

(** No two of the texts have the same SHA-256. *)
Definition collisionFree (ts : list string) : Prop :=
  Forall (λ s, Forall (λ t, hashString s = hashString t → s = t) ts) ts.

(** A check that hashes each text once. *)
Definition separated (ts : list string) : bool :=
  let hs := (λ t, (t, hashString t)) <$> ts in
  forallb (λ '(s, h), forallb (λ '(t, k), negb (String.eqb h k) || String.eqb s t) hs) hs.

Lemma separated_collisionFree ts : separated ts = true → collisionFree ts.
Proof.
  unfold separated, collisionFree. rewrite forallb_forall. intros Hall.
  apply Forall_forall. intros s Hs. apply Forall_forall. intros t Ht Heq.
  assert (Hin : ∀ x, x ∈ ts → In (x, hashString x) ((λ t, (t, hashString t)) <$> ts)).
  { intros x Hx. apply list_elem_of_In, list_elem_of_fmap. by exists x. }
  specialize (Hall _ (Hin s Hs)). simpl in Hall. rewrite forallb_forall in Hall. specialize (Hall _ (Hin t Ht)).
  simpl in Hall. rewrite Heq, String.eqb_refl in Hall. by apply String.eqb_eq.
Qed.

Definition pathExists (w : world) (path : string) : bool := isInr (Stat w path) || isInr (Lstat w path).

Section unchanged.
Context `{GoRuntime}.

(** What opening a path shows: a file's bytes or a directory's entries. *)
Inductive shown := File (data : string) | Directory (text : string) | Nothing.

Definition opened (w : world) (path : string) : shown :=
  match Stat w path with
  | inr info =>
      if fiRegular info then match ReadFile w path with inr data => File data | inl _ => Nothing end
      else if fiIsDir info then match ReadDir w path with inr es => Directory (directoryText es) | inl _ => Nothing end
      else Nothing
  | inl _ => Nothing
  end.

(** The input that [dep] names is the same in both worlds. *)
Definition unchanged (w w' : world) (dep : cacheDependency) : Prop :=
  (Operation dep = "getenv" → LookupEnv w' (cdName dep) = LookupEnv w (cdName dep)) ∧
  (Operation dep ≠ "getenv" → pathExists w' (cdPath dep) = pathExists w (cdPath dep)) ∧
  (Operation dep = "open" → opened w' (cdPath dep) = opened w (cdPath dep)).

(** The texts that are hashed to fingerprint [dep] in [w]. *)
Definition depTexts (w : world) (dep : cacheDependency) : list string :=
  if bool_decide (Operation dep = "getenv") then
    let value := LookupEnv w (cdName dep) in
    [String (if bool_decide (is_Some value) then "001"%char else "000"%char) (default "" value)]
  else
    let path := cdPath dep in
    let state r := match r with inr i => Some (fileInfoState i) | inl _ => None end in
    let err := if bool_decide (statError (Stat w path) = "") then statError (Lstat w path)
               else statError (Stat w path) in
    let canonical := canonicalText w (pathExists w path) err (state (Stat w path)) (state (Lstat w path)) in
    if bool_decide (Operation dep = "open") then
      match opened w path with
      | File data => [data; canonical (hashString data) ""]
      | Directory text => [text; canonical "" (hashString text)]
      | Nothing => [canonical "" ""]
      end
    else [canonical "" ""].

Lemma fingerprintPath_texts w path readContent fd :
  fingerprintPath w path readContent = inr fd →
  ∃ err st lst content directory,
    FingerprintSHA256 fd = hashString (canonicalText w (pathExists w path) err st lst content directory) ∧
    (∀ dep, Operation dep ≠ "getenv" → bool_decide (Operation dep = "open") = readContent → cdPath dep = path →
       canonicalText w (pathExists w path) err st lst content directory ∈ depTexts w dep) ∧
    (allChars hexChar content = true ∧ allChars hexChar directory = true) ∧
    (readContent = true →
       match opened w path with
       | File data => content = hashString data ∧ directory = ""
       | Directory text => content = "" ∧ directory = hashString text
       | Nothing => content = "" ∧ directory = ""
       end).
Proof using Type.
  unfold fingerprintPath. fold (pathExists w path).
  destruct (contentHashes w path readContent) as [|[content directory]] eqn:Hc; [done|]. intros [= <-].
  eexists _, _, _, content, directory. split; [reflexivity|].
  unfold contentHashes in Hc. split; [|split].
  - intros dep Hg Ho <-. unfold depTexts. rewrite (bool_decide_false _ Hg), Ho. unfold opened.
    destruct (Stat w (cdPath dep)) as [e|info]; destruct readContent; simpl in Hc;
      repeat case_match; simplify_eq; set_solver.
  - destruct (Stat w path); repeat case_match; simplify_eq; auto using hashString_hex.
  - intros ->. unfold opened. destruct (Stat w path); simpl in Hc; repeat case_match; by simplify_eq.
Qed.

Lemma canonicalText_shape w ex err st lst c d :
  allChars hexChar c = true → allChars hexChar d = true →
  ∃ prefix, canonicalText w ex err st lst c d =
    ("{" +:+ jsonString "Exists" +:+ ":") +:+ boolString ex +:+ String ","
      ((((prefix +:+ String dquote c) +:+ (String dquote ("," +:+ jsonString "Directory" +:+ ":"))) +:+
        String dquote d) +:+ String dquote "}").
Proof using Type.
  intros Hc Hd. exists (String dquote ("Error" +:+ String dquote (":" +:+ jsonString err +:+ "," +:+
    String dquote ("Stat" +:+ String dquote (":" +:+ marshal (stateJSON w st) +:+ "," +:+
    String dquote ("Lstat" +:+ String dquote (":" +:+ marshal (stateJSON w lst) +:+ "," +:+
    String dquote ("Content" +:+ String dquote ":")))))))).
  unfold canonicalText. cbn [marshal map Join].
  rewrite (jsonString_plain c), (jsonString_plain d) by (by apply hexChar_plain).
  change (jsonString "Exists") with (String dquote ("Exists" +:+ String dquote "")).
  change (jsonString "Error") with (String dquote ("Error" +:+ String dquote "")).
  change (jsonString "Stat") with (String dquote ("Stat" +:+ String dquote "")).
  change (jsonString "Lstat") with (String dquote ("Lstat" +:+ String dquote "")).
  change (jsonString "Content") with (String dquote ("Content" +:+ String dquote "")).
  change (jsonString "Directory") with (String dquote ("Directory" +:+ String dquote "")).
  repeat (rewrite append_assoc || rewrite append_cons || rewrite append_empty_l). reflexivity.
Qed.

Lemma canonicalText_inj w w' ex ex' err err' st st' lst lst' c c' d d' :
  allChars hexChar c = true → allChars hexChar d = true →
  allChars hexChar c' = true → allChars hexChar d' = true →
  canonicalText w ex err st lst c d = canonicalText w' ex' err' st' lst' c' d' →
  ex = ex' ∧ c = c' ∧ d = d'.
Proof using Type.
  intros Hc Hd Hc' Hd' Heq.
  destruct (canonicalText_shape w ex err st lst c d Hc Hd) as [p Hp].
  destruct (canonicalText_shape w' ex' err' st' lst' c' d' Hc' Hd') as [p' Hp'].
  rewrite Hp, Hp' in Heq. clear Hp Hp'.
  apply (inj (String.append _)) in Heq.
  assert (Hex : ex = ex').
  { destruct ex, ex'; try reflexivity; cbn [boolString] in Heq; rewrite !append_cons in Heq; discriminate Heq. }
  subst ex'. split; [done|].
  apply (inj (String.append (boolString ex))) in Heq. injection Heq as Heq.
  apply append_inj_r in Heq. apply lastQuote_inj in Heq as [Heq ->]; [|done..].
  apply append_inj_r in Heq. apply lastQuote_inj in Heq as [_ ->]; done.
Qed.

Lemma collisionFree_eq ts s t :
  collisionFree ts → s ∈ ts → t ∈ ts → hashString s = hashString t → s = t.
Proof using Type.
  unfold collisionFree. rewrite Forall_forall. intros Hcf Hs Ht. apply (proj1 (Forall_forall _ _) (Hcf s Hs) t Ht).
Qed.

Lemma env_unchanged w w' dep now ts :
  collisionFree ts → (∀ t, t ∈ depTexts w dep ++ depTexts w' dep → t ∈ ts) →
  current w dep → currentDependency w' dep = inr now → dependenciesEqual dep now = true →
  Operation dep = "getenv" → LookupEnv w' (cdName dep) = LookupEnv w (cdName dep).
Proof using Type.
  intros Hcf Hts Hcur Hnow Heq Hop.
  unfold current, currentDependency in Hcur, Hnow. rewrite bool_decide_true in Hcur, Hnow by done.
  injection Hcur as Hcur. injection Hnow as <-.
  unfold dependenciesEqual in Heq. rewrite !andb_true_iff, !bool_decide_eq_true in Heq.
  destruct Heq as [[[_ Hv] _] _]. rewrite <- Hcur in Hv. simpl in Hv.
  unfold depTexts in Hts. rewrite (bool_decide_true _ Hop) in Hts.
  eapply collisionFree_eq in Hv; [|exact Hcf|apply Hts; set_solver..].
  clear -Hv. revert Hv. destruct (LookupEnv w' (cdName dep)), (LookupEnv w (cdName dep)); simpl; congruence.
Qed.

Lemma file_unchanged w w' dep now ts :
  collisionFree ts → (∀ t, t ∈ depTexts w dep ++ depTexts w' dep → t ∈ ts) →
  current w dep → currentDependency w' dep = inr now → dependenciesEqual dep now = true →
  Operation dep ≠ "getenv" →
  pathExists w' (cdPath dep) = pathExists w (cdPath dep) ∧
  (Operation dep = "open" → opened w' (cdPath dep) = opened w (cdPath dep)).
Proof using Type.
  intros Hcf Hts Hcur Hnow Heq Hop.
  unfold current, currentDependency in Hcur, Hnow. rewrite (bool_decide_false _ Hop) in Hcur, Hnow.
  destruct (bool_decide (Operation dep ∈ _)); [|done].
  set (open := bool_decide (Operation dep = "open")) in *.
  destruct (fingerprintPath w (cdPath dep) open) as [|fd] eqn:Hf; [done|].
  destruct (fingerprintPath w' (cdPath dep) open) as [|fd'] eqn:Hf'; [done|].
  injection Hcur as Hcur. injection Hnow as <-.
  unfold dependenciesEqual in Heq. rewrite !andb_true_iff, !bool_decide_eq_true in Heq.
  destruct Heq as [_ Hv]. rewrite <- Hcur in Hv. simpl in Hv. injection Hv as Hv.
  apply fingerprintPath_texts in Hf as (err & st & lst & c & d & Hfp & Hin & [Hxc Hxd] & Hyes).
  apply fingerprintPath_texts in Hf' as (err' & st' & lst' & c' & d' & Hfp' & Hin' & [Hxc' Hxd'] & Hyes').
  rewrite Hfp, Hfp' in Hv. specialize (Hin dep Hop eq_refl eq_refl). specialize (Hin' dep Hop eq_refl eq_refl).
  eapply collisionFree_eq in Hv; [|exact Hcf|apply Hts, elem_of_app; auto..].
  apply canonicalText_inj in Hv as (Hex & -> & ->); [|assumption..]. split; [by rewrite Hex|].
  intros Ho. assert (open = true) as Hot by (by apply bool_decide_eq_true).
  specialize (Hyes Hot). specialize (Hyes' Hot).
  assert (Hdata : ∀ v t, v ∈ [w; w'] → opened v (cdPath dep) = File t ∨ opened v (cdPath dep) = Directory t → t ∈ ts).
  { intros v t Hv Hopn. apply Hts, elem_of_app. unfold depTexts.
    rewrite (bool_decide_false _ Hop), !(bool_decide_true _ Ho).
    set_unfold in Hv. destruct Hv as [->|[->|[]]]; [left|right]; destruct Hopn as [->| ->]; left. }
  assert (Hne : ∀ t, hashString t ≠ "") by (intros t He; apply (f_equal String.length) in He; by rewrite length_hashString in He).
  destruct (opened w (cdPath dep)) eqn:E1, (opened w' (cdPath dep)) eqn:E2;
    destruct Hyes as [-> ->], Hyes' as [? ?]; try done; try (by edestruct Hne); f_equal;
    (eapply collisionFree_eq; [exact Hcf|..]; [eapply Hdata; [|rewrite E2]; [set_solver|auto]|eapply Hdata; [|rewrite E1]; [set_solver|auto]|congruence]).
Qed.

(** a log that has just been read validates: every dependency that
    [parseTestLog] returns is still what it is, so a passing result is not
    stored with a dependency that would never match. *)
Theorem parseTestLog_validates w log workDir packageRoot deps :
  parseTestLog w log workDir packageRoot = inr deps → validateDependencies w deps = inr true.
Proof using Type.
  intros Hp%parseTestLog_current. apply validateDependencies_true. intros dep Hdep.
  rewrite Forall_forall in Hp. exists dep. split; [by apply Hp|apply dependenciesEqual_refl].
Qed.

End unchanged.

(** ** Example worlds *)

(** A module at /m with one data file, seen with HOME set to [home] and with
    the data file containing [data]. *)
Definition exampleWorld (home data : string) : world :=
  let fileInfo := FileInfo (strlen data) "-rw-r--r--" true false (1000 * Second) in
  let dirInfo := FileInfo 4096 "drwxr-xr-x" false true (900 * Second) in
  let stat p :=
    if bool_decide (p = "/m/testdata") then inr dirInfo
    else if bool_decide (p = "/m/testdata/in.txt") then inr fileInfo else inl NotExist in
  {| LookupEnv := λ n, if bool_decide (n = "HOME") then Some home else None;
     Stat := stat; Lstat := stat;
     ReadFile := λ p, if bool_decide (p = "/m/testdata/in.txt") then inr data else inl NotExist;
     ReadDir := λ p, if bool_decide (p = "/m/testdata") then inr [("in.txt", inr fileInfo)] else inl NotExist;
     localTime := formatUTC |}.

Definition exampleLog : ioError + list string * option ioError :=
  inr (["# test log"; "getenv HOME"; "chdir testdata"; "open in.txt"; "open ."; "stat /tmp/x"; "stat ../gone";
        "getenv HOME"], None).

Definition exampleDeps (w : world) : list cacheDependency :=
  match parseTestLog (H := testRuntime) w exampleLog "/m" "/m" with inr deps => deps | inl _ => [] end.

Example exampleDeps_shape :
  (λ d, (Operation d, cdPath d)) <$> exampleDeps (exampleWorld "/root" "hi") =
  [("getenv", ""); ("chdir", "/m/testdata"); ("open", "/m/testdata/in.txt"); ("open", "/m/testdata");
   ("stat", "/m/gone"); ("getenv", "")].
Proof. vm_compute. reflexivity. Qed.

Example changed_input :
  validateDependencies (H := testRuntime) (exampleWorld "/root" "ho") (exampleDeps (exampleWorld "/root" "hi")) =
  inr false.
Proof. vm_compute. reflexivity. Qed.

Lemma parseTestLog_validates_witness :
  validateDependencies (H := testRuntime) (exampleWorld "/root" "hi") (exampleDeps (exampleWorld "/root" "hi")) = inr true.
Proof. apply (parseTestLog_validates (H := testRuntime) _ exampleLog "/m" "/m"). vm_compute. reflexivity. Defined.

(** A later world in which only a variable the test did not read differs. *)
Definition laterWorld : world :=
  let w := exampleWorld "/root" "hi" in
  {| LookupEnv := λ n, if bool_decide (n = "TERM") then Some "dumb" else LookupEnv w n;
     Stat := Stat w; Lstat := Lstat w; ReadFile := ReadFile w; ReadDir := ReadDir w; localTime := localTime w |}.


(** ** Names of entries *)

Definition safeChar (a : ascii) : bool := safeRune (byteZ a).

Lemma safeLoop_length n rs : (String.length (safeLoop n rs) ≤ n)%nat.
Proof. revert rs. induction n as [|n IH]; intros [|r rs]; simpl; try lia. specialize (IH rs). lia. Qed.

Lemma safeRune_ascii r : safeRune r = true → 0 ≤ r < 128.
Proof. unfold safeRune. rewrite !orb_true_iff, !andb_true_iff. lia. Qed.

Lemma safeLoop_safe n rs : allChars safeChar (safeLoop n rs) = true.
Proof.
  revert rs. induction n as [|n IH]; intros [|r rs]; simpl; try done. rewrite IH, andb_true_r.
  destruct (safeRune r) eqn:Hr; [|done]. unfold safeChar.
  pose proof (safeRune_ascii r Hr). rewrite byteZ_ofByteZ by lia. done.
Qed.

(** the name of a test becomes a file name part of one to eighty bytes, all
    of them letters, digits, dashes, underscores or dots. *)
Theorem safeCacheName_spec s :
  1 ≤ strlen (safeCacheName s) ≤ 80 ∧ allChars safeChar (safeCacheName s) = true.
Proof.
  unfold safeCacheName. case_bool_decide as Hb; [done|]. split; [|apply safeLoop_safe].
  pose proof (safeLoop_length 80 (runes s)). unfold strlen.
  destruct (safeLoop 80 (runes s)) as [|a t] eqn:E; [done|]. simpl String.length in *. lia.
Qed.
