(* ===== verification/Disk.v ===== *)
(** * Files on disk (package os)

    Directories by their path, each with its entries by name, and the sequence
    of calls by which the result cache and the history store replace a file:
    a temporary file is created beside it, filled, closed and renamed. *)

From S2P Require Import Prelude.

Inductive node := Regular (data : string) | Subdirectory.

#[export] Instance node_eq_dec : EqDecision node.
Proof. solve_decision. Defined.

Abbreviation disk := (gmap string (gmap string node)).

Definition fileAt (d : disk) (dir name : string) : option node := d !! dir ≫= lookup name.

Definition mkdirAll (d : disk) (dir : string) : disk := <[dir := default ∅ (d !! dir)]> d.

Definition putAt (d : disk) (dir name : string) (n : node) : disk :=
  <[dir := <[name := n]> (default ∅ (d !! dir))]> d.

Definition removeAt (d : disk) (dir name : string) : disk := alter (delete name) dir d.

(** What the system answers to the calls of one replacement, and the name it
    chooses for the temporary file. *)
Record writeFaults := WriteFaults {
  mkdirErr : option error;
  createErr : option error;
  chmodErr : option error;
  writeErr : option error;
  closeErr : option error;
  renameErr : option error;
  tempName : string
}.

Record faultFree (f : writeFaults) : Prop := {
  ff_mkdir : mkdirErr f = None;
  ff_create : createErr f = None;
  ff_chmod : chmodErr f = None;
  ff_write : writeErr f = None;
  ff_close : closeErr f = None;
  ff_rename : renameErr f = None
}.

Definition noFaults (temp : string) : writeFaults := WriteFaults None None None None None None temp.

(** From [os.CreateTemp] to [tmp.Close]: the temporary file holds [data], or it
    has been removed again by the deferred [os.Remove]. *)
Definition stage (f : writeFaults) (dir data : string) (d : disk) : option error * disk :=
  match createErr f with
  | Some e => (Some e, d)
  | None =>
      let d1 := putAt d dir (tempName f) (Regular "") in
      match chmodErr f with
      | Some e => (Some e, removeAt d1 dir (tempName f))
      | None =>
          match writeErr f with
          | Some e => (Some e, removeAt d1 dir (tempName f))
          | None =>
              let d2 := putAt d1 dir (tempName f) (Regular data) in
              match closeErr f with
              | Some e => (Some e, removeAt d2 dir (tempName f))
              | None => (None, d2)
              end
          end
      end
  end.

(** [os.Rename] of the temporary file to [name], then the deferred remove. *)
Definition rename (f : writeFaults) (dir name data : string) (d : disk) : option error * disk :=
  match renameErr f with
  | Some e => (Some e, removeAt d dir (tempName f))
  | None => (None, removeAt (putAt (removeAt d dir (tempName f)) dir name (Regular data)) dir (tempName f))
  end.

(** ** Lemmas *)

Section disk.
Implicit Types (d : disk) (dir name : string).

Lemma fileAt_putAt d dir name n : fileAt (putAt d dir name n) dir name = Some n.
Proof using Type. unfold fileAt, putAt. rewrite lookup_insert_eq. cbn [mbind option_bind]. apply lookup_insert_eq. Qed.

Lemma fileAt_putAt_ne d dir name n dir' name' :
  (dir', name') ≠ (dir, name) → fileAt (putAt d dir name n) dir' name' = fileAt d dir' name'.
Proof using Type.
  intros Hne. unfold fileAt, putAt. destruct (decide (dir' = dir)) as [->|Hd].
  - rewrite lookup_insert_eq. cbn [mbind option_bind]. rewrite lookup_insert_ne by congruence. by destruct (d !! dir).
  - by rewrite lookup_insert_ne.
Qed.

Lemma fileAt_removeAt d dir name : fileAt (removeAt d dir name) dir name = None.
Proof using Type. unfold fileAt, removeAt. rewrite lookup_alter_eq. destruct (d !! dir); cbn; [apply lookup_delete_eq|done]. Qed.

Lemma fileAt_removeAt_ne d dir name dir' name' :
  (dir', name') ≠ (dir, name) → fileAt (removeAt d dir name) dir' name' = fileAt d dir' name'.
Proof using Type.
  intros Hne. unfold fileAt, removeAt. destruct (decide (dir' = dir)) as [->|Hd].
  - rewrite lookup_alter_eq. destruct (d !! dir); cbn [fmap option_fmap option_map mbind option_bind]; [|done]. apply lookup_delete_ne. congruence.
  - by rewrite lookup_alter_ne.
Qed.

Lemma fileAt_mkdirAll d dir dir' name : fileAt (mkdirAll d dir) dir' name = fileAt d dir' name.
Proof using Type.
  unfold fileAt, mkdirAll. destruct (decide (dir' = dir)) as [->|Hd].
  - rewrite lookup_insert_eq. by destruct (d !! dir).
  - by rewrite lookup_insert_ne.
Qed.

(** Staging touches nothing but the temporary file, and leaves nothing behind
    when it fails. *)
Lemma stage_other f dir data d dir' name :
  (dir', name) ≠ (dir, tempName f) → fileAt (stage f dir data d).2 dir' name = fileAt d dir' name.
Proof using Type.
  intros Hne. unfold stage. repeat case_match; simpl; rewrite ?fileAt_removeAt_ne, ?fileAt_putAt_ne by done; done.
Qed.

Lemma stage_failed f dir data d e :
  (stage f dir data d).1 = Some e → fileAt d dir (tempName f) = None →
  fileAt (stage f dir data d).2 dir (tempName f) = None.
Proof using Type.
  unfold stage. repeat case_match; simpl; intros Hs Hf; try discriminate Hs; try done; apply fileAt_removeAt.
Qed.

Lemma stage_faultFree f dir data d : faultFree f → (stage f dir data d).1 = None.
Proof using Type. intros [_ H1 H2 H3 H4 _]. unfold stage. by rewrite H1, H2, H3, H4. Qed.

(** After the rename the destination has the data when it succeeded and is as
    it was when it failed; the temporary file is gone; nothing else changed. *)
Lemma rename_spec f dir name data d :
  name ≠ tempName f →
  fileAt (rename f dir name data d).2 dir name =
    (if (rename f dir name data d).1 then fileAt d dir name else Some (Regular data)) ∧
  fileAt (rename f dir name data d).2 dir (tempName f) = None ∧
  (∀ dir' name', (dir', name') ≠ (dir, name) → (dir', name') ≠ (dir, tempName f) →
     fileAt (rename f dir name data d).2 dir' name' = fileAt d dir' name').
Proof using Type.
  intros Hne. unfold rename. destruct (renameErr f); simpl; split_and!; try apply fileAt_removeAt.
  - apply fileAt_removeAt_ne. congruence.
  - intros dir' name' _ Ht. by apply fileAt_removeAt_ne.
  - rewrite fileAt_removeAt_ne by congruence. apply fileAt_putAt.
  - intros dir' name' Hn Ht. by rewrite fileAt_removeAt_ne, fileAt_putAt_ne, fileAt_removeAt_ne.
Qed.
End disk.
