(* ===== verification/ResultCache.v ===== *)
(** * The result cache as the runner sees it (testcache.go)

    The interface [testResultCache], what the runner relies on of it, and the
    implementation on disk, which discharges those laws. *)

From S2P Require Import Prelude GoStrings Path GoFmt Sha256 Quote TestCache Disk.

(** What [Get] returns: an entry, [errTestCacheMiss] or another error. *)
Inductive getResult := Hit (e : testCacheEntry) | Miss | GetError (e : error).

(** [C] is the state behind the interface, [E] what the system answers during
    one call; [ctxErr] is [ctx.Err() != nil]. *)
Class ResultCache (C E : Type) := {
  cacheGet : C → E → bool → testCacheKey → getResult;
  cachePut : C → E → bool → testCacheEntry → option error * C
}.

(** [storable] entries are those the encoding represents exactly, and [healthy]
    answers are those of a system without faults. *)
Class ResultCacheLaws `{GoRuntime} (C E : Type) `{!ResultCache C E} := {
  storable : testCacheEntry → Prop;
  healthy : C → E → testCacheKey → Prop;
  get_matches : ∀ c env canceled key e, cacheGet c env canceled key = Hit e →
    canceled = false ∧ teVersion e = testCacheVersion ∧ id (teKey e) = id key;
  get_put : ∀ c env env' e c', cachePut c env false e = (None, c') →
    storable e → teVersion e = testCacheVersion → healthy c env (teKey e) → healthy c' env' (teKey e) →
    cacheGet c' env' false (teKey e) = Hit e;
  get_put_failed : ∀ c env env' e err c' key, cachePut c env false e = (Some err, c') →
    healthy c env (teKey e) → healthy c' env' key → cacheGet c' env' false key = cacheGet c env' false key
}.

(** ** Encoding *)

(** [json.MarshalIndent] and [json.Unmarshal] at an entry. *)
Class EntryCodec := {
  MarshalEntry : testCacheEntry → result string;
  UnmarshalEntry : string → result testCacheEntry;
  exact : testCacheEntry → Prop;
  (** decoding is the inverse of encoding, and ignores the final newline *)
  Unmarshal_Marshal : ∀ e s, exact e → MarshalEntry e = Ok s → UnmarshalEntry (s +:+ newline) = Ok e
}.

(** ** The implementation on disk *)

(** The answers of the system: those of the calls that write, and the error of
    reading a path, if reading it fails. *)
Record cacheIO := CacheIO {
  ioWrite : writeFaults;
  ioRead : string → option ioError
}.

Section disk.
Context `{GoRuntime} `{EntryCodec} (dir : string).

(** [os.ReadFile] *)
Definition readPath (d : disk) (io : cacheIO) (path : string) : ioError + string :=
  match ioRead io path with
  | Some e => inl e
  | None =>
      match fileAt d (Dir path) (Base path) with
      | Some (Regular data) => inr data
      | Some Subdirectory => inl (IOError "is a directory")
      | None => inl NotExist
      end
  end.

Definition diskGet (d : disk) (io : cacheIO) (ctxErr : bool) (key : testCacheKey) : getResult :=
  if ctxErr then GetError ECanceled
  else
    match readPath d io (entryPath dir key) with
    | inl NotExist => Miss
    | inl (IOError msg) => GetError (EMsg msg)
    | inr data =>
        match UnmarshalEntry data with
        | Err e => GetError (EWrap "decoding cache entry: " e)
        | Ok entry =>
            if negb (teVersion entry =? testCacheVersion) || negb (bool_decide (id (teKey entry) = id key))
            then GetError (EMsg "cache entry key or version mismatch")
            else Hit entry
        end
    end.

Definition diskPut (d : disk) (io : cacheIO) (ctxErr : bool) (entry : testCacheEntry) : option error * disk :=
  if ctxErr then (Some ECanceled, d)
  else
    let path := entryPath dir (teKey entry) in
    let f := ioWrite io in
    match mkdirErr f with
    | Some e => (Some e, d)
    | None =>
        let d := mkdirAll d (Dir path) in
        match MarshalEntry entry with
        | Err e => (Some e, d)
        | Ok data =>
            match stage f (Dir path) (data +:+ newline) d with
            | (Some e, d) => (Some e, d)
            | (None, d) => rename f (Dir path) (Base path) (data +:+ newline) d
            end
        end
    end.

#[export] Instance diskCache : ResultCache disk cacheIO := {
  cacheGet := diskGet;
  cachePut := diskPut
}.

(** Reading does not fail for another reason than absence, and the temporary
    file is a new one beside the entry, as [os.CreateTemp] promises. *)
Definition diskHealthy (d : disk) (io : cacheIO) (key : testCacheKey) : Prop :=
  let path := entryPath dir key in
  ioRead io path = None ∧ fileAt d (Dir path) (tempName (ioWrite io)) = None ∧
  HasPrefix (tempName (ioWrite io)) ".entry-" = true ∧ HasPrefix (Base path) ".entry-" = false.

Lemma diskGet_matches d io c key e :
  diskGet d io c key = Hit e → c = false ∧ teVersion e = testCacheVersion ∧ id (teKey e) = id key.
Proof using Type.
  unfold diskGet. destruct c; [done|]. destruct (readPath _ _ _) as [[]|data]; [done..|].
  destruct (UnmarshalEntry data) as [entry|]; [|done].
  destruct (negb _ || negb _) eqn:Hok; [done|]. intros [= <-].
  apply orb_false_elim in Hok as [Hv%negb_false_iff Hk%negb_false_iff].
  apply Z.eqb_eq in Hv. by apply bool_decide_eq_true in Hk.
Qed.

(** What a [Put] does to the files: the entry's file has the encoded entry when
    it succeeds and is untouched when it fails, and no other file changes. *)
Lemma diskPut_files d io entry :
  let path := entryPath dir (teKey entry) in
  let f := ioWrite io in
  fileAt d (Dir path) (tempName f) = None → Base path ≠ tempName f →
  match diskPut d io false entry with
  | (None, d') => ∃ data, MarshalEntry entry = Ok data ∧
      fileAt d' (Dir path) (Base path) = Some (Regular (data +:+ newline)) ∧
      ∀ dir' name, (dir', name) ≠ (Dir path, Base path) → fileAt d' dir' name = fileAt d dir' name
  | (Some _, d') => ∀ dir' name, fileAt d' dir' name = fileAt d dir' name
  end.
Proof using Type.
  intros path f Hfresh Hne. unfold diskPut. fold path f.
  destruct (mkdirErr f); [done|]. destruct (MarshalEntry entry) as [data|]; [|intros; apply fileAt_mkdirAll].
  pose proof (stage_other f (Dir path) (data +:+ newline) (mkdirAll d (Dir path))) as Hother.
  pose proof (stage_failed f (Dir path) (data +:+ newline) (mkdirAll d (Dir path))) as Hfail.
  destruct (stage f _ _ _) as [[e|] d1]; simpl in Hother, Hfail.
  { intros dir' name. destruct (decide ((dir', name) = (Dir path, tempName f))) as [[= -> ->]|Hn].
    - rewrite Hfresh. apply (Hfail e); [done|]. by rewrite fileAt_mkdirAll.
    - by rewrite Hother, fileAt_mkdirAll. }
  destruct (rename_spec f (Dir path) (Base path) (data +:+ newline) d1 Hne) as (Hdst & Htmp & Hrest).
  assert (Hall : ∀ dir' name, (dir', name) ≠ (Dir path, Base path) →
    fileAt (rename f (Dir path) (Base path) (data +:+ newline) d1).2 dir' name = fileAt d dir' name).
  { intros dir' name Hn. destruct (decide ((dir', name) = (Dir path, tempName f))) as [[= -> ->]|Ht].
    - by rewrite Htmp, Hfresh.
    - by rewrite Hrest, Hother, fileAt_mkdirAll. }
  destruct (rename f _ _ _ d1) as [[e|] d2]; simpl in *.
  - intros dir' name. destruct (decide ((dir', name) = (Dir path, Base path))) as [[= -> ->]|Hn]; [|by apply Hall].
    rewrite Hdst, Hother, fileAt_mkdirAll; [done|]. congruence.
  - by exists data.
Qed.

Lemma healthy_name d io key :
  diskHealthy d io key → Base (entryPath dir key) ≠ tempName (ioWrite io).
Proof using Type. intros (_ & _ & Ht & Hb) Heq. rewrite Heq in Hb. congruence. Qed.

Lemma diskGet_put d io io' e d' :
  diskPut d io false e = (None, d') → exact e → teVersion e = testCacheVersion →
  diskHealthy d io (teKey e) → diskHealthy d' io' (teKey e) → diskGet d' io' false (teKey e) = Hit e.
Proof using Type.
  intros Hput Hst Hv Hh Hh'. pose proof Hh as (_ & Hfresh & _). apply healthy_name in Hh.
  pose proof (diskPut_files d io e Hfresh Hh) as Hf. rewrite Hput in Hf.
  destruct Hf as (data & Hm & Hat & _). destruct Hh' as (Hr & _).
  unfold diskGet, readPath. rewrite Hr, Hat, (Unmarshal_Marshal e data Hst Hm), Hv.
  rewrite bool_decide_true by done. done.
Qed.

#[export] Instance diskCacheLaws : ResultCacheLaws disk cacheIO.
Proof using Type.
  refine {| storable := exact; healthy := diskHealthy |}.
  - apply diskGet_matches.
  - apply diskGet_put.
  - intros d io io' e err d' key Hput Hh Hh'. pose proof Hh as (_ & Hfresh & _). apply healthy_name in Hh.
    pose proof (diskPut_files d io e Hfresh Hh) as Hf. change (diskPut d io false e = (Some err, d')) in Hput. rewrite Hput in Hf.
    change (diskGet d' io' false key = diskGet d io' false key). unfold diskGet, readPath. by rewrite Hf.
Defined.
End disk.

(** C15: the result cache on disk is a map that is updated atomically.  A [Put]
    that succeeds makes the next [Get] of its key return the entry; a [Put]
    that fails, wherever it fails, changes the answer to no key; and either way
    a key whose entry lives in another file keeps its answer.  The temporary
    file is never left behind. *)
Theorem diskPut_atomic `{GoRuntime} `{EntryCodec} dir d io io' ctxErr entry d' err key :
  diskHealthy dir d io (teKey entry) → diskHealthy dir d' io' (teKey entry) →
  exact entry → teVersion entry = testCacheVersion →
  diskPut dir d io ctxErr entry = (err, d') →
  diskGet dir d' io' false (teKey entry) =
    (if err then diskGet dir d io' false (teKey entry) else Hit entry) ∧
  (err ≠ None ∨ (Dir (entryPath dir key), Base (entryPath dir key)) ≠
     (Dir (entryPath dir (teKey entry)), Base (entryPath dir (teKey entry))) →
   diskGet dir d' io' false key = diskGet dir d io' false key) ∧
  fileAt d' (Dir (entryPath dir (teKey entry))) (tempName (ioWrite io)) = None.
Proof.
  intros Hh Hh' Hex Hv Hput. pose proof Hh as (_ & Hfresh & _). pose proof (healthy_name _ _ _ _ Hh) as Hne.
  destruct ctxErr; [by injection Hput as <- <-|].
  pose proof (diskPut_files dir d io entry Hfresh Hne) as Hf. rewrite Hput in Hf.
  destruct err as [err|].
  - split_and!; [unfold diskGet, readPath; by rewrite Hf..|by rewrite Hf].
  - destruct Hf as (data & Hm & Hat & Hother). split_and!.
    + by apply (diskGet_put dir d io).
    + intros [?|Hk]; [done|]. unfold diskGet, readPath. by rewrite Hother.
    + rewrite Hother; [done|congruence].
Qed.

(** An encoding of one entry, for the example. *)
Definition exampleEntry : testCacheEntry :=
  TestCacheEntry testCacheVersion (TestCacheKey "ab12" "m/p" "TestA" "/m/p" []) 7 1000 [].

Definition exampleCodec : EntryCodec.
Proof.
  refine {| MarshalEntry := λ _, Ok "{}"; exact := λ e, e = exampleEntry;
            UnmarshalEntry := λ s, if String.eqb s ("{}" +:+ newline) then Ok exampleEntry else Err (EMsg "syntax") |}.
  intros e s -> [= <-]. reflexivity.
Defined.

Definition exampleIO : cacheIO := CacheIO (noFaults ".entry-1") (λ _, None).

Definition exampleDisk : disk :=
  (diskPut (H := testRuntime) (H0 := exampleCodec) "/c" ∅ exampleIO false exampleEntry).2.

Lemma diskPut_atomic_witness :
  diskGet (H := testRuntime) (H0 := exampleCodec) "/c" exampleDisk exampleIO false (teKey exampleEntry) = Hit exampleEntry.
Proof.
  assert (Hs : diskHealthy (H := testRuntime) "/c" ∅ exampleIO (teKey exampleEntry)) by
    (split_and!; vm_compute; reflexivity).
  assert (Hs' : diskHealthy (H := testRuntime) "/c" exampleDisk exampleIO (teKey exampleEntry)) by
    (split_and!; vm_compute; reflexivity).
  assert (Hp : diskPut (H := testRuntime) (H0 := exampleCodec) "/c" ∅ exampleIO false exampleEntry = (None, exampleDisk)) by
    (vm_compute; reflexivity).
  exact (proj1 (diskPut_atomic (H := testRuntime) (H0 := exampleCodec) "/c" ∅ exampleIO exampleIO false exampleEntry
    exampleDisk None (teKey exampleEntry) Hs Hs' eq_refl eq_refl Hp)).
Defined.
