(* ===== verification/Server.v ===== *)
(** * The state of a run (gotst.go, [Server])

    The packages of a run with the status of their tests, the counters the
    progress display and the summaries read, and the operations the runner and
    the fleet update them with.  The Go code holds [s.mu] for the whole of each
    of these operations, so each is one step.

    The maps hold pointers to mutable structs that are reachable only through
    their map; a struct updated in place is the map with that entry replaced.
    Dereferencing a missing entry panics in Go: an operation that would do so
    returns [None] here, and [known] is the condition under which it cannot. *)

From Stdlib Require Import Ascii.
From S2P Require Import Prelude GoStrings Flags Path Profile Utf8 Invocation GoFmt Args Sha256 Quote HistoryTypes TestCache.

(** ** Data *)

Record goListPackage := GoListPackage {
  glDir : string;
  ImportPath : string;
  glName : string;
  TestGoFiles : list string;
  XTestGoFiles : list string;
  glRoot : string
}.

Inductive pkgState := pkgStateDiscovered | pkgStateBuilt | pkgStateTesting | pkgStateDone.

#[export] Instance pkgState_eq_dec : EqDecision pkgState.
Proof. solve_decision. Defined.

Record failInfo := FailInfo {
  fiDur : Duration;
  fiOut : string
}.

Record testStatus := TestStatus {
  running : bool;
  done : bool; (** passed, or reached the maximum of failures *)
  passed : bool;
  passedIn : Duration;
  cached : bool;
  fails : list failInfo;
  attempts : Z;
  attrs : gmap string string;
  started : Time;
  tsChanged : Time
}.

#[export] Instance eta_testStatus : Eta testStatus := λ t,
  TestStatus (running t) (done t) (passed t) (passedIn t) (cached t) (fails t) (attempts t)
    (attrs t) (started t) (tsChanged t).

Definition zeroTestStatus : testStatus :=
  TestStatus false false false 0 false [] 0 ∅ zeroTime zeroTime.

Record packageStatus := PackageStatus {
  glp : goListPackage;
  psState : pkgState;
  exeHash : string; (** empty until the binary is captured *)
  exeSize : Z;
  exeCached : bool;
  psWorkDir : string;
  exeArgs : list string;
  psTests : option (gmap string testStatus); (** [None]: nil, not listed *)
  numFails : Z;
  runErr : string;
  runIn : Duration;
  psChanged : Time
}.

#[export] Instance eta_packageStatus : Eta packageStatus := λ p,
  PackageStatus (glp p) (psState p) (exeHash p) (exeSize p) (exeCached p) (psWorkDir p)
    (exeArgs p) (psTests p) (numFails p) (runErr p) (runIn p) (psChanged p).

(** Ranging over, and reading from, a nil map. *)
Definition testsOf (ps : packageStatus) : gmap string testStatus := default ∅ (psTests ps).

Inductive runPhase :=
  | phaseNone | phaseDiscovering | phaseBuilding | phaseListing | phaseTesting | phaseDone | phaseFailed.

#[export] Instance runPhase_eq_dec : EqDecision runPhase.
Proof. solve_decision. Defined.

Record testEstimate := TestEstimate {
  teDuration : Duration;
  teKnown : bool
}.

(** What a lookup of an absent key yields. *)
Definition zeroEstimate : testEstimate := TestEstimate 0 false.

Record Server := MkServer {
  sStart : Time;
  cacheDir : string;
  canceled : bool; (** [s.ctx.Err() != nil] *)
  sProfile : runProfile;
  sTests : testSelection;
  hasTestCache : bool; (** [s.testCache != nil] *)
  hasHistory : bool;   (** [s.history != nil] *)
  captureHistory : bool;
  quiet : bool;
  pkgs : gmap string packageStatus; (** by import path *)
  pkgsWithTests : Z;
  buildDepsTotal : Z;
  buildDepsFresh : Z;
  buildDepsCached : Z;
  buildDepFresh : gset string;
  buildDepCached : gset string;
  buildActionToPkg : gmap string string;
  buildActionMapDir : string;
  phase : runPhase;
  phaseStarts : list (runPhase * Time);
  testsTotal : Z;
  cacheChecks : Z;
  cacheHits : Z;
  failFastTriggered : bool;
  debugPass : Z;
  debugMisses : Z;
  debugSeedErrors : gmap string string;
  historyLoaded : bool;
  histories : gmap string History;
  historyPending : list Observation;
  testSchedule : list string;
  testEstimates : gmap string testEstimate;
  testEstimateBase : Duration;
  testEstimateReady : bool;
  sOut : list string (** the writes to stdout, in order *)
}.

#[export] Instance eta_Server : Eta Server := λ s,
  MkServer (sStart s) (cacheDir s) (canceled s) (sProfile s) (sTests s) (hasTestCache s)
    (hasHistory s) (captureHistory s) (quiet s) (pkgs s) (pkgsWithTests s) (buildDepsTotal s)
    (buildDepsFresh s) (buildDepsCached s) (buildDepFresh s) (buildDepCached s)
    (buildActionToPkg s) (buildActionMapDir s) (phase s) (phaseStarts s) (testsTotal s)
    (cacheChecks s) (cacheHits s) (failFastTriggered s) (debugPass s) (debugMisses s)
    (debugSeedErrors s) (historyLoaded s) (histories s) (historyPending s) (testSchedule s)
    (testEstimates s) (testEstimateBase s) (testEstimateReady s) (sOut s).

#[export] Instance Server_inhabited : Inhabited Server :=
  populate (MkServer 0 "" false zeroProfile (TestSelection [] []) false false false false ∅ 0 0 0 0
    ∅ ∅ ∅ "" phaseNone [] 0 0 0 false 0 0 ∅ false ∅ [] [] ∅ 0 false []).

(** [s.pkgs[pkg].tests[test]], with both pointers dereferenced. *)
Definition testAt (s : Server) (task : testTask) : option (packageStatus * testStatus) :=
  ps ← pkgs s !! pkg (bin task);
  ts ← testsOf ps !! test task;
  Some (ps, ts).

(** Update in place of a package, and of a test of a package. *)
Definition putPkg (s : Server) (name : string) (ps : packageStatus) : Server :=
  s <| pkgs ::= <[name := ps]> |>.

Definition putTest (ps : packageStatus) (name : string) (ts : testStatus) : packageStatus :=
  ps <| psTests := Some (<[name := ts]> (testsOf ps)) |>.

(** ** Names and identities *)

Definition isRunnableTopLevelTest (name : string) : bool :=
  HasPrefix name "Test" || HasPrefix name "Fuzz" || HasPrefix name "Example".

Definition hasTests (p : goListPackage) : bool :=
  negb (bool_decide (TestGoFiles p = [])) || negb (bool_decide (XTestGoFiles p = [])).

(** The identity of a test in the schedule and the estimates. *)
Definition taskID (task : testTask) : string := pkg (bin task) +:+ nul +:+ test task.

Definition cacheKeyForTask (f : flags) (s : Server) (task : testTask) : testCacheKey := {|
  BinarySHA256 := binHash (absBin (bin task));
  ckPackage := pkg (bin task);
  ckTest := test task;
  WorkingDir := workDir (bin task);
  ckArgs := effectiveTestArgs f task (sProfile s)
|}.

Definition historyKeyForTask `{GoRuntime} (f : flags) (task : testTask) (profile : runProfile) : Key := {|
  kPackage := pkg (bin task);
  kTest := test task;
  kGOOS := GOOS;
  kGOARCH := GOARCH;
  kTags := sort_strings (Tags profile);
  kArgs := effectiveTestArgs f task profile
|}.

(** ** Operations *)

(** Whether a run has a history store; [None] is a fatal configuration error.
    [localOK] and [httpOK] are whether the store could be created. *)
Definition historyEnabled (f : flags) (localOK httpOK : bool) : option bool :=
  let c := historyConfig f in
  if bool_decide (c = "off") then Some false
  else if bool_decide (c = "local") || bool_decide (c = "") then Some localOK
  else if HasPrefix c "http://" || HasPrefix c "https://" then if httpOK then Some true else None
  else None.

(** [NewServer]; [None] is a fatal error.  [cacheOK], [localOK] and [httpOK] are
    whether the result cache and the history stores could be created, [root]
    the cache root and [dir] the fresh per-run cache directory. *)
Definition NewServer (f : flags) (profile : runProfile) (tests : testSelection)
    (cacheOK localOK httpOK : bool) (root dir : string) (now : Time) : option Server :=
  let cache := useCache f && negb (testCountSet f) in
  if cache && negb cacheOK then None
  else
    hist ← historyEnabled f localOK httpOK;
    Some {|
      sStart := now; cacheDir := dir; canceled := false; sProfile := profile; sTests := tests;
      hasTestCache := cache; hasHistory := hist; captureHistory := false; quiet := false;
      pkgs := ∅; pkgsWithTests := 0; buildDepsTotal := 0; buildDepsFresh := 0; buildDepsCached := 0;
      buildDepFresh := ∅; buildDepCached := ∅; buildActionToPkg := ∅;
      buildActionMapDir := PathJoin [root; "build-actions"; "v1"];
      phase := phaseNone; phaseStarts := []; testsTotal := 0; cacheChecks := 0; cacheHits := 0;
      failFastTriggered := false; debugPass := 0; debugMisses := 0; debugSeedErrors := ∅;
      historyLoaded := false; histories := ∅; historyPending := []; testSchedule := [];
      testEstimates := ∅; testEstimateBase := 0; testEstimateReady := false; sOut := []
    |}.

Definition addPackage (s : Server) (p : goListPackage) (now : Time) : Server :=
  let st := PackageStatus p pkgStateDiscovered "" 0 false "" [] None 0 "" 0 now in
  let s := putPkg s (ImportPath p) st in
  if hasTests p then s <| pkgsWithTests ::= Z.succ |> else s.

Definition setPhase (s : Server) (p : runPhase) (now : Time) : Server :=
  s <| phase := p |> <| phaseStarts ::= λ l, l ++ [(p, now)] |>.

Definition triggerFailFast (s : Server) : bool * Server :=
  if failFastTriggered s then (false, s)
  else (true, s <| failFastTriggered := true |> <| canceled := true |>).

Definition packageRoot (s : Server) (name : string) : option string :=
  ps ← pkgs s !! name; Some (glRoot (glp ps)).

(** Marking a test as running, the critical section of [runTest]. *)
Definition startTest (s : Server) (task : testTask) (now : Time) : option Server :=
  '(ps, ts) ← testAt s task;
  let ts := ts <| running := true |> <| started := now |> <| tsChanged := now |> in
  Some (putPkg s (pkg (bin task))
    ((putTest ps (test task) ts) <| psState := pkgStateTesting |> <| psChanged := now |>)).

Definition recordTestAttempt (s : Server) (task : testTask) : option Server :=
  '(ps, ts) ← testAt s task;
  Some (putPkg s (pkg (bin task)) (putTest ps (test task) (ts <| attempts ::= Z.succ |>))).

Definition recordTestAttrs (s : Server) (task : testTask) (new : gmap string string)
    : option Server :=
  if bool_decide (new = ∅) then Some s
  else
    '(ps, ts) ← testAt s task;
    Some (putPkg s (pkg (bin task)) (putTest ps (test task) (ts <| attrs ::= λ old, new ∪ old |>))).

Definition stopRunningTest (s : Server) (task : testTask) (now now' : Time) : option Server :=
  '(ps, ts) ← testAt s task;
  let ts := ts <| running := false |> <| tsChanged := now |> in
  Some (putPkg s (pkg (bin task)) ((putTest ps (test task) ts) <| psChanged := now' |>)).

(** Every runnable test of the map is done. *)
Definition allRunnableDone (tests : gmap string testStatus) : bool :=
  bool_decide (map_Forall (λ name status, isRunnableTopLevelTest name = true → done status = true) tests).

Definition finishTestLocked (s : Server) (task : testTask) (pass : bool) (d : Duration)
    (failures : list failInfo) (err : option error) (fromCache : bool) (now : Time)
    : option Server :=
  '(ps, ts) ← testAt s task;
  let ts := ts <| running := false |> <| done := true |> <| passed := pass |>
               <| cached := fromCache |> <| fails ::= λ l, l ++ failures |> <| tsChanged := now |> in
  let ts := if pass then ts <| passedIn := d |> else ts in
  let ps := (putTest ps (test task) ts) <| psChanged := now |> in
  let ps :=
    if pass then ps
    else
      let ps := ps <| numFails ::= Z.succ |> in
      match err with Some e => ps <| runErr := Error e |> | None => ps end in
  let ps := ps <| runIn ::= λ r, i64 (r + d) |> in
  let ps := if allRunnableDone (testsOf ps) then ps <| psState := pkgStateDone |> else ps in
  Some (putPkg s (pkg (bin task)) ps).

Abbreviation finishTest := finishTestLocked (only parsing).

Definition setDebugSeedError `{GoRuntime} (s : Server) (key : testCacheKey) (reason : string) : Server :=
  if bool_decide (default "" (debugSeedErrors s !! id key) = "")
  then s <| debugSeedErrors ::= <[id key := reason]> |> else s.

Definition tab : string := String "009"%char "".

Definition printTestResult (f : flags) (s : Server) (task : testTask) (d : Duration)
    (fromCache pass : bool) (output : string) : Server :=
  if quiet s || (pass && negb (verbose f)) then s
  else
    let p := pkg (bin task) in
    let lines :=
      if negb pass then
        ["FAILED: " +:+ p +:+ "." +:+ test task +:+ newline; output;
         "FAIL" +:+ tab +:+ p +:+ tab +:+ test task +:+ tab +:+ DurationString d +:+ newline]
      else if fromCache then
        ["ok  " +:+ tab +:+ p +:+ tab +:+ test task +:+ tab +:+ "(cached)" +:+ newline]
      else
        ["ok  " +:+ tab +:+ p +:+ tab +:+ test task +:+ tab +:+ DurationString d +:+ newline] in
    s <| sOut ::= λ l, l ++ lines |>.

(** ** Binaries and tasks *)

Definition capturedTestBinaries (s : Server) : list capturedTestBinary :=
  let bins := omap (λ '(name, ps),
      if bool_decide (exeHash ps = "") then None
      else Some (CapturedTestBinary name (PathJoin [cacheDir s; exeHash ps]) (psWorkDir ps) (exeArgs ps)))
    (map_to_list (pkgs s)) in
  sort_by (λ a b, Compare (pkg a) (pkg b)) bins.

(** The runnable tests of a package, sorted. *)
Definition runnableTests (ps : packageStatus) : list string :=
  sort_strings (filter (λ name, isRunnableTopLevelTest name = true) (map_to_list (testsOf ps)).*1).

(** One iteration of [allTestTasks]. *)
Definition binTasks (acc : Server * list testTask) (b : capturedTestBinary) (now : Time)
    : option (Server * list testTask) :=
  let '(s, tasks) := acc in
  ps ← pkgs s !! pkg b;
  let tests := runnableTests ps in
  let s := match tests with
           | [] => putPkg s (pkg b) (ps <| psState := pkgStateDone |> <| psChanged := now |>)
           | _ => s
           end in
  Some (s, tasks ++ (TestTask b <$> tests)).

Definition allTestTasks (s : Server) (now : Time) : option (Server * list testTask) :=
  foldl (λ acc b, acc ≫= λ acc, binTasks acc b now) (Some (s, [])) (capturedTestBinaries s).

(** [None] is the fatal internal error of an unknown package. *)
Definition setPackageTests (s : Server) (name : string) (tests : list string) (now : Time)
    : option Server :=
  ps ← pkgs s !! name;
  let wanted := filter (λ test, wants (sTests s) name test = true) tests in
  let m := foldl (λ m test, <[test := zeroTestStatus <| tsChanged := now |>]> m) ∅ wanted in
  let n := Z.of_nat (length (filter (λ test, isRunnableTopLevelTest test = true) wanted)) in
  Some ((putPkg s name (ps <| psTests := Some m |> <| psChanged := now |>))
          <| testsTotal ::= λ t, t + n |>).

(** The names [validateSelectedTests] reports as missing. *)
Definition validateSelectedTests (s : Server) : list string :=
  if negb (active (sTests s)) then []
  else
    let found : gset string :=
      map_fold (λ name ps acc,
        map_fold (λ test _ acc,
          let acc := if bool_decide (test ∈ unqualified (sTests s)) then {[test]} ∪ acc else acc in
          foldl (λ acc q,
            if bool_decide (packagePath q = name) && bool_decide (qName q = test)
            then {[packageSpec q +:+ "." +:+ qName q]} ∪ acc else acc)
            acc (qualified (sTests s)))
          acc (testsOf ps)) ∅ (pkgs s) in
    describeMissing (sTests s) found.

(** ** What every run maintains *)

(** Both pointers of [s.pkgs[pkg].tests[test]] are there. *)
Definition known (s : Server) (task : testTask) : Prop := is_Some (testAt s task).

Definition failedTest (ts : testStatus) : bool := done ts && negb (passed ts).

Record test_ok (ts : testStatus) : Prop := {
  to_running : done ts = true → running ts = false;
  to_passed : passed ts = true → done ts = true
}.

Record package_ok (ps : packageStatus) : Prop := {
  po_tests : map_Forall (λ _, test_ok) (testsOf ps);
  po_fails : numFails ps = map_count failedTest (testsOf ps);
  po_state : psState ps = pkgStateDone → allRunnableDone (testsOf ps) = true
}.

Definition server_ok (s : Server) : Prop := map_Forall (λ _, package_ok) (pkgs s).

Lemma testAt_Some s task ps ts :
  testAt s task = Some (ps, ts) ↔
  pkgs s !! pkg (bin task) = Some ps ∧ testsOf ps !! test task = Some ts.
Proof.
  unfold testAt. destruct (pkgs s !! _) as [ps'|]; simpl; [|naive_solver].
  destruct (testsOf ps' !! _) eqn:E; simpl; naive_solver.
Qed.

Lemma testsOf_putTest ps name ts : testsOf (putTest ps name ts) = <[name := ts]> (testsOf ps).
Proof. done. Qed.

(** Looking up a test after a package has been replaced by one whose tests are
    the old ones with one entry replaced. *)
Lemma testAt_put s task ps ps' ts task' :
  testsOf ps' = <[test task := ts]> (testsOf ps) → pkgs s !! pkg (bin task) = Some ps →
  testAt (putPkg s (pkg (bin task)) ps') task' =
    if decide (pkg (bin task') = pkg (bin task)) then
      if decide (test task' = test task) then Some (ps', ts)
      else (λ x, (ps', x.2)) <$> testAt s task'
    else testAt s task'.
Proof.
  intros Hps' Hps. unfold testAt. simpl. case_decide as Hp.
  - rewrite Hp, lookup_insert_eq, Hps. simpl. rewrite Hps'. case_decide as Ht.
    + by rewrite Ht, lookup_insert_eq.
    + rewrite lookup_insert_ne by done. by destruct (testsOf ps !! _).
  - by rewrite lookup_insert_ne by done.
Qed.

Lemma known_put s task ps ps' ts task' :
  testsOf ps' = <[test task := ts]> (testsOf ps) → testAt s task = Some (ps, ts) ∨
    (∃ ts0, testAt s task = Some (ps, ts0)) →
  known s task' → known (putPkg s (pkg (bin task)) ps') task'.
Proof.
  intros Hps' Hat Hk. unfold known in *.
  assert (pkgs s !! pkg (bin task) = Some ps) by
    (destruct Hat as [?%testAt_Some|[? ?%testAt_Some]]; tauto).
  erewrite testAt_put by done. repeat case_decide; eauto.
  by apply fmap_is_Some.
Qed.

Lemma server_ok_pkgs s s' : pkgs s' = pkgs s → server_ok s → server_ok s'.
Proof. unfold server_ok. by intros ->. Qed.

Lemma server_ok_put s name ps :
  server_ok s → package_ok ps → server_ok (putPkg s name ps).
Proof. intros Hs Hps. by apply map_Forall_insert_2. Qed.

Lemma allRunnableDone_true m :
  allRunnableDone m = true ↔
  ∀ name ts, m !! name = Some ts → isRunnableTopLevelTest name = true → done ts = true.
Proof. unfold allRunnableDone. by rewrite bool_decide_eq_true. Qed.

(** Replacing a test's status, with the count of failures adjusted, keeps a
    package consistent. *)
Lemma package_ok_put ps ps' name ts ts' :
  package_ok ps → testsOf ps !! name = Some ts → test_ok ts' →
  testsOf ps' = <[name := ts']> (testsOf ps) →
  numFails ps' = numFails ps + (if failedTest ts' then 1 else 0) - (if failedTest ts then 1 else 0) →
  (psState ps' = pkgStateDone →
    allRunnableDone (testsOf ps') = true ∨ psState ps = pkgStateDone ∧ done ts' = true) →
  package_ok ps'.
Proof.
  intros [Ht Hf Hst] Hl Hts' Htests Hn Hdone. constructor.
  - rewrite Htests. by apply map_Forall_insert_2.
  - rewrite Hn, Hf, Htests. by rewrite (map_count_insert _ _ _ ts).
  - intros H. destruct (Hdone H) as [?|[Hold Hd]]; [done|].
    specialize (Hst Hold). rewrite allRunnableDone_true in Hst |- *.
    rewrite Htests. intros n t. destruct (decide (n = name)) as [->|].
    + rewrite lookup_insert_eq. by intros [= <-].
    + rewrite lookup_insert_ne by done. eauto.
Qed.

(** [finishTestLocked] on a known test that is not done: the result is
    recorded, nothing else changes, and the consistency of the state is kept. *)
Lemma finishTestLocked_spec s task pass d failures err fromCache now ps ts :
  testAt s task = Some (ps, ts) → done ts = false → server_ok s →
  ∃ s' ps' ts',
    finishTestLocked s task pass d failures err fromCache now = Some s' ∧
    s' = putPkg s (pkg (bin task)) ps' ∧ server_ok s' ∧
    testsOf ps' = <[test task := ts']> (testsOf ps) ∧
    done ts' = true ∧ running ts' = false ∧ passed ts' = pass ∧ cached ts' = fromCache ∧
    fails ts' = fails ts ++ failures ∧ attempts ts' = attempts ts ∧ attrs ts' = attrs ts ∧
    numFails ps' = numFails ps + (if pass then 0 else 1) ∧
    runIn ps' = i64 (runIn ps + d) ∧
    (allRunnableDone (testsOf ps') = true → psState ps' = pkgStateDone) ∧
    (allRunnableDone (testsOf ps') = false → psState ps' = psState ps).
Proof.
  intros Hat Hd Hok. pose proof Hat as [Hps Hts]%testAt_Some.
  assert (Hpok : package_ok ps) by (by eapply (map_Forall_lookup_1 _ _ _ _ Hok)).
  assert (Htok : test_ok ts) by (by eapply (map_Forall_lookup_1 _ _ _ _ (po_tests _ Hpok))).
  assert (Hnp : passed ts = false).
  { destruct (passed ts) eqn:E; [|done]. apply (to_passed _ Htok) in E. congruence. }
  assert (Hnf : failedTest ts = false) by (unfold failedTest; by rewrite Hd).
  unfold finishTestLocked. rewrite Hat. cbn [mbind option_bind].
  match goal with |- context [putTest ps (test task) ?t] => set (ts' := t) end.
  match goal with |- context [if allRunnableDone (testsOf ?p) then _ else _] => set (ps1 := p) end.
  set (ps' := if allRunnableDone (testsOf ps1) then ps1 <| psState := pkgStateDone |> else ps1).
  assert (Hts' : done ts' = true ∧ running ts' = false ∧ passed ts' = pass ∧
    cached ts' = fromCache ∧ fails ts' = fails ts ++ failures ∧ attempts ts' = attempts ts ∧
    attrs ts' = attrs ts) by (unfold ts'; by destruct pass).
  destruct Hts' as (Hdone & Hrun & Hpass & Hcached & Hfails & Hatt & Hattr).
  assert (Hps1 : testsOf ps1 = <[test task := ts']> (testsOf ps) ∧
    numFails ps1 = numFails ps + (if pass then 0 else 1) ∧ psState ps1 = psState ps ∧
    runIn ps1 = i64 (runIn ps + d)).
  { unfold ps1. destruct pass, err; simpl; split_and!; try done; lia. }
  assert (Hps' : testsOf ps' = testsOf ps1 ∧ numFails ps' = numFails ps1 ∧ runIn ps' = runIn ps1 ∧
    psState ps' = if allRunnableDone (testsOf ps1) then pkgStateDone else psState ps1).
  { unfold ps'. by destruct (allRunnableDone _). }
  clearbody ts' ps' ps1.
  destruct Hps1 as (Ht1 & Hn1 & Hs1 & Hr1), Hps' as (Ht' & Hn' & Hr' & Hs').
  exists (putPkg s (pkg (bin task)) ps'), ps', ts'. rewrite Hn', Hr', Hn1, Ht'. split_and!; try done.
  - apply server_ok_put; [done|]. apply (package_ok_put ps ps' (test task) ts ts'); try done.
    + by rewrite Ht'.
    + rewrite Hn', Hn1, Hnf. unfold failedTest. rewrite Hdone, Hpass. destruct pass; simpl; lia.
    + intros H. rewrite Ht'. destruct (allRunnableDone (testsOf ps1)); [by left|].
      right. by rewrite <- Hs1, <- Hs'.
  - intros E. by rewrite E in Hs'.
  - intros E. by rewrite E, Hs1 in Hs'.
Qed.

(** ** The tasks of a run *)

Definition binaryOf (s : Server) (name : string) (ps : packageStatus) : capturedTestBinary :=
  CapturedTestBinary name (PathJoin [cacheDir s; exeHash ps]) (psWorkDir ps) (exeArgs ps).

Lemma elem_of_capturedTestBinaries s b :
  b ∈ capturedTestBinaries s ↔
  ∃ ps, pkgs s !! pkg b = Some ps ∧ exeHash ps ≠ "" ∧ b = binaryOf s (pkg b) ps.
Proof.
  unfold capturedTestBinaries. rewrite elem_of_sort_by, list_elem_of_omap. split.
  - intros ([name ps] & Hin%elem_of_map_to_list & Hb).
    destruct (bool_decide _) eqn:E; [done|]. apply bool_decide_eq_false in E.
    injection Hb as <-. by exists ps.
  - intros (ps & Hps & Hh & ->). exists (pkg b, ps). split; [by apply elem_of_map_to_list|].
    by rewrite bool_decide_eq_false_2.
Qed.

Lemma NoDup_capturedTestBinaries s : NoDup (pkg <$> capturedTestBinaries s).
Proof.
  unfold capturedTestBinaries. rewrite sort_by_perm.
  pose proof (NoDup_fst_map_to_list (pkgs s)) as H.
  induction (map_to_list (pkgs s)) as [|[name ps] l IH]; [constructor|].
  rewrite fmap_cons in H. apply NoDup_cons in H as [Hn H]. cbn [omap list_omap].
  destruct (bool_decide _); [by apply IH|]. rewrite fmap_cons. apply NoDup_cons. split; [|by apply IH].
  intros (b & Hb & Hin)%list_elem_of_fmap. apply list_elem_of_omap in Hin as ([n p] & Hin & Hp).
  destruct (bool_decide _) in Hp; [done|]. injection Hp as <-. simpl in Hb. subst n.
  apply Hn. by apply (list_elem_of_fmap_2 fst) in Hin.
Qed.

Lemma elem_of_runnableTests ps t :
  t ∈ runnableTests ps ↔ is_Some (testsOf ps !! t) ∧ isRunnableTopLevelTest t = true.
Proof.
  unfold runnableTests, sort_strings. rewrite elem_of_sort_by, list_elem_of_filter.
  rewrite list_elem_of_fmap. split.
  - intros [Hr ([n ts] & -> & Hin%elem_of_map_to_list)]. by eauto.
  - intros [[ts Hts] Hr]. split; [done|]. exists (t, ts). by rewrite elem_of_map_to_list.
Qed.

Lemma NoDup_runnableTests ps : NoDup (runnableTests ps).
Proof.
  unfold runnableTests, sort_strings. rewrite sort_by_NoDup.
  apply NoDup_filter, NoDup_fst_map_to_list.
Qed.

(** Two states with the same tests in every package. *)
Definition same_tests (s s' : Server) : Prop :=
  ∀ name, testsOf <$> pkgs s' !! name = testsOf <$> pkgs s !! name.

#[export] Instance same_tests_equiv : Equivalence same_tests.
Proof.
  split.
  - by intros s name.
  - by intros s s' H name.
  - intros s s' s'' H H' name. by rewrite H', H.
Qed.

Lemma same_tests_lookup s s' name ps :
  same_tests s s' → pkgs s !! name = Some ps →
  ∃ ps', pkgs s' !! name = Some ps' ∧ testsOf ps' = testsOf ps.
Proof.
  intros Hs Hps. specialize (Hs name). rewrite Hps in Hs.
  destruct (pkgs s' !! name) as [ps'|]; [|done]. injection Hs as Hs. by exists ps'.
Qed.

Lemma runnableTests_cong ps ps' : testsOf ps = testsOf ps' → runnableTests ps = runnableTests ps'.
Proof. unfold runnableTests. by intros ->. Qed.

Lemma binTasks_spec s s0 tasks b ps now :
  server_ok s → same_tests s0 s → pkgs s0 !! pkg b = Some ps →
  ∃ s', binTasks (s, tasks) b now = Some (s', tasks ++ (TestTask b <$> runnableTests ps)) ∧
    server_ok s' ∧ same_tests s0 s'.
Proof.
  intros Hok Hsame Hps. destruct (same_tests_lookup _ _ _ _ Hsame Hps) as (ps' & Hps' & Ht).
  unfold binTasks. rewrite Hps'. simpl. rewrite (runnableTests_cong _ _ Ht).
  destruct (runnableTests ps) eqn:Er; [|by eauto]. eexists. split_and!; [done| |].
  - apply server_ok_put; [done|].
    destruct (map_Forall_lookup_1 _ _ _ _ Hok Hps') as [H1 H2 H3]. constructor; try done.
    intros _. apply allRunnableDone_true. intros n ts Hts Hr. exfalso.
    assert (n ∈ runnableTests ps) as Hin
      by (apply elem_of_runnableTests; rewrite <- Ht; by eauto).
    rewrite Er in Hin. by apply not_elem_of_nil in Hin.
  - etrans; [exact Hsame|]. intros name. simpl. destruct (decide (name = pkg b)) as [->|].
    + by rewrite lookup_insert_eq, Hps'.
    + by rewrite lookup_insert_ne.
Qed.

(** The runnable tests of a binary's package. *)
Definition tasksOf (s : Server) (b : capturedTestBinary) : list testTask :=
  TestTask b <$> from_option runnableTests [] (pkgs s !! pkg b).

Lemma binsTasks_spec bins now : ∀ s s0 tasks,
  server_ok s → same_tests s0 s → (∀ b, b ∈ bins → is_Some (pkgs s0 !! pkg b)) →
  ∃ s', foldl (λ acc b, acc ≫= λ acc, binTasks acc b now) (Some (s, tasks)) bins =
      Some (s', tasks ++ (bins ≫= tasksOf s0)) ∧ server_ok s' ∧ same_tests s0 s'.
Proof.
  induction bins as [|b bins IH]; intros s s0 tasks Hok Hsame Hb.
  { exists s. cbn. by rewrite app_nil_r. }
  destruct (Hb b) as [ps Hps]; [left|].
  destruct (binTasks_spec s s0 tasks b ps now) as (s1 & E & Hok1 & Hsame1); [done..|].
  cbn [foldl mbind option_bind]. rewrite E.
  destruct (IH s1 s0 (tasks ++ (TestTask b <$> runnableTests ps))) as (s' & E' & ? & ?);
    [done..|intros b' Hb'; apply Hb; by right|].
  exists s'. split; [|done]. rewrite E'. cbn [mbind list_bind].
  unfold tasksOf at 2. rewrite Hps. simpl. by rewrite <- app_assoc.
Qed.

Definition taskKey (task : testTask) : string * string := (pkg (bin task), test task).

Lemma NoDup_tasks s bins :
  NoDup (pkg <$> bins) → NoDup (taskKey <$> (bins ≫= tasksOf s)).
Proof.
  induction bins as [|b bins IH]; [constructor|].
  rewrite fmap_cons, bind_cons, fmap_app. intros [Hb Hn]%NoDup_cons.
  apply NoDup_app. split_and!; [| |by apply IH].
  - unfold tasksOf. rewrite <- list_fmap_compose.
    apply NoDup_fmap_2; [|destruct (pkgs s !! pkg b); [apply NoDup_runnableTests|constructor]].
    by intros x y [= ->].
  - intros k (t & -> & Ht)%list_elem_of_fmap (t' & Hk & Ht')%list_elem_of_fmap.
    apply list_elem_of_fmap in Ht as (n & -> & _).
    apply list_elem_of_bind in Ht' as (b' & Ht' & Hb').
    apply list_elem_of_fmap in Ht' as (n' & -> & _). injection Hk as Hk _.
    apply Hb, list_elem_of_fmap. by exists b'.
Qed.

(** [allTestTasks] never dereferences a missing package and enumerates
    the runnable tests of the captured binaries: each exactly once, with its
    package's binary, and nothing else; it keeps the state consistent. *)
Theorem allTestTasks_spec s now :
  server_ok s →
  ∃ s' tasks, allTestTasks s now = Some (s', tasks) ∧ server_ok s' ∧
    NoDup (taskKey <$> tasks) ∧
    (∀ p t, (p, t) ∈ taskKey <$> tasks ↔
      ∃ ps, pkgs s !! p = Some ps ∧ exeHash ps ≠ "" ∧ is_Some (testsOf ps !! t) ∧
        isRunnableTopLevelTest t = true) ∧
    (∀ task, task ∈ tasks → known s' task ∧ bin task ∈ capturedTestBinaries s).
Proof.
  intros Hok. unfold allTestTasks.
  destruct (binsTasks_spec (capturedTestBinaries s) now s s []) as (s' & -> & Hok' & Hsame);
    [done|done|by intros b (? & ? & _)%elem_of_capturedTestBinaries|].
  exists s', (capturedTestBinaries s ≫= tasksOf s). rewrite app_nil_l.
  assert (Hin : ∀ task, task ∈ capturedTestBinaries s ≫= tasksOf s →
    bin task ∈ capturedTestBinaries s ∧ ∃ ps, pkgs s !! pkg (bin task) = Some ps ∧
      test task ∈ runnableTests ps).
  { intros task (b & Ht & Hb)%list_elem_of_bind. apply list_elem_of_fmap in Ht as (n & -> & Hn).
    split; [done|]. destruct (pkgs s !! pkg b) as [ps|] eqn:E; [|by apply not_elem_of_nil in Hn].
    by exists ps. }
  split_and!; [done|done|apply NoDup_tasks, NoDup_capturedTestBinaries| |].
  - intros p t. rewrite list_elem_of_fmap. split.
    + intros (task & [= -> ->] & Ht). destruct (Hin _ Ht) as (Hb & ps & Hps & Hr).
      apply elem_of_capturedTestBinaries in Hb as (ps' & Hps' & Hh & _).
      rewrite Hps in Hps'. injection Hps' as <-.
      apply elem_of_runnableTests in Hr as [? ?]. by exists ps.
    + intros (ps & Hps & Hh & Ht & Hr). exists (TestTask (binaryOf s p ps) t). split; [done|].
      apply list_elem_of_bind. exists (binaryOf s p ps). split.
      * apply list_elem_of_fmap. exists t. split; [done|]. simpl. rewrite Hps.
        apply elem_of_runnableTests. by split.
      * apply elem_of_capturedTestBinaries. by exists ps.
  - intros task Ht. destruct (Hin _ Ht) as (Hb & ps & Hps & Hr). split; [|done].
    apply elem_of_runnableTests in Hr as [[ts Hts] _].
    destruct (same_tests_lookup _ _ _ _ Hsame Hps) as (ps' & Hps' & Htests).
    exists (ps', ts). apply testAt_Some. by rewrite Htests.
Qed.

(** ** A small run, for the witnesses *)

Definition exampleFlags : flags := defaultFlags 4.

Definition exampleStatus : testStatus := zeroTestStatus <| tsChanged := 7 |>.

Definition examplePackage : packageStatus := {|
  glp := GoListPackage "/src/p" "ex/p" "p" ["p_test.go"] [] "/src"; psState := pkgStateBuilt;
  exeHash := "abcd"; exeSize := 9; exeCached := false; psWorkDir := "/src/p"; exeArgs := [];
  psTests := Some {["TestA" := exampleStatus; "TestB" := exampleStatus; "BenchmarkC" := exampleStatus]};
  numFails := 0; runErr := ""; runIn := 0; psChanged := 7
|}.

Definition exampleServer : Server :=
  (default inhabitant
    (NewServer exampleFlags zeroProfile (TestSelection [] []) true true true "/cache" "/cache/run" 5))
    <| pkgs := {["ex/p" := examplePackage]} |> <| pkgsWithTests := 1 |> <| testsTotal := 2 |>.

Definition exampleTask (name : string) : testTask :=
  TestTask (CapturedTestBinary "ex/p" "/cache/run/abcd" "/src/p" []) name.

Example exampleServer_tasks :
  snd <$> allTestTasks exampleServer 8 = Some [exampleTask "TestA"; exampleTask "TestB"].
Proof. vm_compute. reflexivity. Qed.

Lemma package_ok_fresh ps :
  map_Forall (λ _ ts, done ts = false ∧ passed ts = false) (testsOf ps) → numFails ps = 0 →
  psState ps ≠ pkgStateDone → package_ok ps.
Proof.
  intros Ht Hn Hst. constructor.
  - intros name ts Hts. destruct (Ht _ _ Hts) as [Hd Hp]. constructor; congruence.
  - rewrite Hn. unfold map_count. rewrite (map_empty_filter_2 _ (testsOf ps)); [done|].
    intros name ts Hts. unfold failedTest. simpl. destruct (Ht _ _ Hts) as [-> _]. done.
  - done.
Qed.

Lemma exampleServer_ok : server_ok exampleServer.
Proof.
  apply map_Forall_singleton, package_ok_fresh; [|done..].
  repeat apply map_Forall_insert_2; [done..|]. apply map_Forall_empty.
Qed.

Lemma allTestTasks_spec_witness :
  server_ok exampleServer ∧ ∃ s' tasks, allTestTasks exampleServer 8 = Some (s', tasks) ∧ server_ok s'.
Proof.
  split; [exact exampleServer_ok|].
  destruct (allTestTasks_spec exampleServer 8 exampleServer_ok) as (s' & tasks & H & Hok & _).
  exists s', tasks. exact (conj H Hok).
Defined.
