(* ===== verification/History.v ===== *)
(** * Test history in a run (history.go)

    Portable descriptions of a test's inputs, the order in which history makes
    the runner start tests, the estimates of their durations, and what a run
    loads from and hands to its history store. *)

From S2P Require Import Prelude GoStrings Flags Path Profile Utf8 GoFmt Args Sha256 Quote CappedBuffer HistoryTypes TestCache Server.

Definition localHistoryLimit : Z := 32.
Definition historyRequestLimit : Z := 32.
Definition defaultTestEstimate : Duration := 100 * Millisecond.

(** ** Observations *)

(** Newest first, ties by identifier. *)
Definition compareHistoryObservations (a b : Observation) : Z :=
  lexCmp (revCmp (onCmp ObservedAt cmpZ)) (onCmp obsID Compare) a b.

(** The loop that finds the newest observation, from the first. *)
Definition latestFrom (first : Observation) (rest : list Observation) : Observation :=
  foldl (λ latest obs, if compareHistoryObservations obs latest <? 0 then obs else latest) first rest.

Definition latest (h : option History) : option Observation :=
  match h with
  | Some (MkHistory _ _ (first :: rest)) => Some (latestFrom first rest)
  | _ => None
  end.

(** ** Portable inputs *)

Definition relativeWithin (path root : string) : option string :=
  if bool_decide (root = "") then None
  else
    match Rel root path with
    | None => None
    | Some rel =>
        if bool_decide (rel = "..") || HasPrefix rel "../" then None
        else if bool_decide (rel = ".") then Some "" else Some rel
    end.

Definition portableHistoryPath (path packageDir moduleRoot : string) : string :=
  let path := Clean path in
  match relativeWithin path packageDir with
  | Some rel => "$PACKAGE/" +:+ rel
  | None =>
      match relativeWithin path moduleRoot with
      | Some rel => "$MODULE/" +:+ rel
      | None => "$EXTERNAL/" +:+ EncodeToString (takeS 8 (Sum256 path)) +:+ "/" +:+ Base path
      end
  end.

Definition historyDependency (packageDir moduleRoot : string) (dep : cacheDependency) : Dependency := {|
  dOperation := Operation dep;
  dName := if bool_decide (Operation dep = "getenv") then cdName dep else "";
  dPath := if bool_decide (cdPath dep = "") then "" else portableHistoryPath (cdPath dep) packageDir moduleRoot
|}.

Definition compareDependencies (a b : Dependency) : Z :=
  lexCmp (onCmp dOperation Compare) (lexCmp (onCmp dName Compare) (onCmp dPath Compare)) a b.

(** [slices.Compact] *)
Fixpoint Compact (l : list Dependency) : list Dependency :=
  match l with
  | [] => []
  | x :: l' =>
      match l' with
      | y :: _ => if bool_decide (x = y) then Compact l' else x :: Compact l'
      | [] => [x]
      end
  end.

Definition historyDependencies (deps : option (list cacheDependency)) (packageDir moduleRoot : string)
    : option (list Dependency) :=
  match deps with
  | None => None
  | Some deps => Some (Compact (sort_by compareDependencies (historyDependency packageDir moduleRoot <$> deps)))
  end.

Section server.
Context `{GoRuntime} (f : flags).

(** ** Loading *)

(** The keys of the tasks, each identity once. *)
Definition lookupKeys (profile : runProfile) (tasks : list testTask) : list Key :=
  (foldl (λ '(seen, keys) task,
     let key := historyKeyForTask f task profile in
     if bool_decide (ID key ∈ (seen : gset string)) then (seen, keys) else ({[ID key]} ∪ seen, keys ++ [key]))
   (∅, []) tasks).2.

(** [loadHistory]; [lookup] is what the store answers. *)
Definition loadHistory (s : Server) (tasks : list testTask) (lookup : list Key → result (gmap string History)) : Server :=
  if negb (hasHistory s) || bool_decide (tasks = []) then s
  else if historyLoaded s then s
  else
    let s := s <| historyLoaded := true |> in
    match lookup (lookupKeys (sProfile s) tasks) with
    | Err _ => s
    | Ok found => s <| histories ::= λ old, found ∪ old |>
    end.

(** ** Scheduling *)

Record priority := Priority {
  prFailed : bool;
  prKnown : bool;
  prDuration : Duration
}.

Definition zeroPriority : priority := Priority false false 0.

Definition taskHistory (s : Server) (task : testTask) : option History :=
  histories s !! ID (historyKeyForTask f task (sProfile s)).

Definition priorities (s : Server) (tasks : list testTask) : gmap string priority :=
  foldl (λ m task,
    match latest (taskHistory s task) with
    | None => m
    | Some obs =>
        <[taskID task := Priority (bool_decide (obsOutcome obs = OutcomeFail)) true (obsDuration obs)]> m
    end) ∅ tasks.

Definition comparePriorities (a b : priority) : Z :=
  lexCmp (onCmp prFailed trueFirst)
    (lexCmp (revCmp (onCmp prDuration cmpZ)) (onCmp prKnown trueFirst)) a b.

Definition compareTasks (m : gmap string priority) (a b : testTask) : Z :=
  lexCmp (onCmp (λ t, default zeroPriority (m !! taskID t)) comparePriorities)
    (lexCmp (onCmp (λ t, pkg (bin t)) Compare) (onCmp test Compare)) a b.

Definition orderTestTasksByHistory (s : Server) (tasks : list testTask) : list testTask :=
  sort_by (compareTasks (priorities s tasks)) tasks.

(** ** Estimates *)

(** The duration of one run of a test, from its newest observation. *)
Definition perRun (s : Server) (task : testTask) : option Duration :=
  match latest (taskHistory s task) with
  | None => None
  | Some obs => if obsDuration obs <=? 0 then None else Some (divT (obsDuration obs) (Z.max 1 (obsAttempts obs)))
  end.

(** The middle of a sorted list of durations. *)
Definition medianOf (sorted : list Duration) : Duration :=
  let mid := (length sorted / 2)%nat in
  if Nat.even (length sorted) then
    i64 (sorted !!! (mid - 1)%nat + divT (i64 (sorted !!! mid - sorted !!! (mid - 1)%nat)) 2)
  else sorted !!! mid.

Definition median (known : list Duration) : Duration :=
  match known with [] => defaultTestEstimate | _ => medianOf (sort_by cmpZ known) end.

Definition prepareTestEstimates (s : Server) (tasks : list testTask) : Server :=
  let known := omap (perRun s) tasks in
  let estimates := foldl (λ m task,
      match perRun s task with
      | Some d => <[taskID task := TestEstimate (i64 (d * testCount f)) true]> m
      | None => m
      end) ∅ tasks in
  let base := i64 (median known * testCount f) in
  let estimates := foldl (λ m task,
      if bool_decide (is_Some (m !! taskID task)) then m
      else <[taskID task := TestEstimate base false]> m) estimates tasks in
  s <| testSchedule := taskID <$> tasks |> <| testEstimates := estimates |>
    <| testEstimateBase := base |> <| testEstimateReady := true |>.

(** ** Recording *)

(** [recordHistory]; [obsId] is the new identifier and [now] the time.  [None]
    is the nil dereference of an unknown package. *)
Definition recordHistory (s : Server) (task : testTask) (outcome : Outcome) (duration : Duration)
    (attempts : Z) (deps : option (list cacheDependency)) (obsId : string) (now : Time) : option Server :=
  if negb (hasHistory s) && negb (captureHistory s) then Some s
  else
    root ← packageRoot s (pkg (bin task));
    let obs := MkObservation obsId (historyKeyForTask f task (sProfile s)) now outcome duration attempts 0
      (historyDependencies deps (workDir (bin task)) root) in
    Some (s <| historyPending ::= λ l, l ++ [obs] |>).

(** [flushHistory]: the observations handed to the store's [Record], if it is
    called; its error is only logged. *)
Definition flushHistory (s : Server) : option (list Observation) * Server :=
  if negb (hasHistory s) then (None, s)
  else
    let pending := historyPending s in
    let s := s <| historyPending := [] |> in
    if bool_decide (pending = []) then (None, s) else (Some pending, s).
End server.
