(* ===== verification/HistoryFacts.v ===== *)
(** * What the history of tests is used for, proved (history.go) *)

From S2P Require Import Prelude GoStrings Flags Path Profile Utf8 GoFmt Args Sha256 Quote CappedBuffer HistoryTypes TestCache Server History.

(** ** The newest observation *)

#[export] Instance compareHistoryObservations_good : GoodCmp compareHistoryObservations.
Proof. unfold compareHistoryObservations. change (GoodCmp (lexCmp (revCmp (onCmp ObservedAt cmpZ)) (onCmp obsID Compare))). apply _. Qed.

Lemma latestFrom_spec first rest :
  latestFrom first rest ∈ first :: rest ∧
  ∀ obs, obs ∈ first :: rest → compareHistoryObservations (latestFrom first rest) obs ≤ 0.
Proof.
  unfold latestFrom. revert first. induction rest as [|o rest IH]; intros first; simpl.
  { split; [left|]. intros obs ->%list_elem_of_singleton. by rewrite cmp_refl. }
  set (next := if _ <? 0 then o else first). destruct (IH next) as [Hin Hmin].
  assert (Hn : compareHistoryObservations next first ≤ 0 ∧ compareHistoryObservations next o ≤ 0).
  { subst next. destruct (Z.ltb_spec (compareHistoryObservations o first) 0).
    - split; [lia|]. by rewrite cmp_refl.
    - rewrite cmp_refl. split; [done|]. rewrite (cmp_flip (cmp := compareHistoryObservations) o first). lia. }
  split.
  - apply elem_of_cons in Hin as [->|Hin]; [|set_solver]. subst next. case_match; set_solver.
  - intros obs Hobs. pose proof (Hmin next (list_elem_of_here _ _)) as Hnext.
    rewrite !elem_of_cons in Hobs. destruct Hobs as [->|[->|Hobs]].
    + by apply (cmp_trans (cmp := compareHistoryObservations) _ next), Hn.
    + by apply (cmp_trans (cmp := compareHistoryObservations) _ next), Hn.
    + apply Hmin. by right.
Qed.

Lemma latest_newest h obs :
  latest (Some h) = Some obs →
  obs ∈ Observations h ∧ ∀ obs', obs' ∈ Observations h → ObservedAt obs' ≤ ObservedAt obs.
Proof.
  destruct h as [v k [|first rest]]; simpl; [done|]. intros [= <-].
  destruct (latestFrom_spec first rest) as [Hin Hmin]. split; [done|]. intros obs' Hobs'.
  specialize (Hmin obs' Hobs'). unfold compareHistoryObservations in Hmin.
  rewrite lexCmp_le in Hmin. unfold revCmp, onCmp, cmpZ in Hmin. lia.
Qed.

(** ** Maps filled by a loop over tasks *)

(** The loop that stores a value for some of the tasks under its identity. *)
Lemma fill_lookup {A} (g : testTask → option A) (tasks : list testTask) (m0 : gmap string A) task :
  NoDup (taskID <$> tasks) → task ∈ tasks →
  foldl (λ m task, match g task with Some x => <[taskID task := x]> m | None => m end) m0 tasks !! taskID task =
  match g task with Some x => Some x | None => m0 !! taskID task end.
Proof.
  revert m0. induction tasks as [|t tasks IH]; intros m0 Hnd Hin; [by apply not_elem_of_nil in Hin|].
  rewrite fmap_cons in Hnd. apply NoDup_cons in Hnd as [Ht Hnd]. simpl.
  assert (Hskip : ∀ (tasks : list testTask) (m0 : gmap string A) id, id ∉ taskID <$> tasks →
    foldl (λ m task, match g task with Some x => <[taskID task := x]> m | None => m end) m0 tasks !! id = m0 !! id).
  { clear. intros tasks. induction tasks as [|t tasks IH]; intros m0 id Hid; simpl; [done|].
    rewrite fmap_cons, not_elem_of_cons in Hid. destruct Hid as [Hne Hid]. rewrite IH by done.
    destruct (g t); [|done]. by rewrite lookup_insert_ne. }
  apply elem_of_cons in Hin as [->|Hin].
  - rewrite Hskip by done. destruct (g t); [by rewrite lookup_insert_eq|done].
  - rewrite IH by done. destruct (g task); [done|]. destruct (g t); [|done].
    rewrite lookup_insert_ne; [done|]. intros Heq. apply Ht. rewrite Heq. by apply list_elem_of_fmap_2.
Qed.

(** ** Scheduling *)

Section schedule.
Context `{GoRuntime} (f : flags).

(** What the newest observation of a task says, if there is one. *)
Definition predictedFail (s : Server) (task : testTask) : bool :=
  match latest (taskHistory f s task) with
  | Some obs => bool_decide (obsOutcome obs = OutcomeFail)
  | None => false
  end.

Definition predictedDuration (s : Server) (task : testTask) : Duration :=
  match latest (taskHistory f s task) with Some obs => obsDuration obs | None => 0 end.

Lemma priorities_lookup s tasks task :
  NoDup (taskID <$> tasks) → task ∈ tasks →
  default zeroPriority (priorities f s tasks !! taskID task) =
  Priority (predictedFail s task) (bool_decide (is_Some (latest (taskHistory f s task)))) (predictedDuration s task).
Proof using Type.
  intros Hnd Hin. unfold priorities, predictedFail, predictedDuration.
  pose proof (fill_lookup (λ task, match latest (taskHistory f s task) with
    | None => None
    | Some obs => Some (Priority (bool_decide (obsOutcome obs = OutcomeFail)) true (obsDuration obs))
    end) tasks ∅ task Hnd Hin) as Hfill.
  match type of Hfill with foldl ?g _ _ !! _ = _ =>
    match goal with |- context [foldl ?h ∅ tasks] => assert (Heq : foldl h ∅ tasks = foldl g ∅ tasks) end end.
  { clear. generalize (∅ : gmap string priority). induction tasks as [|t tasks IH]; intros m; simpl; [done|].
    rewrite IH. by destruct (latest _). }
  rewrite Heq, Hfill. destruct (latest _); [done|]. by rewrite lookup_empty.
Qed.

#[export] Instance compareTasks_good m : GoodCmp (compareTasks m).
Proof using Type.
  change (GoodCmp (lexCmp (onCmp (λ t, default zeroPriority (m !! taskID t))
    (lexCmp (onCmp prFailed trueFirst) (lexCmp (revCmp (onCmp prDuration cmpZ)) (onCmp prKnown trueFirst))))
    (lexCmp (onCmp (λ t, pkg (bin t)) Compare) (onCmp test Compare)))). apply _.
Qed.

Lemma compareTasks_id m a b : compareTasks m a b = 0 → taskID a = taskID b.
Proof using Type.
  unfold compareTasks. rewrite !lexCmp_zero. unfold onCmp. rewrite !Compare_eq. intros (_ & Hp & Ht).
  unfold taskID. by rewrite Hp, Ht.
Qed.

(** history only reorders the tasks, and the order does not depend on the
    order in which they were found: a task whose newest observation failed
    comes before every task whose newest observation did not, and among tasks
    that agree on this the longer predicted one comes first. *)
Theorem orderTestTasksByHistory_spec s tasks :
  NoDup (taskID <$> tasks) →
  orderTestTasksByHistory f s tasks ≡ₚ tasks ∧
  (∀ tasks', tasks' ≡ₚ tasks → orderTestTasksByHistory f s tasks' = orderTestTasksByHistory f s tasks) ∧
  (∀ before after a b, orderTestTasksByHistory f s tasks = before ++ after → a ∈ before → b ∈ after →
     (predictedFail s b = true → predictedFail s a = true) ∧
     (predictedFail s a = predictedFail s b → predictedDuration s b ≤ predictedDuration s a)).
Proof using Type.
  intros Hnd. unfold orderTestTasksByHistory. split_and!; [apply sort_by_perm|..].
  - intros tasks' Hp. assert (Hnd' : NoDup (taskID <$> tasks')) by (by rewrite Hp).
    assert (Hagree : ∀ a b, a ∈ tasks' → b ∈ tasks' →
      compareTasks (priorities f s tasks') a b = compareTasks (priorities f s tasks) a b).
    { intros a b Ha Hb. unfold compareTasks, lexCmp, onCmp. rewrite !priorities_lookup; try done; by rewrite <- Hp. }
    transitivity (sort_by (compareTasks (priorities f s tasks)) tasks').
    + apply sort_by_ext, Hagree.
    + apply sort_by_unique; [apply _..| |apply sort_by_Sorted, _|by rewrite sort_by_perm].
      intros a b Ha Hb Hab Hba. apply (NoDup_fmap_inj taskID tasks'); [done..|].
      apply (compareTasks_id (priorities f s tasks)). unfold cmp_le in *.
      rewrite (cmp_flip (cmp := compareTasks (priorities f s tasks)) a b) in Hba. lia.
  - intros before after a b Hsplit Ha Hb.
    assert (Hall : ∀ t, t ∈ before ++ after → t ∈ tasks) by (intros t; rewrite <- Hsplit, elem_of_sort_by; done).
    pose proof (sort_by_StronglySorted (compareTasks (priorities f s tasks)) tasks) as Hs. rewrite Hsplit in Hs.
    pose proof (StronglySorted_app_1_elem_of _ _ _ _ _ Hs Ha Hb) as Hle.
    unfold cmp_le, compareTasks in Hle. rewrite lexCmp_le in Hle. unfold onCmp in Hle.
    rewrite !priorities_lookup in Hle by (try done; apply Hall, elem_of_app; auto).
    unfold comparePriorities, lexCmp, revCmp, onCmp, cmpZ, trueFirst in Hle. cbn [prFailed prKnown prDuration] in Hle.
    destruct (predictedFail s a), (predictedFail s b); simpl in Hle; (split; [intros Hf|intros Hd]); try done;
      try (exfalso; lia);
      destruct (Z.eqb_spec (Z.sgn (predictedDuration s b - predictedDuration s a)) 0); lia.
Qed.
End schedule.

(** ** Estimates *)

Section median.
Implicit Types l : list Duration.

Lemma filter_take_length (P : Duration → Prop) `{!∀ x, Decision (P x)} l k :
  (∀ x, x ∈ take k l → P x) → (length (take k l) ≤ length (filter P l))%nat.
Proof using Type.
  intros HP. rewrite <- (take_drop k l) at 2. rewrite filter_app, length_app, filter_all; [lia|done].
Qed.

Lemma filter_drop_length (P : Duration → Prop) `{!∀ x, Decision (P x)} l k :
  (∀ x, x ∈ drop k l → P x) → (length (drop k l) ≤ length (filter P l))%nat.
Proof using Type.
  intros HP. rewrite <- (take_drop k l) at 2. rewrite filter_app, length_app, (filter_all _ (drop k l)); [lia|done].
Qed.

(** Positions of a sorted list are in order. *)
Lemma sorted_lookup l i j x y :
  StronglySorted (cmp_le cmpZ) l → l !! i = Some x → l !! j = Some y → (i ≤ j)%nat → x ≤ y.
Proof using Type.
  intros Hs Hx Hy Hij. destruct (decide (i = j)) as [->|]; [simplify_eq; lia|].
  rewrite <- (take_drop (S i) l) in Hs.
  assert (Hle : cmp_le cmpZ x y).
  { apply (StronglySorted_app_1_elem_of _ _ _ _ _ Hs).
    - apply list_elem_of_lookup. exists i. rewrite lookup_take_lt by lia. done.
    - apply list_elem_of_lookup. exists (j - S i)%nat. rewrite lookup_drop. rewrite <- Hy. f_equal. lia. }
  unfold cmp_le, cmpZ in Hle. lia.
Qed.

(** The middle value separates the halves. *)
Lemma medianOf_between l :
  StronglySorted (cmp_le cmpZ) l → l ≠ [] → Forall (λ d, 0 ≤ d ≤ int64_max) l →
  ∀ i x, l !! i = Some x →
    ((2 * i < length l)%nat → x ≤ medianOf l) ∧ ((length l ≤ 2 * i + 1)%nat → medianOf l ≤ x).
Proof using Type.
  intros Hs Hne Hb i x Hx. unfold medianOf. set (n := length l) in *.
  assert (Hn : (0 < n)%nat) by (destruct l; [done|simpl in *; lia]).
  pose proof (Nat.div_mod_eq n 2) as Hdm. pose proof (Nat.mod_upper_bound n 2 ltac:(lia)).
  assert (Hat : ∀ k, (k < n)%nat → l !! k = Some (l !!! k)) by (intros k Hk; by apply list_lookup_lookup_total_lt).
  assert (Hrange : ∀ k, (k < n)%nat → 0 ≤ l !!! k ≤ int64_max).
  { intros k Hk. rewrite Forall_forall in Hb. apply Hb, list_elem_of_lookup. exists k. by apply Hat. }
  destruct (Nat.even n) eqn:Heven.
  - apply Nat.even_spec in Heven as [m Hm].
    assert (Hmid : (n / 2 = m)%nat) by lia. rewrite Hmid.
    pose proof (sorted_lookup l (m - 1) m _ _ Hs (Hat (m - 1)%nat ltac:(lia)) (Hat m ltac:(lia)) ltac:(lia)) as Hle.
    pose proof (Hrange (m - 1)%nat ltac:(lia)). pose proof (Hrange m ltac:(lia)).
    set (a := l !!! (m - 1)%nat) in *. set (b := l !!! m) in *.
    unfold divT. assert (in_int64 (b - a)) by (unfold in_int64, int64_min, int64_max in *; lia).
    rewrite (i64_id (b - a)) by done.
    pose proof (Z.quot_pos (b - a) 2 ltac:(lia) ltac:(lia)).
    assert (Hq : b - a = 2 * Z.quot (b - a) 2 + Z.rem (b - a) 2) by apply Z.quot_rem'.
    pose proof (Z.rem_bound_pos (b - a) 2 ltac:(lia) ltac:(lia)).
    rewrite i64_id by (unfold in_int64, int64_min, int64_max in *; lia). split; intros Hi.
    + pose proof (sorted_lookup l i (m - 1) _ _ Hs Hx (Hat (m - 1)%nat ltac:(lia)) ltac:(lia)) as Hxa. fold a in Hxa. lia.
    + pose proof (sorted_lookup l m i _ _ Hs (Hat m ltac:(lia)) Hx ltac:(lia)) as Hxb. fold b in Hxb. lia.
  - assert (Hodd : Nat.odd n = true) by (unfold Nat.odd; by rewrite Heven).
    apply Nat.odd_spec in Hodd as [m Hm].
    assert (Hmid : (n / 2 = m)%nat) by lia. rewrite Hmid.
    split; intros Hi.
    + apply (sorted_lookup l i m _ _ Hs Hx (Hat m ltac:(lia))). lia.
    + apply (sorted_lookup l m i _ _ Hs (Hat m ltac:(lia)) Hx). lia.
Qed.

(** At least half of the known durations are no longer than the median and at
    least half are no shorter. *)
Lemma median_halves known :
  known ≠ [] → Forall (λ d, 0 ≤ d ≤ int64_max) known →
  (length known ≤ 2 * length (filter (λ d, (d ≤ median known)%Z) known))%nat ∧
  (length known ≤ 2 * length (filter (λ d, (median known ≤ d)%Z) known))%nat.
Proof using Type.
  intros Hne Hb. set (l := sort_by cmpZ known).
  assert (Hp : l ≡ₚ known) by apply sort_by_perm.
  assert (Hm : median known = medianOf l) by (unfold median; by destruct known).
  rewrite Hm, <- Hp. rewrite <- Hp in Hb.
  assert (Hl : l ≠ []) by (intros Heq; apply Hne, Permutation_nil_r; by rewrite <- Hp, Heq).
  pose proof (medianOf_between l (sort_by_StronglySorted cmpZ known) Hl Hb) as Hmed.
  set (n := length l) in *. pose proof (Nat.div_mod_eq (n + 1) 2). pose proof (Nat.mod_upper_bound (n + 1) 2 ltac:(lia)).
  pose proof (Nat.div_mod_eq n 2). pose proof (Nat.mod_upper_bound n 2 ltac:(lia)).
  split.
  - assert (Ht : (length (take ((n + 1) / 2) l) ≤ length (filter (λ d, (d ≤ medianOf l)%Z) l))%nat).
    { apply filter_take_length. intros x [i [Hx Hi]%lookup_take_Some]%list_elem_of_lookup. apply (Hmed i x Hx). change (2 * i < n)%nat. lia. }
    rewrite length_take in Ht. change (n ≤ 2 * length (filter (λ d, (d ≤ medianOf l)%Z) l))%nat. lia.
  - assert (Ht : (length (drop (n / 2) l) ≤ length (filter (λ d, (medianOf l ≤ d)%Z) l))%nat).
    { apply filter_drop_length. intros x [i Hx]%list_elem_of_lookup. rewrite lookup_drop in Hx.
      apply (Hmed _ x Hx). change (n ≤ 2 * (n / 2 + i) + 1)%nat. lia. }
    rewrite length_drop in Ht. change (n ≤ 2 * length (filter (λ d, (medianOf l ≤ d)%Z) l))%nat. lia.
Qed.
End median.

Section estimates.
Context `{GoRuntime} (f : flags).

(** The loop that gives the tasks without an estimate the default one. *)
Lemma fill_missing (e : testEstimate) tasks (m : gmap string testEstimate) id :
  foldl (λ m task, if bool_decide (is_Some (m !! taskID task)) then m else <[taskID task := e]> m) m tasks !! id =
  match m !! id with Some x => Some x | None => if bool_decide (id ∈ taskID <$> tasks) then Some e else None end.
Proof using Type.
  revert m. induction tasks as [|t tasks IH]; intros m; simpl.
  { by destruct (m !! id) eqn:E; rewrite ?E. }
  rewrite IH. destruct (decide (is_Some (m !! taskID t))) as [Hsome|Hsome];
    [rewrite (bool_decide_true _ Hsome)|rewrite (bool_decide_false _ Hsome)].
  - destruct (m !! id) eqn:Hm; [done|]. assert (id ≠ taskID t) by (intros ->; rewrite Hm in Hsome; by destruct Hsome).
    apply bool_decide_ext_if. set_solver.
  - destruct (decide (id = taskID t)) as [->|Hne].
    + rewrite lookup_insert_eq. destruct (m !! taskID t) eqn:Hm; [by destruct Hsome; eauto|].
      rewrite bool_decide_true; [done|]. left.
    + rewrite lookup_insert_ne by done. destruct (m !! id); [done|]. apply bool_decide_ext_if. set_solver.
Qed.

Lemma known_estimates s (tasks : list testTask) task :
  NoDup (taskID <$> tasks) → task ∈ tasks →
  foldl (λ m task, match perRun f s task with
      | Some d => <[taskID task := TestEstimate (i64 (d * testCount f)) true]> m
      | None => m
      end) (∅ : gmap string testEstimate) tasks !! taskID task =
  (λ d, TestEstimate (i64 (d * testCount f)) true) <$> perRun f s task.
Proof using Type.
  intros Hnd Hin.
  pose proof (fill_lookup (λ task, (λ d, TestEstimate (i64 (d * testCount f)) true) <$> perRun f s task)
    tasks ∅ task Hnd Hin) as Hfill.
  match type of Hfill with foldl ?g _ _ !! _ = _ =>
    match goal with |- context [foldl ?h ∅ tasks] => assert (Heq : foldl h ∅ tasks = foldl g ∅ tasks) end end.
  { clear. generalize (∅ : gmap string testEstimate). induction tasks as [|t tasks IH]; intros m; simpl; [done|].
    rewrite IH. by destruct (perRun f s t). }
  rewrite Heq, Hfill. by destruct (perRun f s task).
Qed.

Lemma perRun_positive s task d :
  (∀ h obs, histories s !! ID (historyKeyForTask f task (sProfile s)) = Some h → obs ∈ Observations h →
     in_int64 (obsDuration obs)) →
  perRun f s task = Some d → 0 ≤ d ≤ int64_max.
Proof using Type.
  intros Hr. unfold perRun. destruct (latest (taskHistory f s task)) as [obs|] eqn:Hl; [|done].
  destruct (Z.leb_spec (obsDuration obs) 0); [done|]. intros [= <-]. unfold divT.
  assert (Ho : in_int64 (obsDuration obs)).
  { unfold taskHistory in Hl. destruct (histories s !! _) as [h|] eqn:Hh; [|done].
    apply (Hr h obs eq_refl). by apply latest_newest in Hl as [? _]. }
  destruct Ho as [_ Ho]. split; [apply Z.quot_pos; lia|].
  transitivity (obsDuration obs); [|done]. apply Z.quot_le_upper_bound; nia.
Qed.

(** the estimates of a run.  Every task is on the schedule, in order, and
    has an estimate: [-count] times the average attempt of its newest
    observation when that is known, and otherwise the common base.  The base is
    [-count] times a value with at least half of the known durations on either
    side, or 100ms when nothing is known. *)
Theorem prepareTestEstimates_spec s tasks :
  NoDup (taskID <$> tasks) →
  (∀ id h obs, histories s !! id = Some h → obs ∈ Observations h → in_int64 (obsDuration obs)) →
  let s' := prepareTestEstimates f s tasks in
  let known := omap (perRun f s) tasks in
  testEstimateReady s' = true ∧ testSchedule s' = taskID <$> tasks ∧
  (∀ task, task ∈ tasks → testEstimates s' !! taskID task = Some
     match perRun f s task with
     | Some d => TestEstimate (i64 (d * testCount f)) true
     | None => TestEstimate (testEstimateBase s') false
     end) ∧
  ∃ m, testEstimateBase s' = i64 (m * testCount f) ∧
    (known = [] → m = 100 * Millisecond) ∧
    (known ≠ [] → (length known ≤ 2 * length (filter (λ d, (d ≤ m)%Z) known))%nat ∧
                  (length known ≤ 2 * length (filter (λ d, (m ≤ d)%Z) known))%nat).
Proof using Type.
  intros Hnd Hr s' known. split_and!; [done|done| |].
  - intros task Hin. subst s'. unfold prepareTestEstimates. simpl. rewrite fill_missing, known_estimates by done.
    destruct (perRun f s task); [done|]. simpl. rewrite bool_decide_true; [done|]. by apply list_elem_of_fmap_2.
  - exists (median known). split_and!; [done| |].
    + by intros ->.
    + intros Hne. apply median_halves; [done|]. apply Forall_forall. intros d (task & _ & Hd)%list_elem_of_omap.
      eapply perRun_positive; [|exact Hd]. intros h obs Hh. by apply (Hr _ h obs Hh).
Qed.
End estimates.

(** ** Portable inputs *)

#[export] Instance compareDependencies_good : GoodCmp compareDependencies.
Proof.
  change (GoodCmp (lexCmp (onCmp dOperation Compare) (lexCmp (onCmp dName Compare) (onCmp dPath Compare)))). apply _.
Qed.

Lemma compareDependencies_eq a b : compareDependencies a b = 0 → a = b.
Proof.
  unfold compareDependencies. rewrite !lexCmp_zero. unfold onCmp. rewrite !Compare_eq.
  destruct a, b; simpl. naive_solver.
Qed.

Lemma Compact_elem l x : x ∈ Compact l ↔ x ∈ l.
Proof.
  induction l as [|y l IH]; [done|]. cbn [Compact]. destruct l as [|z l]; [done|].
  case_bool_decide as Hyz; rewrite !elem_of_cons, ?IH, !elem_of_cons; [subst; naive_solver|done].
Qed.

(** Removing adjacent duplicates from a sorted list leaves it strictly sorted. *)
Lemma Compact_sorted l :
  StronglySorted (cmp_le compareDependencies) l → StronglySorted (λ a b, compareDependencies a b < 0) (Compact l).
Proof.
  induction 1 as [|x l Hs IH Hx]; [constructor|]. cbn [Compact].
  destruct l as [|y l]; [repeat constructor|]. case_bool_decide as Hxy; [done|].
  constructor; [done|]. apply Forall_forall. intros z Hz. rewrite Compact_elem in Hz.
  assert (Hxz : cmp_le compareDependencies x z) by (by apply (proj1 (Forall_forall _ _) Hx)).
  unfold cmp_le in Hxz. destruct (decide (compareDependencies x z = 0)) as [H0|]; [exfalso|lia].
  assert (Hyz : compareDependencies y z ≤ 0).
  { apply elem_of_cons in Hz as [->|Hz]; [by rewrite cmp_refl|].
    apply StronglySorted_inv in Hs as [_ Hy]. by apply (proj1 (Forall_forall _ _) Hy). }
  apply compareDependencies_eq in H0 as ->. apply Hxy.
  assert (Hzy : compareDependencies z y ≤ 0) by (apply (proj1 (Forall_forall _ _) Hx); left).
  apply compareDependencies_eq. rewrite (cmp_flip (cmp := compareDependencies) z y) in Hyz. lia.
Qed.

(** the inputs of an observation are the portable forms of the captured
    dependencies, each once and in order; when they could not be captured the
    observation says so rather than that there were none. *)
Theorem historyDependencies_spec deps packageDir moduleRoot :
  match historyDependencies deps packageDir moduleRoot with
  | None => deps = None
  | Some hds => ∃ ds, deps = Some ds ∧
      (∀ hd, hd ∈ hds ↔ ∃ d, d ∈ ds ∧ hd = historyDependency packageDir moduleRoot d) ∧
      StronglySorted (λ a b, compareDependencies a b < 0) hds ∧ NoDup hds
  end.
Proof.
  destruct deps as [ds|]; simpl; [|done]. exists ds. split; [done|].
  pose proof (Compact_sorted _ (sort_by_StronglySorted compareDependencies
    (historyDependency packageDir moduleRoot <$> ds))) as Hs.
  split_and!; [|done|].
  - intros hd. rewrite Compact_elem, elem_of_sort_by, list_elem_of_fmap. naive_solver.
  - induction Hs as [|x l Hs IH Hx]; [constructor|]. constructor; [|done].
    intros Hin. rewrite Forall_forall in Hx. specialize (Hx x Hin). rewrite cmp_refl in Hx. lia.
Qed.

Lemma strip_common_prefix r b t : strip_common (r ++ b) (r ++ t) = strip_common b t.
Proof. induction r as [|x r IH]; simpl; [done|]. by rewrite bool_decide_true. Qed.

Lemma Rel_relocate r b t :
  Forall normal_elem (r ++ b) → Forall normal_elem (r ++ t) →
  Rel (abs (r ++ b)) (abs (r ++ t)) =
  let '(b, t) := strip_common b t in
  match b with
  | ".." :: _ => None
  | _ => let es := replicate (length b) ".." ++ t in Some (if bool_decide (es = []) then "." else Join es slashS)
  end.
Proof.
  intros Hb Ht. unfold Rel. rewrite !IsAbs_abs, bool_decide_true by done.
  by rewrite !elems_abs, strip_common_prefix.
Qed.

Lemma relativeWithin_relocate r r' b t :
  Forall normal_elem (r ++ b) → Forall normal_elem (r ++ t) →
  Forall normal_elem (r' ++ b) → Forall normal_elem (r' ++ t) →
  relativeWithin (abs (r ++ t)) (abs (r ++ b)) = relativeWithin (abs (r' ++ t)) (abs (r' ++ b)).
Proof. intros. unfold relativeWithin. rewrite !bool_decide_false by done. by rewrite !Rel_relocate. Qed.

Lemma relativeWithin_inside r t :
  Forall normal_elem (r ++ t) → relativeWithin (abs (r ++ t)) (abs r) = Some (Join t slashS).
Proof.
  intros Ht. unfold relativeWithin. rewrite bool_decide_false by done.
  replace (abs r) with (abs (r ++ [])) by (by rewrite app_nil_r). rewrite Rel_relocate; [|by rewrite app_nil_r; apply Forall_app in Ht as [? _]|done].
  simpl. apply Forall_app in Ht as [_ Ht]. destruct t as [|e t]; [done|].
  rewrite (bool_decide_false (e :: t = [])) by done. inversion Ht as [|? ? (Hok & Hne & Hd & Hdd) Ht']; subst.
  assert (Hpre : ∀ c, ContainsByte c slash = false → (Join (e :: t) slashS = c ∨ HasPrefix (Join (e :: t) slashS) (c +:+ "/") = true) → e = c).
  { intros c Hc Hj. assert (Hh : head (Split (Join (e :: t) slashS) slash) = Some e).
    { change slashS with (String slash ""). rewrite Split_Join; [done..|]. constructor; [done|]. eapply Forall_impl; [exact Ht'|]. by intros ? [? _]. }
    destruct Hj as [Hj|[rest Hj]%HasPrefix_true]; rewrite Hj in Hh.
    - rewrite Split_no_sep_id in Hh by done. by injection Hh.
    - rewrite append_assoc in Hh. change ("/" +:+ rest) with (String slash rest) in Hh.
      rewrite Split_app_sep in Hh by done. by injection Hh. }
  rewrite (bool_decide_false (_ = "..")) by (intros Heq; apply Hdd, Hpre; auto).
  destruct (HasPrefix (Join (e :: t) slashS) "../") eqn:Hp; [exfalso; apply Hdd, Hpre; auto|].
  simpl orb. cbv iota. rewrite bool_decide_false; [done|]. intros Heq. apply Hd, Hpre; auto.
Qed.

(** the recorded form of an input inside the module is the same in every
    checkout: it does not depend on the directory the module is in, and names
    neither that directory nor a hash of it. *)
Theorem portableHistoryPath_relocates root root' package path :
  Forall normal_elem (root ++ package) → Forall normal_elem (root' ++ package) →
  Forall normal_elem (root ++ path) → Forall normal_elem (root' ++ path) →
  portableHistoryPath (abs (root ++ path)) (abs (root ++ package)) (abs root) =
  portableHistoryPath (abs (root' ++ path)) (abs (root' ++ package)) (abs root') ∧
  (HasPrefix (portableHistoryPath (abs (root ++ path)) (abs (root ++ package)) (abs root)) "$PACKAGE/" = true ∨
   portableHistoryPath (abs (root ++ path)) (abs (root ++ package)) (abs root) = "$MODULE/" +:+ Join path slashS).
Proof.
  intros Hp Hp' Ht Ht'. unfold portableHistoryPath. rewrite !Clean_abs by done.
  rewrite (relativeWithin_relocate root root') by done.
  destruct (relativeWithin _ _) as [rel|]; [split; [done|left; apply HasPrefix_append]|].
  rewrite !relativeWithin_inside by done. auto.
Qed.

(** ** Examples *)

Definition exampleObservation (name id : string) (at_ : Time) (o : Outcome) (d : Duration) (n : Z) : Observation :=
  MkObservation id (historyKeyForTask (H := testRuntime) exampleFlags (exampleTask name) zeroProfile) at_ o d n 0 None.

Definition exampleHistoryOf (name : string) (obs : list Observation) : string * History :=
  let key := historyKeyForTask (H := testRuntime) exampleFlags (exampleTask name) zeroProfile in
  (ID (H := testRuntime) key, MkHistory Version key obs).

(** TestB failed last, TestA is slow, TestC is unknown. *)
Definition exampleHistories : gmap string History := list_to_map
  [exampleHistoryOf "TestA" [exampleObservation "TestA" "a1" 5 OutcomePass (9 * Second) 1;
                             exampleObservation "TestA" "a2" 8 OutcomeFlaky (12 * Second) 2];
   exampleHistoryOf "TestB" [exampleObservation "TestB" "b1" 6 OutcomeFail Second 4]].

Definition historyServer : Server := exampleServer <| histories := exampleHistories |>.

Definition exampleTasks : list testTask := exampleTask <$> ["TestA"; "TestB"; "TestC"].

Lemma exampleTasks_NoDup : NoDup (taskID <$> exampleTasks).
Proof. apply (bool_decide_unpack _). vm_compute. exact I. Qed.

Lemma orderTestTasksByHistory_spec_witness :
  orderTestTasksByHistory (H := testRuntime) exampleFlags historyServer exampleTasks =
    [exampleTask "TestB"; exampleTask "TestA"; exampleTask "TestC"] ∧
  orderTestTasksByHistory (H := testRuntime) exampleFlags historyServer exampleTasks ≡ₚ exampleTasks.
Proof.
  split; [vm_compute; reflexivity|].
  exact (proj1 (orderTestTasksByHistory_spec (H := testRuntime) exampleFlags historyServer exampleTasks exampleTasks_NoDup)).
Defined.

Lemma prepareTestEstimates_spec_witness :
  let s' := prepareTestEstimates (H := testRuntime) exampleFlags historyServer exampleTasks in
  testEstimateBase s' = 3125 * Millisecond ∧ testSchedule s' = taskID <$> exampleTasks.
Proof.
  split; [vm_compute; reflexivity|].
  refine (proj1 (proj2 (prepareTestEstimates_spec (H := testRuntime) exampleFlags historyServer exampleTasks
    exampleTasks_NoDup _))).
  assert (Hall : map_Forall (λ _ h, Forall (λ obs, in_int64 (obsDuration obs)) (Observations h)) exampleHistories).
  { apply map_Forall_insert_2; [|apply map_Forall_insert_2; [|apply map_Forall_empty]];
      repeat constructor; vm_compute; discriminate. }
  intros id h obs Hh. exact (proj1 (Forall_forall _ _) (Hall id h Hh) obs).
Defined.

Lemma portableHistoryPath_relocates_witness :
  portableHistoryPath "/home/ann/src/m/data/x" "/home/ann/src/m/p" "/home/ann/src/m" =
  portableHistoryPath "/b/m/data/x" "/b/m/p" "/b/m".
Proof.
  refine (proj1 (portableHistoryPath_relocates ["home"; "ann"; "src"; "m"] ["b"; "m"] ["p"] ["data"; "x"] _ _ _ _));
    repeat constructor; discriminate.
Defined.

Example portable_external :
  portableHistoryPath "/etc/hosts" "/b/m/p" "/b/m" = "$EXTERNAL/4a666ea3a3b04a24/hosts".
Proof. vm_compute. reflexivity. Qed.
