(* ===== verification/HistoryStore.v ===== *)
(** * Stores of test history (history.go)

    The interface [history.Store], the store on disk with one file per
    observation, and the client of the history service. *)

From Stdlib Require Import Ascii.
From S2P Require Import Prelude GoStrings Path GoFmt Sha256 Quote CappedBuffer HistoryTypes TestCache Disk History HistoryFacts.

(** ** The interface *)

(** [S] is the state behind the interface and [E] what the environment answers
    during one call. *)
Class HistoryStore (S E : Type) := {
  storeLookup : S → E → list Key → Z → result (gmap string History);
  storeRecord : S → E → list Observation → option error * S
}.

(** What a caller may rely on of a history that was asked for: it is one of the
    wanted ones, all its observations are of its key, newest first, and there
    are no more than the limit. *)
Definition effectiveLimit (limit : Z) : Z := if limit <=? 0 then historyRequestLimit else limit.

Record history_ok `{GoRuntime} (keys : list Key) (limit : Z) (id : string) (h : History) : Prop := {
  ho_key : ID (hKey h) = id;
  ho_wanted : id ∈ ID <$> keys;
  ho_version : hVersion h = Version;
  ho_keys : Forall (λ obs, ID (obsKey obs) = id) (Observations h);
  ho_sorted : StronglySorted (cmp_le compareHistoryObservations) (Observations h);
  ho_limit : Z.of_nat (length (Observations h)) ≤ effectiveLimit limit
}.

Class HistoryStoreLaws `{GoRuntime} (S E : Type) `{!HistoryStore S E} := {
  lookup_ok : ∀ s env keys limit found, storeLookup s env keys limit = Ok found →
    map_Forall (history_ok keys limit) found
}.

(** ** Encoding *)

(** [json.MarshalIndent] and [json.Unmarshal] at an observation. *)
Class ObservationCodec := {
  MarshalObs : Observation → result string;
  UnmarshalObs : string → result Observation;
  exactObs : Observation → Prop;
  (** decoding is the inverse of encoding, and ignores the final newline *)
  UnmarshalObs_Marshal : ∀ o, exactObs o → ∃ s, MarshalObs o = Ok s ∧ UnmarshalObs (s +:+ newline) = Ok o
}.

(** ** The store on disk *)

Record historyIO := HistoryIO {
  hioCanceled : nat → bool;                   (** [ctx.Err() != nil], per poll *)
  hioWrite : nat → writeFaults;               (** per observation of the call *)
  hioReadDir : string → option ioError;       (** faults of [os.ReadDir], absence apart *)
  hioRead : string → string → option ioError; (** faults of [os.ReadFile] *)
  hioRemove : string → string → option ioError
}.

Definition Ext (name : string) : string :=
  match CutLast name "."%char with Some (_, e) => "." +:+ e | None => "" end.

(** [os.ReadDir]: the entries sorted by name. *)
Definition dirEntries (m : gmap string node) : list (string * node) :=
  sort_by (onCmp fst Compare) (map_to_list m).

Definition isObservation (e : string * node) : bool :=
  match e.2 with Subdirectory => false | Regular _ => bool_decide (Ext e.1 = ".json") end.

Definition ioErr (e : ioError) : error := EMsg (ioText e).

Section disk.
Context `{GoRuntime} `{ObservationCodec} (dir : string).

Definition keyDir (id : string) : string := PathJoin [dir; takeS 2 id; id].

Definition observationName (obs : Observation) : string := EncodeToString (Sum256 (obsID obs)) +:+ ".json".

(** The loop of [read]: the observations kept and their identifiers. *)
Fixpoint readLoop (io : historyIO) (key : Key) (entries : list (string * node)) (seen : gset string)
    (acc : list Observation) : result (list Observation) :=
  match entries with
  | [] => Ok acc
  | e :: entries =>
      if negb (isObservation e) then readLoop io key entries seen acc
      else
        match hioRead io (keyDir (ID key)) e.1, e.2 with
        | Some NotExist, _ => readLoop io key entries seen acc
        | Some err, _ => Err (ioErr err)
        | None, Subdirectory => Err (EMsg "is a directory")
        | None, Regular data =>
            match UnmarshalObs data with
            | Err err => Err (EWrap ("decoding " +:+ PathJoin [keyDir (ID key); e.1] +:+ ": ") err)
            | Ok obs =>
                if negb (bool_decide (ID (obsKey obs) = ID key)) then
                  Err (EMsg ("history observation " +:+ obsID obs +:+ " has wrong key"))
                else if bool_decide (obsID obs ∈ seen) then readLoop io key entries seen acc
                else readLoop io key entries ({[obsID obs]} ∪ seen) (acc ++ [obs])
            end
        end
  end.

(** [read]: [Ok None] is [errHistoryNotFound]. *)
Definition read (d : disk) (io : historyIO) (key : Key) : result (option History) :=
  match hioReadDir io (keyDir (ID key)), d !! keyDir (ID key) with
  | Some err, _ => Err (ioErr err)
  | None, None => Ok None
  | None, Some files =>
      match readLoop io key (dirEntries files) ∅ [] with
      | Err e => Err e
      | Ok [] => Ok None
      | Ok obs => Ok (Some (MkHistory Version key (sort_by compareHistoryObservations obs)))
      end
  end.

Fixpoint diskLookupLoop (d : disk) (io : historyIO) (limit : Z) (poll : nat) (keys : list Key)
    (ret : gmap string History) : result (gmap string History) :=
  match keys with
  | [] => Ok ret
  | key :: keys =>
      if hioCanceled io poll then Err ECanceled
      else
        match read d io key with
        | Err e => Err e
        | Ok None => diskLookupLoop d io limit (S poll) keys ret
        | Ok (Some h) =>
            let h := if limit <? Z.of_nat (length (Observations h))
                     then h <| Observations ::= take (Z.to_nat limit) |> else h in
            diskLookupLoop d io limit (S poll) keys (<[ID key := h]> ret)
        end
  end.

Definition diskLookup (d : disk) (io : historyIO) (keys : list Key) (limit : Z) : result (gmap string History) :=
  diskLookupLoop d io (effectiveLimit limit) 0 keys ∅.

Definition writeObservation (d : disk) (f : writeFaults) (obs : Observation) : option error * disk :=
  let dir := keyDir (ID (obsKey obs)) in
  match mkdirErr f with
  | Some e => (Some e, d)
  | None =>
      let d := mkdirAll d dir in
      match MarshalObs obs with
      | Err e => (Some e, d)
      | Ok data =>
          match stage f dir (data +:+ newline) d with
          | (Some e, d) => (Some e, d)
          | (None, d) =>
              match rename f dir (observationName obs) (data +:+ newline) d with
              | (Some e, d) =>
                  (* an existing destination is the same observation *)
                  if fileAt d dir (observationName obs) then (None, d) else (Some e, d)
              | (None, d) => (None, d)
              end
          end
      end
  end.

(** The loop of [prune] that reads the observations of a directory. *)
Fixpoint pruneRead (io : historyIO) (dir : string) (entries : list (string * node))
    (acc : list (string * Observation)) : result (list (string * Observation)) :=
  match entries with
  | [] => Ok acc
  | e :: entries =>
      if negb (isObservation e) then pruneRead io dir entries acc
      else
        match hioRead io dir e.1, e.2 with
        | Some NotExist, _ => pruneRead io dir entries acc
        | Some err, _ => Err (ioErr err)
        | None, Subdirectory => Err (EMsg "is a directory")
        | None, Regular data =>
            match UnmarshalObs data with
            | Err err => Err err
            | Ok obs => pruneRead io dir entries (acc ++ [(e.1, obs)])
            end
        end
  end.

Fixpoint removeAll (io : historyIO) (dir : string) (names : list string) (d : disk) : option error * disk :=
  match names with
  | [] => (None, d)
  | name :: names =>
      match hioRemove io dir name with
      | Some NotExist => removeAll io dir names d
      | Some err => (Some (ioErr err), d)
      | None => removeAll io dir names (removeAt d dir name)
      end
  end.

Definition prune (d : disk) (io : historyIO) (keyID : string) (limit : Z) : option error * disk :=
  let dir := keyDir keyID in
  match hioReadDir io dir, d !! dir with
  | Some err, _ => (Some (ioErr err), d)
  | None, None => (None, d)
  | None, Some files =>
      match pruneRead io dir (dirEntries files) [] with
      | Err e => (Some e, d)
      | Ok observations =>
          let sorted := sort_by (onCmp snd compareHistoryObservations) observations in
          removeAll io dir (drop (Z.to_nat (Z.min limit (Z.of_nat (length sorted)))) sorted).*1 d
      end
  end.

(** The first loop of [Record]: the disk, and the identities of the keys
    written to, with the error that stopped it, if any. *)
Fixpoint recordLoop (d : disk) (io : historyIO) (poll : nat) (observations : list Observation)
    (seen keyDirs : gset string) : option error * (disk * gset string) :=
  match observations with
  | [] => (None, (d, keyDirs))
  | obs :: observations =>
      if hioCanceled io poll then (Some ECanceled, (d, keyDirs))
      else
        let entryID := ID (obsKey obs) +:+ nul +:+ obsID obs in
        if bool_decide (entryID ∈ seen) then recordLoop d io (S poll) observations seen keyDirs
        else
          match writeObservation d (hioWrite io poll) obs with
          | (Some e, d) => (Some e, (d, keyDirs))
          | (None, d) =>
              recordLoop d io (S poll) observations ({[entryID]} ∪ seen) ({[ID (obsKey obs)]} ∪ keyDirs)
          end
  end.

Fixpoint pruneLoop (d : disk) (io : historyIO) (poll : nat) (ids : list string) : option error * disk :=
  match ids with
  | [] => (None, d)
  | id :: ids =>
      if hioCanceled io poll then (Some ECanceled, d)
      else
        match prune d io id localHistoryLimit with
        | (Some e, d) => (Some e, d)
        | (None, d) => pruneLoop d io (S poll) ids
        end
  end.

(** [Record]; the range over the set of keys takes them in any order, here that
    of [elements]. *)
Definition diskRecord (d : disk) (io : historyIO) (observations : list Observation) : option error * disk :=
  match recordLoop d io 0 observations ∅ ∅ with
  | (Some e, (d, _)) => (Some e, d)
  | (None, (d, keyDirs)) => pruneLoop d io (length observations) (elements keyDirs)
  end.

#[export] Instance diskHistoryStore : HistoryStore disk historyIO := {
  storeLookup := diskLookup;
  storeRecord := diskRecord
}.
End disk.

(** ** The client of the history service *)

Section http.
Context `{GoRuntime}.

(** The validation of a response by [httpHistoryStore.Lookup]. *)
Fixpoint httpHistories (wanted : list string) (limit : Z) (hs : list (option History)) (ret : gmap string History)
    : result (gmap string History) :=
  match hs with
  | [] => Ok ret
  | None :: hs => httpHistories wanted limit hs ret
  | Some h :: hs =>
      if negb (hVersion h =? Version) || negb (bool_decide (ID (hKey h) ∈ wanted)) then
        httpHistories wanted limit hs ret
      else
        match filter (λ obs, ID (obsKey obs) ≠ ID (hKey h)) (Observations h) with
        | obs :: _ => Err (EMsg ("history service returned observation " +:+ Quote (obsID obs) +:+ " under the wrong key"))
        | [] =>
            let sorted := sort_by compareHistoryObservations (Observations h) in
            let kept := if limit <? Z.of_nat (length sorted) then take (Z.to_nat limit) sorted else sorted in
            httpHistories wanted limit hs (<[ID (hKey h) := h <| Observations := kept |>]> ret)
        end
  end.

(** [doJSON] is the exchange with the service: the decoded response to a
    request, or an error. *)
Definition httpLookup (doJSON : LookupRequest → result LookupResponse) (keys : list Key) (limit : Z)
    : result (gmap string History) :=
  let limit := effectiveLimit limit in
  match doJSON (MkLookupRequest Version keys limit) with
  | Err e => Err e
  | Ok res =>
      if negb (lrVersion res =? Version) then
        Err (EMsg ("history service returned version " +:+ itoa (lrVersion res) +:+ ", want " +:+ itoa Version))
      else httpHistories (ID <$> keys) limit (Histories res) ∅
  end.

Definition httpRecord (doJSON : RecordRequest → option error) (observations : list Observation) : option error :=
  doJSON (MkRecordRequest Version observations).

(** The service as a store: it answers each call. *)
Record serviceIO := ServiceIO {
  sioLookup : LookupRequest → result LookupResponse;
  sioRecord : RecordRequest → option error
}.

#[export] Instance httpHistoryStore : HistoryStore unit serviceIO := {
  storeLookup := λ _ io, httpLookup (sioLookup io);
  storeRecord := λ s io observations, (httpRecord (sioRecord io) observations, s)
}.
End http.
