(* ===== verification/HistoryStoreFacts.v ===== *)
(** * What the stores of test history guarantee *)

From Stdlib Require Import Ascii.
From S2P Require Import Prelude GoStrings Flags Path Profile Args GoFmt Sha256 Quote CappedBuffer HistoryTypes TestCache Disk Server History HistoryFacts HistoryStore.

Lemma StronglySorted_take {A} (R : A → A → Prop) n l : StronglySorted R l → StronglySorted R (take n l).
Proof. intros Hs. rewrite <- (take_drop n l) in Hs. by apply StronglySorted_app_1_l in Hs. Qed.

Section laws.
Context `{GoRuntime}.

(** Cutting a list to the limit. *)
Lemma history_ok_cut keys limit key (h : History) obs :
  ID key ∈ ID <$> keys → ID (hKey h) = ID key → hVersion h = Version →
  Forall (λ obs, ID (obsKey obs) = ID key) obs → StronglySorted (cmp_le compareHistoryObservations) obs →
  history_ok keys limit (ID key) (h <| Observations :=
    if effectiveLimit limit <? Z.of_nat (length obs) then take (Z.to_nat (effectiveLimit limit)) obs else obs |>).
Proof using Type.
  intros Hk Hid Hv Hf Hs. assert (0 < effectiveLimit limit).
  { unfold effectiveLimit. destruct (Z.leb_spec limit 0); [done|lia]. }
  destruct (Z.ltb_spec (effectiveLimit limit) (Z.of_nat (length obs))); constructor; simpl; try done.
  - by apply Forall_take.
  - by apply StronglySorted_take.
  - rewrite length_take. lia.
Qed.

Section disk.
Context `{ObservationCodec} (dir : string).

Lemma readLoop_keys io key entries seen acc obs :
  readLoop dir io key entries seen acc = Ok obs →
  Forall (λ o, ID (obsKey o) = ID key) acc → Forall (λ o, ID (obsKey o) = ID key) obs.
Proof using Type.
  revert seen acc. induction entries as [|e entries IH]; intros seen acc; simpl; [by intros [= ->]|].
  destruct (negb (isObservation e)); [by apply IH|].
  destruct (hioRead io _ _) as [[]|]; [by apply IH|done|]. destruct e.2 as [data|]; [|done].
  destruct (UnmarshalObs data) as [o|]; [|done]. destruct (negb _) eqn:Hk; [done|].
  apply negb_false_iff, bool_decide_eq_true in Hk. case_bool_decide; [by apply IH|].
  intros Hr Hacc. eapply IH; [exact Hr|]. apply Forall_app; split; [done|]. by constructor.
Qed.

Lemma read_ok d io key h :
  read dir d io key = Ok (Some h) →
  hKey h = key ∧ hVersion h = Version ∧ Forall (λ o, ID (obsKey o) = ID key) (Observations h) ∧
  StronglySorted (cmp_le compareHistoryObservations) (Observations h).
Proof using Type.
  unfold read. destruct (hioReadDir io _); [done|]. destruct (d !! _) as [files|]; [|done].
  destruct (readLoop _ _ _ _ _ _) as [[|o obs]|] eqn:Hr; [done| |done]. intros [= <-]. cbn [hKey hVersion Observations].
  split_and!; [done|done| |by apply sort_by_StronglySorted; apply _].
  apply readLoop_keys in Hr; [|constructor]. apply Forall_forall. intros x Hx. rewrite elem_of_sort_by in Hx.
  by apply (proj1 (Forall_forall _ _) Hr).
Qed.

Lemma diskLookupLoop_ok d io limit poll keys all ret found :
  (∀ key, key ∈ keys → key ∈ all) →
  diskLookupLoop dir d io (effectiveLimit limit) poll keys ret = Ok found →
  map_Forall (history_ok all limit) ret → map_Forall (history_ok all limit) found.
Proof using Type.
  revert poll ret. induction keys as [|key keys IH]; intros poll ret Hall; simpl; [by intros [= ->]|].
  destruct (hioCanceled io poll); [done|]. destruct (read dir d io key) as [[h|]|] eqn:Hr; [| |done].
  2: { apply IH. set_solver. }
  intros Hl Hret. eapply IH; [set_solver|exact Hl|]. apply map_Forall_insert_2; [|done].
  apply read_ok in Hr as (Hk & Hv & Hf & Hs).
  pose proof (history_ok_cut all limit key h (Observations h)) as Hc.
  assert (Hw : ID key ∈ ID <$> all) by (apply list_elem_of_fmap_2, Hall; left).
  rewrite Hk in Hc. specialize (Hc Hw eq_refl Hv Hf Hs).
  destruct (_ <? _); [exact Hc|]. by destruct h.
Qed.

#[export] Instance diskHistoryStoreLaws : HistoryStoreLaws disk historyIO (HistoryStore0 := diskHistoryStore dir).
Proof using Type.
  constructor. intros d io keys limit found Hl. eapply diskLookupLoop_ok; [|exact Hl|apply map_Forall_empty]. done.
Qed.
End disk.

Lemma httpHistories_ok keys limit hs ret found :
  httpHistories (ID <$> keys) (effectiveLimit limit) hs ret = Ok found →
  map_Forall (history_ok keys limit) ret → map_Forall (history_ok keys limit) found.
Proof using Type.
  revert ret. induction hs as [|[h|] hs IH]; intros ret; simpl; [by intros [= ->]| |apply IH].
  destruct (negb _ || negb _) eqn:Hskip; [apply IH|].
  apply orb_false_elim in Hskip as [Hv%negb_false_iff%Z.eqb_eq Hw%negb_false_iff].
  apply bool_decide_eq_true in Hw. destruct (filter _ _) as [|] eqn:Hf; [|done].
  intros Hl Hret. apply (IH _ Hl). apply map_Forall_insert_2; [|done].
  apply history_ok_cut; [done..| |by apply sort_by_StronglySorted; apply _].
  apply Forall_forall. intros o Ho. rewrite elem_of_sort_by in Ho.
  destruct (decide (ID (obsKey o) = ID (hKey h))) as [|Hne]; [done|exfalso].
  apply (not_elem_of_nil o). rewrite <- Hf. apply list_elem_of_filter. done.
Qed.

#[export] Instance httpHistoryStoreLaws : HistoryStoreLaws unit serviceIO.
Proof using Type.
  constructor. intros [] io keys limit found. cbn [storeLookup httpHistoryStore]. unfold httpLookup.
  destruct (sioLookup io _) as [res|]; [|done]. destruct (negb _); [done|].
  intros Hl. eapply httpHistories_ok; [exact Hl|apply map_Forall_empty].
Qed.
End laws.

(** ** Directories of keys *)

Lemma clean_elems_snoc rooted es e :
  normal_elem e → clean_elems rooted (es ++ [e]) = clean_elems rooted es ++ [e].
Proof.
  intros (_ & H1 & H2 & H3). unfold clean_elems. rewrite foldl_app. simpl foldl. unfold clean_step at 1.
  rewrite !bool_decide_false by done. simpl. by rewrite reverse_cons.
Qed.

Lemma of_elems_snoc rooted es e e' es' :
  es ≠ [] → es' ≠ [] → elem_ok e → elem_ok e' →
  of_elems rooted (es ++ [e]) = of_elems rooted (es' ++ [e']) → e = e'.
Proof.
  intros Hes Hes' He He' Heq.
  assert (Hsh : ∀ es e, es ≠ [] → ∃ p, of_elems rooted (es ++ [e]) = p +:+ String slash e).
  { clear. intros es e Hes. unfold of_elems. rewrite bool_decide_false by (by destruct es). rewrite Join_snoc.
    destruct es as [|x es]; [done|]. destruct rooted.
    - exists (slashS +:+ Join (x :: es) slashS). by rewrite append_assoc.
    - by exists (Join (x :: es) slashS). }
  destruct (Hsh es e Hes) as [p Hp], (Hsh es' e' Hes') as [p' Hp']. rewrite Hp, Hp' in Heq.
  assert (H1 := proj2 (CutLast_Some _ _ _ _) (conj eq_refl He) : CutLast (p +:+ String slash e) slash = Some (p, e)).
  assert (H2 := proj2 (CutLast_Some _ _ _ _) (conj eq_refl He') : CutLast (p' +:+ String slash e') slash = Some (p', e')).
  rewrite Heq, H2 in H1. by injection H1 as _ <-.
Qed.

Lemma IsAbs_append p q : p ≠ "" → IsAbs (p +:+ q) = IsAbs p.
Proof.
  destruct p as [|a p]; [done|]. intros _. unfold IsAbs, HasPrefix. rewrite append_cons. cbn [CutPrefix slashS]. by destruct (Ascii.eqb _ a).
Qed.

(** The directory of a key determines its identity. *)
Lemma PathJoin_last dir p e p' e' :
  dir ≠ "" → normal_elem p → normal_elem e → normal_elem p' → normal_elem e' →
  PathJoin [dir; p; e] = PathJoin [dir; p'; e'] → e = e'.
Proof.
  intros Hd Hp He Hp' He'.
  assert (Hjoin : ∀ p e, normal_elem p → normal_elem e →
    PathJoin [dir; p; e] = of_elems (IsAbs dir) ((clean_elems (IsAbs dir) (Split dir slash) ++ [p]) ++ [e])).
  { clear - Hd. intros p e Hp He. unfold PathJoin. rewrite !filter_cons_True by (done || apply Hp || apply He).
    rewrite filter_nil. unfold Clean, elems. simpl Join. rewrite IsAbs_append by done. f_equal.
    rewrite <- !clean_elems_snoc by done. f_equal. rewrite <- app_assoc. simpl app.
    assert (Hs : Split (dir +:+ slashS +:+ p +:+ slashS +:+ e) slash = Split dir slash ++ [p; e]); [|exact Hs].
    rewrite <- (Join_Split dir slash) at 1. change (String slash "") with slashS.
    pose proof (Split_nonempty dir slash) as Hne. pose proof (Split_no_sep dir slash) as Hno.
    assert (Hj : Join (Split dir slash) slashS +:+ slashS +:+ p +:+ slashS +:+ e =
      Join (Split dir slash ++ [p; e]) slashS).
    { change [p; e] with ([p] ++ [e]). rewrite app_assoc, !Join_snoc. destruct (Split dir slash) eqn:E; [done|].
      simpl app. by rewrite !append_assoc. }
    rewrite Hj. change slashS with (String slash ""). apply Split_Join; [by destruct (Split dir slash)|].
    apply Forall_app; split; [done|]. repeat constructor; [apply Hp|apply He]. }
  rewrite !Hjoin by done. apply of_elems_snoc; [by destruct (clean_elems _ _)..|apply He|apply He'].
Qed.

(** ** What the files of the store stand for *)

Section record.
Context `{GoRuntime} `{ObservationCodec} (dir : string).

(** The observation an entry of a directory holds, if it is one. *)
Definition decodeEntry (name : string) (n : node) : option Observation :=
  match n with
  | Regular data =>
      if bool_decide (Ext name = ".json")
      then match UnmarshalObs data with Ok o => Some o | Err _ => None end else None
  | Subdirectory => None
  end.

(** The observations in a directory, by file name. *)
Definition contents (d : disk) (p : string) : gmap string Observation :=
  map_imap decodeEntry (default ∅ (d !! p)).

Lemma contents_lookup d p name : contents d p !! name = fileAt d p name ≫= decodeEntry name.
Proof using Type. unfold contents, fileAt. rewrite map_lookup_imap. by destruct (d !! p). Qed.

(** Every observation file can be decoded. *)
Definition decodable (d : disk) : Prop :=
  ∀ p name data, fileAt d p name = Some (Regular data) → Ext name = ".json" → is_Some (decodeEntry name (Regular data)).

(** Files other than temporary ones decide the contents. *)
Lemma contents_ext d d' p :
  (∀ name, Ext name = ".json" → fileAt d' p name = fileAt d p name) → contents d' p = contents d p.
Proof using Type.
  intros Hf. apply map_eq. intros name. rewrite !contents_lookup.
  destruct (decide (Ext name = ".json")) as [He|Hne]; [by rewrite Hf|].
  assert (Hnone : ∀ n, decodeEntry name n = None) by (intros []; simpl; [by rewrite bool_decide_false|done]).
  destruct (fileAt d' p name), (fileAt d p name); simpl; by rewrite ?Hnone.
Qed.

Lemma observationName_json obs : Ext (observationName obs) = ".json".
Proof using Type.
  unfold Ext, observationName. rewrite (proj2 (CutLast_Some _ "." (EncodeToString (Sum256 (obsID obs))) "json")); [done|].
  done.
Qed.

(** What writing one observation does: with the data in place, or not at all. *)
Lemma writeObservation_files d f obs :
  Ext (tempName f) ≠ ".json" →
  let p := keyDir dir (ID (obsKey obs)) in
  let r := writeObservation dir d f obs in
  ((∀ q name, Ext name = ".json" → fileAt r.2 q name = fileAt d q name) ∧
   (faultFree f → ∀ data, MarshalObs obs ≠ Ok data)) ∨
  (∃ data, MarshalObs obs = Ok data ∧ r.1 = None ∧
     fileAt r.2 p (observationName obs) = Some (Regular (data +:+ newline)) ∧
     ∀ q name, Ext name = ".json" → (q, name) ≠ (p, observationName obs) → fileAt r.2 q name = fileAt d q name).
Proof using Type.
  intros Ht p r. subst r. unfold writeObservation. fold p.
  destruct (mkdirErr f) eqn:Hmk; [left; split; [done|intros []; congruence]|].
  destruct (MarshalObs obs) as [data|]; [|left; split; [intros; apply fileAt_mkdirAll|done]].
  pose proof (stage_other f p (data +:+ newline) (mkdirAll d p)) as Hother.
  pose proof (stage_faultFree f p (data +:+ newline) (mkdirAll d p)) as Hff.
  destruct (stage f p _ _) as [[e|] d1]; simpl in Hother.
  { left. split; [|intros Hf; by apply Hff in Hf]. intros q name Hn. simpl. rewrite Hother, fileAt_mkdirAll; [done|]. congruence. }
  assert (Hn : observationName obs ≠ tempName f) by (intros Heq; by rewrite <- Heq, observationName_json in Ht).
  destruct (rename_spec f p (observationName obs) (data +:+ newline) d1 Hn) as (Hdst & Htmp & Hrest).
  assert (Hren : faultFree f → (rename f p (observationName obs) (data +:+ newline) d1).1 = None).
  { intros [_ _ _ _ _ Hr]. unfold rename. by rewrite Hr. }
  destruct (rename f p _ _ d1) as [[e|] d2]; simpl in *.
  - left. split; [|intros Hf; by apply Hren in Hf]. assert (Hsame : ∀ q name, Ext name = ".json" → fileAt d2 q name = fileAt d q name).
    { intros q name He. assert ((q, name) ≠ (p, tempName f)) by congruence.
      destruct (decide ((q, name) = (p, observationName obs))) as [[= -> ->]|Hne].
      - by rewrite Hdst, Hother, fileAt_mkdirAll.
      - by rewrite Hrest, Hother, fileAt_mkdirAll. }
    by destruct (fileAt d2 p (observationName obs)).
  - right. exists data. split_and!; [done..|]. intros q name He Hne.
    assert ((q, name) ≠ (p, tempName f)) by congruence. by rewrite Hrest, Hother, fileAt_mkdirAll.
Qed.

Lemma writeObservation_contents d f obs :
  Ext (tempName f) ≠ ".json" → exactObs obs →
  let p := keyDir dir (ID (obsKey obs)) in
  let d' := (writeObservation dir d f obs).2 in
  ((∀ q, contents d' q = contents d q) ∧ ¬ faultFree f) ∨
  ((writeObservation dir d f obs).1 = None ∧ ∀ q, contents d' q = if decide (q = p) then <[observationName obs := obs]> (contents d q) else contents d q).
Proof using Type.
  intros Ht Hex. cbv zeta. destruct (UnmarshalObs_Marshal obs Hex) as (enc & Henc & Hdec).
  destruct (writeObservation_files d f obs Ht) as [[Hsame Hnf]|(data & Hm & Hnone & Hat & Hrest)];
    set (p := keyDir dir (ID (obsKey obs))) in *; set (d' := (writeObservation dir d f obs).2) in *.
  { left. split; [|intros Hf; by apply (Hnf Hf enc)]. intros q. apply contents_ext, Hsame. }
  rewrite Henc in Hm. injection Hm as <-.
  right. split; [done|]. intros q. case_decide as Hq.
  - subst q. apply map_eq. intros name. rewrite contents_lookup.
    destruct (decide (name = observationName obs)) as [->|Hne].
    + rewrite lookup_insert_eq. rewrite Hat. simpl.
      rewrite observationName_json, bool_decide_true by done. by rewrite Hdec.
    + rewrite lookup_insert_ne by done. rewrite contents_lookup.
      destruct (decide (Ext name = ".json")) as [He|Hn].
      * rewrite Hrest; [done|done|]. congruence.
      * assert (Hno : ∀ n, decodeEntry name n = None) by (intros []; simpl; [by rewrite bool_decide_false|done]).
        destruct (fileAt d' p name), (fileAt d p name); simpl; by rewrite ?Hno.
  - apply contents_ext. intros name He. apply Hrest; [done|]. congruence.
Qed.

(** ** Nothing is ever invented or damaged *)

Lemma removeAll_sub io p names d q name n :
  fileAt (removeAll io p names d).2 q name = Some n → fileAt d q name = Some n.
Proof using Type.
  revert d. induction names as [|x names IH]; intros d; simpl; [done|].
  destruct (hioRemove io p x) as [[]|]; [apply IH|done|]. intros Hf%IH.
  destruct (decide ((q, name) = (p, x))) as [[= -> ->]|Hne]; [by rewrite fileAt_removeAt in Hf|].
  by rewrite fileAt_removeAt_ne in Hf.
Qed.

Lemma prune_sub d io id limit q name n :
  fileAt (prune dir d io id limit).2 q name = Some n → fileAt d q name = Some n.
Proof using Type.
  unfold prune. destruct (hioReadDir io _); [done|]. destruct (d !! _); [|done].
  destruct (pruneRead _ _ _ _); [apply removeAll_sub|done].
Qed.

Lemma pruneLoop_sub d io poll ids q name n :
  fileAt (pruneLoop dir d io poll ids).2 q name = Some n → fileAt d q name = Some n.
Proof using Type.
  revert d poll. induction ids as [|id ids IH]; intros d poll; simpl; [done|].
  destruct (hioCanceled io poll); [done|]. pose proof (prune_sub d io id localHistoryLimit q name n) as Hp.
  destruct (prune dir d io id localHistoryLimit) as [[e|] d1]; [done|]. intros Hf%IH. by apply Hp.
Qed.

(** Temporary files are not taken for observations, and the observations are
    ones the encoding represents. *)
Definition tempsApart (io : historyIO) : Prop := ∀ i, Ext (tempName (hioWrite io i)) ≠ ".json".

Definition recordedAs (observations : list Observation) (p name : string) (o : Observation) : Prop :=
  o ∈ observations ∧ p = keyDir dir (ID (obsKey o)) ∧ name = observationName o.

Lemma recordLoop_safe d io poll observations seen keyDirs p name o :
  tempsApart io → Forall exactObs observations →
  contents (recordLoop dir d io poll observations seen keyDirs).2.1 p !! name = Some o →
  contents d p !! name = Some o ∨ recordedAs observations p name o.
Proof using Type.
  intros Ht. revert d poll seen keyDirs. induction observations as [|obs observations IH];
    intros d poll seen keyDirs Hex; simpl; [by left|].
  apply Forall_cons in Hex as [Hobs Hex].
  assert (Hmono : ∀ p name o, recordedAs observations p name o → recordedAs (obs :: observations) p name o).
  { intros ? ? ? (? & ? & ?). split; [by right|done]. }
  destruct (hioCanceled io poll); [by left|].
  case_bool_decide; [intros [?|?]%IH; [by left|right; auto|done]|].
  pose proof (writeObservation_contents d (hioWrite io poll) obs (Ht poll) Hobs) as Hw. cbv zeta in Hw.
  assert (Hstep : ∀ p name o, contents (writeObservation dir d (hioWrite io poll) obs).2 p !! name = Some o →
    contents d p !! name = Some o ∨ recordedAs (obs :: observations) p name o).
  { intros q n x Hx. destruct Hw as [[Hw _]|[_ Hw]]; rewrite Hw in Hx; [by left|]. case_decide as Hq; [|by left].
    destruct (decide (n = observationName obs)) as [->|]; [|rewrite lookup_insert_ne in Hx by done; by left].
    rewrite lookup_insert_eq in Hx. injection Hx as <-. right. split; [left|done]. }
  destruct (writeObservation dir d (hioWrite io poll) obs) as [[e|] d1]; simpl in *; [apply Hstep|].
  intros Hc. apply IH in Hc as [Hc|Hc]; [by apply Hstep|right; auto|done].
Qed.

(** C17: recording never invents and never damages an observation.  Whatever
    fails on the way, and wherever the call is canceled, an observation that is
    in a directory of the store afterwards was there before, under the same
    name and unchanged, or is one of those recorded, in its own place. *)
Theorem diskRecord_safe d io observations p name o :
  tempsApart io → Forall exactObs observations →
  contents (diskRecord dir d io observations).2 p !! name = Some o →
  contents d p !! name = Some o ∨ recordedAs observations p name o.
Proof using Type.
  intros Ht Hex Hc. apply (recordLoop_safe d io 0 observations ∅ ∅ p name o Ht Hex).
  revert Hc. unfold diskRecord. destruct (recordLoop dir d io 0 observations ∅ ∅) as [[e|] [d1 ks]]; simpl; [done|].
  rewrite !contents_lookup. pose proof (pruneLoop_sub d1 io (length observations) (elements ks) p name) as Hs.
  destruct (fileAt (pruneLoop _ _ _ _ _).2 p name) as [n|]; [|done]. by rewrite (Hs n).
Qed.

(** ** Recording without faults keeps the newest *)

Record quietIO (io : historyIO) : Prop := {
  q_canceled : ∀ i, hioCanceled io i = false;
  q_write : ∀ i, faultFree (hioWrite io i);
  q_temps : tempsApart io;
  q_readDir : ∀ p, hioReadDir io p = None;
  q_read : ∀ p name, hioRead io p name = None;
  q_remove : ∀ p name, hioRemove io p name = None
}.

(** [m'] is [m] without all but the newest [limit] observations. *)
Record pruned (limit : Z) (m m' : gmap string Observation) : Prop := {
  pr_sub : m' ⊆ m;
  pr_size : Z.of_nat (size m') = Z.min limit (Z.of_nat (size m));
  pr_newest : ∀ name o name' o', m' !! name = Some o → m !! name' = Some o' → m' !! name' = None →
    compareHistoryObservations o o' ≤ 0
}.

(** The observations of a directory in the order of its entries. *)
Definition decoded (files : gmap string node) : list (string * Observation) :=
  omap (λ e, pair e.1 <$> decodeEntry e.1 e.2) (dirEntries files).

Lemma decoded_elem files name o :
  (name, o) ∈ decoded files ↔ files !! name ≫= decodeEntry name = Some o.
Proof using Type.
  unfold decoded, dirEntries. rewrite list_elem_of_omap. split.
  - intros ([n x] & Hin & Hd). rewrite elem_of_sort_by, elem_of_map_to_list in Hin. simpl in Hd.
    destruct (decodeEntry n x) eqn:E; [|done]. injection Hd as <- <-. rewrite Hin. done.
  - destruct (files !! name) as [x|] eqn:Hf; [|done]. simpl. intros Hd. exists (name, x).
    rewrite elem_of_sort_by, elem_of_map_to_list. simpl. by rewrite Hd.
Qed.

Lemma decoded_NoDup files : NoDup (decoded files).*1.
Proof using Type.
  unfold decoded. assert (Hnd : NoDup (dirEntries files).*1).
  { unfold dirEntries. rewrite sort_by_perm. apply NoDup_fst_map_to_list. }
  induction (dirEntries files) as [|[n x] es IH]; [constructor|]. rewrite fmap_cons in Hnd.
  apply NoDup_cons in Hnd as [Hn Hnd]. simpl. destruct (decodeEntry n x); simpl; [|auto].
  constructor; [|auto]. intros ([n' y] & -> & Hin)%list_elem_of_fmap. apply list_elem_of_omap in Hin as ([n'' x''] & Hin & Hd).
  simpl in Hd. destruct (decodeEntry n'' x''); [|done]. injection Hd as <- <-. apply Hn.
  apply list_elem_of_fmap. exists (n'', x''). done.
Qed.

Lemma pruneRead_quiet io p entries acc :
  quietIO io → (∀ name data, (name, Regular data) ∈ entries → Ext name = ".json" → is_Some (decodeEntry name (Regular data))) →
  pruneRead io p entries acc = Ok (acc ++ omap (λ e, pair e.1 <$> decodeEntry e.1 e.2) entries).
Proof using Type.
  intros Hq. revert acc. induction entries as [|[name n] entries IH]; intros acc Hdec; simpl; [by rewrite app_nil_r|].
  assert (Hrest : ∀ nm data, (nm, Regular data) ∈ entries → Ext nm = ".json" → is_Some (decodeEntry nm (Regular data)))
    by (intros; apply Hdec; [by right|done]).
  unfold isObservation. simpl fst. simpl snd. destruct n as [data|]; [|simpl; by apply IH].
  case_bool_decide as He; simpl negb; cbv iota.
  - rewrite (q_read io Hq). destruct (Hdec name data) as [o Ho]; [left|done|].
    rewrite Ho. unfold decodeEntry in Ho. rewrite bool_decide_true in Ho by done.
    destruct (UnmarshalObs data); [|done]. injection Ho as ->. rewrite IH by done. by rewrite <- app_assoc.
  - rewrite IH by done. simpl. by rewrite bool_decide_false.
Qed.

Lemma removeAll_quiet io p names d :
  quietIO io → (removeAll io p names d).1 = None ∧
  ∀ q name, fileAt (removeAll io p names d).2 q name =
    if bool_decide (q = p ∧ name ∈ names) then None else fileAt d q name.
Proof using Type.
  intros Hq. revert d. induction names as [|x names IH]; intros d; simpl.
  { split; [done|]. intros q name. rewrite bool_decide_false; [done|]. intros [_ ?%not_elem_of_nil]. done. }
  rewrite (q_remove io Hq). destruct (IH (removeAt d p x)) as [Hn Hf]. split; [done|]. intros q name. rewrite Hf.
  destruct (decide ((q, name) = (p, x))) as [[= -> ->]|Hne].
  - rewrite fileAt_removeAt, (bool_decide_true (p = p ∧ x ∈ x :: names)) by (split; [done|left]). by case_bool_decide.
  - rewrite fileAt_removeAt_ne by done. apply bool_decide_ext_if. rewrite elem_of_cons. naive_solver.
Qed.

(** Splitting the sorted list of a map's pairs gives the newest part. *)
Lemma pruned_split (m m' : gmap string Observation) (l : list (string * Observation)) limit :
  0 ≤ limit → NoDup l.*1 → (∀ name o, (name, o) ∈ l ↔ m !! name = Some o) →
  (let sorted := sort_by (onCmp snd compareHistoryObservations) l in
   let k := Z.to_nat (Z.min limit (Z.of_nat (length sorted))) in
   ∀ name, m' !! name = if bool_decide (name ∈ (drop k sorted).*1) then None else m !! name) →
  pruned limit m m'.
Proof using Type.
  intros Hlim Hnd Hl. cbv zeta.
  set (sorted := sort_by (onCmp snd compareHistoryObservations) l).
  set (k := Z.to_nat (Z.min limit (Z.of_nat (length sorted)))). intros Hm'.
  assert (Hp : sorted ≡ₚ l) by apply sort_by_perm.
  assert (Hnds : NoDup sorted.*1) by (by rewrite Hp).
  assert (Hin : ∀ name o, (name, o) ∈ sorted ↔ m !! name = Some o) by (intros; by rewrite Hp).
  assert (Hparts : sorted = take k sorted ++ drop k sorted) by (by rewrite take_drop).
  assert (Hkept : ∀ name o, (name, o) ∈ take k sorted ↔ m' !! name = Some o).
  { intros name o. rewrite Hm'. split.
    - intros Ht. rewrite bool_decide_false.
      + apply Hin. rewrite Hparts. apply elem_of_app. by left.
      + intros Hd. rewrite Hparts, fmap_app in Hnds. apply NoDup_app in Hnds as (_ & Hdis & _).
        apply (Hdis name); [|done]. by apply (list_elem_of_fmap_2 fst _ (name, o)).
    - case_bool_decide as Hd; [done|]. intros Hm. apply Hin in Hm. rewrite Hparts in Hm.
      apply elem_of_app in Hm as [|Hm]; [done|]. exfalso. apply Hd. by apply (list_elem_of_fmap_2 fst _ (name, o)). }
  assert (Hsize : ∀ (g : gmap string Observation) xs, NoDup xs.*1 → (∀ name o, (name, o) ∈ xs ↔ g !! name = Some o) → size g = length xs).
  { clear. intros g xs Hnd Hxs. rewrite <- length_map_to_list. apply Permutation_length, NoDup_Permutation.
    - apply NoDup_map_to_list.
    - by apply NoDup_fmap_1 in Hnd.
    - intros [name o]. by rewrite elem_of_map_to_list, Hxs. }
  constructor.
  - apply map_subseteq_spec. intros name o Ho. apply Hkept in Ho. apply Hin. rewrite Hparts. apply elem_of_app. by left.
  - rewrite (Hsize m sorted Hnds Hin), (Hsize m' (take k sorted)); [|..|done].
    + rewrite length_take. subst k. lia.
    + rewrite Hparts, fmap_app in Hnds. by apply NoDup_app in Hnds as (? & _).
  - intros name o name' o' Ho Ho' Hnone. apply Hkept in Ho. apply Hin in Ho'. rewrite Hparts in Ho'.
    apply elem_of_app in Ho' as [Ho'|Ho']; [apply Hkept in Ho'; congruence|].
    pose proof (sort_by_StronglySorted (onCmp snd compareHistoryObservations) l) as Hs. fold sorted in Hs.
    rewrite Hparts in Hs. exact (StronglySorted_app_1_elem_of _ _ _ _ _ Hs Ho Ho').
Qed.

Lemma prune_quiet d io id limit :
  quietIO io → decodable d → 0 ≤ limit →
  (prune dir d io id limit).1 = None ∧
  pruned limit (contents d (keyDir dir id)) (contents (prune dir d io id limit).2 (keyDir dir id)) ∧
  (∀ q, q ≠ keyDir dir id → contents (prune dir d io id limit).2 q = contents d q).
Proof using Type.
  intros Hq Hdec Hlim. unfold prune. rewrite (q_readDir io Hq). set (p := keyDir dir id).
  destruct (d !! p) as [files|] eqn:Hd.
  2: { split; [done|]. split; [|done]. simpl. unfold contents. rewrite Hd. simpl. rewrite map_imap_empty.
       constructor; [done|rewrite map_size_empty; simpl; lia|]. intros ? ? ? ? Hc. by rewrite lookup_empty in Hc. }
  assert (Hfile : ∀ name, fileAt d p name = files !! name) by (intros; unfold fileAt; by rewrite Hd).
  rewrite pruneRead_quiet; [|done|].
  2: { intros name data Hin He. unfold dirEntries in Hin. rewrite elem_of_sort_by, elem_of_map_to_list in Hin.
       apply (Hdec p); [by rewrite Hfile|done]. }
  rewrite app_nil_l. fold (decoded files).
  match goal with |- context [removeAll io p ?ns d] => destruct (removeAll_quiet io p ns d Hq) as [Hn Hf] end.
  split; [done|]. split.
  - eapply pruned_split; [done|apply decoded_NoDup| |].
    + intros name o. rewrite contents_lookup, Hfile. apply decoded_elem.
    + cbv zeta. intros name. rewrite !contents_lookup, Hf.
      do 2 case_bool_decide; try done; tauto.
  - intros q Hne. apply contents_ext. intros name _. rewrite Hf, bool_decide_false; [done|]. naive_solver.
Qed.

Lemma decodable_sub d d' : decodable d → (∀ p name n, fileAt d' p name = Some n → fileAt d p name = Some n) → decodable d'.
Proof using Type. intros Hd Hsub p name data Hf He. apply (Hd p); [by apply Hsub|done]. Qed.

Lemma pruneLoop_quiet d io poll ids :
  quietIO io → decodable d → NoDup (keyDir dir <$> ids) →
  (pruneLoop dir d io poll ids).1 = None ∧
  (∀ id, id ∈ ids → pruned localHistoryLimit (contents d (keyDir dir id))
     (contents (pruneLoop dir d io poll ids).2 (keyDir dir id))) ∧
  (∀ q, q ∉ keyDir dir <$> ids → contents (pruneLoop dir d io poll ids).2 q = contents d q).
Proof using Type.
  intros Hq. revert d poll. induction ids as [|id ids IH]; intros d poll Hdec Hnd; simpl.
  { split_and!; [done| |done]. intros id Hid. by apply not_elem_of_nil in Hid. }
  rewrite (q_canceled io Hq). rewrite fmap_cons in Hnd. apply NoDup_cons in Hnd as [Hid Hnd].
  destruct (prune_quiet d io id localHistoryLimit Hq Hdec) as (Hn & Hpr & Hother); [done|].
  pose proof (decodable_sub d (prune dir d io id localHistoryLimit).2 Hdec (prune_sub d io id localHistoryLimit)) as Hdec'.
  destruct (prune dir d io id localHistoryLimit) as [e d1]; simpl in *. subst e.
  destruct (IH d1 (S poll) Hdec' Hnd) as (Hn' & Hprs & Hrest). split_and!; [done| |].
  - intros id'. rewrite elem_of_cons. intros [->|Hin].
    + by rewrite Hrest.
    + rewrite <- (Hother (keyDir dir id')); [by apply Hprs|]. intros Heq. apply Hid. rewrite <- Heq. by apply list_elem_of_fmap_2.
  - intros q. rewrite not_elem_of_cons. intros [Hne Hq']. by rewrite Hrest, Hother.
Qed.

(** The observations a call writes: the first of each key and identifier. *)
Fixpoint batch (seen : gset string) (observations : list Observation) : list Observation :=
  match observations with
  | [] => []
  | obs :: observations =>
      let entryID := ID (obsKey obs) +:+ nul +:+ obsID obs in
      if bool_decide (entryID ∈ seen) then batch seen observations
      else obs :: batch ({[entryID]} ∪ seen) observations
  end.

(** The observations of one directory after they are written. *)
Definition written (p : string) (m : gmap string Observation) (observations : list Observation) : gmap string Observation :=
  foldl (λ m o, if decide (p = keyDir dir (ID (obsKey o))) then <[observationName o := o]> m else m) m observations.

Lemma decodable_write d f obs :
  Ext (tempName f) ≠ ".json" → exactObs obs → decodable d → decodable (writeObservation dir d f obs).2.
Proof using Type.
  intros Ht Hex Hdec p name data Hf He. destruct (UnmarshalObs_Marshal obs Hex) as (enc & Henc & Hok).
  destruct (writeObservation_files d f obs Ht) as [[Hsame _]|(data' & Hm & _ & Hat & Hrest)].
  { rewrite Hsame in Hf by done. by apply (Hdec p). }
  destruct (decide ((p, name) = (keyDir dir (ID (obsKey obs)), observationName obs))) as [[= -> ->]|Hne].
  - rewrite Hat in Hf. injection Hf as <-. rewrite Henc in Hm. injection Hm as <-.
    exists obs. simpl. by rewrite bool_decide_true, Hok.
  - rewrite Hrest in Hf by done. by apply (Hdec p).
Qed.

Lemma recordLoop_quiet d io poll observations seen keyDirs :
  quietIO io → Forall exactObs observations → decodable d →
  let r := recordLoop dir d io poll observations seen keyDirs in
  r.1 = None ∧ decodable r.2.1 ∧ r.2.2 = keyDirs ∪ list_to_set (ID ∘ obsKey <$> batch seen observations) ∧
  ∀ p, contents r.2.1 p = written p (contents d p) (batch seen observations).
Proof using Type.
  intros Hq. revert d poll seen keyDirs. induction observations as [|obs observations IH];
    intros d poll seen keyDirs Hex Hdec; simpl; [split_and!; [done|done|set_solver|done]|].
  apply Forall_cons in Hex as [Hobs Hex]. rewrite (q_canceled io Hq). case_bool_decide as Hs; [by apply IH|].
  pose proof (decodable_write d (hioWrite io poll) obs (q_temps io Hq poll) Hobs Hdec) as Hdec'.
  pose proof (writeObservation_contents d (hioWrite io poll) obs (q_temps io Hq poll) Hobs) as Hw. cbv zeta in Hw.
  destruct Hw as [[_ Hnf]|[Hn Hw]]; [by destruct Hnf; apply (q_write io Hq)|].
  destruct (writeObservation dir d (hioWrite io poll) obs) as [e d1]; simpl in *. subst e.
  destruct (IH d1 (S poll) ({[ID (obsKey obs) +:+ nul +:+ obsID obs]} ∪ seen) ({[ID (obsKey obs)]} ∪ keyDirs) Hex Hdec')
    as (Hn & Hd & Hk & Hc). split_and!; [done|done| |].
  - rewrite Hk. set_solver.
  - intros p. rewrite Hc, Hw. reflexivity.
Qed.

Lemma ID_normal key : normal_elem (ID key).
Proof using Type.
  unfold ID. set (t := keyText key). pose proof (length_hashString t) as Hl. pose proof (hashString_isHex t) as Hx.
  split; [by apply (allChars_not isHex)|]. destruct (hashString t) as [|a [|b [|c s]]]; try done.
Qed.

Lemma ID_prefix_normal key : normal_elem (takeS 2 (ID key)).
Proof using Type.
  unfold ID. set (t := keyText key). pose proof (length_hashString t) as Hl. pose proof (hashString_isHex t) as Hx.
  destruct (hashString t) as [|a [|b s]]; [done..|]. simpl in *. rewrite !andb_true_iff in Hx. destruct Hx as (Ha & Hb & _).
  split; [apply (allChars_not isHex); [|done]; simpl; by rewrite Ha, Hb|].
  split_and!; [done|done|]. intros [= -> ->]. done.
Qed.

Lemma keyDir_inj key key' : dir ≠ "" → keyDir dir (ID key) = keyDir dir (ID key') → ID key = ID key'.
Proof using Type.
  intros Hd. unfold keyDir. apply PathJoin_last; auto using ID_normal, ID_prefix_normal.
Qed.

Lemma append_inj_length a b c d : String.length a = String.length b → a +:+ c = b +:+ d → a = b.
Proof using Type.
  revert b. induction a as [|x a IH]; intros [|y b] Hl Heq; try done. rewrite !append_cons in Heq.
  injection Heq as -> Heq. f_equal. apply (IH b); [by injection Hl|done].
Qed.

(** Every observation has its key among those written. *)
Lemma batch_cover seen observations o :
  o ∈ observations →
  (ID (obsKey o) +:+ nul +:+ obsID o) ∈ seen ∨ ∃ o', o' ∈ batch seen observations ∧ ID (obsKey o) = ID (obsKey o').
Proof using Type.
  revert seen. induction observations as [|obs observations IH]; intros seen; simpl; [by intros ?%not_elem_of_nil|].
  rewrite elem_of_cons. case_bool_decide as Hs; intros [->|Ho].
  - by left.
  - by apply IH.
  - right. exists obs. split; [left|done].
  - destruct (IH ({[ID (obsKey obs) +:+ nul +:+ obsID obs]} ∪ seen) Ho) as [Hin|(o' & Ho' & Hid)].
    + apply elem_of_union in Hin as [Heq%elem_of_singleton|Hin]; [|by left]. right. exists obs. split; [left|].
      eapply append_inj_length; [|exact Heq]. unfold ID. by rewrite !length_hashString.
    + right. exists o'. split; [by right|done].
Qed.

(** C16: recording without faults succeeds, and the store then has, for each key
    that was recorded, the newest 32 of the observations it had and those
    recorded (an identifier once, a new one replacing an old one); the
    directories of other keys are untouched. *)
Theorem diskRecord_newest d io observations :
  dir ≠ "" → quietIO io → decodable d → Forall exactObs observations →
  let r := diskRecord dir d io observations in
  r.1 = None ∧ decodable r.2 ∧
  (∀ o, o ∈ observations →
     let p := keyDir dir (ID (obsKey o)) in
     pruned localHistoryLimit (written p (contents d p) (batch ∅ observations)) (contents r.2 p)) ∧
  (∀ p, (∀ o, o ∈ observations → p ≠ keyDir dir (ID (obsKey o))) → contents r.2 p = contents d p).
Proof using Type.
  intros Hdir Hq Hdec Hex. unfold diskRecord.
  destruct (recordLoop_quiet d io 0 observations ∅ ∅ Hq Hex Hdec) as (Hn & Hd & Hk & Hc).
  destruct (recordLoop dir d io 0 observations ∅ ∅) as [e [d1 ks]]; simpl in *. subst e ks. rewrite !union_empty_l_L.
  set (ids := elements _).
  assert (Hids : ∀ id, id ∈ ids ↔ ∃ o, o ∈ batch ∅ observations ∧ id = ID (obsKey o)).
  { intros id. subst ids. rewrite elem_of_elements, elem_of_list_to_set, list_elem_of_fmap. naive_solver. }
  assert (Hnd : NoDup (keyDir dir <$> ids)).
  { apply NoDup_fmap_2_strong; [|apply NoDup_elements].
    intros id id' (o & _ & ->)%Hids (o' & _ & ->)%Hids. by apply keyDir_inj. }
  destruct (pruneLoop_quiet d1 io (length observations) ids Hq Hd Hnd) as (Hn' & Hpr & Hrest).
  assert (Hbatch : ∀ o, o ∈ batch ∅ observations → o ∈ observations).
  { generalize (∅ : gset string). clear. induction observations as [|obs l IH]; intros seen o; simpl; [done|].
    case_bool_decide; rewrite ?elem_of_cons; naive_solver. }
  assert (Hcover : ∀ o, o ∈ observations → ID (obsKey o) ∈ ids).
  { intros o Ho. destruct (batch_cover ∅ observations o Ho) as [?%not_elem_of_empty|(o' & Ho' & Hid)]; [done|].
    apply Hids. by exists o'. }
  split_and!; [done|by eapply decodable_sub; [exact Hd|apply pruneLoop_sub]| |].
  - intros o Ho. cbv zeta. rewrite <- Hc. by apply Hpr, Hcover.
  - intros p Hp. rewrite Hrest, Hc.
    + clear - Hp Hbatch. revert Hbatch. generalize (contents d p). induction (batch ∅ observations) as [|o l IH]; intros m Hb; [done|].
      unfold written. simpl. rewrite decide_False by (apply Hp, Hb; left). apply IH. intros x Hx. apply Hb. by right.
    + intros (id & -> & (o & Ho & ->)%Hids)%list_elem_of_fmap. by apply (Hp o (Hbatch o Ho)).
Qed.
End record.

(** ** Loading history from any lawful store *)

(** history is loaded at most once, from whatever store the run has, and
    is advisory: a failed lookup leaves the histories as they were, every
    history that is added belongs to a selected test, holds at most 32
    observations of that test's key, newest first, and nothing but the
    histories changes. *)
Theorem loadHistory_spec `{GoRuntime} {St E} `{!HistoryStore St E} `{!HistoryStoreLaws St E} f s (st : St) (env : E) tasks :
  let lookup keys := storeLookup st env keys historyRequestLimit in
  let s' := loadHistory f s tasks lookup in
  s' = s <| historyLoaded := historyLoaded s' |> <| histories := histories s' |> ∧
  (∀ id h, histories s' !! id = Some h →
     histories s !! id = Some h ∨ history_ok (lookupKeys f (sProfile s) tasks) historyRequestLimit id h) ∧
  (∀ env', loadHistory f s' tasks (λ keys, storeLookup st env' keys historyRequestLimit) = s') ∧
  (historyLoaded s = true → s' = s).
Proof.
  intros lookup s'.
  assert (Hcase : (s' = s ∧ ∀ lk, loadHistory f s tasks lk = s) ∨
    (historyLoaded s = false ∧ ∃ hs, s' = s <| historyLoaded := true |> <| histories := hs |> ∧
      ∀ id h, hs !! id = Some h →
        histories s !! id = Some h ∨ history_ok (lookupKeys f (sProfile s) tasks) historyRequestLimit id h)).
  { subst s'. unfold loadHistory. destruct (negb (hasHistory s) || bool_decide (tasks = [])); [by left|].
    destruct (historyLoaded s) eqn:Hl; [by left|]. right. split; [done|]. cbn [sProfile].
    change (sProfile (s <| historyLoaded := true |>)) with (sProfile s).
    destruct (lookup (lookupKeys f (sProfile s) tasks)) as [found|e] eqn:Hfound.
    - exists (found ∪ histories s). split; [done|]. intros id h [Hf|[_ Hs]]%lookup_union_Some_raw; [right|by left].
      exact (lookup_ok _ _ _ _ _ Hfound id h Hf).
    - exists (histories s). split; [by destruct s|]. by left. }
  clearbody s'. destruct Hcase as [[-> Hsame]|(Hl & hs & -> & Hhs)].
  - split_and!; [by destruct s|by left|intros; apply Hsame|done].
  - split_and!; [done|exact Hhs| |congruence]. intros env'. unfold loadHistory. by destruct (_ || _).
Qed.

(** ** Examples *)

Definition exampleObs : Observation := exampleObservation "TestA" "a1" 5 OutcomePass (9 * Second) 1.
Definition exampleObs2 : Observation := exampleObservation "TestA" "a2" 8 OutcomeFlaky (12 * Second) 2.

(** An encoding of two observations. *)
Definition exampleObsCodec : ObservationCodec.
Proof.
  refine {| MarshalObs := λ o, Ok (obsID o); exactObs := λ o, o = exampleObs ∨ o = exampleObs2;
            UnmarshalObs := λ s, if String.eqb s ("a1" +:+ newline) then Ok exampleObs
                                 else if String.eqb s ("a2" +:+ newline) then Ok exampleObs2
                                 else Err (EMsg "syntax") |}.
  intros o [->| ->]; [exists "a1"|exists "a2"]; split; reflexivity.
Defined.

Definition exampleHistoryIO : historyIO :=
  HistoryIO (λ _, false) (λ _, noFaults ".history-1") (λ _, None) (λ _ _, None) (λ _ _, None).

Lemma exampleHistoryIO_quiet : quietIO exampleHistoryIO.
Proof. constructor; try done. Qed.

Lemma exampleObs_exact : Forall (exactObs (ObservationCodec := exampleObsCodec)) [exampleObs; exampleObs2].
Proof. apply Forall_cons; split; [by left|]. apply Forall_cons; split; [by right|constructor]. Qed.

Lemma diskRecord_newest_witness :
  (diskRecord (H := testRuntime) (H0 := exampleObsCodec) "/h" ∅ exampleHistoryIO [exampleObs; exampleObs2]).1 = None.
Proof.
  refine (proj1 (diskRecord_newest (H := testRuntime) (H0 := exampleObsCodec) "/h" ∅ exampleHistoryIO
    [exampleObs; exampleObs2] _ exampleHistoryIO_quiet _ exampleObs_exact)).
  - discriminate.
  - intros p name data Hf. unfold fileAt in Hf. rewrite lookup_empty in Hf. discriminate Hf.
Defined.

(** The rename of the second observation fails. *)
Definition faultyHistoryIO : historyIO :=
  HistoryIO (λ _, false) (λ i, match i with O => noFaults ".history-1"
    | S _ => WriteFaults None None None None None (Some (EMsg "disk full")) ".history-2" end)
    (λ _, None) (λ _ _, None) (λ _ _, None).

Lemma diskRecord_safe_witness :
  let d := (diskRecord (H := testRuntime) (H0 := exampleObsCodec) "/h" ∅ faultyHistoryIO [exampleObs; exampleObs2]).2 in
  let p := keyDir "/h" (ID (H := testRuntime) (obsKey exampleObs)) in
  contents (H0 := exampleObsCodec) d p !! observationName exampleObs = Some exampleObs ∧
  (contents (H0 := exampleObsCodec) ∅ p !! observationName exampleObs = Some exampleObs ∨
   recordedAs (H := testRuntime) "/h" [exampleObs; exampleObs2] p (observationName exampleObs) exampleObs).
Proof.
  assert (Hc : contents (H0 := exampleObsCodec)
    (diskRecord (H := testRuntime) (H0 := exampleObsCodec) "/h" ∅ faultyHistoryIO [exampleObs; exampleObs2]).2
    (keyDir "/h" (ID (H := testRuntime) (obsKey exampleObs))) !! observationName exampleObs = Some exampleObs)
    by (vm_compute; reflexivity).
  split; [exact Hc|].
  refine (diskRecord_safe (H := testRuntime) (H0 := exampleObsCodec) "/h" ∅ faultyHistoryIO _ _ _ _ _ exampleObs_exact Hc).
  intros [|i]; discriminate.
Defined.

Example loadHistory_example :
  let s' := loadHistory (H := testRuntime) exampleFlags exampleServer exampleTasks
    (λ keys, diskLookup (H := testRuntime) (H0 := exampleObsCodec) "/h"
      (diskRecord (H := testRuntime) (H0 := exampleObsCodec) "/h" ∅ exampleHistoryIO [exampleObs; exampleObs2]).2
      exampleHistoryIO keys historyRequestLimit) in
  Observations <$> (map_to_list (histories s')).*2 = [[exampleObs2; exampleObs]].
Proof. vm_compute. reflexivity. Qed.

Definition exampleStoreDisk : disk :=
  (diskRecord (H := testRuntime) (H0 := exampleObsCodec) "/h" ∅ exampleHistoryIO [exampleObs; exampleObs2]).2.

Lemma loadHistory_spec_witness :
  let st := diskHistoryStore (H := testRuntime) (H0 := exampleObsCodec) "/h" in
  let s' := loadHistory (H := testRuntime) exampleFlags exampleServer exampleTasks
    (λ keys, storeLookup (HistoryStore := st) exampleStoreDisk exampleHistoryIO keys historyRequestLimit) in
  s' = exampleServer <| historyLoaded := historyLoaded s' |> <| histories := histories s' |>.
Proof.
  exact (proj1 (loadHistory_spec (H := testRuntime)
    (HistoryStore0 := diskHistoryStore (H := testRuntime) (H0 := exampleObsCodec) "/h")
    (HistoryStoreLaws0 := diskHistoryStoreLaws (H := testRuntime) (H0 := exampleObsCodec) "/h")
    exampleFlags exampleServer exampleStoreDisk exampleHistoryIO exampleTasks)).
Defined.
