(* ===== verification/Runner.v ===== *)
(** * Running one test (gotst.go, [runTest])

    A cached result is reused when it validates; otherwise the test binary is
    run, up to [-max-retries] times more while it fails, and this [-count]
    times.  What the operating system does (the processes, the clock, the
    answers of the cache) is an argument. *)

From Stdlib Require Import Ascii.
From S2P Require Import Prelude GoStrings Flags Path Profile Utf8 GoFmt Args Sha256 Quote CappedBuffer HistoryTypes TestCache ResultCache Server History.

(** ** One attempt *)

(** What running the test binary does. *)
Record attemptIO := AttemptIO {
  aWrites : list string;    (** to stdout and stderr, in order *)
  aRunErr : option error;   (** of [cmd.Run] *)
  aElapsed : Duration;
  aCanceled : bool;         (** the context was canceled meanwhile *)
  aLog : ioError + list string * option ioError; (** the test log *)
  aWorld : world            (** in which the log is read *)
}.

Record attempt := Attempt {
  atDuration : Duration;
  atOutput : string;
  atAttrs : gmap string string;
  atDeps : option (list cacheDependency);
  atErr : option error
}.

(** One line of the output in [testAttrs]. *)
Definition attrLine (line : string) : option (string * string) :=
  match CutPrefix (TrimPrefix line (String "022"%char "")) "=== ATTR  " with
  | None => None
  | Some line =>
      match Cut line " "%char with
      | None => None
      | Some (_, rest) =>
          match Cut rest " "%char with
          | None => None
          | Some (key, value) => if bool_decide (key = "") then None else Some (key, value)
          end
      end
  end.

Definition testAttrs (output : string) : gmap string string :=
  foldl (λ m line, match attrLine line with Some (k, v) => <[k := v]> m | None => m end) ∅
    (Split output "010"%char).

(** [regexp.QuoteMeta] *)
Definition isMeta (a : ascii) : bool := ContainsByte (".+*?()|[]{}^$" +:+ String backslash "") a.

Fixpoint QuoteMeta (s : string) : string :=
  match s with
  | EmptyString => ""
  | String a s => if isMeta a then String backslash (String a (QuoteMeta s)) else String a (QuoteMeta s)
  end.

Definition capturesDeps (s : Server) : bool := hasTestCache s || hasHistory s || captureHistory s.

(** What the system does during a call of [runTest]. *)
Record runIO (E : Type) := RunIO {
  rGet : E;                 (** the answers to the cache lookup *)
  rValidate : world;        (** in which a cached result is validated *)
  rAwait : bool;            (** a slot was acquired before the context was done *)
  rAttempt : Z → Z → list string → attemptIO;
  rPut : E;
  rStart : Time;
  rFinish : Time;
  rCreated : Time;
  rObserved : Time;
  rObsID : string
}.
Arguments rGet {E}. Arguments rValidate {E}. Arguments rAwait {E}. Arguments rAttempt {E}. Arguments rPut {E}.
Arguments rStart {E}. Arguments rFinish {E}. Arguments rCreated {E}. Arguments rObserved {E}. Arguments rObsID {E}.

Section runner.
Context `{GoRuntime} (f : flags).

Definition logPath (s : Server) (key : testCacheKey) (repetition retry : Z) : string :=
  PathJoin [cacheDir s; "testlog-" +:+ id key +:+ "-" +:+ itoa repetition +:+ "-" +:+ itoa retry].

(** The arguments of the test binary. *)
Definition attemptArgs (s : Server) (task : testTask) (key : testCacheKey) (baseArgs : list string)
    (repetition retry : Z) : list string :=
  let args := setTestArg baseArgs "-test.run" ("^" +:+ QuoteMeta (test task) +:+ "$") in
  if capturesDeps s then setTestArg args "-test.testlogfile" (logPath s key repetition retry) else args.

Definition logErrorText (e : logError) : string :=
  match e with
  | LogOpen e | LogScan e => ioText e
  | LogHeader => "malformed test log header"
  | LogLine line => "malformed test log line " +:+ Quote line
  | LogOperation op => "unknown test log operation " +:+ Quote op
  | LogFingerprint op path e => "fingerprinting " +:+ op +:+ " " +:+ Quote path +:+ ": " +:+ ioText e
  end.

(** [runTestAttempt]; [None] is the nil dereference of an unknown package. *)
Definition runTestAttempt (s : Server) (task : testTask) (key : testCacheKey) (baseArgs : list string)
    (repetition retry : Z) (run : list string → attemptIO) : option (Server * attempt) :=
  let io := run (attemptArgs s task key baseArgs repetition retry) in
  let out := foldl (λ b p, (Write b p).2) (newCappedBuffer (maxOutput f)) (aWrites io) in
  let attrOut := foldl (λ b p, (Write b p).2) (newCappedBuffer (Z.shiftl 1 20))
                   (if jsonSummary f then aWrites io else []) in
  let d := Round (aElapsed io) Millisecond in
  let attrs := testAttrs (bufString attrOut) in
  let s := s <| canceled ::= λ c, c || aCanceled io |> in
  if canceled s then Some (s, Attempt d (bufString out) attrs None (Some ECanceled))
  else if negb (capturesDeps s) then Some (s, Attempt d (bufString out) attrs None (aRunErr io))
  else
    root ← packageRoot s (pkg (bin task));
    match parseTestLog (aWorld io) (aLog io) (workDir (bin task)) root with
    | inr deps => Some (s, Attempt d (bufString out) attrs (Some deps) (aRunErr io))
    | inl depErr =>
        let s := if bool_decide (aRunErr io = None) && (debugPass s =? 1)
                 then setDebugSeedError s key ("parsing test input log: " +:+ logErrorText depErr) else s in
        Some (s, Attempt d (bufString out) attrs None (aRunErr io))
    end.

(** ** The attempts of a test *)

(** The local variables of [runTest] that the loops update. *)
Record progress := Progress {
  pTotal : Duration;
  pFailures : list failInfo;
  pCacheDeps : option (list cacheDependency);
  pHistoryDeps : list cacheDependency;
  pHistoryComplete : bool;
  pAttempts : Z
}.

#[export] Instance eta_progress : Eta progress := λ p,
  Progress (pTotal p) (pFailures p) (pCacheDeps p) (pHistoryDeps p) (pHistoryComplete p) (pAttempts p).

Definition noProgress : progress := Progress 0 [] None [] true 0.

(** How a repetition, or all of them, ended. *)
Inductive ending :=
  | Passed
  | Failed (e : error) (d : Duration) (output : string) (** the last attempt allowed failed *)
  | Canceled (e : error)
  | Stuck. (** out of fuel *)

#[export] Instance ending_eq_dec : EqDecision ending.
Proof. solve_decision. Defined.

Definition completeHistoryDeps (p : progress) : option (list cacheDependency) :=
  if pHistoryComplete p then Some (pHistoryDeps p) else None.

(** The bookkeeping after an attempt, before its error is looked at. *)
Definition afterAttempt (s : Server) (task : testTask) (p : progress) (a : attempt) : option (Server * progress) :=
  let p := p <| pTotal ::= λ t, i64 (t + atDuration a) |> <| pAttempts ::= Z.succ |> in
  let p := match atDeps a with
           | None => p <| pHistoryComplete := false |>
           | Some deps => p <| pHistoryDeps ::= λ l, l ++ deps |>
           end in
  s ← recordTestAttrs s task (atAttrs a);
  s ← recordTestAttempt s task;
  Some (s, p).

(** The inner loop of [runTest]: attempts until one passes, the retries are
    used up or the run is canceled. *)
Fixpoint retryLoop (fuel : nat) (attempts : Z → Z → list string → attemptIO) (s : Server) (task : testTask)
    (key : testCacheKey) (baseArgs : list string) (repetition retry : Z) (p : progress) (now : Time)
    : option (Server * progress * ending) :=
  match fuel with
  | O => Some (s, p, Stuck)
  | S fuel =>
      '(s, a) ← runTestAttempt s task key baseArgs repetition retry (attempts repetition retry);
      '(s, p) ← afterAttempt s task p a;
      match atErr a with
      | None =>
          let p := if bool_decide (pFailures p = []) && (testCount f =? 1)
                   then p <| pCacheDeps := atDeps a |> else p in
          Some (s, p, Passed)
      | Some e =>
          if isCanceled e then
            s ← stopRunningTest s task now now;
            Some (s, p, Canceled e)
          else
            let p := p <| pFailures ::= λ l, l ++ [FailInfo (atDuration a) (atOutput a)] |> in
            if retry =? maxRetries f then Some (s, p, Failed e (atDuration a) (atOutput a))
            else retryLoop fuel attempts s task key baseArgs repetition (retry + 1) p now
      end
  end.

(** The outer loop: [n] more repetitions, of which [repetition] is the next. *)
Fixpoint repeatLoop (n fuel : nat) (attempts : Z → Z → list string → attemptIO) (s : Server) (task : testTask)
    (key : testCacheKey) (baseArgs : list string) (repetition : Z) (p : progress) (now : Time)
    : option (Server * progress * ending) :=
  match n with
  | O => Some (s, p, Passed)
  | S n =>
      '(s, p, e) ← retryLoop fuel attempts s task key baseArgs repetition 0 p now;
      match e with
      | Passed => repeatLoop n fuel attempts s task key baseArgs (repetition + 1) p now
      | _ => Some (s, p, e)
      end
  end.

(** ** [runTest] *)

Section cache.
Context {C E : Type} `{!ResultCache C E}.

(** The entry a lookup may reuse: one that is found and validates. *)
Definition usableEntry (c : C) (io : runIO E) (s : Server) (key : testCacheKey) : option testCacheEntry :=
  match cacheGet c (rGet io) (canceled s) key with
  | Hit entry =>
      match validateDependencies (rValidate io) (Dependencies entry) with
      | inr true => Some entry
      | _ => None
      end
  | _ => None
  end.

(** Storing a clean result, or noting why there is none. *)
Definition storeResult (c : C) (io : runIO E) (s : Server) (key : testCacheKey) (p : progress) (pass : Z)
    : Server * C :=
  match pCacheDeps p with
  | Some deps =>
      if bool_decide (pFailures p = []) && hasTestCache s then
        let entry := TestCacheEntry testCacheVersion key (rCreated io) (pTotal p) deps in
        match cachePut c (rPut io) (canceled s) entry with
        | (None, c) => (s, c)
        | (Some e, c) =>
            (if pass =? 1 then setDebugSeedError s key ("writing cache entry: " +:+ Error e) else s, c)
        end
      else
        (if pass =? 1 then
           setDebugSeedError s key
             (if bool_decide (pFailures p = []) then "test result was not cacheable"
              else "test passed only after " +:+ itoa (Z.of_nat (length (pFailures p))) +:+ " failed attempt(s)")
         else s, c)
  | None =>
      (if pass =? 1 then
         setDebugSeedError s key
           (if bool_decide (pFailures p = []) then "test input log could not be captured"
            else "test passed only after " +:+ itoa (Z.of_nat (length (pFailures p))) +:+ " failed attempt(s)")
       else s, c)
  end.

(** [runTest] once it has a slot: the attempts, and what their outcome is
    recorded as. *)
Definition runAttempts (fuel : nat) (s : Server) (c : C) (task : testTask) (key : testCacheKey)
    (baseArgs : list string) (pass : Z) (io : runIO E) : option (option error * Server * C) :=
  s ← startTest s task (rStart io);
  '(s, p, e) ← repeatLoop (Z.to_nat (testCount f)) fuel (rAttempt io) s task key baseArgs 0 noProgress (rFinish io);
  match e with
  | Stuck => None
  | Canceled err => Some (Some err, s, c)
  | Failed err d output =>
      s ← finishTest s task false (pTotal p) (pFailures p) (Some err) false (rFinish io);
      s ← recordHistory f s task OutcomeFail (pTotal p) (pAttempts p) (completeHistoryDeps p)
            (rObsID io) (rObserved io);
      Some (Some err, printTestResult f s task d false false output, c)
  | Passed =>
      let '(s, c) := storeResult c io s key p pass in
      s ← finishTest s task true (pTotal p) (pFailures p) None false (rFinish io);
      let outcome := if bool_decide (pFailures p = []) then OutcomePass else OutcomeFlaky in
      s ← recordHistory f s task outcome (pTotal p) (pAttempts p) (completeHistoryDeps p)
            (rObsID io) (rObserved io);
      Some (None, printTestResult f s task (pTotal p) false true "", c)
  end.

(** The error [runTest] returns, with the state and the cache it leaves; [None]
    is a nil dereference, or too little fuel. *)
Definition runTest (fuel : nat) (s : Server) (c : C) (task : testTask) (io : runIO E)
    : option (option error * Server * C) :=
  if canceled s then Some (Some ECanceled, s, c)
  else
    let baseArgs := effectiveTestArgs f task (sProfile s) in
    let key := cacheKeyForTask f s task in
    let pass := debugPass s in
    let lookup := hasTestCache s && negb (pass =? 1) in
    let s := if lookup then s <| cacheChecks ::= Z.succ |> else s in
    match (if lookup then usableEntry c io s key else None) with
    | Some entry =>
        let s := s <| cacheHits ::= Z.succ |> in
        s ← finishTest s task true (PassedIn entry) [] None true (rFinish io);
        Some (None, printTestResult f s task (PassedIn entry) true true "", c)
    | None =>
        if negb (rAwait io) then Some (Some ECanceled, s <| canceled := true |>, c)
        else
          runAttempts fuel s c task key baseArgs pass io
    end.

(** Enough fuel for the inner loop: the retries and the first attempt. *)
Definition runFuel : nat := S (Z.to_nat (maxRetries f)).
End cache.
End runner.
