(* ===== verification/RunnerFacts.v ===== *)
(** * What running a test guarantees *)

From Stdlib Require Import Ascii.
From S2P Require Import Prelude GoStrings Flags Path Profile Utf8 GoFmt Args Sha256 Quote CappedBuffer HistoryTypes TestCache TestCacheFacts ResultCache Server History Runner.

(** ** What the bookkeeping of a running test leaves alone *)

(** The parts of the state that say what is run, and how. *)
Definition config (s : Server) :=
  (cacheDir s, sProfile s, (hasTestCache s, hasHistory s, captureHistory s), debugPass s).

(** The verdict of a test. *)
Definition verdict (ts : testStatus) := (done ts, passed ts, fails ts, cached ts).

Record frame (s s' : Server) : Prop := {
  fr_config : config s' = config s;
  fr_root : ∀ p, packageRoot s' p = packageRoot s p;
  fr_verdict : ∀ task, verdict ∘ snd <$> testAt s' task = verdict ∘ snd <$> testAt s task;
  fr_fails : ∀ p, numFails <$> pkgs s' !! p = numFails <$> pkgs s !! p;
  fr_ok : server_ok s → server_ok s'
}.

#[export] Instance frame_preorder : PreOrder frame.
Proof.
  split.
  - intros s. by split.
  - intros s1 s2 s3 [H1 H2 H3 H4 H5] [K1 K2 K3 K4 K5]. split; intros; [congruence|by rewrite K2|by rewrite K3|by rewrite K4|auto].
Qed.

Lemma frame_known s s' task : frame s s' → known s task → known s' task.
Proof.
  intros Hf [x Hx]. pose proof (fr_verdict _ _ Hf task) as Hv. rewrite Hx in Hv.
  unfold known. by destruct (testAt s' task).
Qed.

Lemma frame_testAt s s' task ps ts :
  frame s s' → testAt s task = Some (ps, ts) →
  ∃ ps' ts', testAt s' task = Some (ps', ts') ∧ verdict ts' = verdict ts ∧ numFails ps' = numFails ps.
Proof.
  intros Hf Hx. pose proof (fr_verdict _ _ Hf task) as Hv. rewrite Hx in Hv.
  destruct (testAt s' task) as [[ps' ts']|] eqn:E; [|done]. apply (inj Some) in Hv.
  exists ps', ts'. split_and!; [done|done|].
  pose proof (fr_fails _ _ Hf (pkg (bin task))) as Hn. apply testAt_Some in Hx as [Hx _], E as [E _].
  rewrite Hx, E in Hn. by apply (inj Some) in Hn.
Qed.

(** Replacing a package by one that differs in the bookkeeping of one test. *)
Lemma frame_put s task ps ps' ts ts' :
  testAt s task = Some (ps, ts) → testsOf ps' = <[test task := ts']> (testsOf ps) →
  glp ps' = glp ps → numFails ps' = numFails ps → verdict ts' = verdict ts →
  (running ts' = true → running ts = true ∨ done ts = false) → (psState ps' = pkgStateDone → psState ps = pkgStateDone) →
  frame s (putPkg s (pkg (bin task)) ps').
Proof.
  intros Hat Htests Hglp Hn Hv Hrun Hst. pose proof Hat as [Hps Hts]%testAt_Some.
  split; [done|..].
  - intros p. unfold packageRoot. simpl. destruct (decide (p = pkg (bin task))) as [->|].
    + rewrite lookup_insert_eq, Hps. simpl. by rewrite Hglp.
    + by rewrite lookup_insert_ne.
  - intros task'. erewrite testAt_put by done. case_decide as Hp; [|done]. case_decide as Ht.
    + assert (testAt s task' = Some (ps, ts)) as ->; [|by simpl; rewrite Hv].
      apply testAt_Some. by rewrite Hp, Ht.
    + by destruct (testAt s task').
  - intros p. simpl. destruct (decide (p = pkg (bin task))) as [->|].
    + rewrite lookup_insert_eq, Hps. simpl. by rewrite Hn.
    + by rewrite lookup_insert_ne.
  - intros Hok. apply server_ok_put; [done|]. injection Hv as Hd Hpa Hfl Hca.
    assert (Hpok : package_ok ps) by (by eapply (map_Forall_lookup_1 _ _ _ _ Hok)).
    assert (Htok : test_ok ts) by (by eapply (map_Forall_lookup_1 _ _ _ _ (po_tests _ Hpok))).
    apply (package_ok_put ps ps' (test task) ts ts'); try done.
    + split; [|rewrite Hd, Hpa; apply Htok]. rewrite Hd. intros Hdt.
      destruct (running ts') eqn:Hr; [|done]. destruct (Hrun eq_refl) as [Hrt|]; [|congruence].
      by rewrite (to_running _ Htok Hdt) in Hrt.
    + unfold failedTest. rewrite Hd, Hpa, Hn. lia.
    + intros Hs. left. specialize (po_state _ Hpok (Hst Hs)) as Hall.
      rewrite allRunnableDone_true in Hall |- *. rewrite Htests. intros n t.
      destruct (decide (n = test task)) as [->|]; [rewrite lookup_insert_eq; intros [= <-]; rewrite Hd; eauto|].
      rewrite lookup_insert_ne by done. eauto.
Qed.

Section ops.
Implicit Types s : Server.

Lemma recordTestAttempt_frame s task :
  known s task → ∃ s', recordTestAttempt s task = Some s' ∧ frame s s' ∧ canceled s' = canceled s.
Proof using Type.
  intros [[ps ts] Hat]. unfold recordTestAttempt. rewrite Hat. cbn [mbind option_bind].
  eexists. split; [done|]. split; [|done]. eapply frame_put; [exact Hat|done..| |done]. by left.
Qed.

Lemma recordTestAttrs_frame s task new :
  known s task → ∃ s', recordTestAttrs s task new = Some s' ∧ frame s s' ∧ canceled s' = canceled s.
Proof using Type.
  intros [[ps ts] Hat]. unfold recordTestAttrs. case_bool_decide; [by exists s|].
  rewrite Hat. cbn [mbind option_bind].
  eexists. split; [done|]. split; [|done]. eapply frame_put; [exact Hat|done..| |done]. by left.
Qed.

Lemma startTest_frame s task now ps ts :
  testAt s task = Some (ps, ts) → done ts = false →
  ∃ s', startTest s task now = Some s' ∧ frame s s' ∧ canceled s' = canceled s.
Proof using Type.
  intros Hat Hd. unfold startTest. rewrite Hat. cbn [mbind option_bind].
  eexists. split; [done|]. split; [|done]. eapply frame_put; [exact Hat|done..| |done]. by right.
Qed.

Lemma stopRunningTest_frame s task now now' :
  known s task → ∃ s' ps ts, stopRunningTest s task now now' = Some s' ∧ frame s s' ∧ canceled s' = canceled s ∧
    testAt s' task = Some (ps, ts) ∧ running ts = false.
Proof using Type.
  intros [[ps ts] Hat]. unfold stopRunningTest. rewrite Hat. cbn [mbind option_bind].
  eexists _, _, _. split; [done|]. split; [|split; [done|]].
  - eapply frame_put; [exact Hat|done..| |done]. done.
  - split; [|shelve]. erewrite testAt_put; [|done|by apply testAt_Some in Hat as [? _]].
    rewrite !decide_True by done. done.
  Unshelve. done.
Qed.

Lemma setDebugSeedError_frame `{GoRuntime} s key reason :
  frame s (setDebugSeedError s key reason) ∧ canceled (setDebugSeedError s key reason) = canceled s.
Proof using Type. unfold setDebugSeedError. by case_bool_decide. Qed.
End ops.

(** ** Attempts *)

Section loops.
Context `{GoRuntime} (f : flags).

(** The attempt that the system makes at a repetition and retry of a task, and
    the error it ends with. *)
Definition attemptAt (s : Server) (task : testTask) (attempts : Z → Z → list string → attemptIO) (r k : Z) : attemptIO :=
  attempts r k (attemptArgs s task (cacheKeyForTask f s task) (effectiveTestArgs f task (sProfile s)) r k).

Definition errAt (s : Server) (task : testTask) (attempts : Z → Z → list string → attemptIO) (r k : Z) : option error :=
  let io := attemptAt s task attempts r k in
  if aCanceled io then Some ECanceled else aRunErr io.

(** The dependencies captured at an attempt that was not canceled. *)
Definition depsAt (s : Server) (task : testTask) (attempts : Z → Z → list string → attemptIO) (r k : Z)
    : option (list cacheDependency) :=
  let io := attemptAt s task attempts r k in
  if capturesDeps s then
    match parseTestLog (aWorld io) (aLog io) (workDir (bin task)) (default "" (packageRoot s (pkg (bin task)))) with
    | inr deps => Some deps
    | inl _ => None
    end
  else None.

Lemma attemptAt_frame s s' task attempts r k : config s' = config s → attemptAt s' task attempts r k = attemptAt s task attempts r k.
Proof using Type.
  unfold config. intros [= H1 H2 H3 H4 H5 H6]. unfold attemptAt, attemptArgs, logPath, cacheKeyForTask, capturesDeps.
  by rewrite H1, H2, H3, H4, H5.
Qed.

Lemma errAt_frame s s' task attempts r k : config s' = config s → errAt s' task attempts r k = errAt s task attempts r k.
Proof using Type. intros Hc. unfold errAt. by rewrite (attemptAt_frame s s'). Qed.

Lemma depsAt_frame s s' task attempts r k : frame s s' → depsAt s' task attempts r k = depsAt s task attempts r k.
Proof using Type.
  intros Hf. unfold depsAt, capturesDeps. rewrite (attemptAt_frame s s'), (fr_root _ _ Hf) by apply Hf.
  pose proof (fr_config _ _ Hf) as Hc. unfold config in Hc. injection Hc as _ _ -> -> -> _. done.
Qed.

Lemma known_root s task : known s task → is_Some (packageRoot s (pkg (bin task))).
Proof using Type. intros [[ps ts] [Hps _]%testAt_Some]. unfold packageRoot. rewrite Hps. by eexists. Qed.

Lemma runTestAttempt_spec s task attempts r k :
  known s task → canceled s = false →
  ∃ s' a, runTestAttempt f s task (cacheKeyForTask f s task) (effectiveTestArgs f task (sProfile s)) r k (attempts r k) = Some (s', a) ∧
    frame s s' ∧ canceled s' = aCanceled (attemptAt s task attempts r k) ∧
    atErr a = errAt s task attempts r k ∧
    (canceled s' = false → atDeps a = depsAt s task attempts r k).
Proof using Type.
  intros Hk Hc. unfold runTestAttempt, errAt, depsAt. fold (attemptAt s task attempts r k).
  set (io := attemptAt s task attempts r k). set (s1 := s <| canceled ::= λ c, c || aCanceled io |>).
  assert (Hs1 : frame s s1) by (by split).
  assert (Hc1 : canceled s1 = aCanceled io) by (unfold s1; simpl; by rewrite Hc).
  rewrite Hc1. destruct (aCanceled io) eqn:Hca.
  { eexists _, _. split; [done|]. split_and!; [done|done|done|]. by rewrite Hc1. }
  change (capturesDeps s1) with (capturesDeps s). destruct (capturesDeps s) eqn:Hcap; simpl negb; cbv iota.
  2: { eexists _, _. split; [done|]. split_and!; done. }
  destruct (known_root s1 task (frame_known _ _ _ Hs1 Hk)) as [root Hroot].
  change (packageRoot s (pkg (bin task))) with (packageRoot s1 (pkg (bin task))). rewrite Hroot. cbn [mbind option_bind default].
  destruct (parseTestLog _ _ _ _) as [e|deps].
  2: { eexists _, _. split; [done|]. split_and!; done. }
  eexists _, _. split; [done|]. destruct (setDebugSeedError_frame s1 (cacheKeyForTask f s task)
    ("parsing test input log: " +:+ logErrorText e)) as [Hf Hcd].
  destruct (_ && _); split_and!; try done; [by etrans|congruence].
Qed.

Lemma afterAttempt_spec s task p a :
  known s task →
  ∃ s' p', afterAttempt s task p a = Some (s', p') ∧ frame s s' ∧ canceled s' = canceled s ∧
    pFailures p' = pFailures p ∧ pCacheDeps p' = pCacheDeps p ∧ pAttempts p' = pAttempts p + 1 ∧
    pTotal p' = i64 (pTotal p + atDuration a).
Proof using Type.
  intros Hk. unfold afterAttempt.
  destruct (recordTestAttrs_frame s task (atAttrs a) Hk) as (s1 & -> & Hf1 & Hc1). cbn [mbind option_bind].
  destruct (recordTestAttempt_frame s1 task (frame_known _ _ _ Hf1 Hk)) as (s2 & -> & Hf2 & Hc2). cbn [mbind option_bind].
  eexists _, _. split; [done|]. split; [by etrans|]. split; [congruence|]. by destruct (atDeps a).
Qed.

(** A failure that is retried while retries are left. *)
Definition retryable (e : option error) : Prop := ∃ err, e = Some err ∧ isCanceled err = false.

(** A repetition passes at retry [k]: all attempts before failed. *)
Definition passesAt (err : Z → option error) (from k : Z) : Prop :=
  err k = None ∧ ∀ j, from ≤ j < k → retryable (err j).

Definition endsAs (err : Z → option error) (e : ending) (k : Z) : Prop :=
  match e with
  | Passed => err k = None
  | Failed er _ _ => err k = Some er ∧ isCanceled er = false ∧ k = maxRetries f
  | Canceled er => err k = Some er ∧ isCanceled er = true
  | Stuck => False
  end.

Lemma retryLoop_spec fuel attempts s0 s task r now : ∀ k p,
  frame s0 s → known s task → canceled s = false → 0 ≤ k ≤ maxRetries f → maxRetries f - k < Z.of_nat fuel →
  ∃ s' p' e n,
    retryLoop f fuel attempts s task (cacheKeyForTask f s0 task) (effectiveTestArgs f task (sProfile s0)) r k p now = Some (s', p', e) ∧
    frame s s' ∧ k ≤ n ≤ maxRetries f ∧
    (∀ j, k ≤ j < n → retryable (errAt s0 task attempts r j)) ∧ endsAs (errAt s0 task attempts r) e n ∧
    pAttempts p' = pAttempts p + (n - k + 1) ∧
    Z.of_nat (length (pFailures p')) =
      Z.of_nat (length (pFailures p)) + (n - k) + (if e is Failed _ _ _ then 1 else 0) ∧
    (e = Passed → canceled s' = false ∧
      pCacheDeps p' = if bool_decide (pFailures p = []) && (n =? k) && (testCount f =? 1)
                      then depsAt s0 task attempts r n else pCacheDeps p) ∧
    ((∃ er, e = Canceled er) → ∃ ps ts, testAt s' task = Some (ps, ts) ∧ running ts = false).
Proof using Type.
  revert s. induction fuel as [|fuel IH]; intros s k p Hfr Hk Hc Hr Hfuel; [lia|]. simpl retryLoop.
  assert (Hkey : cacheKeyForTask f s0 task = cacheKeyForTask f s task).
  { pose proof (fr_config _ _ Hfr) as Hcfg. unfold config in Hcfg. injection Hcfg as _ Hprof _ _ _ _.
    unfold cacheKeyForTask. by rewrite Hprof. }
  assert (Hargs : effectiveTestArgs f task (sProfile s0) = effectiveTestArgs f task (sProfile s)).
  { pose proof (fr_config _ _ Hfr) as Hcfg. unfold config in Hcfg. injection Hcfg as _ Hprof _ _ _ _. by rewrite Hprof. }
  destruct (runTestAttempt_spec s task attempts r k Hk Hc) as (s1 & a & Hrun & Hf1 & Hc1 & Herr & Hdeps).
  rewrite Hkey, Hargs, Hrun. cbn [mbind option_bind]. rewrite <- Hkey, <- Hargs.
  destruct (afterAttempt_spec s1 task p a (frame_known _ _ _ Hf1 Hk)) as (s2 & p2 & Haft & Hf2 & Hc2 & Hpf & Hpc & Hpa & _).
  rewrite Haft. cbn [mbind option_bind].
  rewrite (errAt_frame s0 s) in Herr by apply Hfr. rewrite (attemptAt_frame s0 s) in Hc1 by apply Hfr.
  rewrite (depsAt_frame s0 s) in Hdeps by done.
  assert (Hcerr : aCanceled (attemptAt s0 task attempts r k) = true → errAt s0 task attempts r k = Some ECanceled).
  { unfold errAt. by intros ->. }
  destruct (atErr a) as [er|] eqn:Hatt.
  - destruct (isCanceled er) eqn:Hcan.
    + destruct (stopRunningTest_frame s2 task now now (frame_known _ _ _ Hf2 (frame_known _ _ _ Hf1 Hk)))
        as (s3 & ps & ts & -> & Hf3 & Hc3 & Hat & Hrn). cbn [mbind option_bind].
      exists s3, p2, (Canceled er), k. split; [done|]. split; [by etrans; [exact Hf1|etrans]|].
      split_and!; [lia|lia|intros; lia|by split|lia|rewrite Hpf; lia|done|]. intros _. by exists ps, ts.
    + assert (Hnc : canceled s2 = false).
      { rewrite Hc2, Hc1. destruct (aCanceled _) eqn:E; [|done]. rewrite (Hcerr eq_refl) in Herr. injection Herr as ->. done. }
      destruct (Z.eqb_spec k (maxRetries f)) as [Hmax|Hmax].
      * eexists s2, _, (Failed er (atDuration a) (atOutput a)), k. split; [done|]. split; [by etrans|].
        split_and!; [lia|lia|intros; lia|by split_and!|simpl; lia| |done|by intros [? ?]].
        simpl. rewrite length_app, Hpf. simpl. lia.
      * set (p3 := p2 <| pFailures ::= λ l, l ++ [FailInfo (atDuration a) (atOutput a)] |>).
        assert (Hf02 : frame s0 s2) by (etrans; [exact Hfr|by etrans]).
        destruct (IH s2 (k + 1) p3 Hf02 (frame_known _ _ _ Hf2 (frame_known _ _ _ Hf1 Hk)) Hnc)
          as (s' & p' & e & n & Hloop & Hf' & Hn & Hret & Hend & Hatts & Hfails & Hpass & Hcanc); [lia..|].
        exists s', p', e, n. split; [exact Hloop|]. split; [by etrans; [exact Hf1|etrans]|].
        assert (Hp3 : length (pFailures p3) = S (length (pFailures p))).
        { unfold p3. simpl. rewrite length_app, Hpf. simpl. lia. }
        assert (Ha3 : pAttempts p3 = pAttempts p + 1) by (unfold p3; simpl; done).
        split_and!; [lia|lia| |done|lia|lia| |done].
        -- intros j Hj. destruct (decide (j = k)) as [->|]; [|apply Hret; lia]. by exists er.
        -- intros ->. destruct (Hpass eq_refl) as [Hcs' Hcd]. split; [done|]. rewrite Hcd.
           rewrite (bool_decide_false (pFailures p3 = [])) by (intros E; by rewrite E in Hp3).
           rewrite (proj2 (Z.eqb_neq n k)) by lia. rewrite andb_false_r. simpl. unfold p3. simpl. done.
  - assert (Hnc : canceled s2 = false).
    { rewrite Hc2, Hc1. destruct (aCanceled _) eqn:E; [|done]. by rewrite (Hcerr eq_refl) in Herr. }
    eexists s2, _, Passed, k. split; [done|]. split; [by etrans|].
    split_and!; [lia|lia|intros; lia|by symmetry|..].
    + destruct (_ && _); simpl; lia.
    + destruct (_ && _); simpl; rewrite Hpf; lia.
    + intros _. split; [done|]. rewrite Z.eqb_refl, andb_true_r, <- Hdeps by congruence. rewrite Hpf.
      destruct (bool_decide (pFailures p = [])), (testCount f =? 1); simpl; done.
    + by intros [? ?].
Qed.

(** ** All repetitions *)

(** A repetition passes within the retries, and when. *)
Definition repPasses (err : Z → option error) : Prop :=
  ∃ k, 0 ≤ k ≤ maxRetries f ∧ err k = None ∧ ∀ j, 0 ≤ j < k → retryable (err j).

(** How the repetitions from [r] on end, the last being [n - 1]: all pass, or
    all pass up to one that ends otherwise. *)
Definition runEnds (err : Z → Z → option error) (r n : Z) (e : ending) : Prop :=
  match e with
  | Passed => ∀ i, r ≤ i < n → repPasses (err i)
  | _ => ∃ i k, r ≤ i < n ∧ (∀ j, r ≤ j < i → repPasses (err j)) ∧ 0 ≤ k ≤ maxRetries f ∧
           (∀ j, 0 ≤ j < k → retryable (err i j)) ∧ endsAs (err i) e k
  end.

Lemma repeatLoop_spec n attempts s0 task now : ∀ s r p,
  frame s0 s → known s task → canceled s = false → 0 ≤ maxRetries f →
  ∃ s' p' e,
    repeatLoop f n (runFuel f) attempts s task (cacheKeyForTask f s0 task) (effectiveTestArgs f task (sProfile s0)) r p now =
      Some (s', p', e) ∧
    frame s s' ∧ runEnds (errAt s0 task attempts) r (r + Z.of_nat n) e ∧
    pAttempts p ≤ pAttempts p' ≤ pAttempts p + Z.of_nat n * (maxRetries f + 1) ∧
    (e = Passed → canceled s' = false) ∧
    ((∃ er, e = Canceled er) → ∃ ps ts, testAt s' task = Some (ps, ts) ∧ running ts = false) ∧
    (∀ er d o, e = Failed er d o → pFailures p' ≠ []).
Proof using Type.
  induction n as [|n IH]; intros s r p Hfr Hk Hc Hmax.
  { exists s, p, Passed. split; [done|]. split; [done|]. split; [intros i; lia|].
    split_and!; [lia|lia|done|by intros [? ?]|done]. }
  cbn [repeatLoop].
  destruct (retryLoop_spec (runFuel f) attempts s0 s task r now 0 p Hfr Hk Hc)
    as (s1 & p1 & e & k & Hloop & Hf1 & Hkr & Hret & Hend & Hatts & Hfails & Hpass & Hcanc);
    [lia|unfold runFuel; lia|].
  rewrite Hloop. cbn [mbind option_bind].
  destruct (decide (e = Passed)) as [->|Hne].
  - destruct (Hpass eq_refl) as [Hc1 _].
    destruct (IH s1 (r + 1) p1) as (s' & p' & e' & Hrep & Hf' & Hends & Hbound & Hc' & Hcanc' & Hfail'); [by etrans|by eapply frame_known|done|done|].
    exists s', p', e'. rewrite Hrep. split; [done|]. split; [by etrans|].
    assert (Hr : repPasses (errAt s0 task attempts r)) by (exists k; split_and!; [lia|lia|done|done]).
    assert (Hall : ∀ i, r ≤ i < r + 1 → repPasses (errAt s0 task attempts i)) by (intros i Hi; by replace i with r by lia).
    split; [|split_and!; [nia|nia|done|done|done]].
    replace (r + Z.of_nat (S n)) with (r + 1 + Z.of_nat n) by lia.
    assert (Hother : ∀ e0, e0 ≠ Passed → e' = e0 → runEnds (errAt s0 task attempts) r (r + 1 + Z.of_nat n) e0).
    { intros e0 He0 ->. destruct e0; [done|..]; destruct Hends as (i & j & Hi & Hbefore & Hj & Hrt & He);
        exists i, j; (split_and!; [lia|lia| |lia|lia|done|done]);
        intros x Hx; (destruct (decide (x = r)) as [->|]; [done|apply Hbefore; lia]). }
    destruct e'; [|by apply Hother..]. intros i Hi. destruct (decide (i = r)) as [->|]; [done|apply Hends; lia].
  - exists s1, p1, e. split; [by destruct e|]. split; [done|].
    assert (Hends : runEnds (errAt s0 task attempts) r (r + Z.of_nat (S n)) e).
    { destruct e; [done|..]; exists r, k; (split_and!; [lia|lia|intros; lia|lia|lia|intros; apply Hret; lia|done]). }
    split_and!; [done|lia|nia|done|done|]. intros er d o ->. intros Hnil. rewrite Hnil in Hfails. simpl in Hfails. lia.
Qed.
End loops.

(** ** The result of a test *)

Section finish.
Context `{GoRuntime} (f : flags).

Lemma recordHistory_frame s task outcome d n deps obsId now :
  known s task → ∃ s', recordHistory f s task outcome d n deps obsId now = Some s' ∧ frame s s' ∧ pkgs s' = pkgs s.
Proof using Type.
  intros Hk. unfold recordHistory. destruct (negb _ && negb _); [by exists s|].
  destruct (known_root s task Hk) as [root ->]. cbn [mbind option_bind]. eexists. split; [done|]. by split.
Qed.

Lemma printTestResult_pkgs s task d fromCache pass out : pkgs (printTestResult f s task d fromCache pass out) = pkgs s.
Proof using Type. unfold printTestResult. by destruct (_ || _). Qed.

Lemma testAt_pkgs s s' task : pkgs s' = pkgs s → testAt s' task = testAt s task.
Proof using Type. unfold testAt. by intros ->. Qed.

(** Recording a result, then its observation, then printing it. *)
Lemma finish_and_report s task pass d failures err fromCache now ps ts :
  testAt s task = Some (ps, ts) → done ts = false → server_ok s →
  ∃ s' ps' ts', finishTestLocked s task pass d failures err fromCache now = Some s' ∧ server_ok s' ∧
    testAt s' task = Some (ps', ts') ∧ verdict ts' = (true, pass, fails ts ++ failures, fromCache) ∧
    running ts' = false ∧ (pass = true → passedIn ts' = d) ∧ known s' task.
Proof using Type.
  intros Hat Hd Hok.
  destruct (finishTestLocked_spec s task pass d failures err fromCache now ps ts Hat Hd Hok)
    as (s' & ps' & ts' & Hfin & -> & Hok' & Htests & Hdone & Hrun & Hpass & Hcached & Hfails & _).
  assert (Hat' : testAt (putPkg s (pkg (bin task)) ps') task = Some (ps', ts')).
  { erewrite testAt_put; [|exact Htests|by apply testAt_Some in Hat as [? _]]. by rewrite !decide_True. }
  exists (putPkg s (pkg (bin task)) ps'), ps', ts'. split_and!; try done.
  - unfold verdict. by rewrite Hdone, Hpass, Hcached, Hfails.
  - intros ->. unfold finishTestLocked in Hfin. rewrite Hat in Hfin. cbn [mbind option_bind] in Hfin.
    injection Hfin as Hfin. apply (f_equal (lookup (pkg (bin task)))) in Hfin.
    rewrite !lookup_insert_eq in Hfin. apply (inj Some), (f_equal testsOf) in Hfin. rewrite Htests in Hfin.
    apply (f_equal (lookup (test task))) in Hfin. rewrite lookup_insert_eq in Hfin.
    destruct (allRunnableDone _) in Hfin; unfold testsOf in Hfin; simpl default in Hfin;
      rewrite lookup_insert_eq in Hfin; apply (inj Some) in Hfin; by rewrite <- Hfin.
  - by eexists.
Qed.

Context {C E : Type} `{!ResultCache C E}.

Definition cacheHitFor (c : C) (io : runIO E) (s : Server) (task : testTask) : option testCacheEntry :=
  if hasTestCache s && negb (debugPass s =? 1) then usableEntry c io s (cacheKeyForTask f s task) else None.

(** What the error that [runTest] returns says about the test, whose status was
    [old] and is now [ts]. *)
Definition resultOf (c : C) (io : runIO E) (s : Server) (task : testTask) (err : option error) (old ts : testStatus) : Prop :=
  match err with
  | None =>
      done ts = true ∧ passed ts = true ∧ running ts = false ∧
      match cacheHitFor c io s task with
      | Some entry => cached ts = true ∧ passedIn ts = PassedIn entry ∧ fails ts = fails old
      | None => cached ts = false ∧
          ∀ r, 0 ≤ r < testCount f → repPasses f (errAt f s task (rAttempt io) r)
      end
  | Some e =>
      if isCanceled e then verdict ts = verdict old
      else done ts = true ∧ passed ts = false ∧ running ts = false ∧ cached ts = false ∧ cacheHitFor c io s task = None ∧
        (∃ new, new ≠ [] ∧ fails ts = fails old ++ new) ∧
        ∃ r, 0 ≤ r < testCount f ∧ (∀ j, 0 ≤ j < r → repPasses f (errAt f s task (rAttempt io) j)) ∧
          (∀ k, 0 ≤ k < maxRetries f → retryable (errAt f s task (rAttempt io) r k)) ∧
          errAt f s task (rAttempt io) r (maxRetries f) = Some e
  end.

Lemma storeResult_frame c io s key p pass : frame s (storeResult c io s key p pass).1.
Proof using Type.
  unfold storeResult.
  repeat match goal with |- context [match ?x with _ => _ end] => destruct x end; simpl; try done;
    apply setDebugSeedError_frame.
Qed.

(** The part of [runTest] after the cache, with a slot. *)
Lemma runAttempts_correct (c : C) (io : runIO E) s s1 task ps ts :
  flags_ok f → server_ok s1 → frame s s1 → canceled s1 = false →
  testAt s1 task = Some (ps, ts) → done ts = false → cacheHitFor c io s task = None →
  ∃ err s' c',
    runAttempts f (runFuel f) s1 c task (cacheKeyForTask f s1 task) (effectiveTestArgs f task (sProfile s1))
      (debugPass s1) io = Some (err, s', c') ∧ server_ok s' ∧
    ∃ ps' ts', testAt s' task = Some (ps', ts') ∧ resultOf c io s task err ts ts'.
Proof using Type.
  intros Hfl Hok Hfr Hc Hat Hd Hhit. unfold runAttempts.
  destruct (startTest_frame s1 task (rStart io) ps ts Hat Hd) as (s2 & -> & Hf2 & Hc2). cbn [mbind option_bind].
  assert (Hk2 : known s2 task) by (eapply frame_known; [exact Hf2|by eexists]).
  destruct (repeatLoop_spec f (Z.to_nat (testCount f)) (rAttempt io) s1 task (rFinish io) s2 0 noProgress Hf2 Hk2)
    as (s3 & p & e & -> & Hf3 & Hends & _ & Hc3 & _ & Hnew); [congruence|apply (ok_maxRetries f Hfl)|]. cbn [mbind option_bind].
  assert (Hf13 : frame s1 s3) by (by etrans).
  assert (Hok3 : server_ok s3) by (by apply Hf13).
  destruct (frame_testAt s1 s3 task ps ts Hf13 Hat) as (ps3 & ts3 & Hat3 & Hv3 & _).
  assert (Hd3 : done ts3 = false) by (unfold verdict in Hv3; congruence).
  assert (Herr : ∀ r k, errAt f s1 task (rAttempt io) r k = errAt f s task (rAttempt io) r k)
    by (intros; apply errAt_frame, Hfr).
  pose proof (ok_testCount f Hfl) as Hcount. rewrite Z.add_0_l, Z2Nat.id in Hends by lia.
  unfold resultOf. rewrite Hhit. destruct e as [|er d o|er|].
  - pose proof (storeResult_frame c io s3 (cacheKeyForTask f s1 task) p (debugPass s1)) as Hfs.
    destruct (storeResult c io s3 _ p _) as [s4 c4]; simpl in Hfs.
    destruct (frame_testAt s3 s4 task ps3 ts3 Hfs Hat3) as (ps4 & ts4 & Hat4 & Hv4 & _).
    assert (Hd4 : done ts4 = false) by (unfold verdict in Hv4; congruence).
    destruct (finish_and_report s4 task true (pTotal p) (pFailures p) None false (rFinish io) ps4 ts4 Hat4 Hd4)
      as (s5 & ps5 & ts5 & -> & Hok5 & Hat5 & Hv5 & Hr5 & _ & Hk5); [by apply Hfs|]. cbn [mbind option_bind].
    edestruct recordHistory_frame as (s6 & -> & _ & Hp6); [exact Hk5|]. cbn [mbind option_bind].
    eexists None, _, _. split; [done|]. split; [by eapply server_ok_pkgs; [apply printTestResult_pkgs|eapply server_ok_pkgs]|].
    exists ps5, ts5. split; [by rewrite (testAt_pkgs _ _ _ (printTestResult_pkgs _ _ _ _ _ _)), (testAt_pkgs _ _ _ Hp6)|].
    unfold verdict in Hv5. injection Hv5 as -> -> _ ->. split_and!; try done.
    intros r Hr. destruct (Hends r Hr) as (k & Hk & He & Hj). exists k. split_and!; [lia|lia|by rewrite <- Herr|].
    intros j Hjk. rewrite <- Herr. by apply Hj.
  - destruct Hends as (r & k & Hr & Hbefore & Hk & Hj & (He & Hcn & ->)).
    destruct (finish_and_report s3 task false (pTotal p) (pFailures p) (Some er) false (rFinish io) ps3 ts3 Hat3 Hd3 Hok3)
      as (s5 & ps5 & ts5 & -> & Hok5 & Hat5 & Hv5 & Hr5 & _ & Hk5). cbn [mbind option_bind].
    edestruct recordHistory_frame as (s6 & -> & _ & Hp6); [exact Hk5|]. cbn [mbind option_bind].
    eexists (Some er), _, _. split; [done|]. split; [by eapply server_ok_pkgs; [apply printTestResult_pkgs|eapply server_ok_pkgs]|].
    exists ps5, ts5. split; [by rewrite (testAt_pkgs _ _ _ (printTestResult_pkgs _ _ _ _ _ _)), (testAt_pkgs _ _ _ Hp6)|].
    rewrite Hcn. unfold verdict in Hv5. injection Hv5 as -> -> Hfails ->. split_and!; try done.
    { exists (pFailures p). split; [by eapply Hnew|]. rewrite Hfails. f_equal. unfold verdict in Hv3. congruence. }
    exists r. split_and!; [lia|lia| |intros; rewrite <- Herr; by apply Hj|by rewrite <- Herr].
    intros j Hjr. destruct (Hbefore j Hjr) as (k & Hk' & He' & Hj'). exists k. split_and!; [lia|lia|by rewrite <- Herr|].
    intros i Hi. rewrite <- Herr. by apply Hj'.
  - destruct Hends as (r & k & _ & _ & _ & _ & (_ & Hcn)).
    eexists (Some er), s3, c. split; [done|]. split; [done|]. exists ps3, ts3. split; [done|]. by rewrite Hcn.
  - by destruct Hends as (r & k & _ & _ & _ & _ & []).
Qed.

Lemma runTest_result (c : C) (io : runIO E) s task ps ts :
  flags_ok f → server_ok s → testAt s task = Some (ps, ts) → done ts = false →
  ∃ err s' c', runTest f (runFuel f) s c task io = Some (err, s', c') ∧ server_ok s' ∧
    ∃ ps' ts', testAt s' task = Some (ps', ts') ∧ resultOf c io s task err ts ts'.
Proof using Type.
  intros Hfl Hok Hat Hd. unfold runTest. destruct (canceled s) eqn:Hc.
  { eexists (Some ECanceled), s, c. split; [done|]. split; [done|]. by exists ps, ts. }
  set (lookup := hasTestCache s && negb (debugPass s =? 1)).
  set (s1 := if lookup then s <| cacheChecks ::= Z.succ |> else s).
  assert (Hf1 : frame s s1) by (subst s1; destruct lookup; [by split|done]).
  assert (Hc1 : canceled s1 = false) by (subst s1; by destruct lookup).
  assert (Hp1 : pkgs s1 = pkgs s) by (subst s1; by destruct lookup).
  assert (Hat1 : testAt s1 task = Some (ps, ts)) by (by rewrite (testAt_pkgs s s1)).
  assert (Hok1 : server_ok s1) by (by apply Hf1).
  assert (Hcfg : cacheKeyForTask f s task = cacheKeyForTask f s1 task ∧ sProfile s = sProfile s1 ∧ debugPass s = debugPass s1)
    by (subst s1; by destruct lookup).
  assert (Hhit : (if lookup then usableEntry c io s1 (cacheKeyForTask f s task) else None) = cacheHitFor c io s task).
  { unfold cacheHitFor. fold lookup. destruct lookup; [|done]. unfold usableEntry. by rewrite Hc1, Hc. }
  rewrite Hhit. destruct (cacheHitFor c io s task) as [entry|] eqn:Hentry.
  - destruct (finish_and_report (s1 <| cacheHits ::= Z.succ |>) task true (PassedIn entry) [] None true (rFinish io) ps ts)
      as (s2 & ps2 & ts2 & -> & Hok2 & Hat2 & Hv2 & Hr2 & Hin2 & _); [done..|]. cbn [mbind option_bind].
    eexists None, _, _. split; [done|]. split; [by eapply server_ok_pkgs; [apply printTestResult_pkgs|]|].
    exists ps2, ts2. split; [by rewrite (testAt_pkgs _ _ _ (printTestResult_pkgs _ _ _ _ _ _))|].
    unfold resultOf. rewrite Hentry. unfold verdict in Hv2. injection Hv2 as -> -> -> ->. split_and!; try done; [by apply Hin2|by rewrite app_nil_r].
  - destruct (rAwait io); simpl negb; cbv iota.
    2: { eexists (Some ECanceled), _, c. split; [done|]. split; [done|]. by exists ps, ts. }
    destruct Hcfg as (-> & -> & ->). by apply (runAttempts_correct c io s s1 task ps ts).
Qed.

(** C7: [runTest] always returns, without a nil dereference and with a
    consistent state, and its result is right.  No error means that the test is
    recorded as passed, either from a cached entry that was found and
    validated, or because every one of the [-count] repetitions passed within
    the retries.  An error other than a cancellation means that the test is
    recorded as failed and that some repetition, after earlier ones passed,
    failed [-max-retries] times and once more, with that error.  After a
    cancellation the test has no verdict. *)
Theorem runTest_correct (c : C) (io : runIO E) s task ps ts :
  flags_ok f → server_ok s → testAt s task = Some (ps, ts) → done ts = false →
  ∃ err s' c', runTest f (runFuel f) s c task io = Some (err, s', c') ∧ server_ok s' ∧
    ∃ ps' ts', testAt s' task = Some (ps', ts') ∧ resultOf c io s task err ts ts'.
Proof using Type. apply runTest_result. Qed.

(** ** What reaches the cache *)

(** Dependencies are kept for the cache only when there is one repetition and
    its first attempt passed. *)
Lemma repeatLoop_deps attempts s0 s task now p :
  flags_ok f → frame s0 s → known s task → canceled s = false → pCacheDeps p = None → pFailures p = [] →
  ∃ s' p' e,
    repeatLoop f (Z.to_nat (testCount f)) (runFuel f) attempts s task (cacheKeyForTask f s0 task)
      (effectiveTestArgs f task (sProfile s0)) 0 p now = Some (s', p', e) ∧
    (e = Passed → pFailures p' = [] → ∀ deps, pCacheDeps p' = Some deps →
       testCount f = 1 ∧ errAt f s0 task attempts 0 0 = None ∧ depsAt f s0 task attempts 0 0 = Some deps) ∧
    (testCount f = 1 → errAt f s0 task attempts 0 0 = None →
       e = Passed ∧ pFailures p' = [] ∧ pCacheDeps p' = depsAt f s0 task attempts 0 0).
Proof using Type.
  intros Hfl Hfr Hk Hc Hp Hpf. pose proof (ok_maxRetries f Hfl) as Hmax. pose proof (ok_testCount f Hfl) as Hcnt.
  destruct (decide (testCount f = 1)) as [Hone|Hmany].
  - rewrite Hone. change (Z.to_nat 1) with 1%nat. cbn [repeatLoop].
    destruct (retryLoop_spec f (runFuel f) attempts s0 s task 0 now 0 p Hfr Hk Hc)
      as (s1 & p1 & e & k & Hloop & Hf1 & Hkr & Hret & Hend & _ & Hfails & Hpass & _); [lia|unfold runFuel; lia|].
    rewrite Hloop. cbn [mbind option_bind]. rewrite Hpf in Hfails, Hpass. simpl in Hfails, Hpass.
    exists s1, p1, e. split; [by destruct e|]. split.
    + intros -> Hnil deps Hdeps. destruct (Hpass eq_refl) as [_ Hcd]. rewrite Hnil in Hfails. simpl in Hfails.
      assert (k = 0) as -> by lia. rewrite Hone in Hcd. simpl in Hcd. rewrite Hdeps in Hcd. by symmetry in Hcd.
    + intros _ Hnone. assert (k = 0) as ->.
      { destruct (decide (k = 0)); [done|]. destruct (Hret 0) as (er & He & _); [lia|congruence]. }
      assert (e = Passed) as ->.
      { destruct e; [done|..]; simpl in Hend; [destruct Hend as (? & _)|destruct Hend as (? & _)|done]; congruence. }
      destruct (Hpass eq_refl) as [_ Hcd]. rewrite Hone in Hcd. simpl in Hcd. split_and!; [done| |done].
      destruct (pFailures p1); [done|simpl in Hfails; lia].
  - assert (Hgen : ∀ n s r p, frame s0 s → known s task → canceled s = false → pCacheDeps p = None →
      ∃ s' p' e, repeatLoop f n (runFuel f) attempts s task (cacheKeyForTask f s0 task)
        (effectiveTestArgs f task (sProfile s0)) r p now = Some (s', p', e) ∧ (e = Passed → pCacheDeps p' = None)).
    { clear - Hmax Hmany. intros n. induction n as [|n IH]; intros s r p Hfr Hk Hc Hp; cbn [repeatLoop]; [by eexists _, _, _|].
      destruct (retryLoop_spec f (runFuel f) attempts s0 s task r now 0 p Hfr Hk Hc)
        as (s1 & p1 & e & k & Hloop & Hf1 & _ & _ & _ & _ & _ & Hpass & _); [lia|unfold runFuel; lia|].
      rewrite Hloop. cbn [mbind option_bind]. destruct e; [|by eexists _, _, _..].
      destruct (Hpass eq_refl) as [Hc1 Hcd]. rewrite (proj2 (Z.eqb_neq _ _) Hmany), andb_false_r in Hcd.
      apply IH; [by etrans|by eapply frame_known|done|congruence]. }
    destruct (Hgen (Z.to_nat (testCount f)) s 0 p Hfr Hk Hc Hp) as (s' & p' & e & Hrep & Hnone).
    exists s', p', e. split; [done|]. split; [|done]. intros He _ deps Hdeps. rewrite Hnone in Hdeps; done.
Qed.

(** The entry of a clean result. *)
Definition cleanEntry (io : runIO E) s task (d : Duration) deps : testCacheEntry :=
  TestCacheEntry testCacheVersion (cacheKeyForTask f s task) (rCreated io) d deps.

(** [runTest] decides without the test binary, leaving the cache alone, or
    makes attempts from a state that differs in counters. *)
Lemma runTest_cases (c : C) (io : runIO E) s task ps ts :
  testAt s task = Some (ps, ts) →
  ((∀ r, runTest f (runFuel f) s c task io = Some r → r.2 = c) ∧
   (canceled s = true ∨ cacheHitFor c io s task ≠ None ∨ rAwait io = false)) ∨
  (cacheHitFor c io s task = None ∧ canceled s = false ∧
   ∃ s1, frame s s1 ∧ canceled s1 = false ∧ testAt s1 task = Some (ps, ts) ∧
     runTest f (runFuel f) s c task io =
     runAttempts f (runFuel f) s1 c task (cacheKeyForTask f s task) (effectiveTestArgs f task (sProfile s)) (debugPass s) io).
Proof using Type.
  intros Hat. unfold runTest. destruct (canceled s) eqn:Hc; [left; split; [by intros ? [= <-]|by left]|].
  set (lookup := hasTestCache s && negb (debugPass s =? 1)).
  set (s1 := if lookup then s <| cacheChecks ::= Z.succ |> else s).
  assert (Hf1 : frame s s1) by (subst s1; destruct lookup; [by split|done]).
  assert (Hc1 : canceled s1 = false) by (subst s1; by destruct lookup).
  assert (Hp1 : pkgs s1 = pkgs s) by (subst s1; by destruct lookup).
  assert (Hhit : (if lookup then usableEntry c io s1 (cacheKeyForTask f s task) else None) = cacheHitFor c io s task).
  { unfold cacheHitFor. fold lookup. destruct lookup; [|done]. unfold usableEntry. by rewrite Hc1, Hc. }
  rewrite Hhit. destruct (cacheHitFor c io s task) as [entry|] eqn:Hentry.
  { left. split; [|auto]. intros r. destruct (finishTestLocked _ _ _ _ _ _ _ _); [|done]. by intros [= <-]. }
  destruct (rAwait io); simpl negb; cbv iota; [|left; split; [by intros r [= <-]|auto]].
  right. split_and!; [done|done|]. exists s1. split_and!; [done|done| |done]. by rewrite (testAt_pkgs s s1).
Qed.

(** A result that was recorded and reported. *)
Ltac invert_report Hres :=
  match type of Hres with context [finishTestLocked ?a ?b ?c ?d ?e ?g ?h ?i] =>
    destruct (finishTestLocked a b c d e g h i); [|discriminate Hres] end;
  cbn [mbind option_bind] in Hres;
  match type of Hres with context [recordHistory ?z ?a ?b ?c ?d ?e ?g ?h ?i] =>
    destruct (recordHistory z a b c d e g h i); [|discriminate Hres] end;
  cbn [mbind option_bind] in Hres; injection Hres as ? ? ?; simplify_eq.

(** The cache after the attempts. *)
Lemma runAttempts_cache (c : C) (io : runIO E) s s1 task ps ts err s' c' :
  flags_ok f → frame s s1 → canceled s1 = false → testAt s1 task = Some (ps, ts) → done ts = false →
  runAttempts f (runFuel f) s1 c task (cacheKeyForTask f s task) (effectiveTestArgs f task (sProfile s)) (debugPass s) io =
    Some (err, s', c') →
  (c' = c ∨ err = None ∧ hasTestCache s = true ∧ testCount f = 1 ∧ errAt f s task (rAttempt io) 0 0 = None ∧
     ∃ d deps, depsAt f s task (rAttempt io) 0 0 = Some deps ∧
       c' = (cachePut c (rPut io) false (cleanEntry io s task d deps)).2) ∧
  (∀ deps, hasTestCache s = true → testCount f = 1 → errAt f s task (rAttempt io) 0 0 = None →
     depsAt f s task (rAttempt io) 0 0 = Some deps →
     ∃ d, c' = (cachePut c (rPut io) false (cleanEntry io s task d deps)).2).
Proof using Type.
  intros Hfl Hfr Hc Hat Hd. unfold runAttempts.
  destruct (startTest_frame s1 task (rStart io) ps ts Hat Hd) as (s2 & -> & Hf2 & Hc2). cbn [mbind option_bind].
  assert (Hk2 : known s2 task) by (eapply frame_known; [exact Hf2|by eexists]).
  assert (Hf02 : frame s s2) by (by etrans).
  destruct (repeatLoop_deps (rAttempt io) s s2 task (rFinish io) noProgress Hfl Hf02 Hk2)
    as (s3 & p & e & Hrep & Hdeps & Hclean); [congruence|done..|].
  destruct (repeatLoop_spec f (Z.to_nat (testCount f)) (rAttempt io) s task (rFinish io) s2 0 noProgress Hf02 Hk2)
    as (s3' & p' & e' & Hrep' & Hf3 & _ & _ & Hc3 & _ & _); [congruence|apply (ok_maxRetries f Hfl)|].
  rewrite Hrep in Hrep'. injection Hrep' as <- <- <-. rewrite Hrep. cbn [mbind option_bind].
  assert (Hcache : hasTestCache s3 = hasTestCache s).
  { assert (Hf03 : frame s s3) by (by etrans). pose proof (fr_config _ _ Hf03) as Hcfg. unfold config in Hcfg. by injection Hcfg. }
  intros Hres. destruct e as [|er d o|er|].
  - assert (Hput : (c' = c ∧ ¬ (hasTestCache s = true ∧ pFailures p = [] ∧ is_Some (pCacheDeps p))) ∨
      ∃ deps, hasTestCache s = true ∧ pFailures p = [] ∧ pCacheDeps p = Some deps ∧
        c' = (cachePut c (rPut io) false (cleanEntry io s task (pTotal p) deps)).2 ∧ err = None).
    { revert Hres. unfold storeResult. rewrite Hcache, (Hc3 eq_refl).
      destruct (pCacheDeps p) as [deps|]; [destruct (bool_decide_reflect (pFailures p = [])), (hasTestCache s); simpl|].
      - fold (cleanEntry io s task (pTotal p) deps).
        destruct (cachePut c (rPut io) false (cleanEntry io s task (pTotal p) deps)) as [[x|] c1] eqn:Hcp;
          intros Hres; right; exists deps; invert_report Hres; rewrite Hcp; split_and!; done.
      - intros Hres. left. invert_report Hres. split; [done|naive_solver].
      - intros Hres. left. invert_report Hres. split; [done|naive_solver].
      - intros Hres. left. invert_report Hres. split; [done|naive_solver].
      - intros Hres. left. invert_report Hres. split; [done|]. intros (_ & _ & [? ?]). done. }
    split.
    + destruct Hput as [[-> _]|(deps & Hch & Hnil & Hcd & -> & ->)]; [by left|right].
      destruct (Hdeps eq_refl Hnil deps Hcd) as (Hone & He & Hda). split_and!; [done..|]. by exists (pTotal p), deps.
    + intros deps Hch Hone He Hda. destruct (Hclean Hone He) as (_ & Hnil & Hcd).
      destruct Hput as [[_ Hno]|(deps' & _ & _ & Hcd' & -> & _)].
      * exfalso. apply Hno. rewrite Hcd, Hda. by eauto.
      * exists (pTotal p). do 2 f_equal. congruence.
  - assert (c' = c) as ->.
    { by invert_report Hres. }
    split; [by left|]. intros deps _ Hone He _. by destruct (Hclean Hone He).
  - injection Hres as _ _ <-. split; [by left|]. intros deps _ Hone He _. by destruct (Hclean Hone He).
  - done.
Qed.

(** C6: only clean results reach the cache.  When [runTest] changes the cache,
    it does so with one [Put], after a run that passed without a single failed
    attempt, with [-count] 1 and an input log that was captured and parsed; the
    entry is stored under the task's own key with exactly the dependencies
    parsed from that log. *)
Theorem runTest_stores_clean (c : C) (io : runIO E) s task ps ts err s' c' :
  flags_ok f → server_ok s → testAt s task = Some (ps, ts) → done ts = false →
  runTest f (runFuel f) s c task io = Some (err, s', c') →
  c' = c ∨
  err = None ∧ hasTestCache s = true ∧ testCount f = 1 ∧ errAt f s task (rAttempt io) 0 0 = None ∧
  ∃ d deps, depsAt f s task (rAttempt io) 0 0 = Some deps ∧
    c' = (cachePut c (rPut io) false (cleanEntry io s task d deps)).2.
Proof using Type.
  intros Hfl Hok Hat Hd Hrun. destruct (runTest_cases c io s task ps ts Hat) as [[Hsame _]|(_ & _ & s1 & Hf1 & Hc1 & Hat1 & Heq)].
  { left. by specialize (Hsame _ Hrun). }
  rewrite Heq in Hrun. by eapply (runAttempts_cache c io s s1 task ps ts err s' c').
Qed.

(** C14: a clean result is reused.  Let a test pass at its first attempt, with
    [-count] 1 and a captured input log, and let the [Put] of its entry succeed.
    Then a later [runTest] of the same key, on any run that consults the cache
    while the recorded inputs validate, reports the test as passed and cached
    without starting the test binary, against any cache that obeys the laws of
    the interface. *)
Theorem runTest_reuses `{!ResultCacheLaws C E} (c : C) (io io2 : runIO E) s s2 task task2 ps ts ps2 ts2 deps err s' c' :
  flags_ok f → server_ok s → testAt s task = Some (ps, ts) → done ts = false →
  cacheHitFor c io s task = None → canceled s = false → rAwait io = true →
  hasTestCache s = true → testCount f = 1 →
  errAt f s task (rAttempt io) 0 0 = None → depsAt f s task (rAttempt io) 0 0 = Some deps →
  (∀ d, (cachePut c (rPut io) false (cleanEntry io s task d deps)).1 = None ∧ storable (cleanEntry io s task d deps)) →
  runTest f (runFuel f) s c task io = Some (err, s', c') →
  server_ok s2 → testAt s2 task2 = Some (ps2, ts2) → done ts2 = false → canceled s2 = false →
  hasTestCache s2 = true → debugPass s2 ≠ 1 → cacheKeyForTask f s2 task2 = cacheKeyForTask f s task →
  healthy c (rPut io) (cacheKeyForTask f s task) → healthy c' (rGet io2) (cacheKeyForTask f s task) →
  validateDependencies (rValidate io2) deps = inr true →
  ∃ s2' ps2' ts2', runTest f (runFuel f) s2 c' task2 io2 = Some (None, s2', c') ∧
    testAt s2' task2 = Some (ps2', ts2') ∧ done ts2' = true ∧ passed ts2' = true ∧ cached ts2' = true.
Proof using Type.
  intros Hfl Hok Hat Hd Hmiss Hcan Haw Hch Hone Herr Hdeps Hput Hrun Hok2 Hat2 Hd2 Hc2 Hch2 Hdbg Hkey Hh Hh' Hval.
  assert (Hc' : ∃ d, c' = (cachePut c (rPut io) false (cleanEntry io s task d deps)).2).
  { destruct (runTest_cases c io s task ps ts Hat) as [[_ Hwhy]|(_ & _ & s1 & Hf1 & Hc1 & Hat1 & Heq)]; [naive_solver congruence|].
    rewrite Heq in Hrun. destruct (runAttempts_cache c io s s1 task ps ts err s' c' Hfl Hf1 Hc1 Hat1 Hd Hrun) as [_ Hst].
    by apply (Hst deps). }
  destruct Hc' as [d ->]. destruct (Hput d) as [Hnone Hstor].
  destruct (cachePut c (rPut io) false (cleanEntry io s task d deps)) as [x c1] eqn:Hcp. simpl in *. subst x.
  pose proof (get_put c (rPut io) (rGet io2) _ c1 Hcp Hstor eq_refl Hh Hh') as Hget.
  assert (Hhit : cacheHitFor c1 io2 s2 task2 = Some (cleanEntry io s task d deps)).
  { unfold cacheHitFor. rewrite Hch2, (proj2 (Z.eqb_neq _ _) Hdbg). simpl. unfold usableEntry.
    rewrite Hc2, Hkey. simpl in Hget. rewrite Hget. simpl. by rewrite Hval. }
  unfold runTest. rewrite Hc2, Hch2, (proj2 (Z.eqb_neq _ _) Hdbg). simpl andb. cbv iota zeta.
  assert (Hu : usableEntry c1 io2 (s2 <| cacheChecks ::= Z.succ |>) (cacheKeyForTask f s2 task2) = Some (cleanEntry io s task d deps)).
  { revert Hhit. unfold cacheHitFor. by rewrite Hch2, (proj2 (Z.eqb_neq _ _) Hdbg). }
  rewrite Hu.
  destruct (finish_and_report (s2 <| cacheChecks ::= Z.succ |> <| cacheHits ::= Z.succ |>) task2 true d [] None true
    (rFinish io2) ps2 ts2) as (s3 & ps3 & ts3 & Hfin & _ & Hat3 & Hv3 & _); [done..|].
  cbn [PassedIn cleanEntry]. rewrite Hfin. cbn [mbind option_bind]. eexists _, ps3, ts3. split; [done|].
  split; [by rewrite (testAt_pkgs _ _ _ (printTestResult_pkgs _ _ _ _ _ _))|].
  unfold verdict in Hv3. by injection Hv3 as -> -> _ ->.
Qed.
End finish.

(** ** A cache in memory, and an example *)

Section memory.
Context `{GoRuntime}.

(** The interface's simplest implementation: a map by the identity of keys. *)
#[export] Instance memoryCache : ResultCache (gmap string testCacheEntry) unit := {
  cacheGet := λ m _ ctxErr key,
    if ctxErr then GetError ECanceled
    else match m !! id key with
         | None => Miss
         | Some e => if bool_decide (teVersion e = testCacheVersion) && bool_decide (id (teKey e) = id key) then Hit e
                     else GetError (EMsg "cache entry key or version mismatch")
         end;
  cachePut := λ m _ ctxErr e, if ctxErr then (Some ECanceled, m) else (None, <[id (teKey e) := e]> m)
}.

#[export] Instance memoryCacheLaws : ResultCacheLaws (gmap string testCacheEntry) unit.
Proof using Type.
  refine {| storable := λ _, True; healthy := λ _ _ _, True |}.
  - intros m [] ctxErr key e. simpl. destruct ctxErr; [done|]. destruct (m !! id key) as [e'|]; [|done].
    destruct (_ && _) eqn:Hb; [|done]. intros [= <-]. apply andb_prop in Hb as [?%bool_decide_eq_true ?%bool_decide_eq_true]. done.
  - intros m [] [] e m'. cbn [cachePut cacheGet memoryCache]. intros [= <-] _ Hv _ _.
    rewrite lookup_insert_eq, Hv, !bool_decide_true by done. done.
  - by intros m [] [] e err m' key [= ? ?].
Defined.
End memory.

#[local] Existing Instance testRuntime.

(** The test passes at its first attempt and reads one variable. *)
Definition passingIO : runIO unit := {|
  rGet := tt; rValidate := exampleWorld "/root" "hi"; rAwait := true;
  rAttempt := λ _ _ _, AttemptIO ["ok"] None (3 * Millisecond) false
    (inr (["# test log"; "getenv HOME"], None)) (exampleWorld "/root" "hi");
  rPut := tt; rStart := 10; rFinish := 20; rCreated := 21; rObserved := 22; rObsID := "o1"
|}.

(** The test fails twice, then passes. *)
Definition flakyIO : runIO unit := {|
  rGet := tt; rValidate := exampleWorld "/root" "hi"; rAwait := true;
  rAttempt := λ _ k _, AttemptIO ["out"] (if k <? 2 then Some (EExit "exit status 1") else None) (3 * Millisecond) false
    (inr (["# test log"], None)) (exampleWorld "/root" "hi");
  rPut := tt; rStart := 10; rFinish := 20; rCreated := 21; rObserved := 22; rObsID := "o1"
|}.

Lemma exampleFlags_ok : flags_ok exampleFlags.
Proof. apply (validateFlags_ok exampleFlags []). reflexivity. Qed.

Lemma exampleTask_at : testAt exampleServer (exampleTask "TestA") = Some (examplePackage, exampleStatus).
Proof. reflexivity. Qed.

Lemma runTest_correct_witness :
  ∃ err s' c', runTest (H := testRuntime) exampleFlags (runFuel exampleFlags) exampleServer
    (∅ : gmap string testCacheEntry) (exampleTask "TestA") flakyIO = Some (err, s', c') ∧ server_ok s'.
Proof.
  destruct (runTest_correct (H := testRuntime) exampleFlags (∅ : gmap string testCacheEntry) flakyIO exampleServer
    (exampleTask "TestA") examplePackage exampleStatus exampleFlags_ok exampleServer_ok exampleTask_at eq_refl)
    as (err & s' & c' & Hrun & Hok & _).
  exact (ex_intro _ err (ex_intro _ s' (ex_intro _ c' (conj Hrun Hok)))).
Defined.

Definition afterPassing : option error * Server * gmap string testCacheEntry :=
  default (None, exampleServer, ∅)
    (runTest (H := testRuntime) exampleFlags (runFuel exampleFlags) exampleServer ∅ (exampleTask "TestA") passingIO).

Lemma afterPassing_run :
  runTest (H := testRuntime) exampleFlags (runFuel exampleFlags) exampleServer ∅ (exampleTask "TestA") passingIO =
  Some (afterPassing.1.1, afterPassing.1.2, afterPassing.2).
Proof. vm_compute. reflexivity. Qed.

Example flaky_is_not_cached :
  (λ r, (r.1.1, r.2)) <$> runTest (H := testRuntime) exampleFlags (runFuel exampleFlags) exampleServer
    (∅ : gmap string testCacheEntry) (exampleTask "TestA") flakyIO = Some (None, ∅).
Proof. vm_compute. reflexivity. Qed.

Lemma runTest_stores_clean_witness :
  size afterPassing.2 = 1%nat ∧ (afterPassing.2 = ∅ ∨ testCount exampleFlags = 1).
Proof.
  split; [vm_compute; reflexivity|].
  destruct (runTest_stores_clean (H := testRuntime) exampleFlags (∅ : gmap string testCacheEntry) passingIO exampleServer
    (exampleTask "TestA") examplePackage exampleStatus _ _ _ exampleFlags_ok exampleServer_ok exampleTask_at eq_refl afterPassing_run)
    as [Heq|(_ & _ & Hone & _)]; [left; exact Heq|right; exact Hone].
Defined.

Definition passingDeps : list cacheDependency :=
  default [] (depsAt (H := testRuntime) exampleFlags exampleServer (exampleTask "TestA") (rAttempt passingIO) 0 0).

Lemma runTest_reuses_witness :
  ∃ s' ps' ts', runTest (H := testRuntime) exampleFlags (runFuel exampleFlags) exampleServer afterPassing.2
    (exampleTask "TestA") passingIO = Some (None, s', afterPassing.2) ∧
    testAt s' (exampleTask "TestA") = Some (ps', ts') ∧ done ts' = true ∧ passed ts' = true ∧ cached ts' = true.
Proof.
  assert (Hval : validateDependencies (H := testRuntime) (exampleWorld "/root" "hi") passingDeps = inr true) by (vm_compute; reflexivity).
  assert (Hdeps : depsAt (H := testRuntime) exampleFlags exampleServer (exampleTask "TestA") (rAttempt passingIO) 0 0 = Some passingDeps)
    by (vm_compute; reflexivity).
  refine (runTest_reuses (H := testRuntime) exampleFlags (∅ : gmap string testCacheEntry) passingIO passingIO exampleServer exampleServer
    (exampleTask "TestA") (exampleTask "TestA") examplePackage exampleStatus examplePackage exampleStatus passingDeps _ _ _
    exampleFlags_ok exampleServer_ok exampleTask_at eq_refl _ eq_refl eq_refl eq_refl eq_refl _ Hdeps
    (λ _, conj eq_refl I) afterPassing_run exampleServer_ok exampleTask_at eq_refl eq_refl eq_refl _ eq_refl I I Hval);
    [vm_compute; reflexivity|vm_compute; reflexivity|discriminate].
Defined.
