(* ===== verification/Pool.v ===== *)
(** * Running all tests (gotst.go, [runAllTests] without a fleet)

    A feeder hands the tasks, in order, to at most [-j] workers; each worker
    runs one test at a time and sends its result to the loop that counts
    failures.  With [-failfast] the first failure of a test cancels the run,
    and results that only followed from this are not counted.

    The goroutines are modelled by their interleavings: an [event] is one step
    of the feeder, of a worker or of the counting loop.  What [runTest] returns
    is carried by the event. *)

From S2P Require Import Prelude GoStrings Flags Path Profile Utf8 GoFmt Args Sha256 Quote HistoryTypes TestCache Server History.

(** ** The tasks *)

(** What [runAllTests] does before it starts workers: [None] for no binaries.
    The outer option is a nil dereference. *)
Definition prepareTasks `{GoRuntime} (f : flags) (s : Server) (lookup : list Key → result (gmap string History))
    (now : Time) : option (Server * option (list testTask)) :=
  match capturedTestBinaries s with
  | [] => Some (s, None)
  | _ =>
      '(s, tasks) ← allTestTasks s now;
      let s := loadHistory f s tasks lookup in
      let tasks := orderTestTasksByHistory f s tasks in
      Some (prepareTestEstimates f s tasks, Some tasks)
  end.

(** ** The pool *)

(** What a worker is doing: running a test, or about to send its result with
    whether it is the primary failure. *)
Inductive working := Running (task : testTask) | Sending (task : testTask) (err : option error) (primary : bool).

Record pool := Pool {
  plServer : Server;
  plTodo : list testTask;              (** not yet received by a worker *)
  plBusy : list working;
  plResults : list (option error * bool); (** the channel [results] *)
  plFailed : Z;
  plInfra : list error;
  plReturned : list (testTask * option error) (** what [runTest] returned, so far *)
}.

#[export] Instance eta_pool : Eta pool := λ p,
  Pool (plServer p) (plTodo p) (plBusy p) (plResults p) (plFailed p) (plInfra p) (plReturned p).

Inductive event :=
  | ETake                                (** a worker receives the next task *)
  | EAbandon                             (** the feeder sees that the context is done *)
  | EReturn (i : nat) (err : option error) (** [runTest] of worker [i] returns *)
  | ESend (i : nat)                      (** worker [i] sends its result *)
  | ECount.                              (** the loop receives a result *)

Section pool.
Context (f : flags).

Definition startPool (s : Server) (tasks : list testTask) : pool := Pool s tasks [] [] 0 [] [].

Definition workers (tasks : list testTask) : Z := Z.min (jobs f) (Z.of_nat (length tasks)).

(** The primary failure is an exit error that is the first to trigger. *)
Definition afterRun (s : Server) (err : option error) : bool * Server :=
  match err with
  | Some e => if failFast f && isExitError e then triggerFailFast s else (false, s)
  | None => (false, s)
  end.

(** The body of the counting loop. *)
Definition count (p : pool) (r : option error * bool) : pool :=
  match r.1 with
  | None => p
  | Some e =>
      if failFast f && failFastTriggered (plServer p) && negb r.2 then p
      else if isExitError e then p <| plFailed ::= Z.succ |>
      else p <| plInfra ::= λ l, l ++ [e] |>
  end.

Definition isRunning (w : working) : bool := match w with Running _ => true | _ => false end.

(** The events that can happen, and what they do. *)
Definition step (n : Z) (p : pool) (ev : event) : option pool :=
  match ev with
  | ETake =>
      match plTodo p with
      | task :: rest =>
          if Z.of_nat (length (plBusy p)) <? n
          then Some (p <| plTodo := rest |> <| plBusy ::= λ l, l ++ [Running task] |>) else None
      | [] => None
      end
  | EAbandon =>
      if canceled (plServer p) && negb (bool_decide (plTodo p = [])) then Some (p <| plTodo := [] |>) else None
  | EReturn i err =>
      match plBusy p !! i with
      | Some (Running task) =>
          let '(primary, s) := afterRun (plServer p) err in
          Some (p <| plServer := s |> <| plBusy ::= <[i := Sending task err primary]> |>
                  <| plReturned ::= λ l, l ++ [(task, err)] |>)
      | _ => None
      end
  | ESend i =>
      match plBusy p !! i with
      | Some (Sending _ err primary) =>
          Some (p <| plBusy ::= delete i |> <| plResults ::= λ l, l ++ [(err, primary)] |>)
      | _ => None
      end
  | ECount =>
      match plResults p with
      | r :: rest => Some (count (p <| plResults := rest |>) r)
      | [] => None
      end
  end.

(** The channel of results is closed and drained. *)
Definition finished (p : pool) : Prop :=
  plBusy p = [] ∧ plResults p = [] ∧ (plTodo p = [] ∨ canceled (plServer p) = true).

Definition poolResult (p : pool) : option error :=
  match Join_errors (plInfra p) with
  | Some e => Some (EWrap "running tests: " e)
  | None => if 0 <? plFailed p then Some (EMsg (itoa (plFailed p) +:+ " test(s) failed")) else None
  end.

Inductive reached (s : Server) (tasks : list testTask) : pool → Prop :=
  | reached_start : reached s tasks (startPool s tasks)
  | reached_step p ev p' : reached s tasks p → step (workers tasks) p ev = Some p' → reached s tasks p'.

(** ** Invariant *)

(** The task a worker has. *)
Definition taskOf (w : working) : testTask := match w with Running t | Sending t _ _ => t end.

(** The results that have not been counted yet. *)
Definition uncounted (p : pool) : list (option error * bool) :=
  plResults p ++ omap (λ w, match w with Sending _ err primary => Some (err, primary) | Running _ => None end) (plBusy p).

Record pool_ok (s : Server) (tasks : list testTask) (p : pool) : Prop := {
  (** tasks are taken in order, each once *)
  pk_order : canceled (plServer p) = false →
    (plReturned p).*1 ++ omap (λ w, match w with Running t => Some t | _ => None end) (plBusy p) ++ plTodo p ≡ₚ tasks;
  pk_jobs : Z.of_nat (length (plBusy p)) ≤ workers tasks;
  (** the context is canceled by fail-fast only *)
  pk_cancel : canceled (plServer p) = failFastTriggered (plServer p);
  pk_failfast : failFastTriggered (plServer p) = true → failFast f = true;
  (** a triggered run has a failure, counted or to be counted as primary *)
  pk_primary : failFastTriggered (plServer p) = true →
    0 < plFailed p ∨ ∃ e, (Some e, true) ∈ uncounted p ∧ isExitError e = true;
  pk_failed : 0 ≤ plFailed p;
  (** while it is not, every error was counted or will be *)
  pk_counted : failFastTriggered (plServer p) = false →
    ∀ t e, (t, Some e) ∈ plReturned p → 0 < plFailed p ∨ plInfra p ≠ [] ∨ ∃ b, (Some e, b) ∈ uncounted p
}.

Lemma count_fields p r :
  plServer (count p r) = plServer p ∧ plTodo (count p r) = plTodo p ∧ plBusy (count p r) = plBusy p ∧
  plResults (count p r) = plResults p ∧ plReturned (count p r) = plReturned p ∧
  plFailed p ≤ plFailed (count p r) ∧ (plInfra p ≠ [] → plInfra (count p r) ≠ []).
Proof using Type.
  unfold count. destruct r.1; [|by split_and!].
  destruct (_ && _); [by split_and!|]. destruct (isExitError e); simpl; split_and!; try done; [lia|by destruct (plInfra p)].
Qed.

(** A counted error is a failure or an infrastructure error, unless it is one
    that fail-fast skips. *)
Lemma count_error p e b :
  failFast f && failFastTriggered (plServer p) && negb b = false → 0 ≤ plFailed p →
  (isExitError e = true → 0 < plFailed (count p (Some e, b))) ∧
  (0 < plFailed (count p (Some e, b)) ∨ plInfra (count p (Some e, b)) ≠ []).
Proof using Type.
  intros Hskip Hn. unfold count. simpl. rewrite Hskip. destruct (isExitError e); simpl.
  - split; [lia|left; lia].
  - split; [done|right; by destruct (plInfra p)].
Qed.

Lemma omap_delete {A B} (g : A → option B) l i y :
  l !! i = Some y → omap g l ≡ₚ match g y with Some b => b :: omap g (delete i l) | None => omap g (delete i l) end.
Proof using Type.
  revert i. induction l as [|a l IH]; intros [|i] Hy; simpl in *; try done.
  - injection Hy as ->. by destruct (g y).
  - specialize (IH i Hy). destruct (g a) as [b|]; [|exact IH]. rewrite IH. destruct (g y); [by constructor|done].
Qed.

Lemma delete_insert_list {A} (l : list A) i x : delete i (<[i := x]> l) = delete i l.
Proof using Type. revert i. induction l as [|a l IH]; intros [|i]; simpl; [done..|]. by rewrite IH. Qed.

Lemma omap_insert {A B} (g : A → option B) l i x y :
  l !! i = Some y → omap g (<[i := x]> l) ≡ₚ match g x with Some b => b :: omap g (delete i l) | None => omap g (delete i l) end.
Proof using Type.
  intros Hy. rewrite (omap_delete g (<[i := x]> l) i x).
  - by rewrite delete_insert_list.
  - apply list_lookup_insert_eq. by eapply lookup_lt_Some.
Qed.

Lemma start_ok s tasks :
  canceled s = false → failFastTriggered s = false → 1 ≤ jobs f → pool_ok s tasks (startPool s tasks).
Proof using Type.
  intros Hc Ht Hj. split; simpl; try done; [unfold workers; lia|congruence|congruence|congruence|].
  intros _ t e Hin. by apply not_elem_of_nil in Hin.
Qed.

(** The results that busy workers are about to send, and the tests they run. *)
Definition sendingOf (w : working) : option (option error * bool) :=
  match w with Sending _ err primary => Some (err, primary) | Running _ => None end.
Definition runningOf (w : working) : option testTask :=
  match w with Running t => Some t | Sending _ _ _ => None end.

Lemma take_ok s tasks p task rest :
  pool_ok s tasks p → plTodo p = task :: rest → Z.of_nat (length (plBusy p)) < workers tasks →
  pool_ok s tasks (p <| plTodo := rest |> <| plBusy ::= λ l, l ++ [Running task] |>).
Proof using Type.
  intros [H1 H2 H3 H4 H5 H6 H7] Ht Hn.
  assert (Hun : uncounted (p <| plTodo := rest |> <| plBusy ::= λ l, l ++ [Running task] |>) = uncounted p).
  { unfold uncounted. simpl. rewrite omap_app. simpl. by rewrite app_nil_r. }
  split; rewrite ?Hun; simpl; try done.
  - intros Hc. rewrite <- (H1 Hc), Ht, omap_app. simpl. by rewrite <- app_assoc.
  - rewrite length_app. simpl. lia.
Qed.

Lemma return_ok s tasks p i task err primary s' :
  pool_ok s tasks p → plBusy p !! i = Some (Running task) → afterRun (plServer p) err = (primary, s') →
  pool_ok s tasks (p <| plServer := s' |> <| plBusy ::= <[i := Sending task err primary]> |>
                     <| plReturned ::= λ l, l ++ [(task, err)] |>).
Proof using Type.
  intros [H1 H2 H3 H4 H5 H6 H7] Hi Ha. set (p' := _ <| plReturned ::= _ |>).
  assert (Hun : uncounted p' ≡ₚ (err, primary) :: uncounted p).
  { unfold uncounted, p'. simpl. rewrite (omap_insert sendingOf _ _ _ _ Hi), (omap_delete sendingOf _ _ _ Hi). simpl.
    by rewrite Permutation_middle. }
  assert (Hs : (s' = plServer p ∧ primary = false) ∨
    (∃ e, err = Some e ∧ isExitError e = true ∧ primary = true ∧ failFast f = true ∧
      failFastTriggered (plServer p) = false ∧ failFastTriggered s' = true ∧ canceled s' = true)).
  { revert Ha. unfold afterRun. destruct err as [e|]; [|intros [= <- <-]; by left].
    destruct (failFast f && isExitError e) eqn:Hff; [|intros [= <- <-]; by left]. apply andb_prop in Hff as [Hff Hex].
    unfold triggerFailFast. destruct (failFastTriggered (plServer p)) eqn:Ht; [intros [= <- <-]; by left|].
    intros [= <- <-]. right. by exists e. }
  split.
  - simpl. intros Hc. assert (Hc0 : canceled (plServer p) = false).
    { destruct Hs as [[-> _]|(e & _ & _ & _ & _ & _ & _ & Hc')]; [done|congruence]. }
    rewrite <- (H1 Hc0). fold runningOf. rewrite fmap_app. simpl.
    rewrite (omap_insert runningOf _ _ _ _ Hi), (omap_delete runningOf _ _ _ Hi). simpl.
    rewrite <- app_assoc. simpl. done.
  - simpl. by rewrite length_insert.
  - simpl. destruct Hs as [[-> _]|(e & _ & _ & _ & _ & _ & -> & ->)]; done.
  - simpl. destruct Hs as [[-> _]|(e & _ & _ & _ & ? & _)]; done.
  - setoid_rewrite Hun. change (plServer p') with s'. change (plFailed p') with (plFailed p).
    destruct Hs as [[-> ->]|(e & -> & Hex & -> & _)].
    + intros Ht. destruct (H5 Ht) as [?|(e & He & Hex)]; [by left|right]. exists e. split; [by right|done].
    + intros _. right. exists e. split; [left|done].
  - done.
  - setoid_rewrite Hun. change (plServer p') with s'. intros Ht t e. simpl. rewrite elem_of_snoc.
    destruct Hs as [[-> ->]|(e' & _ & _ & _ & _ & _ & Ht' & _)]; [|congruence].
    intros [Hin|[= -> <-]].
    + destruct (H7 Ht t e Hin) as [?|[?|(b & Hb)]]; [by left|right; by left|right; right]. exists b. by right.
    + right. right. exists false. left.
Qed.

Lemma send_ok s tasks p i task err primary :
  pool_ok s tasks p → plBusy p !! i = Some (Sending task err primary) →
  pool_ok s tasks (p <| plBusy ::= delete i |> <| plResults ::= λ l, l ++ [(err, primary)] |>).
Proof using Type.
  intros [H1 H2 H3 H4 H5 H6 H7] Hi. set (p' := _ <| plResults ::= _ |>).
  assert (Hun : uncounted p' ≡ₚ uncounted p).
  { unfold uncounted, p'. simpl. rewrite (omap_delete sendingOf _ _ _ Hi). simpl. by rewrite <- app_assoc. }
  split; try done.
  - intros Hc. rewrite <- (H1 Hc). simpl. fold runningOf. by rewrite (omap_delete runningOf _ _ _ Hi).
  - simpl. rewrite length_delete by (by eexists). lia.
  - setoid_rewrite Hun. exact H5.
  - setoid_rewrite Hun. exact H7.
Qed.

Lemma count_ok s tasks p r rest :
  pool_ok s tasks p → plResults p = r :: rest → pool_ok s tasks (count (p <| plResults := rest |>) r).
Proof using Type.
  intros [H1 H2 H3 H4 H5 H6 H7] Hr. set (p0 := p <| plResults := rest |>).
  destruct (count_fields p0 r) as (Es & Et & Eb & Er & Ert & Ef & Ei).
  change (plServer p0) with (plServer p) in *. change (plTodo p0) with (plTodo p) in *.
  change (plBusy p0) with (plBusy p) in *. change (plReturned p0) with (plReturned p) in *.
  change (plFailed p0) with (plFailed p) in *. change (plInfra p0) with (plInfra p) in *.
  assert (Hun : uncounted p = r :: uncounted (count p0 r)).
  { unfold uncounted. rewrite Eb, Er, Hr. done. }
  split; rewrite ?Es, ?Et, ?Eb, ?Ert; try done; [|lia|].
  - intros Ht. destruct (H5 Ht) as [?|(e & He & Hex)]; [left; lia|]. rewrite Hun in He.
    apply elem_of_cons in He as [<-|He]; [left|right; by exists e].
    apply (count_error p0 e true); [by rewrite andb_false_r|done|done].
  - intros Ht t e Hin. destruct (H7 Ht t e Hin) as [?|[?|(b & Hb)]]; [left; lia|right; left; auto|].
    rewrite Hun in Hb. apply elem_of_cons in Hb as [<-|Hb]; [|right; right; by exists b].
    destruct (count_error p0 e b) as [_ [?|?]]; [|done|by left|right; by left].
    change (plServer p0) with (plServer p). by rewrite Ht, andb_false_r.
Qed.

Lemma step_ok s tasks p ev p' :
  pool_ok s tasks p → step (workers tasks) p ev = Some p' → pool_ok s tasks p'.
Proof using Type.
  intros Hok. destruct ev as [| |i err|i|]; cbn [step].
  - destruct (plTodo p) as [|task rest] eqn:Ht; [done|]. destruct (Z.ltb_spec (Z.of_nat (length (plBusy p))) (workers tasks)); [|done].
    intros [= <-]. by apply take_ok.
  - destruct (canceled (plServer p)) eqn:Hc; simpl; [|done]. destruct (bool_decide _); [done|]. intros [= <-].
    destruct Hok as [H1 H2 H3 H4 H5 H6 H7]. split; try done. simpl. congruence.
  - destruct (plBusy p !! i) as [[task|]|] eqn:Hi; [|done..].
    destruct (afterRun (plServer p) err) as [primary s'] eqn:Ha. intros [= <-]. by apply return_ok.
  - destruct (plBusy p !! i) as [[|task err primary]|] eqn:Hi; [done| |done]. intros [= <-]. by eapply send_ok.
  - destruct (plResults p) as [|r rest] eqn:Hr; [done|]. intros [= <-]. by apply count_ok.
Qed.

Lemma reached_ok s tasks p :
  canceled s = false → failFastTriggered s = false → 1 ≤ jobs f → reached s tasks p → pool_ok s tasks p.
Proof using Type. intros Hc Ht Hj. induction 1; [by apply start_ok|by eapply step_ok]. Qed.

(** A finished pool without an error ran every task. *)
Lemma pool_success s tasks p :
  canceled s = false → failFastTriggered s = false → 1 ≤ jobs f → reached s tasks p → finished p → poolResult p = None →
  (plReturned p).*1 ≡ₚ tasks ∧ ∀ t err, (t, err) ∈ plReturned p → err = None.
Proof using Type.
  intros Hc Ht Hj Hr (Hb & Hres & Htodo) Hnil. destruct (reached_ok s tasks p Hc Ht Hj Hr) as [H1 H2 H3 H4 H5 H6 H7].
  unfold poolResult in Hnil. destruct (Join_errors (plInfra p)) eqn:Hinf; [done|]. apply Join_errors_None in Hinf.
  destruct (Z.ltb_spec 0 (plFailed p)) as [|Hf]; [done|].
  assert (Hun : uncounted p = []) by (unfold uncounted; by rewrite Hb, Hres).
  assert (Htr : failFastTriggered (plServer p) = false).
  { destruct (failFastTriggered (plServer p)); [|done]. destruct (H5 eq_refl) as [?|(e & He & _)]; [lia|].
    rewrite Hun in He. by apply not_elem_of_nil in He. }
  split.
  - rewrite <- (H1 ltac:(congruence)), Hb. destruct Htodo as [->|?]; [|congruence]. simpl. by rewrite app_nil_r.
  - intros t [e|] Hin; [|done]. exfalso. destruct (H7 Htr t e Hin) as [?|[?|(b & Hbb)]]; [lia|done|].
    rewrite Hun in Hbb. by apply not_elem_of_nil in Hbb.
Qed.

(** a local run that reports success has run every test, and every one of
    them returned no error: under every interleaving of the feeder, the workers
    and the counting loop, with or without fail-fast, a finished pool whose
    result is no error got one result from [runTest] for each of its tasks, and
    none of them is an error.  At no time do more than [-j] tests run. *)
Theorem pool_success_complete s tasks p :
  canceled s = false → failFastTriggered s = false → 1 ≤ jobs f → reached s tasks p →
  Z.of_nat (length (plBusy p)) ≤ jobs f ∧
  (finished p → poolResult p = None →
   (plReturned p).*1 ≡ₚ tasks ∧ ∀ t err, (t, err) ∈ plReturned p → err = None).
Proof using Type.
  intros Hc Ht Hj Hr. destruct (reached_ok s tasks p Hc Ht Hj Hr) as [_ H2 _ _ _ _ _].
  split; [unfold workers in H2; lia|]. intros Hfin Hnil. by apply (pool_success s tasks p).
Qed.

(** What is left to do: every event does some of it. *)
Definition workLeft (p : pool) : nat :=
  4 * length (plTodo p) + sum_list_with (λ w, if isRunning w then 3 else 2)%nat (plBusy p) + length (plResults p).

Lemma sum_delete (g : working → nat) l i y :
  l !! i = Some y → (sum_list_with g (delete i l) + g y = sum_list_with g l)%nat.
Proof using Type. revert i. induction l as [|a l IH]; intros [|i] Hy; simpl in *; try done; [simplify_eq; lia|]. specialize (IH i Hy). lia. Qed.

Lemma sum_snoc (g : working → nat) l x : sum_list_with g (l ++ [x]) = (sum_list_with g l + g x)%nat.
Proof using Type. induction l; simpl; lia. Qed.

End pool.

(** ** An example *)

Fixpoint runEvents (f : flags) (n : Z) (p : pool) (evs : list event) : option pool :=
  match evs with
  | [] => Some p
  | ev :: evs => p ← step f n p ev; runEvents f n p evs
  end.

Lemma runEvents_reached f s tasks evs p p' :
  reached f s tasks p → runEvents f (workers f tasks) p evs = Some p' → reached f s tasks p'.
Proof.
  revert p. induction evs as [|ev evs IH]; intros p Hr; simpl; [by intros [= <-]|].
  destruct (step f (workers f tasks) p ev) as [p1|] eqn:Hs; [|done]. simpl. apply IH. by eapply reached_step.
Qed.

Definition failFastFlags : flags := exampleFlags <| failFast := true |>.

Definition examplePool : pool :=
  default (startPool exampleServer [])
    (runEvents failFastFlags 1 (startPool exampleServer [exampleTask "TestA"]) [ETake; EReturn 0 None; ESend 0; ECount]).

Lemma examplePool_reached : reached failFastFlags exampleServer [exampleTask "TestA"] examplePool.
Proof.
  apply (runEvents_reached _ _ _ [ETake; EReturn 0 None; ESend 0; ECount] (startPool exampleServer [exampleTask "TestA"]));
    [constructor|vm_compute; reflexivity].
Qed.

Lemma pool_success_complete_witness : (plReturned examplePool).*1 ≡ₚ [exampleTask "TestA"].
Proof.
  refine (proj1 (proj2 (pool_success_complete failFastFlags exampleServer [exampleTask "TestA"] examplePool
    eq_refl eq_refl _ examplePool_reached) _ eq_refl)); [discriminate|].
  split; [reflexivity|split; [reflexivity|left; reflexivity]].
Defined.

