(* ===== verification/DebugCache.v ===== *)
(** * -debug-uncached (gotst.go, [runDebugUncached])

    The first pass runs every test to seed the result cache; the second checks,
    without running anything, that every seeded result would be reused, and
    reports those that would not. *)

From S2P Require Import Prelude GoStrings Flags Path Profile Utf8 GoFmt Args Sha256 Quote CappedBuffer HistoryTypes TestCache TestCacheFacts ResultCache Server History Runner RunnerFacts.

(** A test and a package with its tests before the second pass. *)
Definition resetTest (now : Time) (ts : testStatus) : testStatus :=
  zeroTestStatus <| attrs := attrs ts |> <| tsChanged := now |>.

Definition resetPackage (now : Time) (ps : packageStatus) : packageStatus :=
  if bool_decide (exeHash ps = "") then ps
  else
    ps <| psState := pkgStateBuilt |> <| numFails := 0 |> <| runErr := "" |> <| runIn := 0 |> <| psChanged := now |>
       <| psTests := (λ m : gmap string testStatus, resetTest now <$> m) <$> psTests ps |>.

Definition resetForVerify (s : Server) (now : Time) : Server :=
  s <| debugPass := 2 |> <| cacheChecks := 0 |> <| cacheHits := 0 |> <| pkgs := resetPackage now <$> pkgs s |>.

Section debug.
Context `{GoRuntime} (f : flags) {C E : Type} `{!ResultCache C E}.

(** [reportDebugCacheMiss], with the lines it logs. *)
Definition reportDebugCacheMiss (s : Server) (task : testTask) (key : testCacheKey) (reason : string)
    (details : list string) : Server * list string :=
  let seedError := default "" (debugSeedErrors s !! id key) in
  let reason := if bool_decide (seedError = "") then reason else reason +:+ "; seed pass: " +:+ seedError in
  (s <| debugMisses ::= Z.succ |>,
   ("debug-uncached: MISS " +:+ pkg (bin task) +:+ "/" +:+ test task +:+ ": " +:+ reason) ::
   ((λ d, "debug-uncached:   " +:+ d) <$> details)).

Definition depErrorText (e : depError) : string :=
  match e with
  | DepFingerprint e => ioText e
  | DepOperation op => "unknown cached dependency operation " +:+ Quote op
  end.

(** Why the second pass does not find a result to reuse: the reason and its
    details, or the entry. *)
Definition verifyOutcome (s : Server) (c : C) (env : E) (w : world) (key : testCacheKey)
    : (string * list string) + testCacheEntry :=
  if negb (bool_decide (default "" (debugSeedErrors s !! id key) = "")) then
    inl ("seed pass did not create a clean result", [])
  else
    match cacheGet c env (canceled s) key with
    | Miss => inl ("cache entry missing after seed pass", [])
    | GetError e => inl ("reading seeded cache entry: " +:+ Error e, [])
    | Hit entry =>
        match changedDependencies w (Dependencies entry) with
        | inl e => inl ("validating cached dependencies: " +:+ depErrorText e, [])
        | inr [] => inr entry
        | inr changes => inl ("recorded inputs changed", changes)
        end
    end.

(** [verifyDebugCacheTask], with the lines it logs; [None] is a nil dereference. *)
Definition verifyDebugCacheTask (s : Server) (c : C) (env : E) (w : world) (task : testTask) (now : Time)
    : option (Server * list string) :=
  let key := cacheKeyForTask f s task in
  let s := s <| cacheChecks ::= Z.succ |> in
  match verifyOutcome s c env w key with
  | inl (reason, details) =>
      let '(s, log) := reportDebugCacheMiss s task key reason details in
      s ← finishTest s task true 0 [] None false now;
      Some (s, log)
  | inr entry =>
      let s := s <| cacheHits ::= Z.succ |> in
      s ← finishTest s task true (PassedIn entry) [] None true now;
      Some (s, [])
  end.

(** [verifyDebugCache]: the tasks, in the order in which the workers finish
    them, each with what the system answers it. *)
Fixpoint verifyDebugCache (s : Server) (c : C) (tasks : list (testTask * E * world)) (now : Time)
    : option (Server * list string) :=
  match tasks with
  | [] => Some (s, [])
  | (task, env, w) :: tasks =>
      '(s, log) ← verifyDebugCacheTask s c env w task now;
      '(s, log') ← verifyDebugCache s c tasks now;
      Some (s, log ++ log')
  end.

(** How [runDebugUncached] ends after the second pass. *)
Definition debugResult (s : Server) : option error :=
  if debugMisses s =? 0 then None
  else Some (EMsg ("debug-uncached: " +:+ itoa (debugMisses s) +:+ "/" +:+ itoa (cacheChecks s) +:+
    " tests did not reuse the result cache (" +:+ itoa (cacheHits s) +:+ " hits)")).

(** [runDebugUncached] after the first pass, which ended with [seedErr]. *)
Definition secondPass (s : Server) (c : C) (seedErr : option error) (tasks : list (testTask * E * world)) (now : Time)
    : option (option error * Server * list string) :=
  match seedErr with
  | Some e => Some (Some (EWrap "debug-uncached seed pass: " e), s, [])
  | None =>
      '(s, log) ← verifyDebugCache (resetForVerify s now) c tasks now;
      Some (debugResult s, s, log)
  end.

(** ** What the second pass establishes *)

(** A result would be reused: no seed error, an entry, and inputs unchanged. *)
Definition reusable (s : Server) (c : C) (env : E) (w : world) (task : testTask) : Prop :=
  ∃ entry, verifyOutcome s c env w (cacheKeyForTask f s task) = inr entry.

Lemma verifyOutcome_inr s c env w key entry :
  verifyOutcome s c env w key = inr entry ↔
  default "" (debugSeedErrors s !! id key) = "" ∧ cacheGet c env (canceled s) key = Hit entry ∧
  validateDependencies w (Dependencies entry) = inr true.
Proof using Type.
  unfold verifyOutcome, validateDependencies. case_bool_decide as Hs; simpl; [|naive_solver].
  destruct (cacheGet c env (canceled s) key) as [e| |]; [|naive_solver..].
  destruct (changedDependencies w (Dependencies e)) as [|[|ch chs]] eqn:Hc.
  - split; [done|]. intros (_ & [= ->] & Hv). by rewrite Hc in Hv.
  - split; [|naive_solver]. intros [= <-]. by rewrite Hc.
  - split; [done|]. intros (_ & [= ->] & Hv). by rewrite Hc in Hv.
Qed.

(** What a verification leaves alone, except for the counters. *)
Record vframe (s s' : Server) : Prop := {
  vf_key : sProfile s' = sProfile s;
  vf_seed : debugSeedErrors s' = debugSeedErrors s;
  vf_canceled : canceled s' = canceled s;
  vf_ok : server_ok s → server_ok s'
}.

Lemma verifyOutcome_frame s s' c env w task :
  vframe s s' → verifyOutcome s' c env w (cacheKeyForTask f s' task) = verifyOutcome s c env w (cacheKeyForTask f s task).
Proof using Type. intros [H1 H2 H3 _]. unfold verifyOutcome, cacheKeyForTask. by rewrite H1, H2, H3. Qed.

Lemma finish_fields s task pass d fl err fromCache now s' :
  finishTestLocked s task pass d fl err fromCache now = Some s' → ∃ ps, s' = putPkg s (pkg (bin task)) ps.
Proof using Type.
  unfold finishTestLocked. destruct (testAt s task) as [[ps ts]|]; [|done]. cbn [mbind option_bind].
  intros [= <-]. by eexists.
Qed.

(** One verification: it counts one check, and one hit or one miss. *)
Lemma verifyTask_spec s c env w task now ps ts :
  server_ok s → testAt s task = Some (ps, ts) → done ts = false →
  ∃ s' log, verifyDebugCacheTask s c env w task now = Some (s', log) ∧ vframe s s' ∧
    cacheChecks s' = cacheChecks s + 1 ∧ (∀ t, known s t → known s' t) ∧
    (∀ t ps ts, t ≠ task → taskKey t ≠ taskKey task → testAt s t = Some (ps, ts) → ∃ ps' , testAt s' t = Some (ps', ts)) ∧
    (reusable s c env w task ∧ cacheHits s' = cacheHits s + 1 ∧ debugMisses s' = debugMisses s ∨
     ¬ reusable s c env w task ∧ cacheHits s' = cacheHits s ∧ debugMisses s' = debugMisses s + 1).
Proof using Type.
  intros Hok Hat Hd. unfold verifyDebugCacheTask, reusable.
  set (s0 := s <| cacheChecks ::= Z.succ |>).
  assert (Hout : verifyOutcome s0 c env w (cacheKeyForTask f s task) = verifyOutcome s c env w (cacheKeyForTask f s task)) by done.
  rewrite Hout. destruct (verifyOutcome s c env w (cacheKeyForTask f s task)) as [[reason details]|entry].
  - unfold reportDebugCacheMiss.
    destruct (finishTestLocked_spec (s0 <| debugMisses ::= Z.succ |>) task true 0 [] None false now ps ts)
      as (s1 & ps1 & ts1 & -> & -> & Hok1 & Htests & _); [done..|]. cbn [mbind option_bind].
    eexists _, _. split; [done|]. split; [by split|]. split; [done|].
    split_and!.
    + intros t Ht. eapply (known_put (s0 <| debugMisses ::= Z.succ |>)); [exact Htests|right; by exists ts|done].
    + intros t ps' ts' _ Hk Hat'. erewrite testAt_put; [|exact Htests|by apply testAt_Some in Hat as [? _]].
      case_decide as Hp; [|by eexists]. case_decide as Ht; [unfold taskKey in Hk; congruence|].
      change (testAt (s0 <| debugMisses ::= Z.succ |>) t) with (testAt s t). rewrite Hat'. by eexists.
    + right. split_and!; [by intros [? ?]|done|done].
  - destruct (finishTestLocked_spec (s0 <| cacheHits ::= Z.succ |>) task true (PassedIn entry) [] None true now ps ts)
      as (s1 & ps1 & ts1 & -> & -> & Hok1 & Htests & _); [done..|]. cbn [mbind option_bind].
    eexists _, _. split; [done|]. split; [by split|]. split; [done|].
    split_and!.
    + intros t Ht. eapply (known_put (s0 <| cacheHits ::= Z.succ |>)); [exact Htests|right; by exists ts|done].
    + intros t ps' ts' _ Hk Hat'. erewrite testAt_put; [|exact Htests|by apply testAt_Some in Hat as [? _]].
      case_decide as Hp; [|by eexists]. case_decide as Ht; [unfold taskKey in Hk; congruence|].
      change (testAt (s0 <| cacheHits ::= Z.succ |>) t) with (testAt s t). rewrite Hat'. by eexists.
    + left. split_and!; [by eexists|done|done].
Qed.

(** Whether a result would be reused is the same before and after other
    verifications. *)
Lemma reusable_frame s s' c env w task : vframe s s' → reusable s' c env w task ↔ reusable s c env w task.
Proof using Type. intros Hf. unfold reusable. by rewrite (verifyOutcome_frame s s'). Qed.

Lemma verifyDebugCache_spec tasks c now : ∀ s,
  server_ok s → NoDup (taskKey <$> tasks.*1.*1) →
  (∀ t, t ∈ tasks.*1.*1 → ∃ ps ts, testAt s t = Some (ps, ts) ∧ done ts = false) →
  ∃ s' log, verifyDebugCache s c tasks now = Some (s', log) ∧ server_ok s' ∧
    cacheChecks s' = cacheChecks s + Z.of_nat (length tasks) ∧
    cacheHits s' + debugMisses s' = cacheHits s + debugMisses s + Z.of_nat (length tasks) ∧
    debugMisses s ≤ debugMisses s' ∧
    (debugMisses s' = debugMisses s ↔ ∀ task env w, (task, env, w) ∈ tasks → reusable s c env w task).
Proof using Type.
  induction tasks as [|[[task env] w] tasks IH]; intros s Hok Hnd Hat; simpl.
  { exists s, []. split_and!; try done; try lia. split; [|done]. by intros _ ? ? ? ?%not_elem_of_nil. }
  rewrite !fmap_cons in Hnd. simpl in Hnd. apply NoDup_cons in Hnd as [Htask Hnd].
  destruct (Hat task) as (ps & ts & Ht & Hd); [left|].
  destruct (verifyTask_spec s c env w task now ps ts Hok Ht Hd) as (s1 & log & -> & Hf & Hch & _ & Hother & Hcase).
  cbn [mbind option_bind].
  destruct (IH s1) as (s' & log' & -> & Hok' & Hch' & Hsum & Hmono & Hiff); [by apply Hf|done| |].
  { intros t Hin. destruct (Hat t) as (pt & tt & Htt & Hdt); [by right|].
    assert (Hne : taskKey t ≠ taskKey task) by (intros Heq; apply Htask; rewrite <- Heq; by apply list_elem_of_fmap_2).
    destruct (Hother t pt tt) as (pt' & Hpt'); [congruence|done|done|]. by exists pt', tt. }
  cbn [mbind option_bind]. eexists s', _. split; [done|].
  split_and!; [done|lia| |destruct Hcase as [(_ & _ & ?)|(_ & _ & ?)]; lia|].
  - destruct Hcase as [(_ & ? & ?)|(_ & ? & ?)]; lia.
  - destruct Hcase as [(Hre & _ & Hm)|(Hre & _ & Hm)].
    + rewrite <- Hm, Hiff. split.
      * intros Hall t e v [[= -> -> ->]|Hin]%elem_of_cons; [done|]. apply (reusable_frame s s1 c e v t Hf). by apply Hall.
      * intros Hall t e v Hin. apply (reusable_frame s s1 c e v t Hf), Hall. by right.
    + split; [lia|]. intros Hall. exfalso. apply Hre, Hall. left.
Qed.

Lemma resetForVerify_ok s now : server_ok s → server_ok (resetForVerify s now).
Proof using Type.
  intros Hok name ps Hps. simpl in Hps. rewrite lookup_fmap in Hps.
  destruct (pkgs s !! name) as [ps0|] eqn:H0; [|done]. injection Hps as <-. unfold resetPackage.
  case_bool_decide; [by apply (Hok name)|]. apply package_ok_fresh; [|done|done].
  intros t ts Hts. unfold testsOf in Hts. simpl in Hts. destruct (psTests ps0) as [m|]; [|done].
  simpl in Hts. rewrite lookup_fmap in Hts. destruct (m !! t); [|done]. by injection Hts as <-.
Qed.

Lemma resetForVerify_fresh s now task ps ts :
  testAt s task = Some (ps, ts) → exeHash ps ≠ "" →
  ∃ ps' ts', testAt (resetForVerify s now) task = Some (ps', ts') ∧ done ts' = false.
Proof using Type.
  intros [Hps Hts]%testAt_Some Hh. unfold testsOf in Hts. destruct (psTests ps) as [m|] eqn:Hm; [|done].
  exists (resetPackage now ps), (resetTest now ts). split; [|done]. apply testAt_Some. simpl. rewrite lookup_fmap, Hps. split; [done|].
  unfold resetPackage. rewrite bool_decide_false by done. unfold testsOf. simpl psTests. rewrite Hm. cbn. rewrite lookup_fmap. cbn in Hts. by rewrite Hts.
Qed.

(** -debug-uncached is exact.  After a seed pass without error the second
    pass checks every test once, without running any, counts each as a hit or
    as a miss, and succeeds exactly when every test would be reused: it left no
    seed error, the cache returns an entry for its key, and the inputs recorded
    in that entry validate.  An error of the seed pass is returned as such. *)
Theorem secondPass_exact s c tasks now :
  server_ok s → debugMisses s = 0 → NoDup (taskKey <$> tasks.*1.*1) →
  (∀ t, t ∈ tasks.*1.*1 → ∃ ps ts, testAt s t = Some (ps, ts) ∧ exeHash ps ≠ "") →
  (∀ e, secondPass s c (Some e) tasks now = Some (Some (EWrap "debug-uncached seed pass: " e), s, [])) ∧
  ∃ err s' log, secondPass s c None tasks now = Some (err, s', log) ∧ server_ok s' ∧
    cacheChecks s' = Z.of_nat (length tasks) ∧ cacheHits s' + debugMisses s' = cacheChecks s' ∧
    (err = None ↔ ∀ task env w, (task, env, w) ∈ tasks →
       let key := cacheKeyForTask f s task in
       default "" (debugSeedErrors s !! id key) = "" ∧
       ∃ entry, cacheGet c env (canceled s) key = Hit entry ∧ validateDependencies w (Dependencies entry) = inr true).
Proof using Type.
  intros Hok Hm Hnd Hat. split; [done|]. unfold secondPass.
  destruct (verifyDebugCache_spec tasks c now (resetForVerify s now)) as (s' & log & -> & Hok' & Hch & Hsum & _ & Hiff).
  - by apply resetForVerify_ok.
  - done.
  - intros t Ht. destruct (Hat t Ht) as (ps & ts & Hts & Hh). by eapply resetForVerify_fresh.
  - cbn [mbind option_bind]. simpl in Hch, Hsum. change (debugMisses (resetForVerify s now)) with (debugMisses s) in *.
    eexists _, s', log. split; [done|]. split_and!; [done|lia|lia|]. rewrite Hm in Hiff. unfold debugResult.
    assert (He : (if debugMisses s' =? 0 then None else Some (EMsg ("debug-uncached: " +:+ itoa (debugMisses s') +:+ "/" +:+
      itoa (cacheChecks s') +:+ " tests did not reuse the result cache (" +:+ itoa (cacheHits s') +:+ " hits)"))) = None ↔ debugMisses s' = 0).
    { destruct (Z.eqb_spec (debugMisses s') 0); done. }
    rewrite He, Hiff. unfold reusable. setoid_rewrite verifyOutcome_inr. split.
    + intros Hall task env w Hin. destruct (Hall task env w Hin) as (entry & Hs & Hg & Hv). split; [done|]. by exists entry.
    + intros Hall task env w Hin. destruct (Hall task env w Hin) as (Hs & entry & Hg & Hv). by exists entry.
Qed.
End debug.

(** ** An example *)

#[local] Existing Instance testRuntime.

Lemma secondPass_exact_witness :
  ∃ err s' log, secondPass exampleFlags exampleServer (∅ : gmap string testCacheEntry) None
    [(exampleTask "TestA", tt, exampleWorld "/root" "hi")] 9 = Some (err, s', log) ∧ cacheChecks s' = 1.
Proof.
  assert (Hat : ∀ t, t ∈ [(exampleTask "TestA", tt, exampleWorld "/root" "hi")].*1.*1 →
    ∃ ps ts, testAt exampleServer t = Some (ps, ts) ∧ exeHash ps ≠ "").
  { intros t Ht. apply list_elem_of_singleton in Ht. rewrite Ht. exists examplePackage, exampleStatus.
    split; [exact exampleTask_at|discriminate]. }
  destruct (secondPass_exact exampleFlags exampleServer (∅ : gmap string testCacheEntry)
    [(exampleTask "TestA", tt, exampleWorld "/root" "hi")] 9 exampleServer_ok eq_refl (NoDup_singleton _) Hat)
    as (_ & err & s' & log & Hrun & _ & Hch & _).
  exact (ex_intro _ err (ex_intro _ s' (ex_intro _ log (conj Hrun Hch)))).
Defined.
