(* ===== verification/Fleet.v ===== *)
(** * The distributed fleet (distributed.go)

    The leader of a distributed run keeps one queue of tests.  It hands leases
    on queued tests to workers (itself and the helpers that joined), in batches,
    and commits the first result of a live lease of each test.

    Workers, queued tests and leases are pointers in Go.  Here a worker is its
    position in [f.workers], a test its position in [f.work] and a lease its id:
    [heap] holds every lease ever made, and [f.leases], [w.leases] and
    [t.leases] are the sets of ids of the three Go maps.  Every operation runs
    with [f.s.mu] held and takes the current time as an argument.  An operation
    returns [None] where the Go code would dereference a nil pointer. *)

From S2P Require Import Prelude GoStrings Flags Path Profile Utf8 Invocation GoFmt Args Sha256 Quote HistoryTypes TestCache Server.

Definition workerProtocolVersion : Z := 1.
Definition workerBatchLimit : Z := 10.
Definition workerBatchTarget : Duration := 3 * Second.
Definition workerHeartbeat : Duration := 500 * Millisecond.
Definition workerTimeout : Duration := 15 * Second.

(** ** Data *)

Record fleetWorker := FleetWorker {
  wID : string;
  wName : string;
  Slots : Z;
  Connected : bool;
  LastSeen : Time;
  Joined : Time;
  Left : Time; (** zero while connected *)
  Completed : Z;
  Cached : Z;
  Failed : Z;
  wDuration : Duration;
  wError : string;
  binaries : gset string;
  wLeases : gset Z
}.

#[export] Instance eta_fleetWorker : Eta fleetWorker := λ w,
  FleetWorker (wID w) (wName w) (Slots w) (Connected w) (LastSeen w) (Joined w) (Left w)
    (Completed w) (Cached w) (Failed w) (wDuration w) (wError w) (binaries w) (wLeases w).

Record fleetTask := FleetTask {
  fTask : testTask;
  estimate : Duration;
  fDone : bool;
  fLeases : gset Z
}.

#[export] Instance eta_fleetTask : Eta fleetTask := λ t,
  FleetTask (fTask t) (estimate t) (fDone t) (fLeases t).

(** The cancel function of a local execution: not set, set, or called. *)
Inductive cancelState := CancelNil | CancelArmed | CancelCalled.

Record workLease := WorkLease {
  lWork : nat;
  lWorker : nat;
  assigned : Time;
  lStarted : Time;
  lState : string; (** queued, building or running *)
  lCancel : cancelState
}.

#[export] Instance eta_workLease : Eta workLease := λ l,
  WorkLease (lWork l) (lWorker l) (assigned l) (lStarted l) (lState l) (lCancel l).

Record fleet := Fleet {
  workers : list fleetWorker;
  work : list fleetTask;
  heap : gmap Z workLease;
  leases : gset Z;
  nextID : Z;
  ready : bool;
  stopped : bool;
  fdone : Z;
  infra : list error;
  wake : bool (** the one-element channel holds a value *)
}.

#[export] Instance eta_fleet : Eta fleet := λ f,
  Fleet (workers f) (work f) (heap f) (leases f) (nextID f) (ready f) (stopped f) (fdone f)
    (infra f) (wake f).

Record workerWork := WorkerWork {
  wwLease : Z;
  wwPackage : string;
  wwTest : string;
  wwBinary : string;
  wwArgs : list string
}.

Record workerResponse := WorkerResponse {
  Work : list workerWork;
  Cancel : list Z;
  Done : bool;
  wrError : string
}.

#[export] Instance eta_workerResponse : Eta workerResponse := λ r,
  WorkerResponse (Work r) (Cancel r) (Done r) (wrError r).

Record workerResult := WorkerResult {
  rLease : Z;
  rPassed : bool;
  rCached : bool;
  rDuration : Duration;
  rAttempts : Z;
  rCacheChecks : Z;
  rFailures : list failInfo;
  rAttrs : gmap string string;
  rHistory : list Observation;
  rError : string;
  rInfra : bool
}.

#[export] Instance eta_workerResult : Eta workerResult := λ r,
  WorkerResult (rLease r) (rPassed r) (rCached r) (rDuration r) (rAttempts r) (rCacheChecks r)
    (rFailures r) (rAttrs r) (rHistory r) (rError r) (rInfra r).

Record workerRequest := WorkerRequest {
  Active : list (Z * string); (** the map's entries in the order of iteration *)
  Binaries : list string;
  Results : list workerResult
}.

(** The leader: its run and its fleet. *)
Record leader := Leader {
  srv : Server;
  flt : fleet
}.

#[export] Instance eta_leader : Eta leader := λ st, Leader (srv st) (flt st).

Definition newFleet : fleet := Fleet [] [] ∅ ∅ 0 false false 0 [] false.

Definition putWorker (st : leader) (i : nat) (w : fleetWorker) : leader :=
  st <| flt ::= λ f, f <| workers ::= <[i := w]> |> |>.
Definition putTask (st : leader) (i : nat) (t : fleetTask) : leader :=
  st <| flt ::= λ f, f <| work ::= <[i := t]> |> |>.
Definition putLease (st : leader) (id : Z) (l : workLease) : leader :=
  st <| flt ::= λ f, f <| heap ::= <[id := l]> |> |>.

(** ** Operations *)

Definition notify (st : leader) : leader := st <| flt ::= λ f, f <| wake := true |> |>.

(** The new worker's position, and the leader. *)
Definition addWorker (st : leader) (name : string) (slots : Z) (isLocal : bool) (now : Time)
    : nat * leader :=
  let n := length (workers (flt st)) in
  let id := if isLocal then "leader" else "h" +:+ itoa (Z.of_nat n + 1) in
  let w := FleetWorker id name slots true now now zeroTime 0 0 0 0 "" ∅ ∅ in
  (n, st <| flt ::= λ f, f <| workers ::= λ l, l ++ [w] |> |>).

(** The leases of a set, as the loops over a Go map visit them. *)
Definition leasesIn (f : fleet) (ids : gset Z) : list workLease :=
  omap (λ id, heap f !! id) (elements ids).

(** Whether an execution is running, and since when, over the leases of a test. *)
Definition runningSince (ls : list workLease) : bool * Time :=
  foldl (λ '(run, since) l,
    if bool_decide (lState l = "running") then
      (true, if IsZero since || Before (lStarted l) since then lStarted l else since)
    else (run, since)) (false, zeroTime) ls.

Definition updateRunningLocked (st : leader) (ti : nat) (now : Time) : option leader :=
  t ← work (flt st) !! ti;
  '(ps, ts) ← testAt (srv st) (fTask t);
  if done ts then Some st
  else
    let '(run, since) := runningSince (leasesIn (flt st) (fLeases t)) in
    let ts := ts <| running := run |> <| started := since |> <| tsChanged := now |> in
    let ps := (putTest ps (test (fTask t)) ts) <| psChanged := now |> in
    let ps := if run then ps <| psState := pkgStateTesting |> else ps in
    Some (st <| srv ::= λ s, putPkg s (pkg (bin (fTask t))) ps |>).

Definition removeLeaseLocked (st : leader) (id : Z) (now : Time) : option leader :=
  l ← heap (flt st) !! id;
  w ← workers (flt st) !! lWorker l;
  t ← work (flt st) !! lWork l;
  let st := st <| flt ::= λ f, f <| leases ::= λ ids, ids ∖ {[id]} |> |> in
  let st := putWorker st (lWorker l) (w <| wLeases ::= λ ids, ids ∖ {[id]} |>) in
  let st := putTask st (lWork l) (t <| fLeases ::= λ ids, ids ∖ {[id]} |>) in
  let st := match lCancel l with
            | CancelNil => st
            | _ => putLease st id (l <| lCancel := CancelCalled |>)
            end in
  updateRunningLocked st (lWork l) now.

(** [for _, l := range ids { f.removeLeaseLocked(l) }] *)
Definition removeLeases (st : leader) (ids : gset Z) (now : Time) : option leader :=
  foldl (λ acc id, acc ≫= λ st, removeLeaseLocked st id now) (Some st) (elements ids).

Definition disconnect (st : leader) (wi : nat) (err : option error) (now : Time) : option leader :=
  w ← workers (flt st) !! wi;
  let w := w <| Connected := false |> <| Left := now |> in
  let w := match err with Some e => w <| wError := Error e |> | None => w end in
  st ← removeLeases (putWorker st wi w) (wLeases w) now;
  Some (notify st).

(** ** Choosing work *)

(** A queued test nobody holds a lease on. *)
Definition fresh (t : fleetTask) : bool := negb (fDone t) && bool_decide (fLeases t = ∅).

(** The worker already has the test's binary. *)
Definition affine (w : fleetWorker) (t : fleetTask) : bool :=
  bool_decide (binHash (absBin (bin (fTask t))) ∈ binaries w).

(** The first loop of [nextLocked], from the queue position [i] on.  [first] is
    the first eligible test seen, with its estimate, and [window] the number of
    eligible tests passed over. *)
Fixpoint nextFresh (w : fleetWorker) (i : nat) (ts : list fleetTask)
    (first : option (nat * Duration)) (window : nat) : option nat :=
  match ts with
  | [] => fst <$> first
  | t :: ts =>
      if negb (fresh t) then nextFresh w (S i) ts first window
      else
        let '(fi, fe) := default (i, estimate t) first in
        if affine w t && (fe - divT fe 5 <=? estimate t) then Some i
        else if (S window =? 5)%nat then Some fi
        else nextFresh w (S i) ts (Some (fi, fe)) (S window)
  end.

(** The lease is another worker's, and overdue. *)
Definition overdue (wi : nat) (t : fleetTask) (now : Time) (l : workLease) : bool :=
  negb (lWorker l =? wi)%nat && (Z.max (10 * Second) (i64 (3 * estimate t)) <? Sub now (assigned l)).

(** The second loop: a test with one lease, another worker's, and overdue. *)
Fixpoint nextSpeculative (f : fleet) (wi : nat) (now : Time) (i : nat) (ts : list fleetTask)
    : option nat :=
  match ts with
  | [] => None
  | t :: ts =>
      if negb (fDone t) && (size (fLeases t) =? 1)%nat &&
         existsb (overdue wi t now) (leasesIn f (fLeases t))
      then Some i
      else nextSpeculative f wi now (S i) ts
  end.

Definition nextLocked (f : fleet) (wi : nat) (now : Time) : option nat :=
  w ← workers f !! wi;
  match nextFresh w 0 (work f) None 0 with
  | Some i => Some i
  | None => nextSpeculative f wi now 0 (work f)
  end.

Section assign.
Variable fl : flags.

Definition workFor (s : Server) (id : Z) (t : fleetTask) : workerWork := {|
  wwLease := id; wwPackage := pkg (bin (fTask t)); wwTest := test (fTask t);
  wwBinary := binHash (absBin (bin (fTask t)));
  wwArgs := effectiveTestArgs fl (fTask t) (sProfile s)
|}.

(** A new lease of worker [wi] on the test at [ti]. *)
Definition grant (st : leader) (wi ti : nat) (w : fleetWorker) (t : fleetTask) (now : Time) : leader :=
  let id := nextID (flt st) + 1 in
  let st := st <| flt ::= λ f, f <| nextID := id |> <| leases ::= λ ids, {[id]} ∪ ids |> |> in
  let st := putLease st id (WorkLease ti wi now zeroTime "queued" CancelNil) in
  let st := putWorker st wi (w <| wLeases ::= λ ids, {[id]} ∪ ids |>) in
  putTask st ti (t <| fLeases ::= λ ids, {[id]} ∪ ids |>).

(** The loop of [assignLocked], with room for [n] more tests in the batch. *)
Fixpoint assignLoop (n : nat) (st : leader) (wi : nat) (now : Time) (batch : list workerWork)
    (duration : Duration) : option (list workerWork * leader) :=
  match n with
  | O => Some (batch, st)
  | S n =>
      w ← workers (flt st) !! wi;
      if (Slots w <=? Z.of_nat (size (wLeases w))) && (i64 (workerBatchTarget * Slots w) <=? duration)
      then Some (batch, st)
      else
        match nextLocked (flt st) wi now with
        | None => Some (batch, st)
        | Some ti =>
            t ← work (flt st) !! ti;
            assignLoop n (grant st wi ti w t now) wi now
              (batch ++ [workFor (srv st) (nextID (flt st) + 1) t]) (i64 (duration + estimate t))
        end
  end.

Definition assignLocked (st : leader) (wi : nat) (limit : Z) (now : Time)
    : option (list workerWork * leader) :=
  let f := flt st in
  w ← workers f !! wi;
  if negb (ready f) || stopped f || canceled (srv st) || negb (bool_decide (wError w = ""))
  then Some ([], st)
  else
    let estimates := omap (λ l, estimate <$> work f !! lWork l) (leasesIn f (wLeases w)) in
    assignLoop (Z.to_nat limit) st wi now [] (foldl (λ a e, i64 (a + e)) 0 estimates).
End assign.

(** ** Committing results *)

Section commit.
Context `{GoRuntime}.
Variable fl : flags.

(** The part of [accept] for a test's authoritative result: the test is done,
    the worker's and the run's counters are updated, the test's status and
    history recorded and every lease on the test removed. *)
Definition commit (st : leader) (wi ti : nat) (w : fleetWorker) (t : fleetTask) (r : workerResult)
    (now : Time) : option leader :=
  let task := fTask t in
  let st := putTask st ti (t <| fDone := true |>) in
  let st := st <| flt ::= λ f, f <| fdone ::= Z.succ |> |> in
  let w := w <| Completed ::= Z.succ |> <| wDuration ::= λ d, i64 (d + rDuration r) |> in
  let w := if rCached r then w <| Cached ::= Z.succ |> else w in
  let w := if rPassed r then w else w <| Failed ::= Z.succ |> in
  let st := putWorker st wi w in
  let err := if bool_decide (rError r = "") then None else Some (EMsg (rError r)) in
  let st := if rInfra r then
      st <| flt ::= λ f, f <| infra ::= λ l,
        l ++ [EMsg (pkg (bin task) +:+ "." +:+ test task +:+ ": " +:+ rError r)] |> |>
    else st in
  '(ps, ts) ← testAt (srv st) task;
  let ts := ts <| attempts := rAttempts r |> <| attrs := rAttrs r |> in
  let s := putPkg (srv st) (pkg (bin task)) (putTest ps (test task) ts) in
  let s := s <| cacheChecks ::= Z.add (rCacheChecks r) |> in
  let s := if rCached r then s <| cacheHits ::= Z.succ |> else s in
  let s := s <| historyPending ::= λ l,
      l ++ ((λ obs, obs <| obsKey := historyKeyForTask fl task (sProfile s) |>) <$> rHistory r) |> in
  s ← finishTestLocked s task (rPassed r) (rDuration r) (rFailures r) err (rCached r) now;
  let st := st <| srv := s |> in
  t' ← work (flt st) !! ti;
  st ← removeLeases st (fLeases t') now;
  let st := if failFast fl && negb (rPassed r) then
      st <| srv ::= λ s, s <| failFastTriggered := true |> <| canceled := true |> |>
    else st in
  let output := from_option fiOut "" (last (rFailures r)) in
  Some (notify (st <| srv ::= λ s,
    printTestResult fl s task (rDuration r) (rCached r) (rPassed r) output |>)).

(** A helper that cannot execute tests gets no more work, and its leases are
    released for other machines. *)
Definition rejectHelper (st : leader) (wi : nat) (w : fleetWorker) (r : workerResult) (now : Time)
    : option leader :=
  let msg := if bool_decide (rError r = "") then "helper execution error" else rError r in
  st ← removeLeases (putWorker st wi (w <| wError := msg |>)) (wLeases w) now;
  Some (notify st).

Definition accept (st : leader) (wi : nat) (r : workerResult) (now : Time) : option leader :=
  w ← workers (flt st) !! wi;
  if bool_decide (rLease r ∉ wLeases w) then Some st
  else
    l ← heap (flt st) !! rLease r;
    t ← work (flt st) !! lWork l;
    if fDone t || stopped (flt st) || canceled (srv st) then Some st
    else if rInfra r && negb (bool_decide (wID w = "leader")) then rejectHelper st wi w r now
    else commit st wi (lWork l) w t r now.

(** ** The exchange with a worker *)

Definition validState (state : string) : bool :=
  bool_decide (state ∈ ["queued"; "building"; "running"]).

(** One entry of the request's map of active leases; the result is the list of
    leases to cancel so far. *)
Definition reportActive (now : Time) (wi : nat) (acc : list Z * leader) (e : Z * string)
    : option (list Z * leader) :=
  let '(cancel, st) := acc in
  let '(id, state) := e in
  w ← workers (flt st) !! wi;
  if bool_decide (id ∉ wLeases w) then Some (cancel ++ [id], st)
  else if negb (validState state) then Some (cancel, st)
  else
    l ← heap (flt st) !! id;
    t ← work (flt st) !! lWork l;
    let l := if bool_decide (state = "running") && IsZero (lStarted l) then l <| lStarted := now |> else l in
    st ← updateRunningLocked (putLease st id (l <| lState := state |>)) (lWork l) now;
    ps ← pkgs (srv st) !! pkg (bin (fTask t));
    Some (cancel, st <| srv ::= λ s, putPkg s (pkg (bin (fTask t)))
      (ps <| psState := pkgStateTesting |> <| psChanged := now |>) |>).

(** The run is over: no worker gets more work. *)
Definition allDone (f : fleet) : bool := fdone f =? Z.of_nat (length (work f)).
Definition runOver (st : leader) : bool :=
  stopped (flt st) || canceled (srv st) || (ready (flt st) && allDone (flt st)).

(** [exchange] after the results: one critical section. *)
Definition exchangeLocked (st : leader) (wi : nat) (req : workerRequest) (now : Time)
    : option (workerResponse * leader) :=
  w ← workers (flt st) !! wi;
  let st := putWorker st wi
    (w <| LastSeen := now |> <| binaries ::= λ b, list_to_set (Binaries req) ∪ b |>) in
  '(cancel, st) ← foldl (λ acc e, acc ≫= λ acc, reportActive now wi acc e) (Some ([], st)) (Active req);
  w ← workers (flt st) !! wi;
  let res := WorkerResponse [] cancel (runOver st) (wError w) in
  if negb (Done res) && bool_decide (wrError res = "") then
    let limit := Z.min workerBatchLimit (Slots w + workerBatchLimit - Z.of_nat (size (wLeases w))) in
    '(batch, st) ← assignLocked fl st wi limit now;
    Some (res <| Work := batch |>, st)
  else Some (res, st).

Definition exchange (st : leader) (wi : nat) (req : workerRequest) (now : Time)
    : option (workerResponse * leader) :=
  st ← foldl (λ acc r, acc ≫= λ st, accept st wi r now) (Some st) (Results req);
  exchangeLocked st wi req now.

(** ** A distributed run *)

Definition byEstimate (a b : fleetTask) : Z :=
  if estimate b <? estimate a then -1 else if estimate a <? estimate b then 1 else 0.

(** The part of [run] before the workers start. *)
Definition startRun (st : leader) (tasks : list testTask) (now : Time) : nat * leader :=
  let '(wi, st) := addWorker st "local" (jobs fl) true now in
  let new := (λ task, FleetTask task
      (teDuration (default zeroEstimate (testEstimates (srv st) !! taskID task))) false ∅) <$> tasks in
  let bins := (λ task, binHash (absBin (bin task))) <$> tasks in
  let queue := sort_by byEstimate (work (flt st) ++ new) in
  (wi, st <| flt ::= λ f,
        f <| work := queue |> <| ready := true |>
          <| workers ::= alter (λ w, w <| binaries ::= λ b, list_to_set bins ∪ b |>) wi |> |>
         <| srv ::= λ s, s <| testSchedule := (λ t, taskID (fTask t)) <$> queue |> |>).

(** The part of [run] after the wait: every lease is withdrawn. *)
Definition stopRun (st : leader) (now : Time) : option leader :=
  let st := st <| flt ::= λ f, f <| stopped := true |> |> in
  removeLeases st (leases (flt st)) now.

(** What [run] returns. *)
Definition runResult (st : leader) : option error :=
  match Join_errors (infra (flt st)) with
  | Some e => Some (EWrap "running tests: " e)
  | None =>
      let failed := map_fold (λ _ ps acc, numFails ps + acc) 0 (pkgs (srv st)) in
      if negb (failed =? 0) then Some (EMsg (itoa failed +:+ " test(s) failed"))
      else if canceled (srv st) then Some ECanceled else None
  end.

(** A goroutine of [localWorker]. *)
Inductive localState :=
  | LocalIdle
  | LocalExec (id : Z) (task : testTask)
  | LocalExited.

(** One round of a local worker's loop up to the execution. *)
Definition localAssign (st : leader) (wi : nat) (now now' : Time) : option (localState * leader) :=
  if stopped (flt st) || canceled (srv st) || allDone (flt st) then Some (LocalExited, st)
  else
    '(batch, st) ← assignLocked fl st wi 1 now;
    match batch with
    | [] => Some (LocalIdle, st)
    | b :: _ =>
        l ← heap (flt st) !! wwLease b;
        let l := l <| lCancel := CancelArmed |> <| lState := "running" |> <| lStarted := now' |> in
        t ← work (flt st) !! lWork l;
        st ← updateRunningLocked (putLease st (wwLease b) l) (lWork l) now';
        Some (LocalExec (wwLease b) (fTask t), st)
    end.

(** ** The status of the workers *)

Record workerData := WorkerData {
  wdID : string; wdName : string; wdStatus : string; wdError : string;
  wdSlots : Z; wdCompleted : Z; wdCached : Z; wdFailed : Z;
  wdDuration : Duration;
  wdWork : list string
}.

Definition workerStatus (f : fleet) (w : fleetWorker) (now : Time) : string :=
  if negb (bool_decide (wError w = "")) then "unavailable"
  else if stopped f then "finished"
  else if negb (Connected w) then "disconnected"
  else if negb (bool_decide (wID w = "leader")) && (workerTimeout <? Sub now (LastSeen w)) then "unresponsive"
  else if negb (bool_decide (wLeases w = ∅)) then "working"
  else "idle".

Definition describeLease (f : fleet) (l : workLease) : string :=
  match work f !! lWork l with
  | Some t => pkg (bin (fTask t)) +:+ "." +:+ test (fTask t) +:+ " (" +:+ lState l +:+ ")"
  | None => ""
  end.

Definition workerDataLocked (f : fleet) (now : Time) : list workerData :=
  (λ w, WorkerData (wID w) (wName w) (workerStatus f w now) (wError w) (Slots w) (Completed w)
      (Cached w) (Failed w) (Round (wDuration w) Millisecond)
      (sort_strings (describeLease f <$> leasesIn f (wLeases w)))) <$> workers f.
End commit.
