(* ===== verification/FleetInv.v ===== *)
(** * The fleet's invariant

    The three maps of leases agree, no test has more than two live copies, both
    on different workers, completed tests have none, the counters count, and
    the run's view of the tests agrees with the queue. *)

From S2P Require Import Prelude GoStrings Flags Path Profile Utf8 Invocation GoFmt Args Sha256 Quote HistoryTypes TestCache Server Fleet.

(** ** What bookkeeping of leases leaves alone *)

Definition eraseTest (ts : testStatus) : testStatus :=
  ts <| running := false |> <| started := zeroTime |> <| tsChanged := zeroTime |>.

Definition erasePkg (ps : packageStatus) : packageStatus :=
  ps <| psState := pkgStateDiscovered |> <| psChanged := zeroTime |>
     <| psTests := (λ m : gmap string testStatus, eraseTest <$> m) <$> psTests ps |>.

(** Two runs that differ only in which tests are running and since when, in the
    state of packages and in the times of change. *)
Definition srv_frame (s s' : Server) : Prop :=
  s' <| pkgs := ∅ |> = s <| pkgs := ∅ |> ∧ erasePkg <$> pkgs s' = erasePkg <$> pkgs s.

#[export] Instance srv_frame_equiv : Equivalence srv_frame.
Proof.
  unfold srv_frame. split.
  - done.
  - intros s s' [-> ->]. done.
  - intros s s' s'' [-> ->] [-> ->]. done.
Qed.

Definition statusOf (s : Server) (task : testTask) : option testStatus := snd <$> testAt s task.

Lemma statusOf_known s task : known s task ↔ is_Some (statusOf s task).
Proof. unfold known, statusOf. by rewrite fmap_is_Some. Qed.

Lemma testsOf_erase ps : testsOf (erasePkg ps) = eraseTest <$> testsOf ps.
Proof. unfold testsOf. simpl. destruct (psTests ps); simpl; [done|]. by rewrite fmap_empty. Qed.

Lemma statusOf_erase s task :
  eraseTest <$> statusOf s task =
  (erasePkg <$> pkgs s) !! pkg (bin task) ≫= λ ps, testsOf ps !! test task.
Proof.
  unfold statusOf, testAt. rewrite lookup_fmap.
  destruct (pkgs s !! pkg (bin task)) as [ps|]; [|done]. simpl.
  rewrite testsOf_erase, lookup_fmap. by destruct (testsOf ps !! test task).
Qed.

Lemma srv_frame_status s s' task :
  srv_frame s s' → eraseTest <$> statusOf s' task = eraseTest <$> statusOf s task.
Proof. intros [_ H]. by rewrite !statusOf_erase, H. Qed.

Lemma srv_frame_known s s' task : srv_frame s s' → known s task → known s' task.
Proof.
  rewrite !statusOf_known. intros H%(srv_frame_status _ _ task).
  destruct (statusOf s task), (statusOf s' task); simplify_eq/=; eauto.
Qed.

(** What of a test's status the erased part determines. *)
Lemma srv_frame_done s s' task ts ts' :
  srv_frame s s' → statusOf s task = Some ts → statusOf s' task = Some ts' →
  done ts' = done ts ∧ passed ts' = passed ts ∧ fails ts' = fails ts ∧ attempts ts' = attempts ts ∧
  attrs ts' = attrs ts ∧ cached ts' = cached ts ∧ passedIn ts' = passedIn ts.
Proof.
  intros H%(srv_frame_status _ _ task) E E'. rewrite E, E' in H. simpl in H. by injection H.
Qed.

Lemma srv_frame_canceled s s' : srv_frame s s' → canceled s' = canceled s.
Proof. intros [H _]. by injection H. Qed.

(** Replacing a package by one with the same erased form. *)
Lemma srv_frame_put s name ps ps' :
  pkgs s !! name = Some ps → erasePkg ps' = erasePkg ps → srv_frame s (putPkg s name ps').
Proof.
  intros Hps He. split; [done|]. simpl. rewrite fmap_insert, He. apply insert_id.
  by rewrite lookup_fmap, Hps.
Qed.

Lemma erasePkg_put ps ps' name ts ts' :
  psTests ps' = Some (<[name := ts']> (testsOf ps)) → testsOf ps !! name = Some ts →
  eraseTest ts' = eraseTest ts →
  ps' <| psState := psState ps |> <| psChanged := psChanged ps |> <| psTests := psTests ps |> = ps →
  erasePkg ps' = erasePkg ps.
Proof.
  intros Ht Hl He Hps.
  assert (Hm : (λ m : gmap string testStatus, eraseTest <$> m) <$> psTests ps' =
    (λ m : gmap string testStatus, eraseTest <$> m) <$> psTests ps).
  { rewrite Ht. unfold testsOf in *. destruct (psTests ps) as [m|]; simpl in *; [|by rewrite lookup_empty in Hl].
    f_equal. rewrite fmap_insert, He. apply insert_id. by rewrite lookup_fmap, Hl. }
  unfold erasePkg. rewrite Hm. clear -Hps. destruct ps, ps'. simpl in *. injection Hps. intros. by subst.
Qed.

(** ** The running flag *)

(** A lease that is executing. *)
Definition isRunning (l : workLease) : bool := bool_decide (lState l = "running").

Lemma runningSince_fst ls : (runningSince ls).1 = existsb isRunning ls.
Proof.
  unfold runningSince. enough (∀ b t, (foldl (λ '(run, since) l,
    if bool_decide (lState l = "running") then
      (true, if IsZero since || Before (lStarted l) since then lStarted l else since)
    else (run, since)) (b, t) ls).1 = b || existsb isRunning ls) as H by apply H.
  induction ls as [|l ls IH]; intros b t; simpl; [by rewrite orb_false_r|].
  unfold isRunning at 1. destruct (bool_decide _); rewrite IH; simpl; [by rewrite orb_true_r|done].
Qed.

(** Some live lease of the test is executing. *)
Definition taskRunning (f : fleet) (t : fleetTask) : bool :=
  existsb isRunning (leasesIn f (fLeases t)).

(** [updateRunningLocked] on a known test sets its running flag to whether one
    of its leases is executing, and changes nothing else of substance. *)
Lemma updateRunningLocked_spec st ti now t ts :
  server_ok (srv st) → work (flt st) !! ti = Some t → statusOf (srv st) (fTask t) = Some ts →
  ∃ s', updateRunningLocked st ti now = Some (st <| srv := s' |>) ∧
    server_ok s' ∧ srv_frame (srv st) s' ∧
    (∀ task', taskKey task' ≠ taskKey (fTask t) → statusOf s' task' = statusOf (srv st) task') ∧
    (done ts = false → running <$> statusOf s' (fTask t) = Some (taskRunning (flt st) t)) ∧
    (done ts = true → s' = srv st).
Proof.
  intros Hok Ht Hst. unfold statusOf in Hst. apply fmap_Some in Hst as ([ps ts0] & Hat & ->).
  unfold updateRunningLocked. rewrite Ht. cbn [mbind option_bind]. rewrite Hat. cbn [mbind option_bind snd].
  pose proof Hat as [Hps Hts]%testAt_Some.
  destruct (done ts0) eqn:Hd.
  { exists (srv st). split_and!; [by destruct st|done|reflexivity|done..]. }
  destruct (runningSince _) as [run since] eqn:Er.
  assert (run = taskRunning (flt st) t) as ->.
  { unfold taskRunning. rewrite <- runningSince_fst. by rewrite Er. }
  set (ts' := ts0 <| running := taskRunning (flt st) t |> <| started := since |> <| tsChanged := now |>).
  match goal with |- context [putPkg _ _ ?p] => set (ps' := p) end.
  assert (Htests : testsOf ps' = <[test (fTask t) := ts']> (testsOf ps))
    by (unfold ps'; by case_match).
  assert (Hpok : package_ok ps) by (by eapply (map_Forall_lookup_1 _ _ _ _ Hok)).
  assert (Htok : test_ok ts0) by (by eapply (map_Forall_lookup_1 _ _ _ _ (po_tests _ Hpok))).
  assert (Hnp : passed ts0 = false).
  { destruct (passed ts0) eqn:E; [|done]. apply (to_passed _ Htok) in E. congruence. }
  eexists. split_and!; [reflexivity| | | | |done].
  - apply server_ok_put; [done|]. apply (package_ok_put ps ps' (test (fTask t)) ts0 ts'); try done.
    + constructor; simpl; congruence.
    + unfold failedTest. simpl. rewrite Hd. simpl. unfold ps'. case_match; simpl; lia.
    + intros Hdone. left. assert (psState ps = pkgStateDone) as Hold.
      { revert Hdone. unfold ps'. by case_match. }
      apply (po_state _ Hpok) in Hold. rewrite allRunnableDone_true in Hold |- *.
      rewrite Htests. intros n x. destruct (decide (n = test (fTask t))) as [->|].
      * rewrite lookup_insert_eq. intros [= <-] Hr. specialize (Hold _ _ Hts Hr). congruence.
      * rewrite lookup_insert_ne by done. eauto.
  - eapply srv_frame_put; [done|].
    apply (erasePkg_put ps ps' (test (fTask t)) ts0 ts'); [by unfold ps'; case_match|done|done|].
    unfold ps'. destruct ps. by case_match.
  - intros task' Hk. unfold statusOf. erewrite testAt_put by done. unfold taskKey in Hk.
    repeat case_decide; [congruence| |done]. rewrite <- option_fmap_compose. by destruct (testAt (srv st) task').
  - intros _. unfold statusOf. erewrite testAt_put by done. by rewrite !decide_True.
Qed.

(** ** The leases *)

Definition owner (f : fleet) (id : Z) : option nat := lWorker <$> heap f !! id.
Definition target (f : fleet) (id : Z) : option nat := lWork <$> heap f !! id.

Record lease_inv (f : fleet) : Prop := {
  li_next : 0 ≤ nextID f;
  li_bound : ∀ id l, heap f !! id = Some l →
    1 ≤ id ≤ nextID f ∧ (lWorker l < length (workers f))%nat ∧ (lWork l < length (work f))%nat;
  li_live : ∀ id, id ∈ leases f → is_Some (heap f !! id);
  li_worker : ∀ wi w id, workers f !! wi = Some w →
    (id ∈ wLeases w ↔ id ∈ leases f ∧ owner f id = Some wi);
  li_task : ∀ ti t id, work f !! ti = Some t →
    (id ∈ fLeases t ↔ id ∈ leases f ∧ target f id = Some ti);
  (** two copies of a test are on two workers *)
  li_distinct : ∀ id id', id ∈ leases f → id' ∈ leases f →
    owner f id = owner f id' → target f id = target f id' → id = id';
  (** and there are never more than two *)
  li_two : ∀ ti t, work f !! ti = Some t → (size (fLeases t) ≤ 2)%nat
}.

(** A live lease has its worker and its test. *)
Lemma lease_inv_lookup f id :
  lease_inv f → id ∈ leases f →
  ∃ l w t, heap f !! id = Some l ∧ workers f !! lWorker l = Some w ∧ work f !! lWork l = Some t ∧
    id ∈ wLeases w ∧ id ∈ fLeases t.
Proof.
  intros Hf Hid. destruct (li_live _ Hf _ Hid) as [l Hl].
  destruct (li_bound _ Hf _ _ Hl) as (_ & Hw & Ht).
  apply lookup_lt_is_Some_2 in Hw as [w Hw], Ht as [t Ht]. exists l, w, t. split_and!; try done.
  - apply (li_worker _ Hf _ _ _ Hw). split; [done|]. unfold owner. by rewrite Hl.
  - apply (li_task _ Hf _ _ _ Ht). split; [done|]. unfold target. by rewrite Hl.
Qed.

(** What the bookkeeping of leases leaves alone of the fleet. *)
Definition eraseW (w : fleetWorker) : fleetWorker := w <| wLeases := ∅ |>.
Definition eraseT (t : fleetTask) : fleetTask := t <| fLeases := ∅ |>.
Definition eraseL (l : workLease) : workLease := l <| lCancel := CancelNil |>.
Definition eraseF (f : fleet) : fleet :=
  f <| workers ::= fmap (M := list) eraseW |> <| work ::= fmap (M := list) eraseT |>
    <| heap ::= fmap (M := gmap Z) eraseL |> <| leases := ∅ |>.

(** What identifies a worker. *)
Definition idSlots (w : fleetWorker) : string * Z := (wID w, Slots w).

Definition flt_frame (f f' : fleet) : Prop := eraseF f' = eraseF f.

#[export] Instance flt_frame_equiv : Equivalence flt_frame.
Proof. unfold flt_frame. split; [done|by intros f f' ->|]. intros f f' f'' -> ->. done. Qed.

(** The fields that are the same under [flt_frame]. *)
Lemma flt_frame_fields f f' :
  flt_frame f f' →
  eraseW <$> workers f' = eraseW <$> workers f ∧ eraseT <$> work f' = eraseT <$> work f ∧
  eraseL <$> heap f' = eraseL <$> heap f ∧ nextID f' = nextID f ∧ ready f' = ready f ∧
  stopped f' = stopped f ∧ fdone f' = fdone f ∧ infra f' = infra f ∧ wake f' = wake f.
Proof. intros H. unfold flt_frame, eraseF in H. simpl in H. by injection H. Qed.

Lemma flt_frame_worker f f' wi w :
  flt_frame f f' → workers f !! wi = Some w →
  ∃ w', workers f' !! wi = Some w' ∧ eraseW w' = eraseW w.
Proof.
  intros (H & _)%flt_frame_fields Hw. apply (f_equal (.!! wi)) in H. rewrite !list_lookup_fmap, Hw in H.
  destruct (workers f' !! wi) as [w'|]; [|done]. exists w'. split; [done|]. by apply (inj Some) in H.
Qed.

Lemma flt_frame_task f f' ti t :
  flt_frame f f' → work f !! ti = Some t →
  ∃ t', work f' !! ti = Some t' ∧ eraseT t' = eraseT t.
Proof.
  intros (_ & H & _)%flt_frame_fields Ht. apply (f_equal (.!! ti)) in H.
  rewrite !list_lookup_fmap, Ht in H.
  destruct (work f' !! ti) as [t'|]; [|done]. exists t'. split; [done|]. by apply (inj Some) in H.
Qed.

Lemma flt_frame_heap f f' id : flt_frame f f' → eraseL <$> heap f' !! id = eraseL <$> heap f !! id.
Proof.
  intros (_ & _ & H & _)%flt_frame_fields. by rewrite <- !lookup_fmap, H.
Qed.

Lemma flt_frame_owner f f' id : flt_frame f f' → owner f' id = owner f id ∧ target f' id = target f id.
Proof.
  intros H%(flt_frame_heap _ _ id). unfold owner, target.
  destruct (heap f' !! id), (heap f !! id); simplify_eq/=; [|done]. split; congruence.
Qed.

(** Two equal measures of workers or of tests that ignore leases. *)
Lemma flt_frame_sums f f' :
  flt_frame f f' →
  length (workers f') = length (workers f) ∧ length (work f') = length (work f) ∧
  Completed <$> workers f' = Completed <$> workers f ∧
  Failed <$> workers f' = Failed <$> workers f ∧
  fDone <$> work f' = fDone <$> work f ∧ fTask <$> work f' = fTask <$> work f ∧
  estimate <$> work f' = estimate <$> work f ∧ idSlots <$> workers f' = idSlots <$> workers f.
Proof.
  intros (Hw & Ht & _)%flt_frame_fields.
  assert (Hws : ∀ {A} (g : fleetWorker → A), (∀ w, g (eraseW w) = g w) →
    g <$> workers f' = g <$> workers f).
  { intros A g Hg. apply (f_equal (fmap g)) in Hw. rewrite <- !list_fmap_compose in Hw.
    etrans; [|etrans; [exact Hw|]]; apply list_fmap_ext; intros; simpl; by rewrite Hg. }
  assert (Hts : ∀ {A} (g : fleetTask → A), (∀ t, g (eraseT t) = g t) →
    g <$> work f' = g <$> work f).
  { intros A g Hg. apply (f_equal (fmap g)) in Ht. rewrite <- !list_fmap_compose in Ht.
    etrans; [|etrans; [exact Ht|]]; apply list_fmap_ext; intros; simpl; by rewrite Hg. }
  split_and!; [| |by apply Hws|by apply Hws|by apply Hts|by apply Hts|by apply Hts|by apply Hws].
  - apply (f_equal length) in Hw. by rewrite !length_fmap in Hw.
  - apply (f_equal length) in Ht. by rewrite !length_fmap in Ht.
Qed.

(** ** Removing a lease *)

(** The fleet's part of [removeLeaseLocked]. *)
Definition dropLease (f : fleet) (id : Z) (l : workLease) (w : fleetWorker) (t : fleetTask) : fleet :=
  f <| leases ::= λ ids, ids ∖ {[id]} |>
    <| workers ::= <[lWorker l := w <| wLeases ::= λ ids, ids ∖ {[id]} |>]> |>
    <| work ::= <[lWork l := t <| fLeases ::= λ ids, ids ∖ {[id]} |>]> |>
    <| heap ::= match lCancel l with
                | CancelNil => λ h, h
                | _ => <[id := l <| lCancel := CancelCalled |>]>
                end |>.

Lemma removeLeaseLocked_eq st id now l w t :
  heap (flt st) !! id = Some l → workers (flt st) !! lWorker l = Some w →
  work (flt st) !! lWork l = Some t →
  removeLeaseLocked st id now =
  updateRunningLocked (st <| flt ::= λ f, dropLease f id l w t |>) (lWork l) now.
Proof.
  intros Hl Hw Ht. unfold removeLeaseLocked. rewrite Hl. cbn [mbind option_bind].
  rewrite Hw. cbn [mbind option_bind]. rewrite Ht. cbn [mbind option_bind].
  unfold dropLease, putWorker, putTask, putLease. destruct st, (lCancel l); done.
Qed.

Lemma dropLease_frame f id l w t :
  heap f !! id = Some l → workers f !! lWorker l = Some w → work f !! lWork l = Some t →
  flt_frame f (dropLease f id l w t).
Proof.
  intros Hl Hw Ht. unfold flt_frame, eraseF, dropLease. simpl.
  rewrite !list_fmap_insert, (list_insert_id (eraseW <$> workers f)), (list_insert_id (eraseT <$> work f)).
  - f_equal. destruct (lCancel l); [done|..].
    all: rewrite fmap_insert; apply insert_id; by rewrite lookup_fmap, Hl.
  - by rewrite list_lookup_fmap, Ht.
  - by rewrite list_lookup_fmap, Hw.
Qed.

Lemma dropLease_inv f id l w t :
  lease_inv f → id ∈ leases f → heap f !! id = Some l → workers f !! lWorker l = Some w →
  work f !! lWork l = Some t → lease_inv (dropLease f id l w t).
Proof.
  intros Hf Hid Hl Hw Ht. pose proof (dropLease_frame f id l w t Hl Hw Ht) as Hfr.
  destruct (flt_frame_sums _ _ Hfr) as (Hlw & Hlt & _).
  assert (Hown : owner f id = Some (lWorker l)) by (unfold owner; by rewrite Hl).
  assert (Htgt : target f id = Some (lWork l)) by (unfold target; by rewrite Hl).
  assert (Ho : ∀ id', owner (dropLease f id l w t) id' = owner f id' ∧
    target (dropLease f id l w t) id' = target f id') by (intros; by apply flt_frame_owner).
  assert (Hleases : leases (dropLease f id l w t) = leases f ∖ {[id]}) by done.
  constructor.
  - apply (li_next _ Hf).
  - intros id' l' Hl'. rewrite Hlw, Hlt.
    pose proof (flt_frame_heap _ _ id' Hfr) as He. rewrite Hl' in He.
    destruct (heap f !! id') as [l0|] eqn:El0; [|done]. apply (li_bound _ Hf) in El0.
    simpl in He. injection He as -> -> _ _ _. exact El0.
  - rewrite Hleases. intros id' [Hin _]%elem_of_difference.
    apply (li_live _ Hf) in Hin as [l' Hl'].
    pose proof (flt_frame_heap _ _ id' Hfr) as He. rewrite Hl' in He.
    destruct (heap (dropLease _ _ _ _ _) !! id'); [by eauto|done].
  - intros wi w' id' Hw'. rewrite Hleases, (proj1 (Ho id')). simpl in Hw'.
    destruct (decide (wi = lWorker l)) as [->|Hne].
    + rewrite list_lookup_insert_eq in Hw' by (by eapply lookup_lt_Some).
      injection Hw' as <-. simpl. rewrite !elem_of_difference, (li_worker _ Hf _ _ _ Hw).
      clear. tauto.
    + rewrite list_lookup_insert_ne in Hw' by done. rewrite (li_worker _ Hf _ _ _ Hw').
      rewrite elem_of_difference, elem_of_singleton. split; [|tauto].
      intros [Hin Hown']. split_and!; [done| |done]. intros ->. congruence.
  - intros ti t' id' Ht'. rewrite Hleases, (proj2 (Ho id')). simpl in Ht'.
    destruct (decide (ti = lWork l)) as [->|Hne].
    + rewrite list_lookup_insert_eq in Ht' by (by eapply lookup_lt_Some).
      injection Ht' as <-. simpl. rewrite !elem_of_difference, (li_task _ Hf _ _ _ Ht).
      clear. tauto.
    + rewrite list_lookup_insert_ne in Ht' by done. rewrite (li_task _ Hf _ _ _ Ht').
      rewrite elem_of_difference, elem_of_singleton. split; [|tauto].
      intros [Hin Htgt']. split_and!; [done| |done]. intros ->. congruence.
  - rewrite Hleases. intros id1 id2 [? _]%elem_of_difference [? _]%elem_of_difference.
    destruct (Ho id1) as [-> ->], (Ho id2) as [-> ->]. by apply (li_distinct _ Hf).
  - intros ti t' Ht'. simpl in Ht'. destruct (decide (ti = lWork l)) as [->|Hne].
    + rewrite list_lookup_insert_eq in Ht' by (by eapply lookup_lt_Some).
      injection Ht' as <-. simpl. etrans; [|exact (li_two _ Hf _ _ Ht)].
      apply subseteq_size. clear. set_solver.
    + rewrite list_lookup_insert_ne in Ht' by done. by apply (li_two _ Hf ti).
Qed.

(** ** The queue and the run agree *)

Record sync (st : leader) : Prop := {
  sy_ok : server_ok (srv st);
  sy_nodup : NoDup ((λ t, taskKey (fTask t)) <$> work (flt st));
  sy_task : ∀ ti t, work (flt st) !! ti = Some t →
    ∃ ts, statusOf (srv st) (fTask t) = Some ts ∧ done ts = fDone t ∧
      (fDone t = false → running ts = taskRunning (flt st) t)
}.

Lemma sync_key_ne st ti t ti' t' :
  sync st → work (flt st) !! ti = Some t → work (flt st) !! ti' = Some t' → ti ≠ ti' →
  taskKey (fTask t) ≠ taskKey (fTask t').
Proof.
  intros Hs Ht Ht' Hne Hk. apply Hne.
  eapply (NoDup_lookup _ _ _ _ (sy_nodup _ Hs)); rewrite list_lookup_fmap; [by rewrite Ht|].
  by rewrite Ht', Hk.
Qed.

(** The states of leases decide what is running, their cancel functions do not. *)
Lemma taskRunning_cong f f' t t' :
  flt_frame f f' → fLeases t' = fLeases t → taskRunning f' t' = taskRunning f t.
Proof.
  intros Hfr Hids. unfold taskRunning, leasesIn. rewrite Hids.
  induction (elements (fLeases t)) as [|id ids IH]; [done|]. cbn [omap list_omap].
  pose proof (flt_frame_heap _ _ id Hfr) as He.
  destruct (heap f' !! id) as [l'|], (heap f !! id) as [l|]; try done.
  simpl in He. cbn [existsb]. rewrite IH. f_equal. injection He as _ _ _ _ He.
  unfold isRunning. by rewrite He.
Qed.

Lemma removeLeaseLocked_spec st id now :
  lease_inv (flt st) → sync st → id ∈ leases (flt st) →
  ∃ st', removeLeaseLocked st id now = Some st' ∧ lease_inv (flt st') ∧ sync st' ∧
    leases (flt st') = leases (flt st) ∖ {[id]} ∧
    flt_frame (flt st) (flt st') ∧ srv_frame (srv st) (srv st').
Proof.
  intros Hf Hs Hid.
  destruct (lease_inv_lookup _ _ Hf Hid) as (l & w & t & Hl & Hw & Ht & Hidw & Hidt).
  rewrite (removeLeaseLocked_eq _ _ _ l w t Hl Hw Ht).
  set (f' := dropLease (flt st) id l w t).
  pose proof (dropLease_frame _ id l w t Hl Hw Ht) as Hfr. fold f' in Hfr.
  set (t' := t <| fLeases ::= λ ids, ids ∖ {[id]} |>).
  assert (Ht' : work f' !! lWork l = Some t').
  { simpl. by rewrite list_lookup_insert_eq by (by eapply lookup_lt_Some). }
  destruct (sy_task _ Hs _ _ Ht) as (ts & Hts & Hdone & Hrun).
  destruct (updateRunningLocked_spec (st <| flt ::= λ f, dropLease f id l w t |>) (lWork l) now t' ts)
    as (s' & -> & Hok' & Hsfr & Hother & Hthis & Hsame); [apply Hs|done|done|].
  eexists. split; [reflexivity|]. simpl. split_and!; [by apply dropLease_inv| |done|done|done].
  constructor; [done| |].
  - simpl. rewrite list_fmap_insert, list_insert_id; [apply Hs|]. by rewrite list_lookup_fmap, Ht.
  - intros ti u Hu. change (work f' !! ti = Some u) in Hu. simpl srv; simpl flt.
    destruct (decide (ti = lWork l)) as [->|Hne].
    + rewrite Ht' in Hu. injection Hu as <-. simpl.
      destruct (fDone t) eqn:Hd.
      * exists ts. rewrite (Hsame Hdone). simpl. split_and!; [done|congruence|done].
      * specialize (Hthis Hdone). apply fmap_Some in Hthis as (ts' & Hts' & Hr').
        exists ts'. split_and!; [done| |done].
        destruct (srv_frame_done _ _ _ _ _ Hsfr Hts Hts') as [-> _]. congruence.
    + simpl in Hu. rewrite list_lookup_insert_ne in Hu by done.
      destruct (sy_task _ Hs _ _ Hu) as (us & Hus & Hud & Hur). exists us.
      rewrite Hother by (by apply (sync_key_ne st ti u (lWork l) t)). split_and!; [done|done|].
      intros Hnd. rewrite (Hur Hnd). symmetry. by apply taskRunning_cong.
Qed.

Lemma removeLeases_spec st ids now :
  lease_inv (flt st) → sync st → ids ⊆ leases (flt st) →
  ∃ st', removeLeases st ids now = Some st' ∧ lease_inv (flt st') ∧ sync st' ∧
    leases (flt st') = leases (flt st) ∖ ids ∧
    flt_frame (flt st) (flt st') ∧ srv_frame (srv st) (srv st').
Proof.
  intros Hf Hs Hids. unfold removeLeases.
  assert (Hl : ∀ l, NoDup l → (list_to_set l : gset Z) ⊆ leases (flt st) →
    ∃ st', foldl (λ acc id, acc ≫= λ st, removeLeaseLocked st id now) (Some st) l = Some st' ∧
      lease_inv (flt st') ∧ sync st' ∧ leases (flt st') = leases (flt st) ∖ list_to_set l ∧
      flt_frame (flt st) (flt st') ∧ srv_frame (srv st) (srv st')).
  { clear Hids ids. intros l. revert st Hf Hs. induction l as [|id l IH]; intros st Hf Hs Hn Hsub.
    { exists st. split_and!; try done. simpl. clear. set_solver. }
    apply NoDup_cons in Hn as [Hid Hn]. simpl in Hsub.
    destruct (removeLeaseLocked_spec st id now) as (st1 & E & Hf1 & Hs1 & Hl1 & Hfr1 & Hsr1);
      [done|done|set_solver|].
    destruct (IH st1) as (st' & E' & Hf' & Hs' & Hl' & Hfr' & Hsr'); [done|done|done| |].
    { rewrite Hl1. clear -Hsub Hid. set_solver. }
    exists st'. cbn [foldl mbind option_bind]. rewrite E. split_and!; [done|done|done| | |].
    - rewrite Hl', Hl1. simpl. clear. set_solver.
    - by etrans.
    - by etrans. }
  destruct (Hl (elements ids)) as (st' & H); [apply NoDup_elements|by rewrite list_to_set_elements_L|].
  exists st'. by rewrite list_to_set_elements_L in H.
Qed.

(** ** The whole invariant *)

Record count_inv (f : fleet) : Prop := {
  ci_done : ∀ ti t, work f !! ti = Some t → fDone t = true → fLeases t = ∅;
  ci_fdone : fdone f = sumZ (Z.b2z <$> (fDone <$> work f));
  ci_completed : fdone f = sumZ (Completed <$> workers f);
  ci_ready : ready f = false → work f = [] ∧ heap f = ∅;
  (** slowest first *)
  ci_sorted : StronglySorted (λ a b, b ≤ a) (estimate <$> work f)
}.

Record fleet_inv (st : leader) : Prop := {
  fi_lease : lease_inv (flt st);
  fi_sync : sync st;
  fi_count : count_inv (flt st)
}.

Lemma lease_inv_tasks_sub f f' ti t t' :
  lease_inv f → lease_inv f' → flt_frame f f' → leases f' ⊆ leases f →
  work f !! ti = Some t → work f' !! ti = Some t' → fLeases t' ⊆ fLeases t.
Proof.
  intros Hf Hf' Hfr Hsub Ht Ht' id. rewrite (li_task _ Hf _ _ _ Ht), (li_task _ Hf' _ _ _ Ht').
  rewrite (proj2 (flt_frame_owner _ _ id Hfr)). intros [? ?]. split; [by apply Hsub|done].
Qed.

(** Withdrawing leases keeps the counters. *)
Lemma count_inv_frame f f' :
  lease_inv f → lease_inv f' → flt_frame f f' → leases f' ⊆ leases f →
  count_inv f → count_inv f'.
Proof.
  intros Hf Hf' Hfr Hsub [Hd Hc Hw Hr Ho].
  destruct (flt_frame_sums _ _ Hfr) as (_ & Hlt & HC & _ & HD & _ & HE & _).
  destruct (flt_frame_fields _ _ Hfr) as (_ & _ & Hh & _ & Hrd & _ & Hfd & _).
  constructor.
  - intros ti t' Ht' Hdn.
    destruct (flt_frame_task f' f ti t') as (t & Ht & He); [by symmetry|done|].
    assert (fDone t = true) as Htd by (injection He; congruence).
    pose proof (lease_inv_tasks_sub f f' ti t t' Hf Hf' Hfr Hsub Ht Ht') as Hts.
    rewrite (Hd _ _ Ht Htd) in Hts. clear -Hts. set_solver.
  - by rewrite Hfd, HD.
  - by rewrite Hfd, HC.
  - rewrite Hrd. intros [Hwk Hhp]%Hr. split.
    + apply length_zero_iff_nil. rewrite Hlt, Hwk. done.
    + rewrite Hhp, fmap_empty in Hh. by apply fmap_empty_inv in Hh.
  - by rewrite HE.
Qed.

Lemma fleet_inv_removeLeases st ids now :
  fleet_inv st → ids ⊆ leases (flt st) →
  ∃ st', removeLeases st ids now = Some st' ∧ fleet_inv st' ∧
    leases (flt st') = leases (flt st) ∖ ids ∧
    flt_frame (flt st) (flt st') ∧ srv_frame (srv st) (srv st').
Proof.
  intros [Hf Hs Hc] Hids.
  destruct (removeLeases_spec st ids now Hf Hs Hids) as (st' & E & Hf' & Hs' & Hl & Hfr & Hsr).
  exists st'. split_and!; try done. constructor; [done..|].
  apply (count_inv_frame (flt st)); try done. rewrite Hl. clear. set_solver.
Qed.

(** Replacing a worker by one with the same leases and completions. *)
Lemma lease_inv_putWorker f wi w w' :
  lease_inv f → workers f !! wi = Some w → wLeases w' = wLeases w →
  lease_inv (f <| workers ::= <[wi := w']> |>).
Proof.
  intros [Hn Hb Hlv Hw Ht Hd H2] Hwi Hl. constructor; try done.
  - simpl. by setoid_rewrite length_insert.
  - simpl. intros wj u id. destruct (decide (wj = wi)) as [->|].
    + rewrite list_lookup_insert_eq by (by eapply lookup_lt_Some). intros [= <-].
      rewrite Hl. by apply Hw.
    + rewrite list_lookup_insert_ne by done. apply Hw.
Qed.

Lemma fleet_inv_putWorker st wi w w' :
  fleet_inv st → workers (flt st) !! wi = Some w → wLeases w' = wLeases w →
  Completed w' = Completed w → fleet_inv (putWorker st wi w').
Proof.
  intros [Hf Hs [Hd Hc Hw Hr Ho]] Hwi Hl HC. constructor.
  - by apply (lease_inv_putWorker _ _ w).
  - destruct Hs as [Hok Hnd Ht]. constructor; [done..|]. exact Ht.
  - constructor; try done. simpl. rewrite (sumZ_insert Completed _ _ w) by done. lia.
Qed.

Lemma fleet_inv_notify st : fleet_inv st → fleet_inv (notify st).
Proof.
  intros [[Hn Hb Hlv Hw Ht Hd H2] [Hok Hnd Hst] [Hcd Hcc Hcw Hcr Hco]].
  constructor; constructor; done.
Qed.

Lemma worker_leases_live f wi w : lease_inv f → workers f !! wi = Some w → wLeases w ⊆ leases f.
Proof. intros Hf Hw id. rewrite (li_worker _ Hf _ _ _ Hw). tauto. Qed.

Lemma task_leases_live f ti t : lease_inv f → work f !! ti = Some t → fLeases t ⊆ leases f.
Proof. intros Hf Ht id. rewrite (li_task _ Hf _ _ _ Ht). tauto. Qed.

(** ** Leaving *)

(** A worker that leaves takes no test with it: every lease it held is
    withdrawn, and no other. *)
Lemma disconnect_inv st wi w err now :
  fleet_inv st → workers (flt st) !! wi = Some w →
  ∃ st', disconnect st wi err now = Some st' ∧ fleet_inv st' ∧
    leases (flt st') = leases (flt st) ∖ wLeases w ∧ srv_frame (srv st) (srv st') ∧
    (∃ w', workers (flt st') !! wi = Some w' ∧ Connected w' = false ∧ wLeases w' = ∅) ∧
    idSlots <$> workers (flt st') = idSlots <$> workers (flt st) ∧
    (∀ id, owner (flt st') id = owner (flt st) id ∧ target (flt st') id = target (flt st) id) ∧
    fDone <$> work (flt st') = fDone <$> work (flt st) ∧
    fTask <$> work (flt st') = fTask <$> work (flt st) ∧
    stopped (flt st') = stopped (flt st) ∧ ready (flt st') = ready (flt st).
Proof.
  intros Hi Hw. unfold disconnect. rewrite Hw. cbn [mbind option_bind].
  match goal with |- context [putWorker st wi ?u] => set (w1 := u) end.
  assert (Hw1 : wLeases w1 = wLeases w ∧ Completed w1 = Completed w ∧ Connected w1 = false)
    by (unfold w1; by destruct err).
  destruct Hw1 as (Hw1 & HC1 & Hcon1).
  assert (Hi1 : fleet_inv (putWorker st wi w1)) by (by apply (fleet_inv_putWorker _ _ w)).
  destruct (fleet_inv_removeLeases (putWorker st wi w1) (wLeases w1) now) as
    (st' & -> & Hi' & Hl & Hfr & Hsr); [done|rewrite Hw1; exact (worker_leases_live _ _ _ (fi_lease _ Hi) Hw)|].
  destruct (flt_frame_sums _ _ Hfr) as (_ & _ & _ & _ & HD & HT & _ & HI).
  destruct (flt_frame_fields _ _ Hfr) as (_ & _ & _ & _ & Hrd & Hsp & _).
  eexists. split; [reflexivity|].
  split_and!; [by apply fleet_inv_notify| |done| | |intros id; exact (flt_frame_owner _ _ id Hfr)|done..].
  - simpl. rewrite Hl, Hw1. done.
  - destruct (flt_frame_worker _ _ wi w1 Hfr) as (w' & Hw' & He).
    { simpl. by rewrite list_lookup_insert_eq by (by eapply lookup_lt_Some). }
    exists w'. split_and!; [done| |].
    + injection He. intros. congruence.
    + apply set_eq. intros id. rewrite (li_worker _ (fi_lease _ Hi') _ _ _ Hw'), Hl.
      rewrite (proj1 (flt_frame_owner _ _ id Hfr)), elem_of_difference.
      split; [|set_solver]. intros [[Hin Hnin] Ho]. exfalso. apply Hnin. rewrite Hw1.
      by apply (li_worker _ (fi_lease _ Hi) _ _ _ Hw).
  - simpl. rewrite HI. simpl. rewrite list_fmap_insert, list_insert_id; [done|].
    rewrite list_lookup_fmap, Hw. unfold w1. by destruct err.
Qed.

(** ** Choosing work *)

(** The queue positions from [i] on that are fresh. *)
Fixpoint eligible (i : nat) (ts : list fleetTask) : list (nat * fleetTask) :=
  match ts with
  | [] => []
  | t :: ts => if fresh t then (i, t) :: eligible (S i) ts else eligible (S i) ts
  end.

(** A test the worker may take ahead of the first eligible one. *)
Definition ahead (w : fleetWorker) (fe : Duration) (x : nat * fleetTask) : bool :=
  affine w x.2 && (fe - divT fe 5 <=? estimate x.2).

(** The choice of fresh work: the first of the first five eligible tests whose
    binary the worker has and whose estimate is within a fifth of the first
    one's, and otherwise the first eligible test. *)
Definition chooseFresh (w : fleetWorker) (ts : list fleetTask) : option nat :=
  match eligible 0 ts with
  | [] => None
  | (i, t) :: el =>
      match List.find (ahead w (estimate t)) (take 5 ((i, t) :: el)) with
      | Some x => Some x.1
      | None => Some i
      end
  end.

Lemma nextFresh_first w fi fe ts : ∀ i window,
  (window < 5)%nat →
  nextFresh w i ts (Some (fi, fe)) window =
    match List.find (ahead w fe) (take (5 - window) (eligible i ts)) with
    | Some x => Some x.1
    | None => Some fi
    end.
Proof.
  induction ts as [|t ts IH]; intros i window Hw; cbn [nextFresh eligible].
  { by rewrite take_nil. }
  destruct (fresh t); simpl negb; cbv iota; [|by rewrite IH].
  change (default (i, estimate t) (Some (fi, fe))) with (fi, fe). cbv iota beta zeta.
  replace (5 - window)%nat with (S (4 - window)) by lia. cbn [take firstn List.find].
  unfold ahead at 1. cbn [snd fst]. destruct (affine w t && _); [done|].
  destruct (S window =? 5)%nat eqn:E.
  - apply Nat.eqb_eq in E. by replace (4 - window)%nat with 0%nat by lia.
  - apply Nat.eqb_neq in E. rewrite IH by lia. done.
Qed.

Lemma nextFresh_spec w ts : nextFresh w 0 ts None 0 = chooseFresh w ts.
Proof.
  unfold chooseFresh. generalize 0%nat at 1 3 as i.
  induction ts as [|t ts IH]; intros i; [done|]. cbn [nextFresh eligible].
  destruct (fresh t); simpl negb; cbv iota; [|by rewrite IH].
  change (default (i, estimate t) None) with (i, estimate t). cbv iota beta zeta.
  change (take 5 ((i, t) :: eligible (S i) ts)) with ((i, t) :: take 4 (eligible (S i) ts)).
  cbn [List.find]. unfold ahead at 1. cbn [snd fst]. destruct (affine w t && _); [done|].
  by rewrite nextFresh_first by lia.
Qed.

Lemma elem_of_eligible ts : ∀ i j t,
  (j, t) ∈ eligible i ts ↔ ∃ k, j = (i + k)%nat ∧ ts !! k = Some t ∧ fresh t = true.
Proof.
  induction ts as [|u ts IH]; intros i j t; simpl.
  { split; [by intros ?%not_elem_of_nil|]. intros (k & _ & Hk & _). by rewrite lookup_nil in Hk. }
  assert (Hrest : (j, t) ∈ eligible (S i) ts ↔
    ∃ k, j = (i + S k)%nat ∧ ts !! k = Some t ∧ fresh t = true).
  { rewrite IH. by setoid_rewrite Nat.add_succ_comm. }
  destruct (fresh u) eqn:E.
  - rewrite elem_of_cons, Hrest. split.
    + intros [[= -> ->]|(k & -> & Hk)]; [exists 0%nat; by rewrite Nat.add_0_r|by exists (S k)].
    + intros ([|k] & -> & Hk & Hf); [left; rewrite Nat.add_0_r; by injection Hk as ->|right; by exists k].
  - rewrite Hrest. split.
    + intros (k & -> & Hk). by exists (S k).
    + intros ([|k] & -> & Hk & Hf); [injection Hk as ->; congruence|by exists k].
Qed.

Lemma chooseFresh_Some w ts j :
  chooseFresh w ts = Some j → ∃ t, ts !! j = Some t ∧ fresh t = true.
Proof.
  unfold chooseFresh. intros Hj.
  assert (∃ t, (j, t) ∈ eligible 0 ts) as [t Ht].
  { destruct (eligible 0 ts) as [|[i t] el]; [done|].
    destruct (List.find _ _) as [[j' t']|] eqn:E; injection Hj as <-; [|exists t; left].
    apply List.find_some in E as [Hin _]. apply list_elem_of_In, elem_of_take in Hin as (k & Hk & _).
    apply list_elem_of_lookup_2 in Hk. by exists t'. }
  apply elem_of_eligible in Ht as (k & -> & Hk & Hf). by exists t.
Qed.

Lemma chooseFresh_None w ts :
  chooseFresh w ts = None ↔ ∀ t, t ∈ ts → fresh t = false.
Proof.
  unfold chooseFresh. split.
  - intros H t Ht. destruct (fresh t) eqn:E; [|done]. exfalso.
    apply list_elem_of_lookup in Ht as [k Hk].
    assert (Hin : (k, t) ∈ eligible 0 ts) by (apply elem_of_eligible; by exists k).
    destruct (eligible 0 ts) as [|[i u] el]; [by apply not_elem_of_nil in Hin|].
    by destruct (List.find _ _).
  - intros H. destruct (eligible 0 ts) as [|[i u] el] eqn:E; [done|]. exfalso.
    assert (Hin : (i, u) ∈ eligible 0 ts) by (rewrite E; left).
    apply elem_of_eligible in Hin as (k & _ & Hk & Hf). apply list_elem_of_lookup_2, H in Hk. congruence.
Qed.

Lemma elem_of_leasesIn f ids l : l ∈ leasesIn f ids ↔ ∃ id, id ∈ ids ∧ heap f !! id = Some l.
Proof.
  unfold leasesIn. rewrite list_elem_of_omap. by setoid_rewrite elem_of_elements.
Qed.

Lemma nextSpeculative_Some f wi now ts : ∀ i j,
  nextSpeculative f wi now i ts = Some j →
  ∃ k t id l, j = (i + k)%nat ∧ ts !! k = Some t ∧ fDone t = false ∧ fLeases t = {[id]} ∧
    heap f !! id = Some l ∧ overdue wi t now l = true.
Proof.
  induction ts as [|t ts IH]; intros i j; cbn [nextSpeculative]; [done|].
  destruct (negb (fDone t) && _ && _) eqn:E.
  - intros [= <-]. apply andb_prop in E as [[Hd Hn]%andb_prop He].
    apply negb_true_iff in Hd. apply Nat.eqb_eq, size_1_elem_of in Hn as [id Hid].
    apply leibniz_equiv in Hid.
    apply List.existsb_exists in He as (l & Hl & Ho). apply list_elem_of_In, elem_of_leasesIn in Hl as (id' & Hin & Hh).
    rewrite Hid in Hin. apply elem_of_singleton in Hin as ->.
    exists 0%nat, t, id, l. rewrite Nat.add_0_r. done.
  - intros (k & u & id & l & -> & H)%IH. exists (S k), u, id, l. by rewrite Nat.add_succ_comm.
Qed.

(** Whatever [nextLocked] picks may be leased to the worker: the test is not
    done, has at most one live lease, and none of the worker's own. *)
Lemma nextLocked_sound f wi now ti :
  lease_inv f → nextLocked f wi now = Some ti →
  ∃ t, work f !! ti = Some t ∧ fDone t = false ∧ (size (fLeases t) ≤ 1)%nat ∧
    (∀ id, id ∈ fLeases t → owner f id ≠ Some wi).
Proof.
  intros Hf. unfold nextLocked. destruct (workers f !! wi) as [w|]; [|done]. cbn [mbind option_bind].
  rewrite nextFresh_spec. destruct (chooseFresh w (work f)) as [i|] eqn:Ec.
  - intros [= ->]. apply chooseFresh_Some in Ec as (t & Ht & Hfr).
    apply andb_prop in Hfr as [Hd Hl]. apply negb_true_iff in Hd. apply bool_decide_eq_true in Hl.
    exists t. rewrite Hl, size_empty. split_and!; [done|done|lia|set_solver].
  - intros (k & t & id & l & -> & Ht & Hd & Hids & Hl & Ho)%nextSpeculative_Some.
    exists t. rewrite Hids, size_singleton. split_and!; [done|done|lia|].
    intros id' ->%elem_of_singleton. unfold owner. rewrite Hl. simpl. intros [= Hw].
    apply andb_prop in Ho as [Ho _]. rewrite Hw, Nat.eqb_refl in Ho. done.
Qed.

(** ** Granting leases *)

Lemma taskRunning_true f t :
  taskRunning f t = true ↔
  ∃ id l, id ∈ fLeases t ∧ heap f !! id = Some l ∧ lState l = "running".
Proof.
  unfold taskRunning. rewrite List.existsb_exists. split.
  - intros (l & Hl & Hr). apply list_elem_of_In, elem_of_leasesIn in Hl as (id & Hid & Hh).
    unfold isRunning in Hr. apply bool_decide_eq_true in Hr. by exists id, l.
  - intros (id & l & Hid & Hh & Hr). exists l. split.
    + apply list_elem_of_In, elem_of_leasesIn. by exists id.
    + by apply bool_decide_eq_true.
Qed.

(** Two tests whose executing leases are the same. *)
Lemma taskRunning_iff f f' t t' :
  (∀ id l, id ∈ fLeases t ∧ heap f !! id = Some l ∧ lState l = "running" ↔
           id ∈ fLeases t' ∧ heap f' !! id = Some l ∧ lState l = "running") →
  taskRunning f t = taskRunning f' t'.
Proof.
  intros H. apply eq_bool_prop_intro. rewrite !Is_true_true, !taskRunning_true.
  by setoid_rewrite H.
Qed.

Section granting.
Context (st : leader) (wi ti : nat) (w : fleetWorker) (t : fleetTask) (now : Time).
Context (Hi : fleet_inv st) (Hw : workers (flt st) !! wi = Some w)
  (Ht : work (flt st) !! ti = Some t) (Hd : fDone t = false) (Hsz : (size (fLeases t) ≤ 1)%nat)
  (Hown : ∀ id, id ∈ fLeases t → owner (flt st) id ≠ Some wi).

Let nid := nextID (flt st) + 1.

Lemma grant_fresh : heap (flt st) !! nid = None.
Proof using All.
  destruct (heap (flt st) !! nid) eqn:E; [|done].
  apply (li_bound _ (fi_lease _ Hi)) in E as [Hb _]. unfold nid in Hb. lia.
Qed.

Lemma grant_heap id : id ≠ nid → heap (flt (grant st wi ti w t now)) !! id = heap (flt st) !! id.
Proof using All. intros. simpl. by rewrite lookup_insert_ne. Qed.

Lemma grant_owner id : owner (flt (grant st wi ti w t now)) id =
  (if decide (id = nid) then Some wi else owner (flt st) id) ∧
  target (flt (grant st wi ti w t now)) id = (if decide (id = nid) then Some ti else target (flt st) id).
Proof using All.
  unfold owner, target. case_decide as E.
  - subst id. simpl. by rewrite lookup_insert_eq.
  - by rewrite grant_heap.
Qed.

Lemma grant_not_live : nid ∉ leases (flt st).
Proof using All. intros [l Hl]%(li_live _ (fi_lease _ Hi)). by rewrite grant_fresh in Hl. Qed.

Lemma grant_lease_inv : lease_inv (flt (grant st wi ti w t now)).
Proof using All.
  destruct (fi_lease _ Hi) as [Hn Hb Hlv Hlw Hlt Hdis H2].
  pose proof grant_fresh as Hfresh. pose proof grant_not_live as Hnl.
  assert (Hleases : leases (flt (grant st wi ti w t now)) = {[nid]} ∪ leases (flt st)) by done.
  assert (Hold : ∀ id, id ∈ leases (flt st) → id ≠ nid) by (by intros id Hid ->).
  constructor.
  - simpl. lia.
  - intros id l. destruct (decide (id = nid)) as [->|Hne].
    + simpl. rewrite lookup_insert_eq. intros [= <-]. simpl. rewrite !length_insert.
      split_and!; [unfold nid; lia|by unfold nid|by eapply lookup_lt_Some|by eapply lookup_lt_Some].
    + rewrite grant_heap by done. intros Hl. specialize (Hb _ _ Hl). simpl. rewrite !length_insert. lia.
  - rewrite Hleases. intros id Hid. destruct (decide (id = nid)) as [->|].
    + simpl. rewrite lookup_insert_eq. eauto.
    + rewrite grant_heap by done. apply Hlv. set_solver.
  - intros wj u id. rewrite Hleases, (proj1 (grant_owner id)), elem_of_union, elem_of_singleton.
    simpl. destruct (decide (wj = wi)) as [->|Hne].
    + rewrite list_lookup_insert_eq by (by eapply lookup_lt_Some). intros [= <-]. simpl.
      rewrite elem_of_union, elem_of_singleton, (Hlw _ _ _ Hw). fold nid. case_decide; naive_solver.
    + rewrite list_lookup_insert_ne by done. intros Hu. rewrite (Hlw _ _ _ Hu). fold nid.
      case_decide; [|naive_solver]. subst id. naive_solver.
  - intros tj u id. rewrite Hleases, (proj2 (grant_owner id)), elem_of_union, elem_of_singleton.
    simpl. destruct (decide (tj = ti)) as [->|Hne].
    + rewrite list_lookup_insert_eq by (by eapply lookup_lt_Some). intros [= <-]. simpl.
      rewrite elem_of_union, elem_of_singleton, (Hlt _ _ _ Ht). fold nid. case_decide; naive_solver.
    + rewrite list_lookup_insert_ne by done. intros Hu. rewrite (Hlt _ _ _ Hu). fold nid.
      case_decide; [|naive_solver]. subst id. naive_solver.
  - assert (Hno : ∀ id, id ∈ leases (flt st) → owner (flt st) id = Some wi →
      target (flt st) id = Some ti → False).
    { intros id Hid Ho Htg. by apply (Hown id), Ho; apply (Hlt _ _ _ Ht). }
    rewrite Hleases. intros id id'. rewrite !elem_of_union, !elem_of_singleton.
    destruct (grant_owner id) as [-> ->], (grant_owner id') as [-> ->].
    repeat case_decide; subst; try done; intros [?|?] [?|?] Ho Htg; subst; try done; naive_solver.
  - intros tj u. simpl. destruct (decide (tj = ti)) as [->|Hne].
    + rewrite list_lookup_insert_eq by (by eapply lookup_lt_Some). intros [= <-]. simpl. fold nid.
      rewrite size_union_alt, size_singleton.
      assert (size (fLeases t ∖ {[nid]}) ≤ size (fLeases t))%nat by (apply subseteq_size; set_solver). lia.
    + rewrite list_lookup_insert_ne by done. apply H2.
Qed.

(** A lease is not executing when it is granted. *)
Lemma grant_running tj u :
  work (flt st) !! tj = Some u →
  taskRunning (flt (grant st wi ti w t now))
    (if decide (tj = ti) then t <| fLeases ::= λ ids, {[nid]} ∪ ids |> else u) =
  taskRunning (flt st) u.
Proof using All.
  intros Hu. assert (Hsub : fLeases u ⊆ leases (flt st)) by (by eapply task_leases_live; [apply Hi|]).
  pose proof grant_not_live as Hnl. pose proof grant_fresh as Hfresh.
  apply taskRunning_iff. intros id l. destruct (decide (id = nid)) as [->|Hne].
  - assert (nid ∉ fLeases u) by (clear -Hsub Hnl; set_solver). simpl. rewrite lookup_insert_eq.
    split; [|naive_solver]. intros (_ & [= <-] & Hr). done.
  - rewrite grant_heap by done. case_decide as E; [|done]. subst tj.
    rewrite Ht in Hu. injection Hu as ->. simpl. rewrite elem_of_union, elem_of_singleton. naive_solver.
Qed.

Lemma grant_inv : fleet_inv (grant st wi ti w t now).
Proof using All.
  constructor; [apply grant_lease_inv| |].
  - destruct (fi_sync _ Hi) as [Hok Hnd Hst]. constructor; [done| |].
    + simpl. rewrite list_fmap_insert, list_insert_id; [done|]. by rewrite list_lookup_fmap, Ht.
    + intros tj u Hu. simpl in Hu. destruct (decide (tj = ti)) as [->|Hne].
      * rewrite list_lookup_insert_eq in Hu by (by eapply lookup_lt_Some). injection Hu as <-.
        destruct (Hst _ _ Ht) as (ts & Hts & Hdn & Hr). exists ts. split_and!; [done..|].
        intros _. rewrite (Hr Hd). pose proof (grant_running ti t Ht) as Hg.
        by rewrite decide_True in Hg.
      * rewrite list_lookup_insert_ne in Hu by done.
        destruct (Hst _ _ Hu) as (ts & Hts & Hdn & Hr). exists ts. split_and!; [done..|].
        intros Hud. rewrite (Hr Hud). pose proof (grant_running tj u Hu) as Hg.
        by rewrite decide_False in Hg.
  - destruct (fi_count _ Hi) as [Hcd Hcc Hcw Hcr Hco]. constructor.
    + intros tj u. simpl. destruct (decide (tj = ti)) as [->|Hne].
      * rewrite list_lookup_insert_eq by (by eapply lookup_lt_Some). intros [= <-]. simpl. congruence.
      * rewrite list_lookup_insert_ne by done. apply Hcd.
    + simpl. rewrite list_fmap_insert, list_insert_id; [done|]. by rewrite list_lookup_fmap, Ht.
    + simpl. rewrite list_fmap_insert, list_insert_id; [done|]. by rewrite list_lookup_fmap, Hw.
    + simpl. intros [Hwk _]%Hcr. by rewrite Hwk in Ht.
    + simpl. rewrite list_fmap_insert, list_insert_id; [done|]. by rewrite list_lookup_fmap, Ht.
Qed.
End granting.

(** ** Batches *)

(** What handing out the batch [bs] to worker [wi] does: new queued leases of
    that worker, one per entry of the batch, and nothing else. *)
Record assigned_batch (st st' : leader) (wi : nat) (bs : list workerWork) : Prop := {
  ab_srv : srv st' = srv st;
  ab_workers : eraseW <$> workers (flt st') = eraseW <$> workers (flt st);
  ab_work : eraseT <$> work (flt st') = eraseT <$> work (flt st);
  ab_fields : ready (flt st') = ready (flt st) ∧ stopped (flt st') = stopped (flt st) ∧
    fdone (flt st') = fdone (flt st) ∧ infra (flt st') = infra (flt st);
  ab_old : ∀ id, id ≤ nextID (flt st) → heap (flt st') !! id = heap (flt st) !! id ∧
    (id ∈ leases (flt st') ↔ id ∈ leases (flt st));
  ab_new : ∀ b, b ∈ bs → nextID (flt st) < wwLease b ∧ wwLease b ∈ leases (flt st') ∧
    ∃ ti now, heap (flt st') !! wwLease b = Some (WorkLease ti wi now zeroTime "queued" CancelNil);
  ab_size : ∀ w w', workers (flt st) !! wi = Some w → workers (flt st') !! wi = Some w' →
    size (wLeases w') = (size (wLeases w) + length bs)%nat;
  ab_nil : bs = [] → st' = st;
  ab_only : ∀ id, id ∈ leases (flt st') → id ∈ leases (flt st) ∨ ∃ b, b ∈ bs ∧ id = wwLease b;
  ab_others : ∀ wj, wj ≠ wi → workers (flt st') !! wj = workers (flt st) !! wj;
  ab_nodup : NoDup (wwLease <$> bs)
}.

Lemma assigned_nil st wi : assigned_batch st st wi [].
Proof.
  constructor; try done.
  - by intros b ?%not_elem_of_nil.
  - intros w w' Hw Hw'. simplify_eq/=. lia.
  - by left.
  - apply NoDup_nil_2.
Qed.

Lemma grant_assigned fl st wi ti w t now st' bs :
  fleet_inv st → workers (flt st) !! wi = Some w → work (flt st) !! ti = Some t →
  assigned_batch (grant st wi ti w t now) st' wi bs →
  assigned_batch st st' wi (workFor fl (srv st) (nextID (flt st) + 1) t :: bs).
Proof.
  intros Hi Hw Ht [Hs Hws Hwk Hfs Hold Hnew Hsz _ Honly Hothers Hnd].
  set (nid := nextID (flt st) + 1) in *.
  assert (Hnid : nextID (flt (grant st wi ti w t now)) = nid) by done.
  assert (Hfresh : heap (flt st) !! nid = None).
  { destruct (heap (flt st) !! nid) eqn:E; [|done].
    apply (li_bound _ (fi_lease _ Hi)) in E as [Hb _]. unfold nid in Hb. lia. }
  assert (Hnl : nid ∉ leases (flt st)).
  { intros [l Hl]%(li_live _ (fi_lease _ Hi)). by rewrite Hfresh in Hl. }
  constructor.
  - by rewrite Hs.
  - rewrite Hws. simpl. rewrite list_fmap_insert, list_insert_id; [done|].
    by rewrite list_lookup_fmap, Hw.
  - rewrite Hwk. simpl. rewrite list_fmap_insert, list_insert_id; [done|].
    by rewrite list_lookup_fmap, Ht.
  - done.
  - intros id Hid. destruct (Hold id) as [-> ->]; [unfold nid in Hnid; lia|]. simpl. fold nid.
    rewrite lookup_insert_ne by (unfold nid; lia). split; [done|].
    rewrite elem_of_union, elem_of_singleton. unfold nid. split; [|tauto]. intros [?|?]; [lia|done].
  - intros b [->|Hb]%elem_of_cons.
    + simpl. destruct (Hold nid) as [-> ->]; [lia|]. simpl. fold nid. rewrite lookup_insert_eq.
      split_and!; [unfold nid; lia|set_solver|by eauto].
    + destruct (Hnew b Hb) as (Hlt & ? & ?). split_and!; [unfold nid in Hnid; lia|done..].
  - intros u w' Hu Hw'. rewrite Hw in Hu. injection Hu as <-.
    erewrite Hsz; [| |exact Hw'].
    2: { simpl. by rewrite list_lookup_insert_eq by (by eapply lookup_lt_Some). }
    simpl. fold nid. rewrite size_union_alt, size_singleton.
    assert (wLeases w ∖ {[nid]} = wLeases w) as ->; [|lia].
    pose proof (worker_leases_live _ _ _ (fi_lease _ Hi) Hw) as Hsub. clear -Hsub Hnl. set_solver.
  - done.
  - intros id [Hid|(b & Hb & ->)]%Honly.
    + simpl in Hid. fold nid in Hid. apply elem_of_union in Hid as [->%elem_of_singleton|Hid]; [|by left].
      right. eexists. split; [left|done].
    + right. exists b. split; [by right|done].
  - intros wj Hne. rewrite Hothers by done. simpl. by rewrite list_lookup_insert_ne.
  - simpl. apply NoDup_cons. split; [|done]. intros (b & Heq & Hb)%list_elem_of_fmap.
    destruct (Hnew b Hb) as [Hlt _]. lia.
Qed.

Lemma assignLoop_spec fl wi now n : ∀ st batch duration,
  fleet_inv st → is_Some (workers (flt st) !! wi) →
  ∃ bs st', assignLoop fl n st wi now batch duration = Some (batch ++ bs, st') ∧
    fleet_inv st' ∧ (length bs ≤ n)%nat ∧ assigned_batch st st' wi bs.
Proof.
  assert (Hstop : ∀ st batch (m : nat), fleet_inv st → ∃ bs st',
    Some (batch, st) = Some (batch ++ bs, st') ∧ fleet_inv st' ∧ (length bs ≤ m)%nat ∧
    assigned_batch st st' wi bs).
  { intros st batch m Hi. exists [], st. rewrite app_nil_r. split_and!; [done|done|simpl; lia|].
    apply assigned_nil. }
  induction n as [|n IH]; intros st batch duration Hi [w Hw]; cbn [assignLoop]; [by apply Hstop|].
  rewrite Hw. cbn [mbind option_bind]. destruct (_ && _); [by apply Hstop|].
  destruct (nextLocked (flt st) wi now) as [ti|] eqn:En; [|by apply Hstop].
  destruct (nextLocked_sound _ _ _ _ (fi_lease _ Hi) En) as (t & Ht & Hd & Hsz & Hown).
  rewrite Ht. cbn [mbind option_bind].
  assert (Hg : fleet_inv (grant st wi ti w t now)) by (by apply grant_inv).
  destruct (IH (grant st wi ti w t now) (batch ++ [workFor fl (srv st) (nextID (flt st) + 1) t])
    (i64 (duration + estimate t))) as (bs & st' & E & Hi' & Hlen & Hab); [done| |].
  { simpl. rewrite list_lookup_insert_eq by (by eapply lookup_lt_Some). by eexists. }
  exists (workFor fl (srv st) (nextID (flt st) + 1) t :: bs), st'. split_and!.
  - by rewrite E, <- app_assoc.
  - done.
  - simpl. lia.
  - by eapply grant_assigned.
Qed.

(** A batch has at most [limit] tests, and none while the run has not started,
    is over or was cancelled, or after the worker failed. *)
Lemma assignLocked_spec fl st wi limit now w :
  fleet_inv st → workers (flt st) !! wi = Some w →
  ∃ bs st', assignLocked fl st wi limit now = Some (bs, st') ∧
    fleet_inv st' ∧ (length bs ≤ Z.to_nat limit)%nat ∧ assigned_batch st st' wi bs ∧
    (bs ≠ [] → ready (flt st) = true ∧ stopped (flt st) = false ∧ canceled (srv st) = false ∧ wError w = "").
Proof.
  intros Hi Hw. unfold assignLocked. rewrite Hw. cbn [mbind option_bind].
  destruct (_ || _) eqn:E.
  { exists [], st. split_and!; [done|done|simpl; lia|apply assigned_nil|done]. }
  destruct (assignLoop_spec fl wi now (Z.to_nat limit) st []
    (foldl (λ a e, i64 (a + e)) 0
      (omap (λ l, estimate <$> work (flt st) !! lWork l) (leasesIn (flt st) (wLeases w)))))
    as (bs & st' & -> & Hi' & Hlen & Hab); [done|by eauto|].
  exists bs, st'. split_and!; try done. intros _.
  repeat match goal with H : _ || _ = false |- _ => apply orb_false_elim in H as [? ?] end.
  repeat match goal with H : negb _ = false |- _ => apply negb_false_iff in H end.
  split_and!; try done. by eapply bool_decide_eq_true_1.
Qed.
