(* ===== verification/FleetCommit.v ===== *)
(** * Committing results

    [accept] records the first result of a live lease of each test, keeps the
    fleet's invariant, and never dereferences a missing package or test. *)

From S2P Require Import Prelude GoStrings Flags Path Profile Utf8 Invocation GoFmt Args Sha256 Quote HistoryTypes TestCache Server Fleet FleetInv.

Lemma statusOf_put s task task' ps ps' ts :
  testsOf ps' = <[test task := ts]> (testsOf ps) → pkgs s !! pkg (bin task) = Some ps →
  statusOf (putPkg s (pkg (bin task)) ps') task' =
    if decide (taskKey task' = taskKey task) then Some ts else statusOf s task'.
Proof.
  intros Ht Hp. unfold statusOf. erewrite testAt_put by done. unfold taskKey.
  repeat case_decide; try done; try congruence.
  rewrite <- option_fmap_compose. by destruct (testAt s task').
Qed.

(** A server that differs from [s] in the packages of [s'] and in fields that
    hold no tests. *)
Lemma statusOf_pkgs s s' task : pkgs s' = pkgs s → statusOf s' task = statusOf s task.
Proof. intros H. unfold statusOf, testAt. by rewrite H. Qed.

(** The status a committed result gives its test. *)
Record committed (r : workerResult) (ts ts' : testStatus) : Prop := {
  cm_done : done ts' = true;
  cm_running : running ts' = false;
  cm_passed : passed ts' = rPassed r;
  cm_cached : cached ts' = rCached r;
  cm_fails : fails ts' = fails ts ++ rFailures r;
  cm_attempts : attempts ts' = rAttempts r;
  cm_attrs : attrs ts' = rAttrs r
}.

Lemma lease_inv_putTask f ti t t' :
  lease_inv f → work f !! ti = Some t → fLeases t' = fLeases t →
  lease_inv (f <| work ::= <[ti := t']> |>).
Proof.
  intros [Hn Hb Hlv Hw Ht Hd H2] Hti Hl. constructor; try done.
  - simpl. by setoid_rewrite length_insert.
  - simpl. intros tj u id. destruct (decide (tj = ti)) as [->|].
    + rewrite list_lookup_insert_eq by (by eapply lookup_lt_Some). intros [= <-].
      rewrite Hl. by apply Ht.
    + rewrite list_lookup_insert_ne by done. apply Ht.
  - simpl. intros tj u. destruct (decide (tj = ti)) as [->|].
    + rewrite list_lookup_insert_eq by (by eapply lookup_lt_Some). intros [= <-].
      rewrite Hl. by apply (H2 ti).
    + rewrite list_lookup_insert_ne by done. apply H2.
Qed.

(** Fields outside the leases do not matter to [lease_inv]. *)
Lemma lease_inv_ext f f' :
  workers f' = workers f → work f' = work f → heap f' = heap f → leases f' = leases f →
  nextID f' = nextID f → lease_inv f → lease_inv f'.
Proof.
  destruct f, f'. simpl. intros -> -> -> -> -> [Hn Hb Hlv Hw Ht Hd H2]. constructor; done.
Qed.

(** Nor do the run's fields outside its packages to the invariant. *)
Lemma fleet_inv_srv st s' : fleet_inv st → pkgs s' = pkgs (srv st) → fleet_inv (st <| srv := s' |>).
Proof.
  intros [Hf [Hok Hnd Hst] Hc] Hp. constructor; [done| |done].
  constructor; [by apply (server_ok_pkgs (srv st))|done|].
  intros ti t Ht. simpl srv. rewrite (statusOf_pkgs (srv st)) by done. by apply (Hst ti).
Qed.

Lemma pkgs_printTestResult fl s task d c p out : pkgs (printTestResult fl s task d c p out) = pkgs s.
Proof. unfold printTestResult. by repeat case_match. Qed.

Lemma canceled_printTestResult fl s task d c p out :
  canceled (printTestResult fl s task d c p out) = canceled s.
Proof. unfold printTestResult. by repeat case_match. Qed.

(** ** The run's side of a commit *)

Section finish.
Context `{GoRuntime}.
Context (fl : flags).

(** The run after [commit] has recorded the result, before the leases go. *)
Definition recordResult (s : Server) (task : testTask) (r : workerResult) (now : Time) : option Server :=
  '(ps, ts) ← testAt s task;
  let err := if bool_decide (rError r = "") then None else Some (EMsg (rError r)) in
  let ts := ts <| attempts := rAttempts r |> <| attrs := rAttrs r |> in
  let s := putPkg s (pkg (bin task)) (putTest ps (test task) ts) in
  let s := s <| cacheChecks ::= Z.add (rCacheChecks r) |> in
  let s := if rCached r then s <| cacheHits ::= Z.succ |> else s in
  let s := s <| historyPending ::= λ l,
      l ++ ((λ obs, obs <| obsKey := historyKeyForTask fl task (sProfile s) |>) <$> rHistory r) |> in
  finishTestLocked s task (rPassed r) (rDuration r) (rFailures r) err (rCached r) now.

Lemma recordResult_spec s task r now ts :
  server_ok s → statusOf s task = Some ts → done ts = false →
  ∃ s' ts', recordResult s task r now = Some s' ∧ server_ok s' ∧
    statusOf s' task = Some ts' ∧ committed r ts ts' ∧ canceled s' = canceled s ∧
    (∀ task', taskKey task' ≠ taskKey task → statusOf s' task' = statusOf s task').
Proof.
  intros Hok Hst Hd. unfold statusOf in Hst. apply fmap_Some in Hst as ([ps ts0] & Hat & ->).
  cbn [snd] in *. pose proof Hat as [Hps Hts]%testAt_Some.
  unfold recordResult. rewrite Hat. cbn [mbind option_bind].
  set (ts1 := ts0 <| attempts := rAttempts r |> <| attrs := rAttrs r |>).
  set (ps1 := putTest ps (test task) ts1).
  match goal with |- context [finishTestLocked ?x] => set (s3 := x) end.
  assert (Hpk : pkgs s3 = pkgs (putPkg s (pkg (bin task)) ps1)) by (unfold s3; by destruct (rCached r)).
  assert (Hcan : canceled s3 = canceled s) by (unfold s3; by destruct (rCached r)).
  clearbody s3.
  assert (Hpok : package_ok ps) by (by eapply (map_Forall_lookup_1 _ _ _ _ Hok)).
  assert (Hp1 : package_ok ps1).
  { apply (package_ok_put ps ps1 (test task) ts0 ts1); try done.
    - destruct (map_Forall_lookup_1 _ _ _ _ (po_tests _ Hpok) Hts) as [H1 H2]. by constructor.
    - unfold failedTest. simpl. lia.
    - simpl. intros Hs. left. pose proof (po_state _ Hpok Hs) as Hold.
      rewrite allRunnableDone_true in Hold |- *. unfold ps1. rewrite testsOf_putTest. intros n x.
      destruct (decide (n = test task)) as [->|].
      + rewrite lookup_insert_eq. intros [= <-] Hr. exact (Hold _ _ Hts Hr).
      + rewrite lookup_insert_ne by done. apply Hold. }
  assert (Hok3 : server_ok s3).
  { apply (server_ok_pkgs _ _ Hpk). by apply server_ok_put. }
  assert (Hat3 : testAt s3 task = Some (ps1, ts1)).
  { apply testAt_Some. rewrite Hpk. unfold ps1. rewrite testsOf_putTest. simpl. by rewrite !lookup_insert_eq. }
  destruct (finishTestLocked_spec s3 task (rPassed r) (rDuration r) (rFailures r)
    (if bool_decide (rError r = "") then None else Some (EMsg (rError r))) (rCached r) now ps1 ts1)
    as (s' & ps' & ts' & -> & -> & Hok' & Hts' & Hdn & Hrn & Hpa & Hca & Hfa & Hatt & Hattr & _);
    [done|done|done|].
  eexists _, ts'. split; [reflexivity|].
  assert (Hp3 : pkgs s3 !! pkg (bin task) = Some ps1) by (rewrite Hpk; simpl; by rewrite lookup_insert_eq).
  split_and!; [done| |by constructor|done|].
  - erewrite statusOf_put by done. by rewrite decide_True.
  - intros task' Hk. erewrite statusOf_put by done. rewrite decide_False by done.
    erewrite statusOf_pkgs by exact Hpk. erewrite statusOf_put by done. by rewrite decide_False.
Qed.

(** ** The whole commit *)

(** The leader with the result recorded and the leases still there. *)
Definition midCommit (st : leader) (wi ti : nat) (w : fleetWorker) (t : fleetTask) (r : workerResult)
    (s : Server) : leader :=
  let w := w <| Completed ::= Z.succ |> <| wDuration ::= λ d, i64 (d + rDuration r) |> in
  let w := if rCached r then w <| Cached ::= Z.succ |> else w in
  let w := if rPassed r then w else w <| Failed ::= Z.succ |> in
  Leader s ((flt st) <| work ::= <[ti := t <| fDone := true |>]> |> <| fdone ::= Z.succ |>
    <| workers ::= <[wi := w]> |>
    <| infra ::= λ l, if rInfra r then
        l ++ [EMsg (pkg (bin (fTask t)) +:+ "." +:+ test (fTask t) +:+ ": " +:+ rError r)] else l |>).

Lemma commit_eq st wi ti w t r now s :
  recordResult (srv st) (fTask t) r now = Some s → work (flt st) !! ti = Some t →
  commit fl st wi ti w t r now =
    (st' ← removeLeases (midCommit st wi ti w t r s) (fLeases t) now;
     let st' := if failFast fl && negb (rPassed r) then
         st' <| srv ::= λ s, s <| failFastTriggered := true |> <| canceled := true |> |> else st' in
     Some (notify (st' <| srv ::= λ s, printTestResult fl s (fTask t) (rDuration r) (rCached r)
       (rPassed r) (from_option fiOut "" (last (rFailures r))) |>))).
Proof.
  intros Hrec Ht. unfold commit, recordResult, midCommit in *.
  destruct st as [s0 f]. simpl srv in *.
  assert (Hlk : ∀ x, <[ti := x]> (work f) !! ti = Some x)
    by (intros; by rewrite list_lookup_insert_eq by (by eapply lookup_lt_Some)).
  destruct (testAt s0 (fTask t)) as [[ps ts]|] eqn:Hat; [|done]. cbn [mbind option_bind] in Hrec.
  destruct (rInfra r), (rCached r), (rPassed r); cbn -[finishTestLocked removeLeases printTestResult] in *;
    rewrite Hat; cbn -[finishTestLocked removeLeases printTestResult] in *; rewrite Hrec;
    cbn -[finishTestLocked removeLeases printTestResult]; rewrite Hlk; destruct f; done.
Qed.

(** The worker of [midCommit]. *)
Lemma midCommit_worker st wi ti w t r s :
  workers (flt st) !! wi = Some w →
  ∃ w', flt (midCommit st wi ti w t r s) = (flt st) <| work ::= <[ti := t <| fDone := true |>]> |>
    <| fdone ::= Z.succ |> <| workers ::= <[wi := w']> |>
    <| infra := infra (flt (midCommit st wi ti w t r s)) |> ∧
    wLeases w' = wLeases w ∧ Completed w' = Completed w + 1.
Proof.
  intros Hw. eexists. split; [reflexivity|]. destruct (rCached r), (rPassed r); simpl; split; done || lia.
Qed.

Lemma midCommit_lease_inv st wi ti w t r s :
  fleet_inv st → workers (flt st) !! wi = Some w → work (flt st) !! ti = Some t →
  lease_inv (flt (midCommit st wi ti w t r s)).
Proof.
  intros Hi Hw Ht. destruct (midCommit_worker st wi ti w t r s Hw) as (w' & -> & Hlw & _).
  eapply lease_inv_ext with (f := (flt st) <| work ::= <[ti := t <| fDone := true |>]> |>
    <| workers ::= <[wi := w']> |>); try done.
  apply (lease_inv_putWorker _ wi w); [|done|done]. by apply (lease_inv_putTask _ ti t); [apply Hi|..].
Qed.

Lemma midCommit_sync st wi ti w t r s ts' :
  fleet_inv st → work (flt st) !! ti = Some t → server_ok s →
  statusOf s (fTask t) = Some ts' → done ts' = true →
  (∀ task', taskKey task' ≠ taskKey (fTask t) → statusOf s task' = statusOf (srv st) task') →
  sync (midCommit st wi ti w t r s).
Proof.
  intros Hi Ht Hok Hst Hd Hother. pose proof (fi_sync _ Hi) as Hs. constructor; [done| |].
  - simpl. rewrite list_fmap_insert, list_insert_id; [apply Hs|]. by rewrite list_lookup_fmap, Ht.
  - intros tj u Hu. simpl in Hu. destruct (decide (tj = ti)) as [->|Hne].
    + rewrite list_lookup_insert_eq in Hu by (by eapply lookup_lt_Some). injection Hu as <-.
      by exists ts'.
    + rewrite list_lookup_insert_ne in Hu by done. destruct (sy_task _ Hs _ _ Hu) as (us & Hus & ?).
      exists us. simpl srv. rewrite Hother by (by apply (sync_key_ne st tj u ti t)). done.
Qed.

(** The counters after a commit whose leases are gone. *)
Lemma midCommit_count st wi ti w t r s st' :
  fleet_inv st → workers (flt st) !! wi = Some w → work (flt st) !! ti = Some t → fDone t = false →
  lease_inv (flt st') → flt_frame (flt (midCommit st wi ti w t r s)) (flt st') →
  leases (flt st') = leases (flt st) ∖ fLeases t → count_inv (flt st').
Proof.
  intros Hi Hw Ht Hd Hf' Hfr Hl.
  pose proof (midCommit_lease_inv st wi ti w t r s Hi Hw Ht) as Hfm.
  destruct (flt_frame_sums _ _ Hfr) as (_ & Hlt & HC & _ & HD & _ & HE & _).
  destruct (flt_frame_fields _ _ Hfr) as (_ & _ & Hh & _ & Hrd & _ & Hfd & _).
  destruct (midCommit_worker st wi ti w t r s Hw) as (w' & Hm & Hlw & HCw).
  destruct (fi_count _ Hi) as [Hcd Hcc Hcw Hcr Hco].
  assert (Hsub : leases (flt st') ⊆ leases (flt (midCommit st wi ti w t r s)))
    by (rewrite Hl; clear; simpl; set_solver).
  constructor.
  - intros tj u' Hu' Hdu.
    destruct (flt_frame_task _ _ tj u' (symmetry Hfr) Hu') as (u & Hu & He).
    pose proof (lease_inv_tasks_sub _ _ tj u u' Hfm Hf' Hfr Hsub Hu Hu') as Huu.
    simpl in Hu. destruct (decide (tj = ti)) as [->|Hne].
    + apply set_eq. intros id. rewrite (li_task _ Hf' _ _ _ Hu'), Hl, elem_of_difference.
      rewrite (proj2 (flt_frame_owner _ _ id Hfr)). split; [|set_solver].
      intros [[Hin Hnin] Htg]. exfalso. apply Hnin, (li_task _ (fi_lease _ Hi) _ _ _ Ht). done.
    + rewrite list_lookup_insert_ne in Hu by done.
      assert (fDone u = true) as Hud by (injection He; congruence).
      rewrite (Hcd _ _ Hu Hud) in Huu. clear -Huu. set_solver.
  - rewrite Hfd, HD. simpl. rewrite <- !list_fmap_compose.
    rewrite (sumZ_insert (Z.b2z ∘ fDone) (work (flt st)) ti t) by done. simpl. rewrite Hd.
    rewrite list_fmap_compose, <- Hcc. simpl. lia.
  - rewrite Hfd, HC, Hm. simpl. rewrite (sumZ_insert Completed _ _ w) by done. lia.
  - rewrite Hrd. simpl. intros [Hwk _]%Hcr. by rewrite Hwk in Ht.
  - rewrite HE. simpl. rewrite list_fmap_insert, list_insert_id; [done|]. by rewrite list_lookup_fmap, Ht.
Qed.

(** What a commit changes: one test becomes done, with the result's outcome; its
    leases go; nothing of substance changes for any other test. *)
Record commit_effect (st st' : leader) (ti : nat) (t : fleetTask) (r : workerResult) : Prop := {
  ce_status : ∃ ts ts', statusOf (srv st) (fTask t) = Some ts ∧
    statusOf (srv st') (fTask t) = Some ts' ∧ committed r ts ts';
  ce_other : ∀ task', taskKey task' ≠ taskKey (fTask t) →
    eraseTest <$> statusOf (srv st') task' = eraseTest <$> statusOf (srv st) task';
  ce_leases : leases (flt st') = leases (flt st) ∖ fLeases t;
  ce_fdone : fdone (flt st') = fdone (flt st) + 1;
  ce_work : fDone <$> work (flt st') = <[ti := true]> (fDone <$> work (flt st));
  ce_tasks : fTask <$> work (flt st') = fTask <$> work (flt st);
  ce_canceled : canceled (srv st') = canceled (srv st) || (failFast fl && negb (rPassed r));
  ce_fields : ready (flt st') = ready (flt st) ∧ stopped (flt st') = stopped (flt st) ∧
    nextID (flt st') = nextID (flt st) ∧ length (workers (flt st')) = length (workers (flt st));
  ce_ids : idSlots <$> workers (flt st') = idSlots <$> workers (flt st);
  ce_owner : ∀ id, owner (flt st') id = owner (flt st) id ∧ target (flt st') id = target (flt st) id
}.

(** The end of [commit], once the leases are gone: fail-fast, and the report. *)
Definition afterCommit (st1 : leader) (task : testTask) (r : workerResult) : leader :=
  let st2 := if failFast fl && negb (rPassed r) then
      st1 <| srv ::= λ s, s <| failFastTriggered := true |> <| canceled := true |> |> else st1 in
  notify (st2 <| srv ::= λ s, printTestResult fl s task (rDuration r) (rCached r)
    (rPassed r) (from_option fiOut "" (last (rFailures r))) |>).

Lemma afterCommit_spec st1 task r :
  fleet_inv st1 →
  fleet_inv (afterCommit st1 task r) ∧ pkgs (srv (afterCommit st1 task r)) = pkgs (srv st1) ∧
  flt (afterCommit st1 task r) = (flt st1) <| wake := true |> ∧
  canceled (srv (afterCommit st1 task r)) = canceled (srv st1) || (failFast fl && negb (rPassed r)).
Proof.
  intros Hi. unfold afterCommit. destruct (_ && _); simpl;
    rewrite ?pkgs_printTestResult, ?canceled_printTestResult, ?orb_true_r, ?orb_false_r;
    (split_and!; [|done..]); apply fleet_inv_notify.
  - match goal with |- fleet_inv ?x => change x with (st1 <| srv := srv x |>) end.
    apply fleet_inv_srv; [done|]. simpl. by rewrite pkgs_printTestResult.
  - apply fleet_inv_srv; [done|]. by rewrite pkgs_printTestResult.
Qed.

(** The removal of leases does not undo a committed status. *)
Lemma committed_frame r s s' task ts ts' :
  srv_frame s s' → server_ok s' → statusOf s task = Some ts' → committed r ts ts' →
  ∃ ts1, statusOf s' task = Some ts1 ∧ committed r ts ts1.
Proof.
  intros Hsr Hok Hts' Hcm.
  destruct (srv_frame_known _ _ task Hsr) as [[ps1 ts1] Hat1]; [by apply statusOf_known; eexists|].
  assert (Hst1 : statusOf s' task = Some ts1) by (unfold statusOf; by rewrite Hat1).
  exists ts1. split; [done|].
  destruct (srv_frame_done _ _ _ _ _ Hsr Hts' Hst1) as (E1 & E2 & E3 & E4 & E5 & E6 & _).
  destruct Hcm as [C1 C2 C3 C4 C5 C6 C7]. constructor; try congruence.
  pose proof Hat1 as [Hp1 Ht1]%testAt_Some.
  pose proof (map_Forall_lookup_1 _ _ _ _ Hok Hp1) as Hpok.
  apply (map_Forall_lookup_1 _ _ _ _ (po_tests _ Hpok) Ht1). congruence.
Qed.

Lemma commit_spec st wi ti w t r now :
  fleet_inv st → workers (flt st) !! wi = Some w → work (flt st) !! ti = Some t → fDone t = false →
  ∃ st', commit fl st wi ti w t r now = Some st' ∧ fleet_inv st' ∧ commit_effect st st' ti t r.
Proof.
  intros Hi Hw Ht Hd.
  destruct (sy_task _ (fi_sync _ Hi) _ _ Ht) as (ts & Hts & Hdn & _). rewrite Hd in Hdn.
  destruct (recordResult_spec (srv st) (fTask t) r now ts) as (s & ts' & Hrec & Hok & Hts' & Hcm & Hcan & Hoth);
    [apply (fi_sync _ Hi)|done|done|].
  rewrite (commit_eq st wi ti w t r now s Hrec Ht).
  set (m := midCommit st wi ti w t r s).
  assert (Hfm : lease_inv (flt m)) by (by apply midCommit_lease_inv).
  destruct (removeLeases_spec m (fLeases t) now) as (st1 & -> & Hf1 & Hs1 & Hl1 & Hfr & Hsr);
    [done|by apply (midCommit_sync st wi ti w t r s ts'); [..|apply Hcm|]
    |exact (task_leases_live _ _ _ (fi_lease _ Hi) Ht)|].
  assert (Hi1 : fleet_inv st1).
  { constructor; [done|done|]. by apply (midCommit_count st wi ti w t r s). }
  exists (afterCommit st1 (fTask t) r). split; [reflexivity|].
  destruct (afterCommit_spec st1 (fTask t) r Hi1) as (Hi3 & Hpk3 & Hflt3 & Hcan3).
  generalize dependent (afterCommit st1 (fTask t) r). intros st3 Hi3 Hpk3 Hflt3 Hcan3.
  destruct (flt_frame_sums _ _ Hfr) as (Hlw & _ & _ & _ & HD & HT & _ & HI).
  destruct (flt_frame_fields _ _ Hfr) as (_ & _ & _ & Hnx & Hrd & Hsp & Hfd & _).
  split; [done|]. constructor; rewrite ?Hflt3; simpl.
  - destruct (committed_frame r _ _ _ _ _ Hsr (sy_ok _ Hs1) Hts' Hcm) as (ts1 & Hts1 & Hcm1).
    exists ts, ts1. split_and!; [done| |done]. by rewrite (statusOf_pkgs (srv st1)).
  - intros task' Hk. rewrite (statusOf_pkgs (srv st1)), (srv_frame_status _ _ task' Hsr) by done.
    simpl. by rewrite Hoth.
  - done.
  - rewrite Hfd. simpl. lia.
  - rewrite HD. simpl. by rewrite list_fmap_insert.
  - rewrite HT. simpl. rewrite list_fmap_insert, list_insert_id; [done|]. by rewrite list_lookup_fmap, Ht.
  - rewrite Hcan3, (srv_frame_canceled _ _ Hsr). simpl. by rewrite Hcan.
  - rewrite Hrd, Hsp, Hnx, Hlw. simpl. by rewrite length_insert.
  - rewrite HI. simpl. rewrite list_fmap_insert, list_insert_id; [done|].
    rewrite list_lookup_fmap, Hw. by destruct (rCached r), (rPassed r).
  - intros id. by apply (flt_frame_owner _ _ id Hfr).
Qed.
End finish.
