(* ===== verification/FleetSteps.v ===== *)
(** * The fleet as a state machine

    The leader's critical sections, interleaved in any order with what helpers
    send and with cancellation, form a step relation.  Every step is defined
    (no nil dereference), keeps the fleet's invariant, and commits at most one
    result. *)

From S2P Require Import Prelude GoStrings Flags Path Profile Utf8 Invocation GoFmt Args Sha256 Quote HistoryTypes TestCache Server Fleet FleetInv FleetCommit.

Section steps.
Context `{GoRuntime}.
Context (fl : flags).

(** ** Every operation keeps the invariant *)

(** The outcome of [accept]. *)
Inductive accept_case (st st' : leader) (wi : nat) (w : fleetWorker) (r : workerResult) : Prop :=
  | AcceptIgnored :
      st' = st →
      rLease r ∉ wLeases w ∨ stopped (flt st) = true ∨ canceled (srv st) = true →
      accept_case st st' wi w r
  | AcceptRejected :
      rInfra r = true → wID w ≠ "leader" → leases (flt st') = leases (flt st) ∖ wLeases w →
      srv_frame (srv st) (srv st') → fDone <$> work (flt st') = fDone <$> work (flt st) →
      fTask <$> work (flt st') = fTask <$> work (flt st) →
      idSlots <$> workers (flt st') = idSlots <$> workers (flt st) →
      (∀ id, owner (flt st') id = owner (flt st) id) →
      stopped (flt st') = stopped (flt st) → ready (flt st') = ready (flt st) →
      accept_case st st' wi w r
  | AcceptCommitted l t :
      rLease r ∈ wLeases w → heap (flt st) !! rLease r = Some l →
      work (flt st) !! lWork l = Some t → fDone t = false → stopped (flt st) = false →
      canceled (srv st) = false → commit_effect fl st st' (lWork l) t r →
      accept_case st st' wi w r.

Lemma rejectHelper_spec st wi w r now :
  fleet_inv st → workers (flt st) !! wi = Some w →
  ∃ st', rejectHelper st wi w r now = Some st' ∧ fleet_inv st' ∧
    leases (flt st') = leases (flt st) ∖ wLeases w ∧ srv_frame (srv st) (srv st') ∧
    fDone <$> work (flt st') = fDone <$> work (flt st) ∧ fTask <$> work (flt st') = fTask <$> work (flt st) ∧
    idSlots <$> workers (flt st') = idSlots <$> workers (flt st) ∧
    (∀ id, owner (flt st') id = owner (flt st) id) ∧
    stopped (flt st') = stopped (flt st) ∧ ready (flt st') = ready (flt st).
Proof using Type.
  intros Hi Hw. unfold rejectHelper.
  set (w1 := w <| wError := _ |>).
  assert (Hi1 : fleet_inv (putWorker st wi w1)) by (by apply (fleet_inv_putWorker _ _ w)).
  destruct (fleet_inv_removeLeases (putWorker st wi w1) (wLeases w) now) as
    (st' & -> & Hi' & Hl & Hfr & Hsr);
    [done|exact (worker_leases_live _ _ _ (fi_lease _ Hi) Hw)|].
  eexists. split; [reflexivity|]. destruct (flt_frame_sums _ _ Hfr) as (_ & _ & _ & _ & HD & HT & _ & HI).
  destruct (flt_frame_fields _ _ Hfr) as (_ & _ & _ & _ & Hrd & Hsp & _).
  split_and!; [by apply fleet_inv_notify|done|done|done|done| | |done|done].
  - simpl. rewrite HI. simpl. rewrite list_fmap_insert, list_insert_id; [done|].
    by rewrite list_lookup_fmap, Hw.
  - intros id. exact (proj1 (flt_frame_owner _ _ id Hfr)).
Qed.

Lemma accept_spec st wi w r now :
  fleet_inv st → workers (flt st) !! wi = Some w →
  ∃ st', accept fl st wi r now = Some st' ∧ fleet_inv st' ∧ accept_case st st' wi w r.
Proof using Type.
  intros Hi Hw. unfold accept. rewrite Hw. cbn [mbind option_bind].
  destruct (bool_decide _) eqn:El.
  { apply bool_decide_eq_true in El. exists st. split_and!; [done|done|]. apply AcceptIgnored; auto. }
  apply bool_decide_eq_false, dec_stable in El.
  assert (Hlive : rLease r ∈ leases (flt st)) by (by eapply worker_leases_live; [apply Hi|..]).
  destruct (lease_inv_lookup _ _ (fi_lease _ Hi) Hlive) as (l & w' & t & Hl & _ & Ht & _ & Hlt).
  rewrite Hl. cbn [mbind option_bind]. rewrite Ht. cbn [mbind option_bind].
  assert (Hd : fDone t = false).
  { destruct (fDone t) eqn:E; [|done]. rewrite (ci_done _ (fi_count _ Hi) _ _ Ht E) in Hlt. set_solver. }
  rewrite Hd. cbn [orb]. destruct (stopped (flt st) || canceled (srv st)) eqn:Ed.
  { exists st. split_and!; [done|done|]. apply AcceptIgnored; [done|right]. by apply orb_prop. }
  apply orb_false_elim in Ed as [Hsp Hcan].
  destruct (rInfra r && negb _) eqn:Einf.
  - apply andb_prop in Einf as [Hinf Hid]. apply negb_true_iff, bool_decide_eq_false in Hid.
    destruct (rejectHelper_spec st wi w r now Hi Hw) as (st' & E & Hi' & ? & ? & ? & ? & ? & ? & ? & ?).
    exists st'. split_and!; [done|done|by apply AcceptRejected].
  - destruct (commit_spec fl st wi (lWork l) w t r now Hi Hw Ht Hd) as (st' & E & Hi' & Hce).
    exists st'. split_and!; [done|done|by eapply AcceptCommitted].
Qed.

(** A worker joining. *)
Lemma addWorker_inv st name slots isLocal now :
  fleet_inv st → fleet_inv (addWorker st name slots isLocal now).2.
Proof using Type.
  intros Hi. destruct (fi_lease _ Hi) as [Hn Hb Hlv Hw Ht Hd H2].
  constructor.
  - constructor; try done.
    + intros id l Hl. simpl. rewrite length_app. specialize (Hb _ _ Hl). simpl. lia.
    + simpl. intros wj u id Hu. apply lookup_app_Some in Hu as [Hu|[Hlen Hu]]; [by apply Hw|].
      apply list_lookup_singleton_Some in Hu as [Hz <-]. simpl. split; [set_solver|].
      intros [Hin Ho]. exfalso. destruct (Hlv _ Hin) as [l Hl].
      change (lWorker <$> heap (flt st) !! id = Some wj) in Ho. rewrite Hl in Ho.
      injection Ho as Ho. apply Hb in Hl. lia.
  - destruct (fi_sync _ Hi) as [Hok Hnd Hst]. constructor; done.
  - destruct (fi_count _ Hi) as [Hcd Hcc Hcw Hcr Hco]. constructor; try done.
    simpl. rewrite fmap_app, sumZ_app. simpl. lia.
Qed.

(** Changing the state or the cancel function of a live lease, followed by the
    update of its test's running flag. *)
Lemma putLease_inv st id l l' now :
  fleet_inv st → id ∈ leases (flt st) → heap (flt st) !! id = Some l →
  lWork l' = lWork l → lWorker l' = lWorker l →
  ∃ s', updateRunningLocked (putLease st id l') (lWork l) now =
      Some ((putLease st id l') <| srv := s' |>) ∧
    fleet_inv ((putLease st id l') <| srv := s' |>) ∧ srv_frame (srv st) s'.
Proof using Type.
  intros Hi Hid Hl Hwk Hwr.
  destruct (lease_inv_lookup _ _ (fi_lease _ Hi) Hid) as (l0 & w & t & Hl0 & Hw & Ht & Hidw & Hidt).
  rewrite Hl in Hl0. injection Hl0 as <-.
  destruct (sy_task _ (fi_sync _ Hi) _ _ Ht) as (ts & Hts & Hdn & _).
  assert (Hnd : fDone t = false).
  { destruct (fDone t) eqn:E; [|done]. rewrite (ci_done _ (fi_count _ Hi) _ _ Ht E) in Hidt. set_solver. }
  destruct (updateRunningLocked_spec (putLease st id l') (lWork l) now t ts)
    as (s' & E & Hok & Hsr & Hother & Hthis & _); [apply (fi_sync _ Hi)|done|done|].
  exists s'. split_and!; [done| |done].
  assert (Hown : ∀ id', owner (flt (putLease st id l')) id' = owner (flt st) id' ∧
    target (flt (putLease st id l')) id' = target (flt st) id').
  { intros id'. unfold owner, target. simpl. destruct (decide (id' = id)) as [->|].
    - rewrite lookup_insert_eq, Hl. simpl. by rewrite Hwk, Hwr.
    - by rewrite lookup_insert_ne. }
  constructor.
  - destruct (fi_lease _ Hi) as [Hn Hb Hlv Hlw Hlt Hds H2]. constructor; try done.
    + simpl. intros id' x. destruct (decide (id' = id)) as [->|].
      * rewrite lookup_insert_eq. intros [= <-]. rewrite Hwk, Hwr. by apply Hb.
      * rewrite lookup_insert_ne by done. apply Hb.
    + simpl. intros id' Hid'. destruct (decide (id' = id)) as [->|].
      * rewrite lookup_insert_eq. eauto.
      * rewrite lookup_insert_ne by done. by apply Hlv.
    + intros wi u id' Hu. etrans; [exact (Hlw _ _ _ Hu)|]. by rewrite <- (proj1 (Hown id')).
    + intros ti u id' Hu. etrans; [exact (Hlt _ _ _ Hu)|]. by rewrite <- (proj2 (Hown id')).
    + intros id1 id2 H1 H3 Ho Htg. apply Hds; [done|done| |].
      * by rewrite <- !(proj1 (Hown _)).
      * by rewrite <- !(proj2 (Hown _)).
  - destruct (fi_sync _ Hi) as [Hok0 Hnd0 Hst0]. constructor; [done|done|].
    intros ti u Hu. simpl in Hu |- *. destruct (decide (ti = lWork l)) as [->|Hne].
    + rewrite Ht in Hu. injection Hu as <-. rewrite Hnd in Hdn.
      apply fmap_Some in Hthis as (ts' & Hts' & Hr); [|done]. exists ts'. split_and!; [done| |done].
      destruct (srv_frame_done _ _ _ _ _ Hsr Hts Hts') as [-> _]. congruence.
    + destruct (Hst0 _ _ Hu) as (us & Hus & Hud & Hur). exists us.
      rewrite Hother by (by apply (sync_key_ne st ti u (lWork l) t); [apply Hi|..]).
      split_and!; [done|done|]. intros Hf. rewrite (Hur Hf). apply taskRunning_iff.
      intros id' x. simpl. destruct (decide (id' = id)) as [->|]; [|by rewrite lookup_insert_ne].
      assert (id ∉ fLeases u) as Hni; [|naive_solver].
      rewrite (li_task _ (fi_lease _ Hi) _ _ _ Hu). unfold target. rewrite Hl. naive_solver.
  - destruct (fi_count _ Hi) as [Hcd Hcc Hcw Hcr Hco]. constructor; try done.
    simpl. intros [Hwk0 _]%Hcr. by rewrite Hwk0 in Ht.
Qed.

(** What a step that commits nothing leaves alone. *)
Record quiet_step (st st' : leader) : Prop := {
  qs_srv : srv_frame (srv st) (srv st');
  qs_done : fDone <$> work (flt st') = fDone <$> work (flt st);
  qs_tasks : fTask <$> work (flt st') = fTask <$> work (flt st)
}.

#[export] Instance quiet_step_preorder : PreOrder quiet_step.
Proof using Type.
  split.
  - intros st. by constructor.
  - intros st1 st2 st3 [Hs Hd Ht] [Hs' Hd' Ht']. constructor; [by etrans|congruence..].
Qed.

(** Marking a package as being tested. *)
Lemma touch_inv st name ps now :
  fleet_inv st → pkgs (srv st) !! name = Some ps →
  let st' := st <| srv ::= λ s, putPkg s name (ps <| psState := pkgStateTesting |> <| psChanged := now |>) |> in
  fleet_inv st' ∧ quiet_step st st'.
Proof using Type.
  intros [Hf [Hok Hnd Hst] Hc] Hps st'.
  assert (Hsr : srv_frame (srv st) (srv st')) by (by eapply srv_frame_put).
  split; [|by constructor]. constructor; [done| |done]. constructor; [|done|].
  - apply server_ok_put; [done|].
    destruct (map_Forall_lookup_1 _ _ _ _ Hok Hps) as [H1 H2 H3]. by constructor.
  - intros ti t Ht. destruct (Hst _ _ Ht) as (ts & Hts & Hd & Hr). exists ts.
    split_and!; [|done|done]. rewrite <- Hts. unfold statusOf, testAt. simpl.
    destruct (decide (pkg (bin (fTask t)) = name)) as [->|]; [|by rewrite lookup_insert_ne].
    rewrite lookup_insert_eq, Hps. unfold testsOf. simpl. by destruct (default ∅ (psTests ps) !! test (fTask t)).
Qed.

(** What reports of activity by worker [wi] leave alone of the fleet. *)
Definition same_leases (st st' : leader) : Prop :=
  workers (flt st') = workers (flt st) ∧ leases (flt st') = leases (flt st) ∧
  ready (flt st') = ready (flt st) ∧ stopped (flt st') = stopped (flt st) ∧
  fdone (flt st') = fdone (flt st).

#[export] Instance same_leases_preorder : PreOrder same_leases.
Proof using Type.
  unfold same_leases. split; [done|]. intros st1 st2 st3 (-> & -> & -> & -> & ->). done.
Qed.

Lemma reportActive_spec now wi cancel st e :
  fleet_inv st → is_Some (workers (flt st) !! wi) →
  ∃ cancel' st', reportActive now wi (cancel, st) e = Some (cancel', st') ∧ fleet_inv st' ∧
    quiet_step st st' ∧ same_leases st st' ∧
    (∀ id, id ∈ cancel' → id ∈ cancel ∨ ∀ w, workers (flt st) !! wi = Some w → id ∉ wLeases w).
Proof using Type.
  intros Hi [w Hw]. destruct e as [id state]. unfold reportActive. rewrite Hw. cbn [mbind option_bind].
  destruct (bool_decide _) eqn:El.
  { exists (cancel ++ [id]), st. split_and!; [done|done|reflexivity|reflexivity|].
    apply bool_decide_eq_true in El. intros id' [?| ->]%elem_of_snoc; [by left|right].
    by intros w' [= <-]. }
  apply bool_decide_eq_false, dec_stable in El.
  destruct (validState state); cbn [negb]; cbv iota.
  2: { exists cancel, st. split_and!; [done|done|reflexivity|reflexivity|auto]. }
  assert (Hlive : id ∈ leases (flt st)) by (by eapply worker_leases_live; [apply Hi|..]).
  destruct (lease_inv_lookup _ _ (fi_lease _ Hi) Hlive) as (l & w' & t & Hl & _ & Ht & _).
  rewrite Hl. cbn [mbind option_bind]. rewrite Ht. cbn [mbind option_bind].
  match goal with |- context [putLease st id ?x] => set (l' := x) end.
  assert (Hl' : lWork l' = lWork l ∧ lWorker l' = lWorker l) by (unfold l'; by destruct (_ && _)).
  destruct Hl' as [Hwk Hwr].
  match goal with |- context [updateRunningLocked _ ?x now] =>
    replace x with (lWork l) by (by destruct (_ && _)) end.
  destruct (putLease_inv st id l l' now Hi Hlive Hl Hwk Hwr) as (s' & -> & Hi' & Hsr).
  cbn [mbind option_bind].
  assert (∃ ps, pkgs s' !! pkg (bin (fTask t)) = Some ps) as [ps Hps].
  { destruct (sy_task _ (fi_sync _ Hi') (lWork l) t) as (ts & Hts & _); [done|].
    unfold statusOf in Hts. apply fmap_Some in Hts as ([ps ts'] & [Hp _]%testAt_Some & _). by exists ps. }
  simpl srv. rewrite Hps. cbn [mbind option_bind].
  destruct (touch_inv ((putLease st id l') <| srv := s' |>) (pkg (bin (fTask t))) ps now Hi' Hps) as [Hi2 Hq2].
  eexists _, _. split; [reflexivity|]. split_and!; [exact Hi2| |done|auto].
  etrans; [|exact Hq2]. by constructor.
Qed.

Lemma reportAll_spec now wi es : ∀ cancel st,
  fleet_inv st → is_Some (workers (flt st) !! wi) →
  ∃ cancel' st', foldl (λ acc e, acc ≫= λ acc, reportActive now wi acc e) (Some (cancel, st)) es =
      Some (cancel', st') ∧ fleet_inv st' ∧ quiet_step st st' ∧ same_leases st st' ∧
    (∀ id, id ∈ cancel' → id ∈ cancel ∨ ∀ w, workers (flt st) !! wi = Some w → id ∉ wLeases w).
Proof using Type.
  induction es as [|e es IH]; intros cancel st Hi Hw.
  { exists cancel, st. split_and!; [done|done|reflexivity|reflexivity|auto]. }
  destruct (reportActive_spec now wi cancel st e Hi Hw) as (c1 & st1 & E & Hi1 & Hq1 & Hl1 & Hc1).
  cbn [foldl mbind option_bind]. rewrite E.
  destruct (IH c1 st1 Hi1) as (c2 & st2 & E2 & Hi2 & Hq2 & Hl2 & Hc2); [by rewrite (proj1 Hl1)|].
  exists c2, st2. split_and!; [done|done|by etrans|by etrans|].
  intros id [Hid|Hid]%Hc2; [by apply Hc1|right]. by rewrite <- (proj1 Hl1).
Qed.

Lemma assigned_quiet st st' wi bs : assigned_batch st st' wi bs → quiet_step st st'.
Proof using Type.
  intros [Hs Hws Hwk]. constructor; [by rewrite Hs| |].
  - apply (f_equal (fmap fDone)) in Hwk. rewrite <- !list_fmap_compose in Hwk. exact Hwk.
  - apply (f_equal (fmap fTask)) in Hwk. rewrite <- !list_fmap_compose in Hwk. exact Hwk.
Qed.

(** The critical section of [exchange]: the response has at most ten tests, none
    once the run is over or the worker failed, and after it the worker holds at
    most ten leases more than it has slots, unless it already did. *)
Lemma exchangeLocked_spec st wi w req now :
  fleet_inv st → workers (flt st) !! wi = Some w →
  ∃ res st' w', exchangeLocked fl st wi req now = Some (res, st') ∧ fleet_inv st' ∧ quiet_step st st' ∧
    workers (flt st') !! wi = Some w' ∧ Slots w' = Slots w ∧
    (length (Work res) ≤ 10)%nat ∧
    (Done res = true ∨ wError w ≠ "" → Work res = []) ∧
    size (wLeases w') = (size (wLeases w) + length (Work res))%nat ∧
    Z.of_nat (size (wLeases w')) ≤ Z.max (Z.of_nat (size (wLeases w))) (Slots w + 10) ∧
    stopped (flt st') = stopped (flt st) ∧
    (∀ id, id ∈ Cancel res → id ∉ wLeases w) ∧ wID w' = wID w ∧
    (∀ wj, wj ≠ wi → workers (flt st') !! wj = workers (flt st) !! wj) ∧
    (stopped (flt st) = true → leases (flt st') = leases (flt st)) ∧ ready (flt st') = ready (flt st).
Proof using Type.
  intros Hi Hw. unfold exchangeLocked. rewrite Hw. cbn [mbind option_bind].
  set (w1 := w <| LastSeen := now |> <| binaries ::= λ b, list_to_set (Binaries req) ∪ b |>).
  assert (Hi1 : fleet_inv (putWorker st wi w1)) by (by apply (fleet_inv_putWorker _ _ w)).
  assert (Hw1 : workers (flt (putWorker st wi w1)) !! wi = Some w1)
    by (simpl; by rewrite list_lookup_insert_eq by (by eapply lookup_lt_Some)).
  assert (Hq1 : quiet_step st (putWorker st wi w1)) by by constructor.
  destruct (reportAll_spec now wi (Active req) [] (putWorker st wi w1) Hi1) as
    (c2 & st2 & -> & Hi2 & Hq2 & Hl2 & Hc2); [by eauto|]. cbn [mbind option_bind].
  assert (Hw2 : workers (flt st2) !! wi = Some w1) by (by rewrite (proj1 Hl2)).
  assert (Hc : ∀ id, id ∈ c2 → id ∉ wLeases w).
  { intros id [?%not_elem_of_nil|Hno]%Hc2; [done|]. exact (Hno w1 Hw1). }
  assert (Hsp : stopped (flt st2) = stopped (flt st)) by apply Hl2.
  rewrite Hw2. cbn [mbind option_bind]. simpl Done. simpl wrError.
  destruct (negb (runOver st2) && _) eqn:E.
  - set (limit := Z.min workerBatchLimit _).
    destruct (assignLocked_spec fl st2 wi limit now w1 Hi2 Hw2) as (bs & st3 & -> & Hi3 & Hlen & Hab & Hwhy).
    cbn [mbind option_bind].
    assert (∃ w3, workers (flt st3) !! wi = Some w3 ∧ eraseW w3 = eraseW w1) as (w3 & Hw3 & He3).
    { pose proof (ab_workers _ _ _ _ Hab) as Hws. apply (f_equal (.!! wi)) in Hws.
      rewrite !list_lookup_fmap, Hw2 in Hws. destruct (workers (flt st3) !! wi) as [w3|]; [|done].
      exists w3. split; [done|]. by apply (inj Some) in Hws. }
    pose proof (ab_size _ _ _ _ Hab _ _ Hw2 Hw3) as Hsz. change (wLeases w1) with (wLeases w) in Hsz.
    assert (Hsl : Slots w3 = Slots w) by (change (Slots w) with (Slots (eraseW w1)); by rewrite <- He3).
    apply andb_prop in E as [Eo Ee]. apply negb_true_iff in Eo. apply bool_decide_eq_true in Ee.
    assert (Hlim : limit ≤ 10 ∧ limit ≤ Slots w + 10 - Z.of_nat (size (wLeases w)))
      by (unfold limit, workerBatchLimit; simpl; lia).
    eexists _, st3, w3. split; [reflexivity|]. simpl. split_and!; try done; try lia.
    + etrans; [exact Hq1|]. etrans; [exact Hq2|]. by eapply assigned_quiet.
    + intros [Hd|He]; [congruence|done].
    + destruct (ab_fields _ _ _ _ Hab) as (_ & -> & _). done.
    + change (wID w) with (wID (eraseW w1)). by rewrite <- He3.
    + intros wj Hne. rewrite (ab_others _ _ _ _ Hab wj Hne), (proj1 Hl2). simpl. by rewrite list_lookup_insert_ne.
    + intros Hs. unfold runOver in Eo. by rewrite Hsp, Hs in Eo.
    + destruct (ab_fields _ _ _ _ Hab) as (-> & _). by apply Hl2.
  - eexists _, st2, w1. split; [reflexivity|]. simpl. split_and!; try done; try lia.
    + etrans; [exact Hq1|exact Hq2].
    + intros wj Hne. rewrite (proj1 Hl2). simpl. by rewrite list_lookup_insert_ne.
    + intros _. by apply Hl2.
    + by apply Hl2.
Qed.

(** Leases of a worker after a step that adds none of its. *)
Lemma wLeases_sub f f' wj w w' :
  lease_inv f → lease_inv f' → leases f' ⊆ leases f → (∀ id, owner f' id = owner f id) →
  workers f !! wj = Some w → workers f' !! wj = Some w' → wLeases w' ⊆ wLeases w.
Proof using Type.
  intros Hf Hf' Hsub Ho Hw Hw' id.
  rewrite (li_worker _ Hf _ _ _ Hw), (li_worker _ Hf' _ _ _ Hw'), Ho. intros [? ?].
  split; [by apply Hsub|done].
Qed.

(** After a batch, a worker's leases are its old ones and those of the batch. *)
Lemma assigned_leases st st' wi bs w w' :
  fleet_inv st → fleet_inv st' → assigned_batch st st' wi bs → workers (flt st) !! wi = Some w →
  workers (flt st') !! wi = Some w' →
  (∀ b, b ∈ bs → wwLease b ∈ wLeases w') ∧
  (∀ id, id ∈ wLeases w' → id ∈ wLeases w ∨ ∃ b, b ∈ bs ∧ id = wwLease b).
Proof using Type.
  intros Hi Hi' Hab Hw Hw'. split.
  - intros b Hb. destruct (ab_new _ _ _ _ Hab b Hb) as (_ & Hl & ti & now & Hh).
    apply (li_worker _ (fi_lease _ Hi') _ _ _ Hw'). split; [done|]. unfold owner. by rewrite Hh.
  - intros id [Hin Ho]%(li_worker _ (fi_lease _ Hi') _ _ _ Hw').
    destruct (ab_only _ _ _ _ Hab id Hin) as [Hold|?]; [left|by right].
    apply (li_worker _ (fi_lease _ Hi) _ _ _ Hw). split; [done|].
    destruct (li_live _ (fi_lease _ Hi) _ Hold) as [l Hl].
    destruct (li_bound _ (fi_lease _ Hi) _ _ Hl) as [Hb _].
    unfold owner in *. by rewrite <- (proj1 (ab_old _ _ _ _ Hab id (proj2 Hb))).
Qed.

Lemma assigned_worker st st' wi bs w :
  assigned_batch st st' wi bs → workers (flt st) !! wi = Some w →
  ∃ w', workers (flt st') !! wi = Some w' ∧ eraseW w' = eraseW w.
Proof using Type.
  intros Hab Hw. pose proof (ab_workers _ _ _ _ Hab) as Hws. apply (f_equal (.!! wi)) in Hws.
  rewrite !list_lookup_fmap, Hw in Hws. destruct (workers (flt st') !! wi) as [w'|]; [|done].
  exists w'. split; [done|]. by apply (inj Some) in Hws.
Qed.

(** A round of a local worker starts at most one execution, on a new lease. *)
Lemma localAssign_spec st wi w now now' :
  fleet_inv st → workers (flt st) !! wi = Some w →
  ∃ ls st' w', localAssign fl st wi now now' = Some (ls, st') ∧ fleet_inv st' ∧ quiet_step st st' ∧
    workers (flt st') !! wi = Some w' ∧ eraseW w' = eraseW w ∧
    (∀ wj, wj ≠ wi → workers (flt st') !! wj = workers (flt st) !! wj) ∧
    stopped (flt st') = stopped (flt st) ∧ ready (flt st') = ready (flt st) ∧
    canceled (srv st') = canceled (srv st) ∧
    match ls with
    | LocalExec id task => stopped (flt st) = false ∧
        (∀ id', id' ∈ wLeases w' → id' = id ∨ id' ∈ wLeases w)
    | LocalIdle => st' = st
    | LocalExited => st' = st ∧ (stopped (flt st) || canceled (srv st) || allDone (flt st)) = true
    end.
Proof using Type.
  intros Hi Hw. unfold localAssign. destruct (_ || _ || _) eqn:Eo.
  { exists LocalExited, st, w. split_and!; try done; reflexivity. }
  destruct (assignLocked_spec fl st wi 1 now w Hi Hw) as (bs & st1 & -> & Hi1 & Hlen & Hab & Hwhy).
  cbn [mbind option_bind]. destruct bs as [|b bs].
  { rewrite (ab_nil _ _ _ _ Hab eq_refl). exists LocalIdle, st, w. split_and!; try done; reflexivity. }
  destruct bs; [|simpl in Hlen; lia].
  destruct (ab_new _ _ _ _ Hab b) as (_ & Hlive & ti & now1 & Hh); [left|]. rewrite Hh.
  cbn [mbind option_bind].
  destruct (assigned_worker _ _ _ _ _ Hab Hw) as (w1 & Hw1 & He1).
  destruct (lease_inv_lookup _ _ (fi_lease _ Hi1) Hlive) as (l & w2 & t & Hl & _ & Ht & _).
  rewrite Hh in Hl. injection Hl as <-. simpl lWork in *. rewrite Ht. cbn [mbind option_bind].
  edestruct (putLease_inv st1 (wwLease b) _ (WorkLease ti wi now1 now' "running" CancelArmed) now' Hi1 Hlive Hh)
    as (s' & E & Hi2 & Hsr); [done|done|]. simpl lWork in E.
  match goal with |- context [updateRunningLocked ?x ti now'] =>
    change x with (putLease st1 (wwLease b) (WorkLease ti wi now1 now' "running" CancelArmed)) end.
  rewrite E. cbn [mbind option_bind].
  eexists _, _, w1. split; [reflexivity|]. destruct (ab_fields _ _ _ _ Hab) as (Hrd & Hsp & _).
  split_and!; [done| |done|done|exact (ab_others _ _ _ _ Hab)|done|done| | |].
  - etrans; [exact (assigned_quiet _ _ _ _ Hab)|]. by constructor.
  - simpl. rewrite (srv_frame_canceled _ _ Hsr). by rewrite (ab_srv _ _ _ _ Hab).
  - by apply Hwhy.
  - intros id' Hid'. destruct (assigned_leases _ _ _ _ _ _ Hi Hi1 Hab Hw Hw1) as [_ Hall].
    destruct (Hall id' Hid') as [?|(b' & Hb' & ->)]; [by right|left].
    apply list_elem_of_singleton in Hb' as ->. done.
Qed.

(** ** Starting and stopping *)

(** The tests of a run that starts: listed, distinct, and not yet run. *)
Definition startable (s : Server) (tasks : list testTask) : Prop :=
  server_ok s ∧ NoDup (taskKey <$> tasks) ∧
  ∀ task, task ∈ tasks → ∃ ts, statusOf s task = Some ts ∧ done ts = false ∧ running ts = false.

#[export] Instance byEstimate_total : Total (cmp_le byEstimate).
Proof using Type.
  intros a b. unfold cmp_le, byEstimate.
  destruct (Z.ltb_spec (estimate b) (estimate a)), (Z.ltb_spec (estimate a) (estimate b)); lia.
Qed.

Lemma byEstimate_le a b : cmp_le byEstimate a b ↔ estimate b ≤ estimate a.
Proof using Type.
  unfold cmp_le, byEstimate.
  destruct (Z.ltb_spec (estimate b) (estimate a)), (Z.ltb_spec (estimate a) (estimate b)); lia.
Qed.

#[export] Instance byEstimate_trans : Transitive (cmp_le byEstimate).
Proof using Type. intros a b c. rewrite !byEstimate_le. lia. Qed.

Lemma estimates_sorted l :
  StronglySorted (cmp_le byEstimate) l → StronglySorted (λ a b, b ≤ a) (estimate <$> l).
Proof using Type.
  induction 1 as [|x l Hs IH Hx]; [constructor|]. rewrite fmap_cons. constructor; [done|].
  apply Forall_fmap. eapply Forall_impl; [exact Hx|]. intros y Hy. apply byEstimate_le in Hy. exact Hy.
Qed.

Lemma taskRunning_no_leases f t : fLeases t = ∅ → taskRunning f t = false.
Proof using Type. intros E. unfold taskRunning, leasesIn. by rewrite E, elements_empty. Qed.

(** A fleet that is not ready has no leases and nothing counted. *)
Lemma not_ready f :
  lease_inv f → count_inv f → ready f = false →
  work f = [] ∧ heap f = ∅ ∧ leases f = ∅ ∧ fdone f = 0.
Proof using Type.
  intros Hf Hc Hr. destruct (ci_ready _ Hc Hr) as [Hw Hh]. split_and!; [done|done| |].
  - apply set_eq. intros id. split; [|set_solver].
    intros [l Hl]%(li_live _ Hf). by rewrite Hh in Hl.
  - rewrite (ci_fdone _ Hc), Hw. done.
Qed.

(** The task a fleet task was made from. *)
Definition newTask (s : Server) (task : testTask) : fleetTask :=
  FleetTask task (teDuration (default zeroEstimate (testEstimates s !! taskID task))) false ∅.

Lemma startRun_work st tasks now :
  work (flt st) = [] → work (flt (startRun fl st tasks now).2) = sort_by byEstimate (newTask (srv st) <$> tasks).
Proof using Type. intros Hw. simpl. by rewrite Hw. Qed.

Lemma startRun_workers st tasks now :
  ∃ w, workers (flt (startRun fl st tasks now).2) = workers (flt st) ++ [w] ∧
    (startRun fl st tasks now).1 = length (workers (flt st)) ∧
    wID w = "leader" ∧ Slots w = jobs fl ∧ wLeases w = ∅ ∧ Completed w = 0.
Proof using Type.
  eexists. split_and!; [|done| | | |].
  - simpl. rewrite alter_app_r_alt, Nat.sub_diag by done. simpl. reflexivity.
  - done.
  - done.
  - done.
  - done.
Qed.

Lemma startRun_inv st tasks now :
  fleet_inv st → ready (flt st) = false → startable (srv st) tasks →
  fleet_inv (startRun fl st tasks now).2.
Proof using Type.
  intros Hi Hr (Hok & Hnd & Hst).
  destruct (not_ready _ (fi_lease _ Hi) (fi_count _ Hi) Hr) as (Hwk & Hh & Hl & Hfd).
  pose proof (startRun_work st tasks now Hwk) as Hwork.
  destruct (startRun_workers st tasks now) as (w & Hws & _ & _ & _ & Hlw & HCw).
  set (st' := (startRun fl st tasks now).2) in *.
  assert (Hh' : heap (flt st') = ∅) by done. assert (Hl' : leases (flt st') = ∅) by done.
  assert (Hfd' : fdone (flt st') = 0) by done. assert (Hn' : nextID (flt st') = nextID (flt st)) by done.
  assert (Hp' : pkgs (srv st') = pkgs (srv st)) by done. assert (Hr' : ready (flt st') = true) by done.
  clearbody st'.
  assert (Hin : ∀ ti t, work (flt st') !! ti = Some t → ∃ task, task ∈ tasks ∧ t = newTask (srv st) task).
  { intros ti t Ht%list_elem_of_lookup_2. rewrite Hwork, elem_of_sort_by in Ht.
    apply list_elem_of_fmap in Ht as (task & -> & ?). by exists task. }
  constructor; constructor.
  - rewrite Hn'. apply (li_next _ (fi_lease _ Hi)).
  - intros id l. by rewrite Hh'.
  - intros id. rewrite Hl'. set_solver.
  - intros wj u id Hu. rewrite Hl'. rewrite Hws in Hu.
    assert (wLeases u = ∅) as ->; [|set_solver].
    apply lookup_app_Some in Hu as [Hu|[_ Hu]].
    + pose proof (worker_leases_live _ _ _ (fi_lease _ Hi) Hu) as Hs. rewrite Hl in Hs. set_solver.
    + by apply list_lookup_singleton_Some in Hu as [_ <-].
  - intros ti t id (task & _ & ->)%Hin. rewrite Hl'. simpl. set_solver.
  - intros id id'. rewrite Hl'. set_solver.
  - intros ti t (task & _ & ->)%Hin. cbn [newTask fLeases]. rewrite size_empty. lia.
  - by apply (server_ok_pkgs (srv st)).
  - rewrite Hwork, sort_by_perm, <- list_fmap_compose. exact Hnd.
  - intros ti t (task & Htask & ->)%Hin. rewrite (statusOf_pkgs (srv st)) by done.
    destruct (Hst task Htask) as (ts & Hts & Hd & Hrn). exists ts. split_and!; [done|done|].
    intros _. by rewrite taskRunning_no_leases.
  - intros ti t (task & _ & ->)%Hin. done.
  - rewrite Hfd', Hwork. symmetry. clear. rewrite <- list_fmap_compose.
    assert (Hz : ∀ l : list fleetTask, (∀ t, t ∈ l → fDone t = false) → sumZ ((Z.b2z ∘ fDone) <$> l) = 0).
    { induction l as [|t l IH]; intros Hl; [done|]. rewrite fmap_cons. cbn [sumZ foldr].
      fold (sumZ ((Z.b2z ∘ fDone) <$> l)). rewrite IH by (intros; apply Hl; by right). simpl.
      by rewrite (Hl t) by left. }
    apply Hz. intros t Ht%elem_of_sort_by. by apply list_elem_of_fmap in Ht as (task & -> & _).
  - rewrite Hfd', Hws, fmap_app, sumZ_app, <- (ci_completed _ (fi_count _ Hi)), Hfd. simpl. by rewrite HCw.
  - by rewrite Hr'.
  - rewrite Hwork. apply estimates_sorted, sort_by_StronglySorted; apply _.
Qed.

Lemma stopRun_spec st now :
  fleet_inv st →
  ∃ st', stopRun st now = Some st' ∧ fleet_inv st' ∧ quiet_step st st' ∧ leases (flt st') = ∅ ∧
    stopped (flt st') = true ∧ length (workers (flt st')) = length (workers (flt st)) ∧
    (∀ wj w', workers (flt st') !! wj = Some w' → wLeases w' = ∅ ∧
      ∃ w, workers (flt st) !! wj = Some w ∧ eraseW w' = eraseW w) ∧ ready (flt st') = ready (flt st).
Proof using Type.
  intros Hi. unfold stopRun.
  set (st1 := st <| flt ::= λ f, f <| stopped := true |> |>).
  assert (Hi1 : fleet_inv st1).
  { destruct Hi as [[Hn Hb Hlv Hw Ht Hd H2] [Hok Hnd Hst] [Hcd Hcc Hcw Hcr Hco]].
    constructor; constructor; done. }
  destruct (fleet_inv_removeLeases st1 (leases (flt st1)) now Hi1) as (st' & -> & Hi' & Hl & Hfr & Hsr); [done|].
  destruct (flt_frame_sums _ _ Hfr) as (Hlw & _ & _ & _ & HD & HT & _).
  destruct (flt_frame_fields _ _ Hfr) as (_ & _ & _ & _ & Hrd & Hsp & _).
  assert (Hempty : leases (flt st') = ∅) by (rewrite Hl; set_solver).
  exists st'. split_and!; try done.
  intros wj w' Hw'. split.
  - pose proof (worker_leases_live _ _ _ (fi_lease _ Hi') Hw') as Hs. rewrite Hempty in Hs. set_solver.
  - destruct (flt_frame_worker _ _ wj w' (symmetry Hfr) Hw') as (w & Hw & He). by exists w.
Qed.
End steps.
