(* ===== verification/FleetSystem.v ===== *)
(** * Distributed runs

    A distributed run as a system of events: helpers join, report, ask for work
    and leave; the leader's own workers take and finish tests; the run starts,
    is cancelled, stops.  The events interleave in any order, and a helper may
    send anything. *)

From S2P Require Import Prelude GoStrings Flags Path Profile Utf8 Invocation GoFmt Args Sha256 Quote HistoryTypes TestCache Server Fleet FleetInv FleetCommit FleetSteps.

Record system := System {
  lead : leader;
  localW : option nat;     (** the leader's own worker, once the run has started *)
  locals : list localState; (** its goroutines *)
  ended : bool              (** [run] has withdrawn every lease *)
}.

#[export] Instance eta_system : Eta system := λ y,
  System (lead y) (localW y) (locals y) (ended y).

Inductive event :=
  | EvJoin (name : string) (slots : Z) (now : Time)
  | EvLeave (wi : nat) (err : option error) (now : Time)
  | EvResult (wi : nat) (r : workerResult) (now : Time)
  | EvPoll (wi : nat) (req : workerRequest) (now : Time)
  | EvStart (tasks : list testTask) (now : Time)
  | EvLocalAssign (k : nat) (now now' : Time)
  | EvLocalFinish (k : nat) (r : workerResult) (now : Time)
  | EvCancel
  | EvStop (now : Time)
  | EvShutdown.

Section system.
Context `{GoRuntime}.
Context (fl : flags).

(** A helper that has joined: not the leader's own worker. *)
Definition helper (y : system) (wi : nat) : Prop :=
  localW y ≠ Some wi ∧ is_Some (workers (flt (lead y)) !! wi).

(** When an event can happen. *)
Definition enabled (y : system) (e : event) : Prop :=
  match e with
  | EvJoin _ slots _ => 1 ≤ slots ≤ 1024 (** what [serveWorker] admits *)
  | EvLeave wi _ _ | EvResult wi _ _ | EvPoll wi _ _ => helper y wi
  | EvStart tasks _ => localW y = None ∧ ended y = false ∧ startable (srv (lead y)) tasks
  | EvLocalAssign k _ _ => locals y !! k = Some LocalIdle
  | EvLocalFinish k _ _ => ∃ id task, locals y !! k = Some (LocalExec id task)
  | EvCancel => True
  | EvStop _ => is_Some (localW y) ∧ ended y = false ∧
      allDone (flt (lead y)) || canceled (srv (lead y)) = true
  | EvShutdown => localW y = None ∨ ended y = true
  end.

(** What an event does; [None] would be a nil dereference. *)
Definition exec (y : system) (e : event) : option system :=
  match e with
  | EvJoin name slots now => Some (y <| lead := (addWorker (lead y) name slots false now).2 |>)
  | EvLeave wi err now => st ← disconnect (lead y) wi err now; Some (y <| lead := st |>)
  | EvResult wi r now => st ← accept fl (lead y) wi r now; Some (y <| lead := st |>)
  | EvPoll wi req now => '(_, st) ← exchangeLocked fl (lead y) wi req now; Some (y <| lead := st |>)
  | EvStart tasks now =>
      let '(wi, st) := startRun fl (lead y) tasks now in
      Some (System st (Some wi)
        (replicate (Z.to_nat (Z.min (jobs fl) (Z.of_nat (length tasks)))) LocalIdle) false)
  | EvLocalAssign k now now' =>
      wi ← localW y;
      '(ls, st) ← localAssign fl (lead y) wi now now';
      Some (y <| lead := st |> <| locals ::= <[k := ls]> |>)
  | EvLocalFinish k r now =>
      wi ← localW y;
      match locals y !! k with
      | Some (LocalExec id _) =>
          st ← accept fl (lead y) wi (r <| rLease := id |>) now;
          Some (y <| lead := st |> <| locals ::= <[k := LocalIdle]> |>)
      | _ => None
      end
  | EvCancel => Some (y <| lead ::= λ st, st <| srv ::= λ s, s <| canceled := true |> |> |>)
  | EvStop now => st ← stopRun (lead y) now; Some (y <| lead := st |> <| ended := true |>)
  | EvShutdown => Some (y <| lead ::= λ st, st <| flt ::= λ f, f <| stopped := true |> |> |>)
  end.

Inductive step (y : system) (e : event) (y' : system) : Prop :=
  | Step : enabled y e → exec y e = Some y' → step y e y'.

(** A run before anything happened: a consistent [Server] and an empty fleet. *)
Definition initial (y : system) : Prop :=
  ∃ s, server_ok s ∧ y = System (Leader s newFleet) None [] false.

Inductive reachable : system → Prop :=
  | reach_init y : initial y → reachable y
  | reach_step y e y' : reachable y → step y e y' → reachable y'.

(** ** The invariant *)

Record sys_inv (y : system) : Prop := {
  si_fleet : fleet_inv (lead y);
  si_unstarted : localW y = None → ready (flt (lead y)) = false;
  si_local : ∀ wi, localW y = Some wi →
    ∃ w, workers (flt (lead y)) !! wi = Some w ∧ wID w = "leader" ∧
      Z.of_nat (size (wLeases w)) ≤ Z.max 0 (jobs fl) ∧
      (canceled (srv (lead y)) = false →
        ∀ id, id ∈ wLeases w → ∃ k task, locals y !! k = Some (LocalExec id task));
  si_helper : ∀ wi w, workers (flt (lead y)) !! wi = Some w → localW y ≠ Some wi →
    wID w ≠ "leader" ∧ 1 ≤ Slots w ∧ Z.of_nat (size (wLeases w)) ≤ Slots w + 10;
  si_stopped : stopped (flt (lead y)) = true → leases (flt (lead y)) = ∅;
  si_jobs : Z.of_nat (length (locals y)) ≤ Z.max 0 (jobs fl);
  si_locals : localW y = None → locals y = [];
  si_ended : ended y = true → stopped (flt (lead y)) = true
}.

Lemma initial_inv y : initial y → sys_inv y.
Proof using Type.
  intros (s & Hok & ->). constructor; try done; simpl; [|lia].
  constructor.
  - constructor; simpl; try done; try set_solver.
  - constructor; [done|constructor|]. intros ti t Ht. simpl in Ht. by rewrite lookup_nil in Ht.
  - constructor; try done. simpl. constructor.
Qed.

(** A step that gives no worker more leases. *)
Lemma shrink_inv y st' ls :
  sys_inv y → fleet_inv st' → idSlots <$> workers (flt st') = idSlots <$> workers (flt (lead y)) →
  leases (flt st') ⊆ leases (flt (lead y)) → (∀ id, owner (flt st') id = owner (flt (lead y)) id) →
  ready (flt st') = ready (flt (lead y)) →
  stopped (flt st') = stopped (flt (lead y)) →
  (∀ wi w' id, localW y = Some wi → workers (flt st') !! wi = Some w' →
    canceled (srv st') = false → id ∈ wLeases w' → ∃ k task, ls !! k = Some (LocalExec id task)) →
  length ls = length (locals y) →
  sys_inv (y <| lead := st' |> <| locals := ls |>).
Proof using Type.
  intros [Hf Hu Hl Hh Hs Hj Hls Hend] Hf' Hids Hsub Ho Hrd Hst Hloc Hlen.
  assert (Hwk : ∀ wi w', workers (flt st') !! wi = Some w' →
    ∃ w, workers (flt (lead y)) !! wi = Some w ∧ wID w' = wID w ∧ Slots w' = Slots w ∧
      wLeases w' ⊆ wLeases w).
  { intros wi w' Hw'. pose proof Hids as Hid. apply (f_equal (.!! wi)) in Hid.
    rewrite !list_lookup_fmap, Hw' in Hid.
    destruct (workers (flt (lead y)) !! wi) as [w|] eqn:Hw; [|done]. injection Hid as Hid1 Hid2.
    exists w. split_and!; try done.
    by apply (wLeases_sub (flt (lead y)) (flt st') wi); [apply Hf|apply Hf'|..]. }
  assert (Hlenw : length (workers (flt st')) = length (workers (flt (lead y)))).
  { apply (f_equal length) in Hids. by rewrite !length_fmap in Hids. }
  constructor; simpl.
  - done.
  - rewrite Hrd. done.
  - intros wi Hwi. destruct (Hl wi Hwi) as (w & Hw & Hid & Hsz & _).
    assert (is_Some (workers (flt st') !! wi)) as [w' Hw'].
    { apply lookup_lt_is_Some. rewrite Hlenw. by eapply lookup_lt_Some. }
    destruct (Hwk wi w' Hw') as (w0 & Hw0 & Hid0 & _ & Hsz0). simplify_eq.
    apply subseteq_size in Hsz0. exists w'. split_and!; [done|congruence|lia|].
    intros Hc id. by apply (Hloc wi w').
  - intros wi w' Hw' Hne. destruct (Hwk wi w' Hw') as (w & Hw & Hid & Hsl & Hsz).
    destruct (Hh wi w Hw Hne) as (? & ? & ?). apply subseteq_size in Hsz. split_and!; [congruence|lia|lia].
  - rewrite Hst. intros Hs'%Hs. set_solver.
  - lia.
  - intros Hn. specialize (Hls Hn). destruct ls; [done|]. by rewrite Hls in Hlen.
  - by rewrite Hst.
Qed.

Lemma system_eta y st : y <| lead := st |> <| locals := locals y |> = y <| lead := st |>.
Proof using Type. done. Qed.

(** ** Every event is defined and keeps the invariant *)

Lemma join_inv y name slots now :
  sys_inv y → 1 ≤ slots ≤ 1024 →
  sys_inv (y <| lead := (addWorker (lead y) name slots false now).2 |>).
Proof using Type.
  intros [Hf Hu Hl Hh Hs Hj Hls Hend] Hsl. constructor; try done.
  - by apply addWorker_inv.
  - intros wi Hwi. destruct (Hl wi Hwi) as (w & Hw & Hid & Hsz & Hle). exists w.
    split_and!; [|done..]. simpl. by apply lookup_app_l_Some.
  - simpl. intros wi w Hw Hne. apply lookup_app_Some in Hw as [Hw|[_ Hw]]; [by apply (Hh wi)|].
    apply list_lookup_singleton_Some in Hw as [_ <-]. split_and!; [done|simpl; lia|].
    cbn [wLeases Slots]. rewrite size_empty. lia.
Qed.

Lemma leave_inv y wi err now :
  sys_inv y → helper y wi →
  ∃ st', disconnect (lead y) wi err now = Some st' ∧ sys_inv (y <| lead := st' |>) ∧ quiet_step (lead y) st'.
Proof using Type.
  intros Hy [Hne [w Hw]]. pose proof (si_fleet _ Hy) as Hf.
  destruct (disconnect_inv (lead y) wi w err now Hf Hw) as
    (st' & E & Hf' & Hl & Hsr & _ & Hids & Ho & HD & HT & Hsp & Hrd).
  exists st'. split_and!; [done| |by constructor]. rewrite <- system_eta.
  apply shrink_inv; try done.
  - rewrite Hl. set_solver.
  - intros id. apply Ho.
  - intros wj w' id Hwj Hw' Hc Hid. destruct (si_local _ Hy wj Hwj) as (w0 & Hw0 & _ & _ & Hex).
    apply Hex; [by rewrite <- (srv_frame_canceled _ _ Hsr)|].
    apply (wLeases_sub (flt (lead y)) (flt st') wj w0 w'); try done; [apply Hf|apply Hf'| |].
    + rewrite Hl. set_solver.
    + intros id'. apply Ho.
Qed.

(** What [accept] never changes: the workers' identities and the owners of
    leases; and it makes no lease. *)
Lemma accept_shrinks st st' wi w r :
  fleet_inv st → accept_case fl st st' wi w r →
  idSlots <$> workers (flt st') = idSlots <$> workers (flt st) ∧ leases (flt st') ⊆ leases (flt st) ∧
  (∀ id, owner (flt st') id = owner (flt st) id) ∧ ready (flt st') = ready (flt st) ∧
  stopped (flt st') = stopped (flt st) ∧ (canceled (srv st') = false → canceled (srv st) = false).
Proof using Type.
  intros Hi [-> _|_ _ Hl Hsr _ _ Hids Ho Hsp Hrd|l t _ _ _ _ _ Hc Hce].
  - by split_and!.
  - split_and!; try done; [rewrite Hl; set_solver|]. by rewrite (srv_frame_canceled _ _ Hsr).
  - destruct Hce. split_and!; try done; try naive_solver. rewrite ce_leases. set_solver.
Qed.

(** The lease a result was accepted for is gone, unless the result came too late
    to be looked at. *)
Lemma accept_releases st st' wi w w' r :
  fleet_inv st → fleet_inv st' → stopped (flt st) = false → canceled (srv st) = false →
  workers (flt st) !! wi = Some w → workers (flt st') !! wi = Some w' →
  accept_case fl st st' wi w r → rLease r ∉ wLeases w'.
Proof using Type.
  intros Hi Hi' Hs Hc Hw Hw' Hcase Hin.
  destruct (accept_shrinks _ _ _ _ _ Hi Hcase) as (_ & Hsub & Ho & _).
  assert (Hold : rLease r ∈ wLeases w).
  { by apply (wLeases_sub (flt st) (flt st') wi w w'); [apply Hi|apply Hi'|..]. }
  apply (worker_leases_live _ _ _ (fi_lease _ Hi') Hw') in Hin.
  destruct Hcase as [-> Hwhy|_ _ Hl _ _ _ _ _ _ _|l t Hr Hh Ht _ _ _ Hce].
  - destruct Hwhy as [?|[?|?]]; congruence.
  - rewrite Hl in Hin. set_solver.
  - rewrite (ce_leases _ _ _ _ _ _ Hce), elem_of_difference in Hin. destruct Hin as [Hin Hnin].
    apply Hnin, (li_task _ (fi_lease _ Hi) _ _ _ Ht). split; [done|]. unfold target. by rewrite Hh.
Qed.

Lemma result_inv y wi r now :
  sys_inv y → helper y wi →
  ∃ st' w, accept fl (lead y) wi r now = Some st' ∧ workers (flt (lead y)) !! wi = Some w ∧
    accept_case fl (lead y) st' wi w r ∧ sys_inv (y <| lead := st' |>).
Proof using Type.
  intros Hy [Hne [w Hw]]. pose proof (si_fleet _ Hy) as Hf.
  destruct (accept_spec fl (lead y) wi w r now Hf Hw) as (st' & E & Hf' & Hcase).
  destruct (accept_shrinks _ _ _ _ _ Hf Hcase) as (Hids & Hsub & Ho & Hrd & Hsp & Hcan).
  exists st', w. split_and!; try done. rewrite <- system_eta. apply shrink_inv; try done.
  intros wj w' id Hwj Hw' Hc Hid. destruct (si_local _ Hy wj Hwj) as (w0 & Hw0 & _ & _ & Hex).
  apply Hex; [by apply Hcan|].
  by apply (wLeases_sub (flt (lead y)) (flt st') wj w0 w'); [apply Hf|apply Hf'|..].
Qed.

Lemma poll_inv y wi req now :
  sys_inv y → helper y wi →
  ∃ res st', exchangeLocked fl (lead y) wi req now = Some (res, st') ∧
    quiet_step (lead y) st' ∧ sys_inv (y <| lead := st' |>).
Proof using Type.
  intros Hy [Hne [w Hw]]. destruct (si_helper _ Hy wi w Hw Hne) as (Hid & Hsl & Hsz).
  destruct (exchangeLocked_spec fl (lead y) wi w req now (si_fleet _ Hy) Hw) as
    (res & st' & w' & E & Hf' & Hq & Hw' & Hsl' & _ & _ & _ & Hbound & Hsp & _ & Hid' & Hoth & Hst & Hrd).
  exists res, st'. split_and!; [done|done|]. constructor; simpl.
  - done.
  - rewrite Hrd. apply (si_unstarted _ Hy).
  - intros wj Hwj. assert (wj ≠ wi) by congruence.
    rewrite Hoth, (srv_frame_canceled _ _ (qs_srv _ _ Hq)) by done. by apply (si_local _ Hy).
  - intros wj u Hu Hnj. destruct (decide (wj = wi)) as [->|Hni].
    + simplify_eq. split_and!; [congruence|lia|lia].
    + rewrite Hoth in Hu by done. by apply (si_helper _ Hy wj).
  - rewrite Hsp. intros Hs. rewrite (Hst Hs). by apply (si_stopped _ Hy).
  - apply (si_jobs _ Hy).
  - apply (si_locals _ Hy).
  - rewrite Hsp. apply (si_ended _ Hy).
Qed.

(** The leases the leader's goroutines execute. *)
Definition executing (ls : list localState) : list Z :=
  omap (λ l, match l with LocalExec id _ => Some id | _ => None end) ls.

Lemma executing_length ls : (length (executing ls) ≤ length ls)%nat.
Proof using Type. induction ls as [|[]]; simpl; lia. Qed.

Lemma executing_size (X : gset Z) ls :
  (∀ id, id ∈ X → ∃ k task, ls !! k = Some (LocalExec id task)) → (size X ≤ length ls)%nat.
Proof using Type.
  intros HX. etrans; [|apply executing_length].
  assert (HX' : X ⊆ list_to_set (executing ls)).
  { intros id (k & task & Hk)%HX. apply elem_of_list_to_set, list_elem_of_omap.
    exists (LocalExec id task). split; [by eapply list_elem_of_lookup_2|done]. }
  apply subseteq_size in HX'. etrans; [exact HX'|]. apply size_list_to_set_le.
Qed.

Lemma localAssign_not_canceled st wi now now' id task st' :
  canceled (srv st) = true → localAssign fl st wi now now' ≠ Some (LocalExec id task, st').
Proof using Type. intros Hc. unfold localAssign. by rewrite Hc, orb_true_r. Qed.

Lemma localAssign_inv y k now now' :
  sys_inv y → locals y !! k = Some LocalIdle →
  ∃ wi ls st', localW y = Some wi ∧ localAssign fl (lead y) wi now now' = Some (ls, st') ∧
    quiet_step (lead y) st' ∧ sys_inv (y <| lead := st' |> <| locals ::= <[k := ls]> |>).
Proof using Type.
  intros Hy Hk. destruct (localW y) as [wi|] eqn:Hwi.
  2: { by rewrite (si_locals _ Hy Hwi) in Hk. }
  destruct (si_local _ Hy wi Hwi) as (w & Hw & Hid & Hsz & Hex).
  destruct (localAssign_spec fl (lead y) wi w now now' (si_fleet _ Hy) Hw) as
    (ls & st' & w' & E & Hf' & Hq & Hw' & He & Hoth & Hsp & Hrd & Hcan & Hls).
  exists wi, ls, st'. split_and!; [done|done|done|].
  assert (Hex' : canceled (srv st') = false → ∀ id, id ∈ wLeases w' →
    ∃ k' task, <[k := ls]> (locals y) !! k' = Some (LocalExec id task)).
  { rewrite Hcan. intros Hc id Hid'.
    assert (Hold : id ∈ wLeases w → ∃ k' task, <[k := ls]> (locals y) !! k' = Some (LocalExec id task)).
    { intros (k' & task & Hk')%(Hex Hc). exists k', task. rewrite list_lookup_insert_ne; congruence. }
    destruct ls as [|nid ntask|].
    - subst st'. simplify_eq. auto.
    - destruct Hls as [_ Hnew]. destruct (Hnew id Hid') as [->|?]; [|auto].
      exists k, ntask. by apply list_lookup_insert_eq; eapply lookup_lt_Some.
    - destruct Hls as [-> _]. simplify_eq. auto. }
  assert (Hsz' : Z.of_nat (size (wLeases w')) ≤ Z.max 0 (jobs fl)).
  { destruct (canceled (srv st')) eqn:Hc.
    - destruct ls as [| |]; [by subst st'; simplify_eq| |by destruct Hls as [-> _]; simplify_eq].
      exfalso. by apply (localAssign_not_canceled (lead y) wi now now' id task st'); [congruence|].
    - pose proof (executing_size _ _ (Hex' eq_refl)) as Hb. rewrite length_insert in Hb.
      pose proof (si_jobs _ Hy). lia. }
  constructor; simpl.
  - done.
  - by rewrite Hwi.
  - rewrite Hwi. intros wj [= <-]. exists w'. split_and!; try done. rewrite <- Hid.
    change (wID w') with (wID (eraseW w')). by rewrite He.
  - rewrite Hwi. intros wj u Hu Hnj. rewrite Hoth in Hu by congruence. apply (si_helper _ Hy wj); congruence.
  - rewrite Hsp. intros Hs. destruct ls as [| |].
    + subst st'. by apply (si_stopped _ Hy).
    + destruct Hls as [Hns _]. congruence.
    + destruct Hls as [-> _]. by apply (si_stopped _ Hy).
  - rewrite length_insert. apply (si_jobs _ Hy).
  - by rewrite Hwi.
  - rewrite Hsp. apply (si_ended _ Hy).
Qed.

Lemma localFinish_inv y k r id task now :
  sys_inv y → locals y !! k = Some (LocalExec id task) →
  ∃ wi w st', localW y = Some wi ∧ workers (flt (lead y)) !! wi = Some w ∧
    accept fl (lead y) wi (r <| rLease := id |>) now = Some st' ∧
    accept_case fl (lead y) st' wi w (r <| rLease := id |>) ∧
    sys_inv (y <| lead := st' |> <| locals ::= <[k := LocalIdle]> |>).
Proof using Type.
  intros Hy Hk. destruct (localW y) as [wi|] eqn:Hwi.
  2: { by rewrite (si_locals _ Hy Hwi) in Hk. }
  pose proof (si_fleet _ Hy) as Hf.
  destruct (si_local _ Hy wi Hwi) as (w & Hw & Hid & Hsz & Hex).
  destruct (accept_spec fl (lead y) wi w (r <| rLease := id |>) now Hf Hw) as (st' & E & Hf' & Hcase).
  destruct (accept_shrinks _ _ _ _ _ Hf Hcase) as (Hids & Hsub & Ho & Hrd & Hsp & Hcan).
  exists wi, w, st'. split_and!; try done.
  change (y <| lead := st' |> <| locals ::= <[k := LocalIdle]> |>)
    with (y <| lead := st' |> <| locals := <[k := LocalIdle]> (locals y) |>).
  apply shrink_inv; try done; [|by rewrite length_insert].
  - rewrite Hwi. intros wj w' id' [= <-] Hw' Hc Hid'.
    assert (Hold : id' ∈ wLeases w).
    { by apply (wLeases_sub (flt (lead y)) (flt st') wi w w'); [apply Hf|apply Hf'|..]. }
    destruct (Hex (Hcan Hc) id' Hold) as (k' & task' & Hk'). exists k', task'.
    rewrite list_lookup_insert_ne; [done|]. intros <-. rewrite Hk in Hk'. injection Hk' as <- <-.
    destruct (stopped (flt (lead y))) eqn:Hs.
    + pose proof (si_stopped _ Hy Hs) as Hl0.
      apply (worker_leases_live _ _ _ (fi_lease _ Hf) Hw) in Hold. set_solver.
    + by apply (accept_releases (lead y) st' wi w w' (r <| rLease := id |>) Hf Hf' Hs (Hcan Hc)).
Qed.

Lemma start_inv y tasks now :
  sys_inv y → localW y = None → ended y = false → startable (srv (lead y)) tasks →
  sys_inv (System (startRun fl (lead y) tasks now).2 (Some (startRun fl (lead y) tasks now).1)
    (replicate (Z.to_nat (Z.min (jobs fl) (Z.of_nat (length tasks)))) LocalIdle) false).
Proof using Type.
  intros Hy Hn _ Hst. pose proof (si_fleet _ Hy) as Hf. pose proof (si_unstarted _ Hy Hn) as Hr.
  pose proof (startRun_inv fl (lead y) tasks now Hf Hr Hst) as Hf'.
  destruct (startRun_workers fl (lead y) tasks now) as (w & Hws & Hwi & Hid & Hsl & Hlw & _).
  destruct (not_ready _ (fi_lease _ Hf) (fi_count _ Hf) Hr) as (_ & _ & Hl & _).
  assert (Hl' : leases (flt (startRun fl (lead y) tasks now).2) = leases (flt (lead y))) by done.
  rewrite Hwi. set (st' := (startRun fl (lead y) tasks now).2) in *. clearbody st'.
  constructor; simpl.
  - done.
  - done.
  - intros wi [= <-]. exists w. split_and!.
    + rewrite Hws. by rewrite lookup_app_r, Nat.sub_diag by done.
    + done.
    + rewrite Hlw, size_empty. lia.
    + rewrite Hlw. set_solver.
  - intros wi u Hu Hne. rewrite Hws in Hu.
    apply lookup_app_Some in Hu as [Hu|[Hlen Hu]]; [apply (si_helper _ Hy wi); congruence|].
    apply list_lookup_singleton_Some in Hu as [Hz <-]. exfalso. apply Hne. f_equal. lia.
  - rewrite Hl'. done.
  - rewrite length_replicate. lia.
  - done.
  - done.
Qed.

Lemma stop_inv y now :
  sys_inv y → ∃ st', stopRun (lead y) now = Some st' ∧ quiet_step (lead y) st' ∧
    sys_inv (y <| lead := st' |> <| ended := true |>).
Proof using Type.
  intros Hy. destruct (stopRun_spec (lead y) now (si_fleet _ Hy)) as
    (st' & E & Hf' & Hq & Hl & Hsp & Hlen & Hws & Hrd).
  exists st'. split_and!; [done|done|]. constructor; simpl.
  - done.
  - rewrite Hrd. apply (si_unstarted _ Hy).
  - intros wi Hwi. destruct (si_local _ Hy wi Hwi) as (w & Hw & Hid & Hsz & _).
    assert (is_Some (workers (flt st') !! wi)) as [w' Hw'].
    { apply lookup_lt_is_Some. rewrite Hlen. by eapply lookup_lt_Some. }
    destruct (Hws wi w' Hw') as (He & w0 & Hw0 & He0). simplify_eq.
    exists w'. rewrite He, size_empty. split_and!; [done| |lia|set_solver].
    congruence.
  - intros wi w' Hw' Hne. destruct (Hws wi w' Hw') as (He & w & Hw & He0).
    destruct (si_helper _ Hy wi w Hw Hne) as (Hid & Hsl & Hsz). rewrite He, size_empty.
    pose proof (f_equal wID He0) as E1. pose proof (f_equal Slots He0) as E2. simpl in E1, E2.
    split_and!; [congruence|lia|simpl; lia].
  - done.
  - apply (si_jobs _ Hy).
  - apply (si_locals _ Hy).
  - done.
Qed.

Lemma cancel_inv y :
  sys_inv y → sys_inv (y <| lead ::= λ st, st <| srv ::= λ s, s <| canceled := true |> |> |>).
Proof using Type.
  intros [Hf Hu Hl Hh Hs Hj Hls Hend]. constructor; try done.
  - by apply (fleet_inv_srv (lead y)).
  - intros wi Hwi. destruct (Hl wi Hwi) as (w & Hw & Hid & Hsz & _). exists w. by split_and!.
Qed.

Lemma shutdown_inv y :
  sys_inv y → leases (flt (lead y)) = ∅ →
  sys_inv (y <| lead ::= λ st, st <| flt ::= λ f, f <| stopped := true |> |> |>).
Proof using Type.
  intros [Hf Hu Hl Hh Hs Hj Hls Hend] He. constructor; try done.
  destruct Hf as [[Hn Hb Hlv Hw Ht Hd H2] [Hok Hnd Hst] [Hcd Hcc Hcw Hcr Hco]].
  constructor; constructor; done.
Qed.

(** ** The abstract run

    To its users a distributed run is a table of verdicts: a test has none, and
    then, once, the verdict of some execution. *)

(** The verdict of the test at a queue position: its final status. *)
Definition verdict (s : Server) (t : fleetTask) : option testStatus :=
  if fDone t then eraseTest <$> statusOf s (fTask t) else None.

Definition verdicts (y : system) : list (option testStatus) :=
  verdict (srv (lead y)) <$> work (flt (lead y)).

(** The result [r] of worker [wi] is the first one for the test at position
    [ti], and comes from a lease the worker holds on it. *)
Inductive decides (y y' : system) (wi ti : nat) (r : workerResult) : Prop :=
  | Decides l t ts ts' :
      heap (flt (lead y)) !! rLease r = Some l → rLease r ∈ leases (flt (lead y)) →
      lWorker l = wi → lWork l = ti →
      work (flt (lead y)) !! ti = Some t → stopped (flt (lead y)) = false →
      canceled (srv (lead y)) = false →
      verdicts y !! ti = Some None →
      statusOf (srv (lead y)) (fTask t) = Some ts → statusOf (srv (lead y')) (fTask t) = Some ts' →
      committed r ts ts' →
      verdicts y' = <[ti := Some (eraseTest ts')]> (verdicts y) →
      decides y y' wi ti r.

Lemma quiet_verdicts st st' :
  quiet_step st st' →
  verdict (srv st') <$> work (flt st') = verdict (srv st) <$> work (flt st).
Proof using Type.
  intros [Hs Hd Ht]. apply list_eq. intros i. rewrite !list_lookup_fmap.
  apply (f_equal (.!! i)) in Hd. apply (f_equal (.!! i)) in Ht.
  rewrite !list_lookup_fmap in Hd. rewrite !list_lookup_fmap in Ht.
  destruct (work (flt st') !! i) as [t'|], (work (flt st) !! i) as [t|]; simplify_eq/=; [|done].
  f_equal. unfold verdict. rewrite Hd. destruct (fDone t); [|done].
  rewrite (srv_frame_status _ _ _ Hs). congruence.
Qed.

Lemma commit_verdicts st st' ti t r ts' :
  fleet_inv st → work (flt st) !! ti = Some t → commit_effect fl st st' ti t r →
  statusOf (srv st') (fTask t) = Some ts' →
  verdict (srv st') <$> work (flt st') = <[ti := Some (eraseTest ts')]> (verdict (srv st) <$> work (flt st)).
Proof using Type.
  intros Hi Ht Hce Hts'. apply list_eq. intros i.
  pose proof (ce_work _ _ _ _ _ _ Hce) as Hd. pose proof (ce_tasks _ _ _ _ _ _ Hce) as Hk.
  apply (f_equal (lookup i)) in Hd. apply (f_equal (lookup i)) in Hk.
  rewrite !list_lookup_fmap in Hk. rewrite list_lookup_fmap in Hd. rewrite list_lookup_fmap.
  destruct (decide (i = ti)) as [->|Hne].
  - assert (Hlt : (ti < length (work (flt st)))%nat) by (by eapply lookup_lt_Some).
    rewrite list_lookup_insert_eq in Hd by (by rewrite length_fmap).
    rewrite list_lookup_insert_eq by (by rewrite length_fmap).
    rewrite Ht in Hk. destruct (work (flt st') !! ti) as [t'|]; [|done].
    injection Hd as Hd. injection Hk as Hk. simpl. f_equal. unfold verdict. by rewrite Hd, Hk, Hts'.
  - rewrite list_lookup_insert_ne, list_lookup_fmap in Hd by done.
    rewrite list_lookup_insert_ne, list_lookup_fmap by done.
    destruct (work (flt st') !! i) as [u'|], (work (flt st) !! i) as [u|] eqn:Hu; simplify_eq/=; [|done].
    f_equal. unfold verdict. rewrite Hd, Hk. destruct (fDone u); [|done].
    apply (ce_other _ _ _ _ _ _ Hce). by apply (sync_key_ne st i u ti t); [apply Hi|..].
Qed.

Lemma accept_verdicts y wi w r st' ls :
  sys_inv y → workers (flt (lead y)) !! wi = Some w → accept_case fl (lead y) st' wi w r →
  let y' := System st' (localW y) ls (ended y) in
  verdicts y' = verdicts y ∨ ∃ ti, decides y y' wi ti r.
Proof using Type.
  intros Hy Hw Hcase y'. pose proof (si_fleet _ Hy) as Hf.
  destruct Hcase as [-> _|_ _ _ Hsr HD HT _ _ _ _|l t Hr Hh Ht Hd Hsp Hcan Hce].
  - by left.
  - left. apply quiet_verdicts. by constructor.
  - right. exists (lWork l). destruct (ce_status _ _ _ _ _ _ Hce) as (ts & ts' & Hts & Hts' & Hcm).
    apply (li_worker _ (fi_lease _ Hf) _ _ _ Hw) in Hr as [Hlive Ho]. unfold owner in Ho.
    rewrite Hh in Ho. injection Ho as Ho.
    apply (Decides y y' wi (lWork l) r l t ts ts'); try done.
    + unfold verdicts. rewrite list_lookup_fmap, Ht. simpl. unfold verdict. by rewrite Hd.
    + by apply (commit_verdicts (lead y) st' (lWork l) t r).
Qed.

(** ** What a step does *)

(** The result a step brings, with the worker it comes from. *)
Inductive brings (y : system) : event → nat → workerResult → Prop :=
  | BringsHelper wi r now : brings y (EvResult wi r now) wi r
  | BringsLocal k id task wi r now :
      locals y !! k = Some (LocalExec id task) → localW y = Some wi →
      brings y (EvLocalFinish k r now) wi (r <| rLease := id |>).

Inductive effect (y : system) (e : event) (y' : system) : Prop :=
  | EffQuiet :
      quiet_step (lead y) (lead y') → (ended y' = ended y ∨ ∃ now, e = EvStop now) → effect y e y'
  | EffCancel :
      verdicts y' = verdicts y → ended y' = ended y → canceled (srv (lead y')) = true →
      e = EvCancel → effect y e y'
  | EffStart tasks now :
      e = EvStart tasks now → ended y' = false →
      verdicts y' = replicate (length tasks) None →
      effect y e y'
  | EffAccept wi w r :
      brings y e wi r → workers (flt (lead y)) !! wi = Some w →
      accept_case fl (lead y) (lead y') wi w r → ended y' = ended y → effect y e y'.

Lemma start_verdicts y tasks now :
  work (flt (lead y)) = [] →
  verdict (srv (startRun fl (lead y) tasks now).2) <$> work (flt (startRun fl (lead y) tasks now).2) =
  replicate (length tasks) None.
Proof using Type.
  intros Hw. rewrite startRun_work by done. symmetry. apply replicate_as_Forall. split.
  - by rewrite length_fmap, length_sort_by, length_fmap.
  - apply Forall_fmap, Forall_forall. intros t Ht. rewrite elem_of_sort_by in Ht.
    by apply list_elem_of_fmap in Ht as (task & -> & _).
Qed.

(** Every enabled event is defined, keeps the invariant and has one of the four
    effects. *)
Lemma step_total y e :
  sys_inv y → enabled y e → ∃ y', exec y e = Some y' ∧ sys_inv y' ∧ effect y e y'.
Proof using Type.
  intros Hy He. destruct e; cbn [enabled exec] in *.
  - eexists. split; [reflexivity|]. split; [by apply join_inv|]. apply EffQuiet; [|by left]. by constructor.
  - destruct (leave_inv y wi err now Hy He) as (st' & -> & Hy' & Hq).
    eexists. split; [reflexivity|]. split; [done|]. apply EffQuiet; [done|by left].
  - destruct (result_inv y wi r now Hy He) as (st' & w & -> & Hw & Hcase & Hy').
    eexists. split; [reflexivity|]. split; [done|]. eapply EffAccept; try done. constructor.
  - destruct (poll_inv y wi req now Hy He) as (res & st' & -> & Hq & Hy').
    eexists. split; [reflexivity|]. split; [done|]. apply EffQuiet; [done|by left].
  - destruct He as (Hn & Hnd & Hst). pose proof (si_fleet _ Hy) as Hf.
    destruct (startRun fl (lead y) tasks now) as [wi st'] eqn:E.
    pose proof (start_inv y tasks now Hy Hn Hnd Hst) as Hy'. rewrite E in Hy'. simpl in Hy'.
    eexists. split; [reflexivity|]. split; [done|]. eapply EffStart; [done|done|].
    destruct (not_ready _ (fi_lease _ Hf) (fi_count _ Hf) (si_unstarted _ Hy Hn)) as (Hw & _).
    pose proof (start_verdicts y tasks now Hw) as Hv. by rewrite E in Hv.
  - destruct (localAssign_inv y k now now' Hy He) as (wi & ls & st' & -> & E & Hq & Hy').
    cbn [mbind option_bind]. rewrite E. eexists. split; [reflexivity|]. split; [done|].
    apply EffQuiet; [done|by left].
  - destruct He as (id & task & Hk).
    destruct (localFinish_inv y k r id task now Hy Hk) as (wi & w & st' & Hwi & Hw & E & Hcase & Hy').
    rewrite Hwi. cbn [mbind option_bind]. rewrite Hk, E. eexists. split; [reflexivity|]. split; [done|].
    eapply EffAccept; [by eapply BringsLocal|done|done|done].
  - eexists. split; [reflexivity|]. split; [by apply cancel_inv|].
    apply EffCancel; [|done|done|done].
    unfold verdicts. simpl. apply list_fmap_ext. intros i t Ht. unfold verdict.
    by rewrite (statusOf_pkgs (srv (lead y))).
  - destruct (stop_inv y now Hy) as (st' & -> & Hq & Hy').
    eexists. split; [reflexivity|]. split; [done|]. apply EffQuiet; [done|by right; eexists].
  - eexists. split; [reflexivity|].
    assert (leases (flt (lead y)) = ∅) as Hl.
    { destruct He as [Hn|Hend]; [|by apply (si_stopped _ Hy), (si_ended _ Hy)].
      pose proof (si_fleet _ Hy) as Hf.
      apply (not_ready _ (fi_lease _ Hf) (fi_count _ Hf) (si_unstarted _ Hy Hn)). }
    split; [by apply shutdown_inv|]. apply EffQuiet; [by constructor|by left].
Qed.

Lemma reachable_inv y : reachable y → sys_inv y.
Proof using Type.
  induction 1 as [y Hi|y e y' _ IH [He E]]; [by apply initial_inv|].
  destruct (step_total y e IH He) as (y1 & E1 & Hy1 & _). congruence.
Qed.

Lemma step_effect y e y' : reachable y → step y e y' → effect y e y'.
Proof using Type.
  intros Hr [He E]. destruct (step_total y e (reachable_inv _ Hr) He) as (y1 & E1 & _ & Heff). congruence.
Qed.
End system.
