(* ===== verification/FleetTheorems.v ===== *)
(** * What a distributed run guarantees *)

From S2P Require Import Prelude GoStrings Flags Path Profile Utf8 Invocation GoFmt Args Sha256 Quote HistoryTypes TestCache Server Fleet FleetInv FleetCommit FleetSteps FleetSystem.

Section lemmas.
Context `{GoRuntime}.
Context (fl : flags).

(** ** Counting verdicts *)

Lemma sum_bools (l : list bool) :
  0 ≤ sumZ (Z.b2z <$> l) ≤ Z.of_nat (length l) ∧
  (sumZ (Z.b2z <$> l) = Z.of_nat (length l) → ∀ b, b ∈ l → b = true).
Proof using Type.
  induction l as [|b l [IH1 IH2]]; cbn [fmap list_fmap sumZ foldr length].
  { split; [lia|]. intros _ b ?%not_elem_of_nil. done. }
  fold (sumZ (Z.b2z <$> l)). destruct b; simpl Z.b2z; (split; [lia|]).
  - intros Hs b [->|Hb]%elem_of_cons; [done|]. apply IH2; [lia|done].
  - intros Hs. lia.
Qed.

Lemma allDone_all st : fleet_inv st → allDone (flt st) = true →
  ∀ t, t ∈ work (flt st) → fDone t = true.
Proof using Type.
  intros Hi Hd t Ht. unfold allDone in Hd. apply Z.eqb_eq in Hd.
  rewrite (ci_fdone _ (fi_count _ Hi)), <- (length_fmap fDone (work (flt st))) in Hd.
  apply (proj2 (sum_bools _) Hd). by apply list_elem_of_fmap_2.
Qed.

(** No test is without a verdict. *)
Definition decided (y : system) : Prop := None ∉ verdicts y.

Lemma decided_iff y : sys_inv fl y →
  (decided y ↔ ∀ t, t ∈ work (flt (lead y)) → fDone t = true).
Proof using Type.
  intros Hy. unfold decided, verdicts. split.
  - intros Hn t Ht. destruct (fDone t) eqn:E; [done|]. exfalso. apply Hn.
    apply list_elem_of_fmap. exists t. split; [|done]. unfold verdict. by rewrite E.
  - intros Hd (t & Hv & Ht)%list_elem_of_fmap. pose proof (Hd t Ht) as Hdt.
    unfold verdict in Hv. rewrite Hdt in Hv.
    apply list_elem_of_lookup in Ht as [i Hi].
    destruct (sy_task _ (fi_sync _ (si_fleet _ _ Hy)) _ _ Hi) as (ts & Hts & _). by rewrite Hts in Hv.
Qed.

Lemma decided_count y : sys_inv fl y → (allDone (flt (lead y)) = true ↔ decided y).
Proof using Type.
  intros Hy. rewrite (decided_iff y Hy). split; [by apply allDone_all, Hy|].
  intros Hd. unfold allDone. apply Z.eqb_eq. rewrite (ci_fdone _ (fi_count _ (si_fleet _ _ Hy))).
  induction (work (flt (lead y))) as [|t l IH]; [done|].
  rewrite !fmap_cons. cbn [sumZ foldr length]. fold (sumZ (Z.b2z <$> (fDone <$> l))).
  rewrite IH by (intros; apply Hd; by right). rewrite (Hd t) by left. simpl. lia.
Qed.

(** ** After the run *)

Lemma ended_decided y : reachable fl y → ended y = true → canceled (srv (lead y)) = true ∨ decided y.
Proof using Type.
  induction 1 as [y (s & _ & ->)|y e y' Hr IH Hstep]; [done|]. intros Hend.
  pose proof (reachable_inv _ _ Hr) as Hy.
  assert (Hkeep : ended y = true → verdicts y' = verdicts y →
    (canceled (srv (lead y)) = true → canceled (srv (lead y')) = true) →
    canceled (srv (lead y')) = true ∨ decided y').
  { intros He Hv Hc. unfold decided. rewrite Hv. destruct (IH He); auto. }
  destruct (step_effect _ _ _ _ Hr Hstep) as
    [Hq [He|[now ->]]|Hv He Hc ->|tasks now -> He _|wi w r Hb Hw Hcase He]; [| |auto|congruence|].
  - apply Hkeep; [congruence|by apply quiet_verdicts|].
    by rewrite (srv_frame_canceled _ _ (qs_srv _ _ Hq)).
  - destruct Hstep as [(_ & _ & Hor) _]. rewrite (srv_frame_canceled _ _ (qs_srv _ _ Hq)).
    unfold decided, verdicts. rewrite (quiet_verdicts _ _ Hq).
    apply orb_prop in Hor as [Hd|?]; [right|by left]. by apply decided_count in Hd.
  - rewrite He in Hend. pose proof (si_ended _ _ Hy Hend) as Hs.
    destruct Hcase as [E _|_ _ _ Hsr HD HT _ _ _ _|l t _ _ _ _ Hns _ _]; [| |congruence].
    + apply Hkeep; [done| |]; unfold verdicts; by rewrite E.
    + apply Hkeep; [done| |by rewrite (srv_frame_canceled _ _ Hsr)].
      by apply quiet_verdicts; constructor.
Qed.

Lemma numFails_nonneg s name ps : server_ok s → pkgs s !! name = Some ps → 0 ≤ numFails ps.
Proof using Type.
  intros Hok Hps. rewrite (po_fails _ (map_Forall_lookup_1 _ _ _ _ Hok Hps)). apply map_count_nonneg.
Qed.

Lemma no_failures (m : gmap string packageStatus) :
  map_Forall (λ _ ps, 0 ≤ numFails ps) m → map_fold (λ _ ps acc, numFails ps + acc) 0 m = 0 →
  map_Forall (λ _ ps, numFails ps = 0) m.
Proof using Type.
  intros Hm.
  assert (Hgen : 0 ≤ map_fold (λ _ ps acc, numFails ps + acc) 0 m ∧
    (map_fold (λ _ ps acc, numFails ps + acc) 0 m = 0 → map_Forall (λ _ ps, numFails ps = 0) m)); [|tauto].
  induction m as [|i x m Hi IH] using map_ind.
  { rewrite map_fold_empty. split; [lia|]. intros _. apply map_Forall_empty. }
  apply map_Forall_insert in Hm as [Hx Hm]; [|done]. destruct (IH Hm) as [IH1 IH2].
  rewrite map_fold_insert_L by (done || (intros; lia)). split; [lia|]. intros Hz. apply map_Forall_insert; [done|]. split; [lia|].
  apply IH2. lia.
Qed.

Lemma map_count_zero `{Countable K} {A} (P : A → bool) (m : gmap K A) k x :
  map_count P m = 0 → m !! k = Some x → P x = false.
Proof using Type.
  intros Hc Hk. destruct (P x) eqn:E; [|done]. exfalso.
  pose proof (map_count_delete P m k x Hk) as Hd. rewrite E in Hd.
  pose proof (map_count_nonneg P (delete k m)). lia.
Qed.
End lemmas.

(** ** A small distributed run, for the witnesses

    Two tests; the leader's run starts, a helper joins, is given work and
    reports a pass; the leader's own worker takes and fails the other test. *)

Definition after (fl : flags) (y : system) (e : event) : system :=
  default y (@exec testRuntime fl y e).

Lemma step_after (fl : flags) y e :
  @reachable testRuntime fl y → enabled y e → @step testRuntime fl y e (after fl y e).
Proof.
  intros Hr He. destruct (@step_total testRuntime fl y e) as (y' & E & _);
    [exact (@reachable_inv testRuntime fl y Hr)|done|].
  split; [exact He|]. unfold after. by rewrite E.
Qed.

Lemma reachable_after (fl : flags) y e :
  @reachable testRuntime fl y → enabled y e → @reachable testRuntime fl (after fl y e).
Proof. intros Hr He. eapply reach_step; [exact Hr|by apply step_after]. Qed.

Definition ex0 : system := System (Leader exampleServer newFleet) None [] false.
Definition exTasks : list testTask := [exampleTask "TestA"; exampleTask "TestB"].
Definition exStart : event := EvStart exTasks 10.
Definition exJoin : event := EvJoin "vm" 1 11.
Definition exPoll : event := EvPoll 1 (WorkerRequest [] [] []) 12.
Definition passResult (id : Z) : workerResult :=
  WorkerResult id true false 5 1 0 [] ∅ [] "" false.
Definition exResult : event := EvResult 1 (passResult 1) 13.
Definition ex1 : system := after exampleFlags ex0 exStart.
Definition ex2 : system := after exampleFlags ex1 exJoin.
Definition ex3 : system := after exampleFlags ex2 exPoll.
Definition ex4 : system := after exampleFlags ex3 exResult.

Lemma ex0_reachable : @reachable testRuntime exampleFlags ex0.
Proof. apply reach_init. exists exampleServer. split; [exact exampleServer_ok|done]. Qed.

Lemma exStart_enabled : enabled ex0 exStart.
Proof.
  split; [done|]. split; [done|]. split; [exact exampleServer_ok|]. split.
  - vm_compute. repeat constructor; set_solver.
  - intros task Ht. exists exampleStatus. apply list_elem_of_In in Ht. simpl in Ht.
    destruct Ht as [<-|[<-|[]]]; split; try (vm_compute; reflexivity); done.
Qed.

Lemma ex1_reachable : @reachable testRuntime exampleFlags ex1.
Proof. apply reachable_after; [exact ex0_reachable|exact exStart_enabled]. Qed.

Lemma ex2_reachable : @reachable testRuntime exampleFlags ex2.
Proof. apply reachable_after; [exact ex1_reachable|]. simpl. lia. Qed.

Lemma ex2_helper : helper ex2 1.
Proof. split; [by vm_compute|]. eexists. vm_compute. reflexivity. Qed.

Lemma ex3_reachable : @reachable testRuntime exampleFlags ex3.
Proof. apply reachable_after; [exact ex2_reachable|exact ex2_helper]. Qed.

Lemma ex3_helper : helper ex3 1.
Proof. split; [by vm_compute|]. eexists. vm_compute. reflexivity. Qed.

Lemma ex4_reachable : @reachable testRuntime exampleFlags ex4.
Proof. apply reachable_after; [exact ex3_reachable|exact ex3_helper]. Qed.

(** ** Properties *)

(** C13: in every reachable state of a distributed run, every event that can
    happen is defined: whatever helpers join, send, ask for or abandon, and in
    whatever order, the leader dereferences no missing package, test, worker or
    lease. *)
Theorem fleet_no_panic `{GoRuntime} fl y e :
  reachable fl y → enabled y e → is_Some (exec fl y e).
Proof.
  intros Hr He. destruct (step_total fl y e (reachable_inv fl y Hr) He) as (y' & E & _). by exists y'.
Qed.

Lemma fleet_no_panic_witness :
  is_Some (@exec testRuntime exampleFlags ex3 exResult).
Proof. apply (@fleet_no_panic testRuntime exampleFlags ex3 exResult ex3_reachable ex3_helper). Defined.

(** C11: the leases are consistent in every reachable state: the leases of a
    worker and of a test are exactly the live leases that name it; a test has at
    most two of them, on two different workers, and none once it is done; and
    there are none at all once the run has stopped. *)
Theorem fleet_leases_consistent `{GoRuntime} fl y :
  reachable fl y →
  let f := flt (lead y) in
  (∀ wi w id, workers f !! wi = Some w → (id ∈ wLeases w ↔ id ∈ leases f ∧ owner f id = Some wi)) ∧
  (∀ ti t id, work f !! ti = Some t → (id ∈ fLeases t ↔ id ∈ leases f ∧ target f id = Some ti)) ∧
  (∀ ti t, work f !! ti = Some t → (size (fLeases t) ≤ 2)%nat ∧
    (∀ id id', id ∈ fLeases t → id' ∈ fLeases t → id ≠ id' → owner f id ≠ owner f id') ∧
    (fDone t = true → fLeases t = ∅)) ∧
  (stopped f = true → leases f = ∅).
Proof.
  intros Hr f. pose proof (reachable_inv fl y Hr) as Hy.
  destruct (si_fleet _ _ Hy) as [Hl _ Hc]. fold f in Hl, Hc. split_and!.
  - apply (li_worker _ Hl).
  - apply (li_task _ Hl).
  - intros ti t Ht. split_and!; [by apply (li_two _ Hl ti)| |by apply (ci_done _ Hc ti)].
    intros id id' [Hin Htg]%(li_task _ Hl _ _ _ Ht) [Hin' Htg']%(li_task _ Hl _ _ _ Ht) Hne Ho.
    apply Hne, (li_distinct _ Hl); congruence.
  - apply (si_stopped _ _ Hy).
Qed.

Lemma fleet_leases_consistent_witness :
  ∃ t, work (flt (lead ex3)) !! 0%nat = Some t ∧ (size (fLeases t) ≤ 2)%nat.
Proof.
  destruct (work (flt (lead ex3)) !! 0%nat) as [t|] eqn:E; [|vm_compute in E; discriminate E].
  destruct (@fleet_leases_consistent testRuntime exampleFlags ex3 ex3_reachable) as (_ & _ & H & _).
  exists t. exact (conj eq_refl (proj1 (H 0%nat t E))).
Defined.

(** C2: refinement.  To its users a distributed run is a table of verdicts,
    and a step either leaves the table alone, or starts the run with no verdict
    for any test, or gives one test that had none the outcome of the result just
    received, which is from a live lease the reporting worker holds on that
    test. *)
Theorem fleet_refinement `{GoRuntime} fl y e y' :
  reachable fl y → step fl y e y' →
  verdicts y' = verdicts y ∨
  (∃ tasks now, e = EvStart tasks now ∧ verdicts y' = replicate (length tasks) None) ∨
  (∃ wi ti r, brings y e wi r ∧ decides y y' wi ti r).
Proof.
  intros Hr Hstep. pose proof (reachable_inv fl y Hr) as Hy.
  destruct (step_effect fl _ _ _ Hr Hstep) as
    [Hq _|Hv _ _ _|tasks now -> _ Hv|wi w r Hb Hw Hcase He].
  - left. by apply quiet_verdicts.
  - by left.
  - right. left. by exists tasks, now.
  - destruct (accept_verdicts fl y wi w r (lead y') (locals y') Hy Hw Hcase) as [Hv|[ti Hd]].
    + left. exact Hv.
    + right. right. exists wi, ti, r. split; [done|]. destruct Hd. by econstructor.
Qed.

Lemma fleet_refinement_witness :
  verdicts ex4 = verdicts ex3 ∨
  (∃ tasks now, exResult = EvStart tasks now ∧ verdicts ex4 = replicate (length tasks) None) ∨
  (∃ wi ti r, brings ex3 exResult wi r ∧ decides ex3 ex4 wi ti r).
Proof.
  apply (@fleet_refinement testRuntime exampleFlags ex3 exResult ex4 ex3_reachable).
  split; [exact ex3_helper|]. vm_compute. reflexivity.
Defined.

(** Steps in sequence. *)
Definition steps `{GoRuntime} (fl : flags) : system → system → Prop := rtc (λ y y', ∃ e, step fl y e y').

Lemma reachable_steps `{GoRuntime} fl y y' : reachable fl y → steps fl y y' → reachable fl y'.
Proof. intros Hr Hs. induction Hs as [|y y1 y' [e He] _ IH]; [done|]. apply IH. by eapply reach_step. Qed.

(** C12: the first result wins, for good: once a test has a verdict, no later
    event of the run changes it, whatever duplicate executions report. *)
Theorem fleet_verdict_final `{GoRuntime} fl y y' ti v :
  reachable fl y → steps fl y y' →
  verdicts y !! ti = Some (Some v) → verdicts y' !! ti = Some (Some v).
Proof.
  intros Hr Hs. revert Hr. induction Hs as [|y y1 y' [e He] _ IH]; [done|]. intros Hr Hv.
  apply IH; [by eapply reach_step|]. pose proof (reachable_inv fl y Hr) as Hy.
  destruct (step_effect fl _ _ _ Hr He) as
    [Hq _|Hv' _ _ _|tasks now -> _ _|wi w r Hb Hw Hcase Hend].
  - unfold verdicts. by rewrite (quiet_verdicts _ _ Hq).
  - by rewrite Hv'.
  - destruct He as [(Hn & _) _]. pose proof (si_fleet _ _ Hy) as Hf.
    destruct (not_ready _ (fi_lease _ Hf) (fi_count _ Hf) (si_unstarted _ _ Hy Hn)) as (Hwk & _).
    unfold verdicts in Hv. by rewrite Hwk in Hv.
  - destruct (accept_verdicts fl y wi w r (lead y1) (locals y1) Hy Hw Hcase) as [Hv1|[tj Hd]].
    + etrans; [|exact Hv]. exact (f_equal (lookup ti) Hv1).
    + destruct Hd as [l t ts ts' _ _ _ _ _ _ _ Hnone _ _ _ Hv1].
      etrans; [exact (f_equal (lookup ti) Hv1)|].
      rewrite list_lookup_insert_ne; [done|]. intros ->. congruence.
Qed.

(** A late failure report for the test that has passed. *)
Definition exLate : event := EvResult 1 ((passResult 1) <| rPassed := false |>) 14.
Definition exVerdict : testStatus := default zeroTestStatus (mjoin (verdicts ex4 !! 0%nat)).

Lemma exLate_enabled : enabled ex4 exLate.
Proof. split; [by vm_compute|]. eexists. vm_compute. reflexivity. Qed.

Lemma fleet_verdict_final_witness :
  passed exVerdict = true ∧
  verdicts (after exampleFlags ex4 exLate) !! 0%nat = Some (Some exVerdict).
Proof.
  split; [vm_compute; reflexivity|].
  apply (@fleet_verdict_final testRuntime exampleFlags ex4 _ 0 exVerdict ex4_reachable).
  - apply rtc_once. exists exLate. exact (step_after _ _ _ ex4_reachable exLate_enabled).
  - vm_compute. reflexivity.
Defined.

(** A run that returns no error was not canceled and has no failed test. *)
Lemma runResult_passed st :
  server_ok (srv st) → runResult st = None →
  canceled (srv st) = false ∧ ∀ task ts, statusOf (srv st) task = Some ts → done ts = true → passed ts = true.
Proof.
  intros Hok Hres. unfold runResult in Hres. destruct (Join_errors _); [done|]. destruct (negb _) eqn:Efail; [done|].
  destruct (canceled (srv st)); [done|]. split; [done|]. apply negb_false_iff, Z.eqb_eq in Efail.
  intros task ts Hts Hdone. unfold statusOf in Hts. apply fmap_Some in Hts as ([ps ts0] & [Hps Hl]%testAt_Some & ->). cbn [snd] in Hdone |- *.
  assert (Hz : numFails ps = 0).
  { refine (map_Forall_lookup_1 _ _ _ _ (no_failures _ _ Efail) Hps). intros name ps' Hps'. by apply (numFails_nonneg (srv st) name). }
  rewrite (po_fails _ (map_Forall_lookup_1 _ _ _ _ Hok Hps)) in Hz.
  pose proof (map_count_zero _ _ _ _ Hz Hl) as Hnf. unfold failedTest in Hnf. rewrite Hdone in Hnf. by apply negb_false_iff in Hnf.
Qed.

(** The verdicts of a run that has ended and was not canceled are all there. *)
Lemma ended_done `{GoRuntime} fl y t :
  reachable fl y → ended y = true → canceled (srv (lead y)) = false → t ∈ work (flt (lead y)) →
  ∃ ts, statusOf (srv (lead y)) (fTask t) = Some ts ∧ done ts = true.
Proof.
  intros Hr Hend Hc Ht. pose proof (reachable_inv fl y Hr) as Hy. destruct (ended_decided fl y Hr Hend) as [?|Hd]; [congruence|].
  pose proof (proj1 (decided_iff fl y Hy) Hd t Ht) as Hdt. apply list_elem_of_lookup in Ht as [ti Ht].
  destruct (sy_task _ (fi_sync _ (si_fleet _ _ Hy)) _ _ Ht) as (ts & Hts & Hdone & _). exists ts. by rewrite Hdt in Hdone.
Qed.

(** a distributed run that succeeds ran everything: when [run] has stopped
    and returns no error, every test of the queue is done and passed. *)
Theorem fleet_success_complete `{GoRuntime} fl y :
  reachable fl y → ended y = true → runResult (lead y) = None →
  ∀ t, t ∈ work (flt (lead y)) →
    ∃ ts, statusOf (srv (lead y)) (fTask t) = Some ts ∧ done ts = true ∧ passed ts = true.
Proof.
  intros Hr Hend Hres t Ht. destruct (runResult_passed (lead y) (sy_ok _ (fi_sync _ (si_fleet _ _ (reachable_inv fl y Hr)))) Hres) as [Hc Hp].
  destruct (ended_done fl y t Hr Hend Hc Ht) as (ts & Hts & Hd). exists ts. split_and!; [done|done|by apply (Hp (fTask t))].
Qed.

Definition ex5 : system := after exampleFlags ex4 (EvPoll 1 (WorkerRequest [] [] []) 14).
Definition ex6 : system := after exampleFlags ex5 (EvResult 1 (passResult 2) 15).
Definition ex7 : system := after exampleFlags ex6 (EvStop 16).

Lemma ex7_reachable : @reachable testRuntime exampleFlags ex7.
Proof.
  apply reachable_after; [|split; [eexists; vm_compute; reflexivity|split; vm_compute; reflexivity]].
  apply reachable_after; [|split; [by vm_compute|eexists; vm_compute; reflexivity]].
  apply reachable_after; [|split; [by vm_compute|eexists; vm_compute; reflexivity]].
  exact ex4_reachable.
Qed.

Lemma fleet_success_complete_witness :
  ∃ t ts, work (flt (lead ex7)) !! 1%nat = Some t ∧
    statusOf (srv (lead ex7)) (fTask t) = Some ts ∧ done ts = true ∧ passed ts = true.
Proof.
  destruct (work (flt (lead ex7)) !! 1%nat) as [t|] eqn:E; [|vm_compute in E; discriminate E].
  destruct (@fleet_success_complete testRuntime exampleFlags ex7 ex7_reachable) with (t := t) as (ts & Hts).
  - vm_compute. reflexivity.
  - vm_compute. reflexivity.
  - exact (list_elem_of_lookup_2 _ _ _ E).
  - exists t, ts. exact (conj eq_refl Hts).
Defined.

(** the counters count: in every reachable state the number of completed
    tests is the number of tests with a verdict and the sum of what the workers
    completed, so that the run is taken to be complete exactly when every test
    has a verdict. *)
Theorem fleet_counts `{GoRuntime} fl y :
  reachable fl y →
  let f := flt (lead y) in
  fdone f = Z.of_nat (length (filter (λ v, v ≠ None) (verdicts y))) ∧
  fdone f = sumZ (Completed <$> workers f) ∧
  (allDone f = true ↔ None ∉ verdicts y).
Proof.
  intros Hr f. pose proof (reachable_inv fl y Hr) as Hy. pose proof (si_fleet _ _ Hy) as Hf.
  split_and!; [|apply (ci_completed _ (fi_count _ Hf))|by apply (decided_count fl)].
  unfold f. rewrite (ci_fdone _ (fi_count _ Hf)). unfold verdicts. clear f.
  assert (Hall : ∀ t, t ∈ work (flt (lead y)) →
    (verdict (srv (lead y)) t ≠ None ↔ fDone t = true)).
  { intros t Ht. apply list_elem_of_lookup in Ht as [ti Ht].
    destruct (sy_task _ (fi_sync _ Hf) _ _ Ht) as (ts & Hts & _). unfold verdict.
    rewrite Hts. destruct (fDone t); simpl; naive_solver. }
  induction (work (flt (lead y))) as [|t l IH]; [done|].
  rewrite !fmap_cons, filter_cons. cbn [sumZ foldr]. fold (sumZ (Z.b2z <$> (fDone <$> l))).
  rewrite IH by (intros; apply Hall; by right).
  pose proof (Hall t ltac:(left)) as Ht. case_decide as E.
  - rewrite (proj1 Ht E). simpl length. simpl Z.b2z. lia.
  - destruct (fDone t); [naive_solver|]. simpl Z.b2z. lia.
Qed.

Lemma fleet_counts_witness : allDone (flt (lead ex4)) = true ↔ None ∉ verdicts ex4.
Proof. apply (@fleet_counts testRuntime exampleFlags ex4 ex4_reachable). Defined.

(** what a worker is given is bounded.  A response carries at most ten
    tests, none once the run is over or the worker has failed, and cancels only
    leases the worker does not hold; a helper never holds more than ten leases
    beyond its slots, and the leader's own worker never more than [-j]. *)
Theorem fleet_bounds `{GoRuntime} fl y :
  reachable fl y →
  (∀ wi req now res st', helper y wi → exchangeLocked fl (lead y) wi req now = Some (res, st') →
    (length (Work res) ≤ 10)%nat ∧ (Done res = true → Work res = []) ∧
    ∀ w id, workers (flt (lead y)) !! wi = Some w →
      (wError w ≠ "" → Work res = []) ∧ (id ∈ Cancel res → id ∉ wLeases w)) ∧
  (∀ wi w, workers (flt (lead y)) !! wi = Some w →
    if decide (localW y = Some wi) then Z.of_nat (size (wLeases w)) ≤ Z.max 0 (jobs fl)
    else Z.of_nat (size (wLeases w)) ≤ Slots w + 10).
Proof.
  intros Hr. pose proof (reachable_inv fl y Hr) as Hy. split.
  - intros wi req now res st' [_ [w Hw]] E.
    destruct (exchangeLocked_spec fl (lead y) wi w req now (si_fleet _ _ Hy) Hw) as
      (res' & st1 & w' & E' & _ & _ & _ & _ & Hlen & Hdone & _ & _ & _ & Hcancel & _).
    rewrite E in E'. injection E' as <- <-. split_and!; [done|auto|].
    intros w0 id Hw0. rewrite Hw in Hw0. injection Hw0 as <-. auto.
  - intros wi w Hw. case_decide as Hwi.
    + destruct (si_local _ _ Hy wi Hwi) as (w0 & Hw0 & _ & Hsz & _). rewrite Hw in Hw0. by injection Hw0 as <-.
    + by apply (si_helper _ _ Hy wi).
Qed.

Lemma fleet_bounds_witness :
  ∃ w, workers (flt (lead ex3)) !! 1%nat = Some w ∧ Z.of_nat (size (wLeases w)) ≤ Slots w + 10.
Proof.
  destruct (workers (flt (lead ex3)) !! 1%nat) as [w|] eqn:E; [|vm_compute in E; discriminate E].
  exists w. split; [reflexivity|].
  pose proof (proj2 (@fleet_bounds testRuntime exampleFlags ex3 ex3_reachable) 1%nat w E) as H.
  rewrite decide_False in H by (vm_compute; discriminate). exact H.
Defined.

(** ** The choice of work *)

(** The position of an eligible test among the eligible ones is the number of
    fresh tests before it. *)
Lemma eligible_index ts : ∀ i m j t,
  eligible i ts !! m = Some (j, t) →
  ∃ k, j = (i + k)%nat ∧ ts !! k = Some t ∧ length (filter (λ u, fresh u = true) (take k ts)) = m.
Proof.
  induction ts as [|u ts IH]; intros i m j t; cbn [eligible]; [by rewrite lookup_nil|].
  destruct (fresh u) eqn:Eu.
  - destruct m as [|m]; cbn [lookup list_lookup].
    + intros [= <- <-]. exists 0%nat. by rewrite Nat.add_0_r.
    + intros (k & -> & Hk & Hl)%IH. exists (S k). rewrite Nat.add_succ_comm. split_and!; [done|done|].
      cbn [take firstn]. rewrite filter_cons_True by done. simpl. by rewrite Hl.
  - intros (k & -> & Hk & Hl)%IH. exists (S k). rewrite Nat.add_succ_comm. split_and!; [done|done|].
    cbn [take firstn]. rewrite filter_cons_False by congruence. done.
Qed.

Lemma eligible_head_longest ts i j t el :
  StronglySorted (λ a b, b ≤ a) (estimate <$> ts) → eligible i ts = (j, t) :: el →
  ∀ u, u ∈ ts → fresh u = true → estimate u ≤ estimate t.
Proof.
  revert i. induction ts as [|v ts IH]; intros i Hs; cbn [eligible]; [done|].
  rewrite fmap_cons in Hs. apply StronglySorted_inv in Hs as [Hs Hv].
  destruct (fresh v) eqn:Ev.
  - intros [= <- <- _] u [->|Hu]%elem_of_cons _; [done|].
    rewrite Forall_fmap, Forall_forall in Hv. exact (Hv u Hu).
  - intros E u [->|Hu]%elem_of_cons Hf; [congruence|]. by apply (IH (S i)).
Qed.

Lemma quot5 a : ∃ q r, a = 5 * q + r ∧ divT a 5 = q ∧ ((0 ≤ a ∧ 0 ≤ r < 5) ∨ (a < 0 ∧ -5 < r ≤ 0)).
Proof.
  exists (Z.quot a 5), (Z.rem a 5). split_and!; [apply Z.quot_rem'|done|].
  destruct (Z.le_gt_cases 0 a) as [Ha|Ha]; [left|right]; split; try done.
  - by apply Z.rem_bound_pos.
  - apply (Z.rem_bound_pos_neg a 5); lia.
Qed.

Lemma four_fifths_mono a b : a ≤ b → a - divT a 5 ≤ b - divT b 5.
Proof.
  destruct (quot5 a) as (qa & ra & Ha & -> & ?), (quot5 b) as (qb & rb & Hb & -> & ?). lia.
Qed.

(** the choice of work.  [nextLocked] takes fresh work before speculative
    copies.  The fresh test it picks jumps over at most four fresh tests ahead of
    it in the slowest-first queue, and its estimate is at least four fifths of
    that of any fresh test, or the largest of all; a copy is made only of a test that is not done, whose
    only lease is another worker's and has been out for more than ten seconds and
    more than three times the estimate. *)
Theorem nextLocked_choice `{GoRuntime} fl y wi now ti :
  reachable fl y → nextLocked (flt (lead y)) wi now = Some ti →
  let f := flt (lead y) in
  ∃ t, work f !! ti = Some t ∧
    ((fresh t = true ∧ (length (filter (λ u, fresh u = true) (take ti (work f))) ≤ 4)%nat ∧
      ((∀ u, u ∈ work f → fresh u = true → estimate u - divT (estimate u) 5 ≤ estimate t) ∨
       (∀ u, u ∈ work f → fresh u = true → estimate u ≤ estimate t))) ∨
     ((∀ u, u ∈ work f → fresh u = false) ∧ fDone t = false ∧
      ∃ id l, fLeases t = {[id]} ∧ heap f !! id = Some l ∧ lWorker l ≠ wi ∧
        10 * Second < Sub now (assigned l) ∧ i64 (3 * estimate t) < Sub now (assigned l))).
Proof.
  intros Hr Hn f. pose proof (si_fleet _ _ (reachable_inv fl y Hr)) as Hf.
  pose proof (ci_sorted _ (fi_count _ Hf)) as Hsort. fold f in Hn, Hsort.
  unfold nextLocked in Hn. destruct (workers f !! wi) as [w|]; [|done]. cbn [mbind option_bind] in Hn.
  rewrite nextFresh_spec in Hn. destruct (chooseFresh w (work f)) as [i|] eqn:Ec.
  - injection Hn as ->. unfold chooseFresh in Ec.
    destruct (eligible 0 (work f)) as [|[j0 t0] el] eqn:Eel; [done|].
    pose proof (eligible_head_longest _ _ _ _ _ Hsort Eel) as Hlong.
    assert (∃ m t, eligible 0 (work f) !! m = Some (ti, t) ∧ (m ≤ 4)%nat ∧
      (estimate t0 - divT (estimate t0) 5 ≤ estimate t ∨ t = t0)) as (m & t & Hm & Hm4 & Hest).
    { destruct (List.find _ _) as [[j t]|] eqn:Efind; injection Ec as <-.
      - apply List.find_some in Efind as [Hin Ha].
        apply list_elem_of_In, elem_of_take in Hin as (m & Hm & Hlt).
        exists m, t. rewrite Eel. split_and!; [done|lia|].
        apply andb_prop in Ha as [_ Ha]. left. by apply Z.leb_le in Ha.
      - exists 0%nat, t0. rewrite Eel. split_and!; [done|lia|by right]. }
    destruct (eligible_index _ _ _ _ _ Hm) as (k & -> & Hk & Hlen). exists t. split; [done|]. left.
    assert (Hfr : fresh t = true).
    { apply list_elem_of_lookup_2, elem_of_eligible in Hm as (k' & Ek & Hk' & ?). simplify_eq/=. done. }
    split_and!; [done|simpl; lia|]. destruct Hest as [Hest| ->]; [left|by right].
    intros u Hu Hfu. etrans; [apply four_fifths_mono, (Hlong u Hu Hfu)|done].
  - pose proof (proj1 (chooseFresh_None _ _) Ec) as Hnone.
    apply nextSpeculative_Some in Hn as (k & t & id & l & -> & Ht & Hd & Hids & Hl & Ho).
    exists t. split; [done|]. right. split_and!; [done|done|]. exists id, l.
    apply andb_prop in Ho as [Hw Hlate]. apply Z.ltb_lt in Hlate. apply negb_true_iff, Nat.eqb_neq in Hw.
    split_and!; [done|done|done|lia|lia].
Qed.

Lemma nextLocked_choice_witness :
  nextLocked (flt (lead ex2)) 1 12 = Some 0%nat ∧
  ∃ t, work (flt (lead ex2)) !! 0%nat = Some t.
Proof.
  split; [vm_compute; reflexivity|].
  destruct (@nextLocked_choice testRuntime exampleFlags ex2 1 12 0 ex2_reachable) as (t & Ht & _);
    [vm_compute; reflexivity|]. exists t. exact Ht.
Defined.

(** a worker that leaves takes no test with it: every test it alone was
    executing is fresh again, to be given to any other worker, and no other
    worker loses a lease. *)
Theorem fleet_leave_requeues `{GoRuntime} fl y wi err now y' :
  reachable fl y → step fl y (EvLeave wi err now) y' →
  leases (flt (lead y')) = filter (λ id, owner (flt (lead y)) id ≠ Some wi) (leases (flt (lead y))) ∧
  ∀ ti t t', work (flt (lead y)) !! ti = Some t → work (flt (lead y')) !! ti = Some t' →
    fDone t' = fDone t ∧ fTask t' = fTask t ∧
    fLeases t' = filter (λ id, owner (flt (lead y)) id ≠ Some wi) (fLeases t) ∧
    (fDone t = false → (∀ id, id ∈ fLeases t → owner (flt (lead y)) id = Some wi) → fresh t' = true).
Proof.
  intros Hr [[Hne [w Hw]] E]. pose proof (si_fleet _ _ (reachable_inv fl y Hr)) as Hf.
  destruct (disconnect_inv (lead y) wi w err now Hf Hw) as
    (st' & E' & Hf' & Hl & _ & _ & _ & Ho & HD & HT & _). cbn [exec] in E. rewrite E' in E.
  injection E as <-. simpl lead.
  assert (Hmem : ∀ id, id ∈ leases (flt st') ↔ id ∈ leases (flt (lead y)) ∧ owner (flt (lead y)) id ≠ Some wi).
  { intros id. rewrite Hl, elem_of_difference, (li_worker _ (fi_lease _ Hf) _ _ _ Hw). tauto. }
  split.
  { apply set_eq. intros id. rewrite Hmem, elem_of_filter. tauto. }
  intros ti t t' Ht Ht'.
  apply (f_equal (lookup ti)) in HD. apply (f_equal (lookup ti)) in HT.
  rewrite !list_lookup_fmap, Ht, Ht' in HD. rewrite !list_lookup_fmap, Ht, Ht' in HT.
  injection HD as HD. injection HT as HT.
  assert (Hle : fLeases t' = filter (λ id, owner (flt (lead y)) id ≠ Some wi) (fLeases t)).
  { apply set_eq. intros id. rewrite elem_of_filter, (li_task _ (fi_lease _ Hf') _ _ _ Ht'), Hmem.
    rewrite (li_task _ (fi_lease _ Hf) _ _ _ Ht), (proj2 (Ho id)). tauto. }
  split_and!; [done|done|done|]. intros Hd Hall. unfold fresh. rewrite HD, Hd. simpl.
  apply bool_decide_eq_true. rewrite Hle. apply set_eq. intros id. rewrite elem_of_filter.
  split; [|set_solver]. intros [Hn Hin]. by apply Hall in Hin.
Qed.

Lemma fleet_leave_requeues_witness :
  leases (flt (lead (after exampleFlags ex3 (EvLeave 1 None 20)))) =
  filter (λ id, owner (flt (lead ex3)) id ≠ Some 1%nat) (leases (flt (lead ex3))).
Proof.
  refine (proj1 (@fleet_leave_requeues testRuntime exampleFlags ex3 1 None 20 _ ex3_reachable _)).
  exact (step_after exampleFlags ex3 (EvLeave 1 None 20) ex3_reachable ex3_helper).
Defined.

(** the status shown of a test is the truth: in every reachable state a
    test of the queue that has no verdict is shown as running exactly when a
    worker executes it under a live lease, and one that has a verdict is not. *)
Theorem fleet_running_flag `{GoRuntime} fl y ti t :
  reachable fl y → work (flt (lead y)) !! ti = Some t →
  ∃ ts, statusOf (srv (lead y)) (fTask t) = Some ts ∧ done ts = fDone t ∧
    (running ts = true ↔ fDone t = false ∧
      ∃ id l, id ∈ leases (flt (lead y)) ∧ heap (flt (lead y)) !! id = Some l ∧
        lWork l = ti ∧ lState l = "running").
Proof.
  intros Hr Ht. pose proof (si_fleet _ _ (reachable_inv fl y Hr)) as Hf.
  destruct (sy_task _ (fi_sync _ Hf) _ _ Ht) as (ts & Hts & Hd & Hrun). exists ts. split_and!; [done|done|].
  destruct (fDone t) eqn:E.
  - split; [|naive_solver]. unfold statusOf in Hts.
    apply fmap_Some in Hts as ([ps ts0] & [Hps Hl]%testAt_Some & ->). cbn [snd] in *.
    pose proof (map_Forall_lookup_1 _ _ _ _ (sy_ok _ (fi_sync _ Hf)) Hps) as Hpok.
    rewrite (to_running _ (map_Forall_lookup_1 _ _ _ _ (po_tests _ Hpok) Hl)); done.
  - rewrite (Hrun eq_refl), taskRunning_true. split.
    + intros (id & l & [Hid Htg]%(li_task _ (fi_lease _ Hf) _ _ _ Ht) & Hl & Hs). split; [done|].
      exists id, l. unfold target in Htg. rewrite Hl in Htg. by injection Htg.
    + intros (_ & id & l & Hid & Hl & Hw & Hs). exists id, l. split_and!; [|done|done].
      apply (li_task _ (fi_lease _ Hf) _ _ _ Ht). split; [done|]. unfold target. by rewrite Hl, <- Hw.
Qed.

Lemma fleet_running_flag_witness :
  ∃ t ts, work (flt (lead ex3)) !! 0%nat = Some t ∧ statusOf (srv (lead ex3)) (fTask t) = Some ts ∧ done ts = fDone t.
Proof.
  destruct (work (flt (lead ex3)) !! 0%nat) as [t|] eqn:E; [|vm_compute in E; discriminate E].
  destruct (@fleet_running_flag testRuntime exampleFlags ex3 0 t ex3_reachable E) as (ts & Hts & Hd & _).
  exists t, ts. exact (conj eq_refl (conj Hts Hd)).
Defined.
