(* ===== verification/FleetGrowth.v ===== *)
(** * What only grows in a distributed run

    Workers are never removed and lease ids never reused. *)

From S2P Require Import Prelude GoStrings Flags Path Profile Utf8 Invocation GoFmt Args Sha256 Quote HistoryTypes TestCache Server Fleet FleetInv FleetCommit FleetSteps FleetSystem.

Record grows (st st' : leader) : Prop := {
  gr_workers : (length (workers (flt st)) ≤ length (workers (flt st')))%nat;
  gr_next : nextID (flt st) ≤ nextID (flt st')
}.

#[export] Instance grows_preorder : PreOrder grows.
Proof. split; [by split|]. intros st1 st2 st3 [? ?] [? ?]. split; lia. Qed.

Lemma grows_same st st' :
  length (workers (flt st')) = length (workers (flt st)) → nextID (flt st') = nextID (flt st) → grows st st'.
Proof. intros Hw Hn. split; lia. Qed.

(** A chain of operations that may fail, each of which keeps to a preorder. *)
Lemma foldl_bind_rel {S A} (R : relation S) `{!PreOrder R} (g : S → A → option S) l : ∀ s s',
  (∀ s a s', g s a = Some s' → R s s') → foldl (λ acc a, acc ≫= λ s, g s a) (Some s) l = Some s' → R s s'.
Proof.
  induction l as [|a l IH]; intros s s' Hg; cbn [foldl].
  - by intros [= <-].
  - cbn [mbind option_bind]. destruct (g s a) as [s1|] eqn:E.
    + intros H. etrans; [by eapply Hg|by apply IH].
    + intros H. exfalso. clear -H. by induction l.
Qed.

Ltac grow_binds :=
  repeat match goal with
  | |- context [mbind _ ?m] => destruct m as [?|] eqn:?; cbn [mbind option_bind]; [|done]
  | p : _ * _ |- _ => destruct p
  end.

Section growth.
Context `{GoRuntime} (fl : flags).

Lemma updateRunning_grows st ti now st' : updateRunningLocked st ti now = Some st' → grows st st'.
Proof using Type.
  unfold updateRunningLocked. grow_binds. destruct (done _); [by intros [= <-]|].
  destruct (runningSince _) as [[] ?]; intros [= <-]; by apply grows_same.
Qed.

Lemma removeLease_grows st id now st' : removeLeaseLocked st id now = Some st' → grows st st'.
Proof using Type.
  unfold removeLeaseLocked. grow_binds. intros Hst. etrans; [|by eapply updateRunning_grows].
  apply grows_same; destruct (lCancel _); simpl; by rewrite ?length_insert.
Qed.

Lemma removeLeases_grows st ids now st' : removeLeases st ids now = Some st' → grows st st'.
Proof using Type. apply foldl_bind_rel; [apply _|]. intros ? ? ?. apply removeLease_grows. Qed.

Lemma disconnect_grows st wi err now st' : disconnect st wi err now = Some st' → grows st st'.
Proof using Type.
  unfold disconnect. destruct (workers (flt st) !! wi) as [w|]; [|done]. cbn [mbind option_bind].
  destruct (removeLeases _ _ _) as [st1|] eqn:E; [|done]. intros [= <-]. apply removeLeases_grows in E.
  etrans; [|etrans; [exact E|by apply grows_same]]. apply grows_same; [|done]. simpl. by rewrite length_insert.
Qed.

Lemma reject_grows st wi w r now st' : rejectHelper st wi w r now = Some st' → grows st st'.
Proof using Type.
  unfold rejectHelper. destruct (removeLeases _ _ _) as [st1|] eqn:E; [|done]. intros [= <-]. apply removeLeases_grows in E.
  etrans; [|etrans; [exact E|by apply grows_same]]. apply grows_same; [|done]. simpl. by rewrite length_insert.
Qed.

Lemma accept_grows st wi r now st' :
  fleet_inv st → accept fl st wi r now = Some st' → grows st st'.
Proof using Type.
  intros Hi Ha. pose proof Ha as Ha'. unfold accept in Ha'.
  destruct (workers (flt st) !! wi) as [w|] eqn:Hw; [|done]. cbn [mbind option_bind] in Ha'.
  destruct (accept_spec fl st wi w r now Hi Hw) as (st1 & E & _ & Hcase). rewrite Ha in E. injection E as <-.
  destruct Hcase as [-> _|Hinf Hid _ _ _ _ _ _ _ _|l t _ _ _ _ _ _ Hce]; [done| |].
  - case_bool_decide as Hl; [by simplify_eq|].
    destruct (heap (flt st) !! rLease r) as [l|]; [|done]. cbn [mbind option_bind] in Ha'.
    destruct (work (flt st) !! lWork l) as [t|]; [|done]. cbn [mbind option_bind] in Ha'.
    destruct (fDone t || stopped (flt st) || canceled (srv st)); [by injection Ha' as <-|]. rewrite Hinf, bool_decide_false in Ha' by done. cbn [andb negb] in Ha'. by eapply reject_grows.
  - destruct (ce_fields _ _ _ _ _ _ Hce) as (_ & _ & Hn & Hw'). by apply grows_same.
Qed.

Lemma reportActive_grows now wi acc e acc' : reportActive now wi acc e = Some acc' → grows acc.2 acc'.2.
Proof using Type.
  destruct acc as [cancel st], e as [id state]. unfold reportActive. grow_binds.
  case_bool_decide; [intros Heq; by simplify_eq/=|]. destruct (negb _); [intros Heq; by simplify_eq/=|]. grow_binds. intros Heq. simplify_eq/=.
  etrans; [|etrans; [by eapply updateRunning_grows|by apply grows_same]]. by apply grows_same.
Qed.

Lemma reportAll_grows now wi es : ∀ acc acc',
  foldl (λ acc e, acc ≫= λ acc, reportActive now wi acc e) (Some acc) es = Some acc' → grows acc.2 acc'.2.
Proof using Type.
  induction es as [|e es IH]; intros acc acc'; cbn [foldl]; [by intros [= <-]|]. cbn [mbind option_bind].
  destruct (reportActive now wi acc e) as [acc1|] eqn:E.
  - intros H'. etrans; [by eapply reportActive_grows|by apply IH].
  - intros H'. exfalso. clear -H'. by induction es.
Qed.

Lemma assignLoop_grows n : ∀ st wi now batch d batch' st', assignLoop fl n st wi now batch d = Some (batch', st') → grows st st'.
Proof using Type.
  induction n as [|n IH]; intros st wi now batch d batch' st'; cbn [assignLoop]; [by intros [= _ <-]|].
  destruct (workers (flt st) !! wi) as [w|]; [|done]. cbn [mbind option_bind]. destruct (_ && _); [by intros [= _ <-]|].
  destruct (nextLocked _ _ _) as [ti|]; [|by intros [= _ <-]]. destruct (work (flt st) !! ti) as [t|]; [|done]. cbn [mbind option_bind].
  intros Ha%IH. etrans; [|exact Ha]. split; simpl; [by rewrite length_insert|lia].
Qed.

Lemma assign_grows st wi limit now batch st' : assignLocked fl st wi limit now = Some (batch, st') → grows st st'.
Proof using Type.
  unfold assignLocked. destruct (workers (flt st) !! wi) as [w|]; [|done]. cbn [mbind option_bind].
  destruct (_ || _); [by intros [= _ <-]|]. apply assignLoop_grows.
Qed.

Lemma exchange_grows st wi req now res st' : exchangeLocked fl st wi req now = Some (res, st') → grows st st'.
Proof using Type.
  unfold exchangeLocked. destruct (workers (flt st) !! wi) as [w|]; [|done]. cbn [mbind option_bind].
  destruct (foldl _ _ _) as [[cancel st1]|] eqn:E; [|done]. cbn [mbind option_bind]. apply reportAll_grows in E. simpl in E.
  assert (Hst1 : grows st st1).
  { etrans; [|exact E]. apply grows_same; [|done]. simpl. by rewrite length_insert. }
  destruct (workers (flt st1) !! wi) as [w1|]; [|done]. cbn [mbind option_bind].
  destruct (negb _ && _); [|by intros [= _ <-]]. destruct (assignLocked _ _ _ _ _) as [[batch st2]|] eqn:Ea; [|done].
  cbn [mbind option_bind]. intros [= _ <-]. etrans; [exact Hst1|by eapply assign_grows].
Qed.

Lemma localAssign_grows st wi now now' ls st' : localAssign fl st wi now now' = Some (ls, st') → grows st st'.
Proof using Type.
  unfold localAssign. destruct (_ || _); [by intros [= _ <-]|].
  destruct (assignLocked _ _ _ _ _) as [[batch st1]|] eqn:Ea; [|done]. cbn [mbind option_bind]. apply assign_grows in Ea.
  destruct batch as [|b bs]; [by intros [= _ <-]|]. destruct (heap (flt st1) !! wwLease b) as [l|]; [|done]. cbn [mbind option_bind].
  destruct (work (flt st1) !! _) as [t|]; [|done]. cbn [mbind option_bind].
  destruct (updateRunningLocked _ _ _) as [st2|] eqn:Eu; [|done]. cbn [mbind option_bind]. intros [= _ <-].
  etrans; [exact Ea|]. etrans; [|by eapply updateRunning_grows]. by apply grows_same.
Qed.

(** In every event. *)
Lemma exec_grows y e y' : sys_inv fl y → exec fl y e = Some y' → grows (lead y) (lead y').
Proof using Type.
  intros Hy. pose proof (si_fleet _ _ Hy) as Hf.
  destruct e as [name sl now|wi err now|wi r now|wi req now|tasks now|k now now'|k r now| |now|]; cbn [exec].
  - intros [= <-]. split; simpl; [rewrite length_app; simpl; lia|done].
  - destruct (disconnect _ _ _ _) as [st|] eqn:E; [|done]. intros [= <-]. by eapply disconnect_grows.
  - destruct (accept _ _ _ _ _) as [st|] eqn:E; [|done]. intros [= <-]. by eapply accept_grows.
  - destruct (exchangeLocked _ _ _ _ _) as [[res st]|] eqn:E; [|done]. intros [= <-]. by eapply exchange_grows.
  - intros [= <-]. split; simpl; [rewrite length_alter, length_app; simpl; lia|done].
  - destruct (localW y) as [wi|]; [|done]. cbn [mbind option_bind].
    destruct (localAssign _ _ _ _ _) as [[ls st]|] eqn:E; [|done]. intros [= <-]. by eapply localAssign_grows.
  - destruct (localW y) as [wi|]; [|done]. cbn [mbind option_bind]. destruct (locals y !! k) as [[|id task|]|]; try done.
    destruct (accept _ _ _ _ _) as [st|] eqn:E; [|done]. intros [= <-]. by eapply accept_grows.
  - intros [= <-]. by apply grows_same.
  - destruct (stopRun _ _) as [st|] eqn:E; [|done]. intros [= <-]. simpl. unfold stopRun in E.
    etrans; [|by eapply removeLeases_grows]. by apply grows_same.
  - intros [= <-]. by apply grows_same.
Qed.

(** A helper stays one. *)
Lemma helper_stable y e y' wi : sys_inv fl y → step fl y e y' → helper y wi → helper y' wi.
Proof using Type.
  intros Hy [He E] [Hne Hw]. pose proof (exec_grows y e y' Hy E) as Hg. apply lookup_lt_is_Some in Hw.
  split; [|apply lookup_lt_is_Some; pose proof (gr_workers _ _ Hg); lia].
  destruct e; cbn [exec] in E; try (by repeat (case_match || simplify_eq/=)).
  - destruct (disconnect _ _ _ _); [|done]. by simplify_eq/=.
  - destruct (accept _ _ _ _ _); [|done]. by simplify_eq/=.
  - destruct (exchangeLocked _ _ _ _ _) as [[??]|]; [|done]. by simplify_eq/=.
  - simplify_eq/=. intros [= Heq]. lia.
  - destruct (localW y) eqn:Hl; [|done]. cbn [mbind option_bind] in E.
    destruct (localAssign _ _ _ _ _) as [[??]|]; [|done]. simplify_eq/=. by rewrite Hl.
  - destruct (localW y) eqn:Hl; [|done]. cbn [mbind option_bind] in E. destruct (locals y !! k) as [[| |]|]; try done.
    destruct (accept _ _ _ _ _); [|done]. simplify_eq/=. by rewrite Hl.
  - destruct (stopRun _ _); [|done]. by simplify_eq/=.
Qed.
End growth.
