(* ===== verification/Isolated.v ===== *)
(** * Isolated execution of a test (distributed.go, [executeIsolated])

    Both the leader and its helpers execute a leased test in a [Server] of its
    own, with one package and one test, so that an execution that is abandoned
    leaves no trace.  It shares only the result cache, and what it learnt comes
    back as a [workerResult]. *)

From S2P Require Import Prelude GoStrings Flags Path Profile Utf8 Invocation GoFmt Args Sha256 Quote CappedBuffer HistoryTypes TestCache TestCacheFacts ResultCache Server History Runner RunnerFacts Fleet.

(** The package and the test of an isolated execution. *)
Definition isolatedPackage (root : string) (name : string) : packageStatus := {|
  glp := GoListPackage "" "" "" [] [] root; psState := pkgStateDiscovered; exeHash := ""; exeSize := 0;
  exeCached := false; psWorkDir := ""; exeArgs := []; psTests := Some {[name := zeroTestStatus]};
  numFails := 0; runErr := ""; runIn := 0; psChanged := zeroTime
|}.

(** The [Server] of an isolated execution; [ctxDone] is whether the context of
    the lease is already done. *)
Definition isolatedServer (parent : Server) (ctxDone : bool) (dir root : string) (task : testTask) : Server :=
  MkServer zeroTime dir ctxDone (sProfile parent) (TestSelection [] []) (hasTestCache parent) false
    (hasHistory parent || captureHistory parent) true {[pkg (bin task) := isolatedPackage root (test task)]}
    0 0 0 0 ∅ ∅ ∅ "" phaseNone [] 0 0 0 false 0 0 ∅ false ∅ [] [] ∅ 0 false [].

(** The result that is reported of a test's status. *)
Definition reportOf (s : Server) (ps : packageStatus) (ts : testStatus) (err : option error) : workerResult := {|
  rLease := 0; rPassed := passed ts; rCached := cached ts; rDuration := runIn ps; rAttempts := attempts ts;
  rCacheChecks := cacheChecks s; rFailures := fails ts; rAttrs := attrs ts; rHistory := historyPending s;
  rError := match err with Some e => Error e | None => "" end;
  rInfra := match err with Some e => negb (isExitError e) | None => false end
|}.

Section isolated.
Context `{GoRuntime} {C E : Type} `{!ResultCache C E} (f : flags).

(** [mkdir] is what [os.MkdirTemp] returns; [None] is a nil dereference. *)
Definition executeIsolated (parent : Server) (c : C) (task : testTask) (ctxDone : bool) (mkdir : result string)
    (io : runIO E) : option (workerResult * C) :=
  match mkdir with
  | Err e => Some (WorkerResult 0 false false 0 0 0 [] ∅ [] (Error e) true, c)
  | Ok dir =>
      root ← packageRoot parent (pkg (bin task));
      '(err, s, c) ← runTest f (runFuel f) (isolatedServer parent ctxDone dir root task) c task io;
      '(ps, ts) ← testAt s task;
      Some (reportOf s ps ts err, c)
  end.

(** ** What a reported result means *)

(** A test failed for good with [e]: some repetition, after earlier ones that
    passed, failed at every attempt, at last with [e]. *)
Definition failedWith (err : Z → Z → option error) (e : error) : Prop :=
  ∃ r, 0 ≤ r < testCount f ∧ (∀ j, 0 ≤ j < r → repPasses f (err j)) ∧
    (∀ k, 0 ≤ k < maxRetries f → retryable (err r k)) ∧ err r (maxRetries f) = Some e ∧ isCanceled e = false.

Definition meaningOf (err : Z → Z → option error) (hit : bool) (r : workerResult) : Prop :=
  if rPassed r then
    rInfra r = false ∧ rError r = "" ∧ rCached r = hit ∧
    if hit then rFailures r = [] else ∀ n, 0 ≤ n < testCount f → repPasses f (err n)
  else
    rCached r = false ∧ ∃ e, rError r = Error e ∧ rInfra r = negb (isExitError e) ∧
    (isCanceled e = true ∨ rFailures r ≠ [] ∧ failedWith err e).

Lemma isolatedServer_at parent ctxDone dir root task :
  testAt (isolatedServer parent ctxDone dir root task) task = Some (isolatedPackage root (test task), zeroTestStatus).
Proof using Type.
  apply testAt_Some. simpl. rewrite lookup_singleton_eq. split; [done|]. unfold testsOf. simpl. by rewrite lookup_singleton_eq.
Qed.

Lemma isolatedServer_ok parent ctxDone dir root task : server_ok (isolatedServer parent ctxDone dir root task).
Proof using Type. apply map_Forall_singleton, package_ok_fresh; [|done..]. by apply map_Forall_singleton. Qed.

Lemma executeIsolated_runs parent c task ctxDone dir root io :
  flags_ok f → packageRoot parent (pkg (bin task)) = Some root →
  ∃ err s ps ts c', executeIsolated parent c task ctxDone (Ok dir) io = Some (reportOf s ps ts err, c') ∧
    resultOf f c io (isolatedServer parent ctxDone dir root task) task err zeroTestStatus ts.
Proof using Type.
  intros Hf Hroot.
  destruct (runTest_result f c io (isolatedServer parent ctxDone dir root task) task
    (isolatedPackage root (test task)) zeroTestStatus Hf (isolatedServer_ok parent ctxDone dir root task)
    (isolatedServer_at parent ctxDone dir root task) eq_refl)
    as (err & s & c' & Hrun & _ & ps & ts & Hat & Hres).
  exists err, s, ps, ts, c'. split; [|exact Hres]. clear Hres.
  unfold executeIsolated. rewrite Hroot. simpl. rewrite Hrun. simpl. rewrite Hat. reflexivity.
Qed.

(** isolated execution.  It never dereferences nil for a package the parent
    knows, it always reports, and the report is right.  A pass comes from an
    entry of the shared result cache that validates, with no failures, or from
    [-count] repetitions that all passed within the retries.  Anything else has
    the error that ended the execution, which is the cancellation of the lease
    or that of a test that used up its retries, and it is marked as a failure
    of the infrastructure exactly when the test process did not exit with a
    failure itself.  A directory that cannot be made is such a failure too. *)
Theorem executeIsolated_spec parent c task ctxDone mkdir root io :
  flags_ok f → packageRoot parent (pkg (bin task)) = Some root →
  ∃ r c', executeIsolated parent c task ctxDone mkdir io = Some (r, c') ∧
    match mkdir with
    | Err e => rPassed r = false ∧ rInfra r = true ∧ rError r = Error e ∧ c' = c
    | Ok dir =>
        let s0 := isolatedServer parent ctxDone dir root task in
        meaningOf (errAt f s0 task (rAttempt io)) (bool_decide (is_Some (cacheHitFor f c io s0 task))) r
    end.
Proof using Type.
  intros Hf Hroot. destruct mkdir as [dir|e]; [|by eexists _, c].
  destruct (executeIsolated_runs parent c task ctxDone dir root io Hf Hroot) as (err & s & ps & ts & c' & -> & Hres).
  eexists _, c'. split; [done|]. cbv zeta. unfold meaningOf. simpl. revert Hres. unfold resultOf.
  destruct err as [e|].
  - destruct (isCanceled e) eqn:Hc.
    + unfold verdict. intros [= _ -> _ ->]. split; [done|]. exists e. auto.
    + intros (_ & -> & _ & -> & _ & (new & Hnew & ->) & r & Hr & Hbefore & Hretry & Hlast). split; [done|].
      exists e. split_and!; [done|done|]. right. split; [by destruct new|]. by exists r.
  - intros (_ & -> & _ & Hhit). destruct (cacheHitFor _ _ _ _ _) as [entry|] eqn:Hc.
    + rewrite bool_decide_true by done. destruct Hhit as (-> & _ & ->). done.
    + rewrite bool_decide_false by (intros [? ?]; done). destruct Hhit as (-> & Hall). done.
Qed.
End isolated.

#[local] Existing Instance testRuntime.

Lemma executeIsolated_spec_witness :
  ∃ r c', executeIsolated exampleFlags exampleServer (∅ : gmap string testCacheEntry) (exampleTask "TestA") false
    (Ok "/tmp/attempt-1") flakyIO = Some (r, c').
Proof.
  destruct (executeIsolated_spec exampleFlags exampleServer (∅ : gmap string testCacheEntry) (exampleTask "TestA") false
    (Ok "/tmp/attempt-1") _ flakyIO exampleFlags_ok eq_refl) as (r & c' & Hrun & _).
  exact (ex_intro _ r (ex_intro _ c' Hrun)).
Defined.

Example isolated_flaky :
  (λ x, (rPassed x.1, rInfra x.1, length (rFailures x.1), rAttempts x.1)) <$>
    executeIsolated exampleFlags exampleServer (∅ : gmap string testCacheEntry) (exampleTask "TestA") false
    (Ok "/tmp/attempt-1") flakyIO = Some (true, false, 2%nat, 3).
Proof. vm_compute. reflexivity. Qed.
