(* ===== verification/Worker.v ===== *)
(** * Helpers (worker.go)

    A helper connects to the leader, says hello and gets the configuration of
    the run.  From then on it keeps exchanging: its request carries the leases
    it works on, the binaries it has built and its results, and the response
    new work and leases to cancel.  The leader's side of a connection is
    [serveStep], the helper's is [workerLoop], the latter as steps of its select
    loop and of the goroutines that build and execute tests. *)

From S2P Require Import Prelude GoStrings Flags Path Profile Utf8 Invocation GoFmt Args Sha256 Quote HistoryTypes TestCache Server Fleet FleetSystem.

(** ** Greeting *)

Record workerHello := WorkerHello {
  whVersion : Z;
  whName : string;
  whSlots : Z;
  whGOOS : string;
  whGOARCH : string
}.

Record workerConfig := WorkerConfig {
  wcVersion : Z;
  wcID : string;
  wcError : string;
  wcTags : list string;
  wcRace : bool;
  wcCount : Z;
  wcCountSet : bool;
  wcMaxRetries : Z;
  wcMaxOutput : Z;
  wcCache : bool;
  wcHistory : bool;
  wcFailFast : bool;
  wcJSON : bool
}.

Section greeting.
Context `{GoRuntime} (f : flags).

(** Why the leader turns a helper away; empty for a helper that may join. *)
Definition rejectHello (hello : workerHello) : string :=
  if negb (whVersion hello =? workerProtocolVersion) then "incompatible gotst worker protocol"
  else if negb (bool_decide (whGOOS hello = GOOS)) || negb (bool_decide (whGOARCH hello = GOARCH)) then
    "helper GOOS/GOARCH must match the leader"
  else if (whSlots hello <? 1) || (1024 <? whSlots hello) then "helper must announce between 1 and 1024 slots"
  else if 256 <? strlen (whName hello) then "helper name exceeds 256 bytes"
  else "".

(** The answer to a helper that is turned away. *)
Definition rejection (reason : string) : workerConfig :=
  WorkerConfig workerProtocolVersion "" reason [] false 0 false 0 0 false false false false.

(** [fleet.config] *)
Definition config (s : Server) (id : string) : workerConfig := {|
  wcVersion := workerProtocolVersion; wcID := id; wcError := ""; wcTags := Tags (sProfile s); wcRace := Race (sProfile s);
  wcCount := testCount f; wcCountSet := testCountSet f; wcMaxRetries := maxRetries f; wcMaxOutput := maxOutput f;
  wcCache := hasTestCache s; wcHistory := hasHistory s; wcFailFast := failFast f; wcJSON := jsonSummary f
|}.

(** What the helper says. *)
Definition hello (name : string) : workerHello :=
  WorkerHello workerProtocolVersion name (jobs f) GOOS GOARCH.

(** What the helper refuses of the leader's answer. *)
Definition configError (c : workerConfig) : option error :=
  if negb (bool_decide (wcError c = "")) then Some (EMsg (wcError c))
  else if negb (wcVersion c =? workerProtocolVersion) || (wcCount c <? 1) || (wcMaxRetries c <? 0) || (wcMaxOutput c <? 0)
  then Some (EMsg "invalid leader configuration")
  else None.

(** The flags of a helper that has joined: the leader's where they have a
    bearing on the tests. *)
Definition helperFlags (c : workerConfig) : flags :=
  f <| testCount := wcCount c |> <| testCountSet := wcCountSet c |> <| maxRetries := wcMaxRetries c |>
    <| maxOutput := wcMaxOutput c |> <| useCache := wcCache c |> <| failFast := wcFailFast c |>
    <| jsonSummary := wcJSON c |> <| historyConfig := "off" |>.

(** Its profile, in the root of its own configuration. *)
Definition helperProfile (root : string) (c : workerConfig) : runProfile :=
  zeroProfile <| Root := root |> <| Tags := wcTags c |> <| Race := wcRace c |>.

(** [runWorkerConnection] up to [workerLoop].  [send] is what sending the hello
    returned, [answer] the leader's configuration, [defs] the root of the local
    profile configuration, the rest is as for [NewServer]. *)
Definition joinLeader (send : option error) (answer : result workerConfig) (defs : result string)
    (cacheOK : bool) (root dir : string) (now : Time) : result (flags * option Server) :=
  match send with
  | Some e => Err e
  | None =>
      c ← answer;
      match configError c with
      | Some e => Err e
      | None =>
          let f' := helperFlags c in
          local ← defs;
          Ok (f', (λ s, s <| captureHistory := wcHistory c |>) <$>
                NewServer f' (helperProfile local c) (TestSelection [] []) cacheOK true true root dir now)
      end
  end.
End greeting.

(** ** The leader's side of a connection *)

(** Where [serveWorker] is. *)
Inductive conn :=
  | CGreet                                                     (** waits for the hello *)
  | CConfig (wi : nat)                                         (** sends the configuration *)
  | CRead (wi : nat)                                           (** waits for a request *)
  | CAccept (wi : nat) (rest : list workerResult) (req : workerRequest) (** in [exchange], with [rest] of the results left *)
  | CReply (wi : nat) (res : workerResponse)                   (** sends the response *)
  | CLeave (wi : nat) (err : option error)                     (** the deferred [disconnect] *)
  | CClosed.

(** What the network does next. *)
Inductive connInput :=
  | InHello (hello : option workerHello)        (** [None]: not decoded *)
  | InSent (err : option error)
  | InRequest (req : option error + workerRequest) (** [inl None]: end of the stream *)
  | InTurn.                                     (** nothing is needed *)

Section serve.
Context `{GoRuntime} (fl : flags).

(** The fleet event of a step of [serveWorker], if it changes the fleet, and
    where the connection is afterwards; [res] is the response that the event
    produced. *)
Definition serveEvent (c : conn) (i : connInput) (now : Time) : option event :=
  match c, i with
  | CGreet, InHello (Some h) => if bool_decide (rejectHello h = "") then Some (EvJoin (whName h) (whSlots h) now) else None
  | CAccept wi (r :: _) _, InTurn => Some (EvResult wi r now)
  | CAccept wi [] req, InTurn => Some (EvPoll wi req now)
  | CLeave wi err, InTurn => Some (EvLeave wi err now)
  | _, _ => None
  end.

Definition serveNext (y : system) (c : conn) (i : connInput) (now : Time) : option conn :=
  match c, i with
  | CGreet, InHello None => Some CClosed
  | CGreet, InHello (Some h) =>
      Some (if bool_decide (rejectHello h = "") then CConfig (length (workers (flt (lead y)))) else CClosed)
  | CConfig wi, InSent err | CReply wi (WorkerResponse _ _ false ""), InSent err =>
      Some (match err with None => CRead wi | Some _ => CLeave wi err end)
  | CReply wi _, InSent err => Some (CLeave wi err)
  | CRead wi, InRequest (inl err) => Some (CLeave wi err)
  | CRead wi, InRequest (inr req) => Some (CAccept wi (Results req) req)
  | CAccept wi (_ :: rest) req, InTurn => Some (CAccept wi rest req)
  | CAccept wi [] req, InTurn =>
      '(res, _) ← exchangeLocked fl (lead y) wi req now; Some (CReply wi res)
  | CLeave _ _, InTurn => Some CClosed
  | _, _ => None
  end.

(** One step of [serveWorker]; [None] for an input it does not wait for, or a
    nil dereference. *)
Definition serveStep (y : system) (c : conn) (i : connInput) (now : Time) : option (conn * system) :=
  c' ← serveNext y c i now;
  match serveEvent c i now with
  | None => Some (c', y)
  | Some e => y' ← exec fl y e; Some (c', y')
  end.
End serve.

(** A helper is still connected, the test of the loop of [shutdown]. *)
Definition helperConnected (f : fleet) : bool :=
  existsb (λ w, negb (bool_decide (wID w = "leader")) && Connected w) (workers f).

(** [shutdown] returns once no helper is connected or after two seconds. *)
Definition shutdownReturns (st : leader) (deadline : bool) : bool := negb (helperConnected (flt st)) || deadline.
