(* ===== verification/WorkerLoop.v ===== *)
(** * The helper's loop (worker.go, [workerLoop] and [helperBuilder])

    The loop keeps the leases it works on in [active] and those not yet started
    in [queue], runs at most [-j] goroutines that build and execute, and has at
    most one exchange with the leader under way.  [*helperExecution] pointers
    are positions in [lExecs], which holds every execution ever made; goroutines
    and channels are part of the state, and an event is a step of one of them or
    a case of the loop's select. *)

From S2P Require Import Prelude GoStrings Flags Path Profile Utf8 Invocation GoFmt Args Sha256 Quote HistoryTypes TestCache Server Fleet Isolated.

(** ** Data *)

Record helperExecution := HelperExecution {
  heWork : workerWork;
  heCancel : cancelState;
  heState : string
}.

#[export] Instance eta_helperExecution : Eta helperExecution := λ e,
  HelperExecution (heWork e) (heCancel e) (heState e).

(** Where a goroutine started by [start] is. *)
Inductive stage :=
  | Building                    (** in [builder.binary] *)
  | Announcing (hash : string)  (** sends on [ready] *)
  | Executing                   (** in [executeIsolated] *)
  | Reporting (r : workerResult). (** sends on [results] *)

Record job := Job {
  jExec : nat;
  jStage : stage
}.

Record loop := Loop {
  lExecs : list helperExecution;
  lActive : gmap Z nat;
  lQueue : list nat;
  lRunning : Z;
  lJobs : list job;                   (** the goroutines *)
  lReady : list (Z * string);         (** the channel [ready] *)
  lResults : list workerResult;       (** the channel [results] *)
  lPending : list workerResult;
  lBinaries : list string;
  lDirty : bool;
  lInFlight : bool;
  lRequest : option workerRequest;    (** of the exchange under way *)
  lReported : list workerResult       (** every result put in a request so far *)
}.

#[export] Instance eta_loop : Eta loop := λ l,
  Loop (lExecs l) (lActive l) (lQueue l) (lRunning l) (lJobs l) (lReady l) (lResults l) (lPending l)
    (lBinaries l) (lDirty l) (lInFlight l) (lRequest l) (lReported l).

Definition leaseOf (e : helperExecution) : Z := wwLease (heWork e).

(** ** The builder *)

Record helperBuilder := HelperBuilder {
  hbServer : Server;
  hbBins : gmap string capturedTestBinary
}.

(** The [Server] that discovers and builds one package, apart from the others. *)
Definition buildServer (s : Server) (name : string) : Server :=
  MkServer zeroTime (cacheDir s) (canceled s) ((sProfile s) <| Packages := [name] |>) (TestSelection [] []) false false
    false false ∅ 0 0 0 0 ∅ ∅ ∅ (buildActionMapDir s) phaseNone [] 0 0 0 false 0 0 ∅ false ∅ [] [] ∅ 0 false [].

(** [binary]; [build] is what [learnPackagesWithTests] and [buildAllTestBinaries]
    make of the new [Server]. *)
Definition binary `{GoRuntime} (b : helperBuilder) (work : workerWork) (build : Server → result Server)
    : result capturedTestBinary * helperBuilder :=
  match hbBins b !! wwPackage work with
  | Some bin => (Ok bin, b)
  | None =>
      match build (buildServer (hbServer b) (wwPackage work)) with
      | Err e => (Err e, b)
      | Ok built =>
          match capturedTestBinaries built with
          | [bin] =>
              if negb (bool_decide (pkg bin = wwPackage work)) then
                (Err (EMsg ("package " +:+ Quote (wwPackage work) +:+ " did not produce a test binary")), b)
              else if negb (bool_decide (binHash (absBin bin) = wwBinary work)) then
                (Err (EMsg ("binary mismatch for " +:+ wwPackage work +:+
                   "; helper must have the same source, toolchain, and build environment as leader")), b)
              else
                (Ok bin, HelperBuilder ((hbServer b) <| pkgs ::= partial_alter (λ _, pkgs built !! wwPackage work) (wwPackage work) |>)
                           (<[wwPackage work := bin]> (hbBins b)))
          | _ => (Err (EMsg ("package " +:+ Quote (wwPackage work) +:+ " did not produce a test binary")), b)
          end
      end
  end.

(** ** The loop *)

Definition initLoop : loop := Loop [] ∅ [] 0 [] [] [] [] [] true false None [].

(** The states that a request reports. *)
Definition activeStates (l : loop) : list (Z * string) :=
  omap (λ '(id, e), (λ x, (id, heState x)) <$> lExecs l !! e) (map_to_list (lActive l)).

(** The top of the loop: a request is sent when there is news and no exchange
    under way. *)
Definition flush (l : loop) : loop :=
  if lDirty l && negb (lInFlight l) then
    l <| lRequest := Some (WorkerRequest (activeStates l) (lBinaries l) (lPending l)) |>
      <| lReported ::= λ rs, rs ++ lPending l |>
      <| lPending := [] |> <| lBinaries := [] |> <| lDirty := false |> <| lInFlight := true |>
  else l.

(** A lease that the leader no longer wants. *)
Definition cancelLease (l : loop) (id : Z) : loop :=
  match lActive l !! id with
  | None => l
  | Some e =>
      l <| lExecs ::= alter (λ x, match heCancel x with
                                  | CancelNil => x
                                  | _ => x <| heCancel := CancelCalled |>
                                  end) e |>
        <| lActive ::= delete id |>
  end.

(** New work is queued. *)
Definition addWork (l : loop) (work : workerWork) : loop :=
  let e := length (lExecs l) in
  l <| lExecs ::= λ es, es ++ [HelperExecution work CancelNil "queued"] |>
    <| lActive ::= <[wwLease work := e]> |> <| lQueue ::= λ q, q ++ [e] |>.

Section loop.
Context (slots : Z). (** [-j] *)

(** [start]: the loop over the queue.  An execution that is no longer active is
    dropped. *)
Fixpoint startLoop (queue : list nat) (l : loop) : loop :=
  match queue with
  | [] => l <| lQueue := [] |>
  | e :: rest =>
      if lRunning l <? slots then
        match lExecs l !! e with
        | Some x =>
            if bool_decide (lActive l !! leaseOf x = Some e) then
              startLoop rest
                (l <| lExecs ::= <[e := x <| heState := "building" |> <| heCancel := CancelArmed |>]> |>
                   <| lRunning ::= Z.succ |> <| lJobs ::= λ js, js ++ [Job e Building] |>)
            else startLoop rest l
        | None => startLoop rest l
        end
      else l <| lQueue := queue |>
  end.

Definition start (l : loop) : loop := startLoop (lQueue l) l.

(** The cases of the select.  An exit of the loop is its error, [None] for a run
    that is done. *)
Definition handleResponse (l : loop) (exchange : error + workerResponse) : option error + loop :=
  let l := l <| lInFlight := false |> <| lRequest := None |> in
  match exchange with
  | inl e => inl (Some (EWrap "leader connection: " e))
  | inr res =>
      if negb (bool_decide (wrError res = "")) then inl (Some (EMsg (wrError res)))
      else if Done res then inl None
      else inr (start (foldl addWork (foldl cancelLease l (Cancel res)) (Work res)))
  end.

Definition handleReady (l : loop) (lease : Z) (hash : string) : loop :=
  let l := l <| lBinaries ::= λ bs, bs ++ [hash] |> in
  let l := match lActive l !! lease with
           | Some e => l <| lExecs ::= alter (λ x, x <| heState := "running" |>) e |>
           | None => l
           end in
  l <| lDirty := true |>.

Definition handleResult (l : loop) (r : workerResult) : loop :=
  let l := l <| lRunning ::= Z.pred |> in
  let l := match lActive l !! rLease r with
           | Some _ => l <| lActive ::= delete (rLease r) |> <| lPending ::= λ p, p ++ [r] |>
           | None => l
           end in
  (start l) <| lDirty := true |>.

Inductive loopEvent :=
  | LResponse (exchange : error + workerResponse)
  | LReady
  | LResult
  | LTick
  | LBuilt (k : nat) (bin : result string)   (** [builder.binary] of goroutine [k] returns, with the binary's hash *)
  | LAnnounce (k : nat)
  | LExecuted (k : nat) (r : workerResult)   (** [executeIsolated] returns *)
  | LReport (k : nat).

(** The result of a goroutine whose lease was canceled while it built. *)
Definition emptyResult (lease : Z) : workerResult := WorkerResult lease false false 0 0 0 [] ∅ [] "" false.

(** What a goroutine does after the build. *)
Definition afterBuild (x : helperExecution) (bin : result string) : stage :=
  match bin with
  | Err e => Reporting ((emptyResult (leaseOf x)) <| rError := Error e |> <| rInfra := true |>)
  | Ok hash =>
      match heCancel x with
      | CancelCalled => Reporting (emptyResult (leaseOf x))
      | _ => Announcing hash
      end
  end.

(** One event, without the top of the loop. *)
Definition handle (l : loop) (ev : loopEvent) : option (option error + loop) :=
  match ev with
  | LResponse exchange => if lInFlight l then Some (handleResponse l exchange) else None
  | LReady =>
      match lReady l with
      | (lease, hash) :: rest => Some (inr (handleReady (l <| lReady := rest |>) lease hash))
      | [] => None
      end
  | LResult =>
      match lResults l with
      | r :: rest => Some (inr (handleResult (l <| lResults := rest |>) r))
      | [] => None
      end
  | LTick => Some (inr (l <| lDirty := true |>))
  | LBuilt k bin =>
      match lJobs l !! k with
      | Some (Job e Building) =>
          x ← lExecs l !! e; Some (inr (l <| lJobs ::= <[k := Job e (afterBuild x bin)]> |>))
      | _ => None
      end
  | LAnnounce k =>
      match lJobs l !! k with
      | Some (Job e (Announcing hash)) =>
          x ← lExecs l !! e;
          if Z.of_nat (length (lReady l)) <? slots
          then Some (inr (l <| lReady ::= λ c, c ++ [(leaseOf x, hash)] |> <| lJobs ::= <[k := Job e Executing]> |>))
          else None
      | _ => None
      end
  | LExecuted k r =>
      match lJobs l !! k with
      | Some (Job e Executing) =>
          x ← lExecs l !! e;
          Some (inr (l <| lJobs ::= <[k := Job e (Reporting (r <| rLease := leaseOf x |>))]> |>))
      | _ => None
      end
  | LReport k =>
      match lJobs l !! k with
      | Some (Job e (Reporting r)) =>
          if Z.of_nat (length (lResults l)) <? slots
          then Some (inr (l <| lResults ::= λ c, c ++ [r] |> <| lJobs ::= delete k |>)) else None
      | _ => None
      end
  end.

(** The loop as it is seen from outside: after a case of the select its top is
    run again. *)
Definition loopStep (l : loop) (ev : loopEvent) : option (option error + loop) :=
  match ev with
  | LResponse _ | LReady | LResult | LTick =>
      out ← handle l ev; Some (match out with inl e => inl e | inr l => inr (flush l) end)
  | _ => handle l ev
  end.

(** A leader never uses a lease twice, an execution ends in a pass or with an
    error, and errors say something. *)
Definition admissible (l : loop) (ev : loopEvent) : Prop :=
  match ev with
  | LResponse (inr res) => NoDup (wwLease <$> Work res) ∧ ∀ w, w ∈ Work res → wwLease w ∉ leaseOf <$> lExecs l
  | LBuilt _ (Err e) => Error e ≠ ""
  | LExecuted _ r => rPassed r = true ∨ rError r ≠ ""
  | _ => True
  end.

Inductive loopReached : loop → Prop :=
  | LoopStart : loopReached (flush initLoop)
  | LoopStep l ev l' : loopReached l → admissible l ev → loopStep l ev = Some (inr l') → loopReached l'.
End loop.
