(* ===== verification/WorkerLoopFacts.v ===== *)
(** * What the helper's loop guarantees *)

From S2P Require Import Prelude GoStrings Flags Path Profile Utf8 Invocation GoFmt Args Sha256 Quote HistoryTypes TestCache Server Fleet Isolated WorkerLoop.

Section facts.
Context (slots : Z).

(** A result that says what happened. *)
Definition telling (r : workerResult) : Prop := rPassed r = true ∨ rError r ≠ "".

(** The lease is one whose execution was canceled. *)
Definition abandoned (l : loop) (id : Z) : Prop :=
  ∃ e x, lExecs l !! e = Some x ∧ leaseOf x = id ∧ heCancel x = CancelCalled.

(** What a goroutine is about to report. *)
Definition reporting (l : loop) (e : nat) (r : workerResult) : Prop := Job e (Reporting r) ∈ lJobs l.

(** The invariant, with [q] for the queue. *)
Record core (l : loop) (q : list nat) : Prop := {
  lk_count : lRunning l = Z.of_nat (length (lJobs l)) + Z.of_nat (length (lResults l));
  lk_slots : lRunning l ≤ Z.max 0 slots;
  lk_leases : NoDup (leaseOf <$> lExecs l);
  (** an execution is queued or has a goroutine, once *)
  lk_once : NoDup (q ++ (jExec <$> lJobs l));
  lk_bound : ∀ e, e ∈ q ++ (jExec <$> lJobs l) → (e < length (lExecs l))%nat;
  (** an active lease is queued, worked on, or its result is to be received *)
  lk_active : ∀ id e, lActive l !! id = Some e → ∃ x, lExecs l !! e = Some x ∧ leaseOf x = id ∧
    heCancel x ≠ CancelCalled ∧ (e ∈ q ∨ e ∈ jExec <$> lJobs l ∨ id ∈ rLease <$> lResults l);
  (** what is reported is of an execution that has no goroutine any more *)
  lk_reporting : ∀ e r, reporting l e r → ∃ x, lExecs l !! e = Some x ∧ leaseOf x = rLease r;
  lk_results : ∀ r, r ∈ lResults l → ∃ e x, lExecs l !! e = Some x ∧ leaseOf x = rLease r ∧ e ∉ q ++ (jExec <$> lJobs l);
  lk_telling : ∀ r, r ∈ lResults l ∨ (∃ e, reporting l e r) → telling r ∨ abandoned l (rLease r);
  (** a result is sent once, of a lease that was active *)
  lk_sent : NoDup (rLease <$> lReported l ++ lPending l);
  lk_pending : ∀ r, r ∈ lReported l ++ lPending l →
    telling r ∧ rLease r ∈ leaseOf <$> lExecs l ∧ lActive l !! rLease r = None;
  lk_state : ∀ x, x ∈ lExecs l → validState (heState x) = true;
  lk_flight : lInFlight l = true ↔ is_Some (lRequest l)
}.

Lemma lease_inj l e e' x x' :
  NoDup (leaseOf <$> lExecs l) → lExecs l !! e = Some x → lExecs l !! e' = Some x' → leaseOf x = leaseOf x' → e = e'.
Proof using Type.
  intros Hnd Hx Hx' Heq. eapply (NoDup_lookup _ e e' (leaseOf x)); [exact Hnd|by rewrite list_lookup_fmap, Hx|].
  by rewrite list_lookup_fmap, Hx', Heq.
Qed.

(** Replacing an execution by one of the same lease. *)
Lemma leases_insert l e x x' :
  lExecs l !! e = Some x → leaseOf x' = leaseOf x → leaseOf <$> <[e := x']> (lExecs l) = leaseOf <$> lExecs l.
Proof using Type.
  intros Hx Hl. rewrite list_fmap_insert, list_insert_id; [done|]. rewrite list_lookup_fmap, Hx. simpl. by rewrite Hl.
Qed.

(** Updating an execution; only one that is not active can be canceled. *)
Lemma core_exec l q e x x' :
  core l q → lExecs l !! e = Some x → leaseOf x' = leaseOf x → validState (heState x') = true →
  (heCancel x = CancelCalled → heCancel x' = CancelCalled) →
  (heCancel x' = CancelCalled → lActive l !! leaseOf x ≠ Some e) → core (l <| lExecs ::= <[e := x']> |>) q.
Proof using Type.
  intros [H1 H2 H3 H4 H5 H6 H7 H8 H9 H10 H11 H12 H13] Hx Hl' Hst Hkeep Hcan.
  assert (Hlook : ∀ e' y, <[e := x']> (lExecs l) !! e' = Some y ↔ (e' = e ∧ y = x') ∨ (e' ≠ e ∧ lExecs l !! e' = Some y)).
  { intros e' y. destruct (decide (e' = e)) as [->|Hne].
    - rewrite list_lookup_insert_eq by (by eapply lookup_lt_Some). naive_solver.
    - rewrite list_lookup_insert_ne by done. naive_solver. }
  assert (Hsame : ∀ e' y, lExecs l !! e' = Some y → ∃ y', <[e := x']> (lExecs l) !! e' = Some y' ∧ leaseOf y' = leaseOf y ∧
    (heCancel y = CancelCalled → heCancel y' = CancelCalled)).
  { intros e' y Hy. destruct (decide (e' = e)) as [->|Hne]; [exists x'|exists y]; rewrite Hlook; simplify_eq; auto. }
  split; simpl; try done.
  - by rewrite (leases_insert l e x).
  - intros e'. rewrite length_insert. apply H5.
  - intros id e' He'. destruct (H6 id e' He') as (y & Hy & Hl & Hc & Hwhere). destruct (decide (e' = e)) as [->|Hne].
    + simplify_eq. exists x'. rewrite Hlook. split_and!; [by left|done| |done]. intros Hcc. by apply (Hcan Hcc).
    + exists y. rewrite Hlook. split_and!; auto.
  - intros e' r Hr. destruct (H7 e' r Hr) as (y & Hy & Hl). destruct (Hsame e' y Hy) as (y' & Hy' & Hl2 & _).
    exists y'. split; [done|congruence].
  - intros r Hr. destruct (H8 r Hr) as (e' & y & Hy & Hl & Hn). destruct (Hsame e' y Hy) as (y' & Hy' & Hl2 & _).
    exists e', y'. split_and!; [done|congruence|done].
  - intros r Hr. destruct (H9 r Hr) as [?|(e' & y & Hy & Hl & Hc)]; [by left|right].
    destruct (Hsame e' y Hy) as (y' & Hy' & Hl2 & Hc2). exists e', y'. split_and!; [done|congruence|auto].
  - intros r Hr. rewrite (leases_insert l e x); [by apply H11|done|done].
  - intros y [e' [[-> ->]|[_ Hy]]%Hlook]%list_elem_of_lookup; [done|]. apply H12, list_elem_of_lookup. by exists e'.
Qed.

(** A goroutine for the execution at the head of the queue. *)
Lemma core_job l e q :
  core l (e :: q) → lRunning l < slots →
  core (l <| lRunning ::= Z.succ |> <| lJobs ::= λ js, js ++ [Job e Building] |>) q.
Proof using Type.
  intros [H1 H2 H3 H4 H5 H6 H7 H8 H9 H10 H11 H12 H13] Hlt.
  assert (Hperm : q ++ (jExec <$> lJobs l ++ [Job e Building]) ≡ₚ (e :: q) ++ (jExec <$> lJobs l)).
  { rewrite fmap_app. simpl. rewrite (Permutation_app_comm (jExec <$> lJobs l)). simpl. by rewrite Permutation_middle. }
  assert (Hrep : ∀ e' r, Job e' (Reporting r) ∈ lJobs l ++ [Job e Building] → reporting l e' r).
  { intros e' r. rewrite elem_of_snoc. by intros [?|[=]]. }
  split; simpl; try done.
  - rewrite length_app. simpl. lia.
  - lia.
  - by rewrite Hperm.
  - intros e'. rewrite Hperm. apply H5.
  - intros id e' He'. destruct (H6 id e' He') as (y & Hy & Hl & Hc & Hwhere). exists y. split_and!; try done.
    rewrite fmap_app, elem_of_app. simpl. rewrite list_elem_of_singleton.
    destruct Hwhere as [[->|?]%elem_of_cons|[?|?]]; auto.
  - intros e' r Hr. by apply H7, Hrep.
  - intros r Hr. destruct (H8 r Hr) as (e' & y & Hy & Hl & Hn). exists e', y. by rewrite Hperm.
  - intros r Hr. destruct (H9 r) as [?|?]; [|by left|by right].
    destruct Hr as [?|(e' & ?%Hrep)]; [by left|right; by exists e'].
Qed.

(** Starting an execution that is active. *)
Lemma startOne_core l e q x :
  core l (e :: q) → lRunning l < slots → lExecs l !! e = Some x → lActive l !! leaseOf x = Some e →
  core (l <| lExecs ::= <[e := x <| heState := "building" |> <| heCancel := CancelArmed |>]> |>
          <| lRunning ::= Z.succ |> <| lJobs ::= λ js, js ++ [Job e Building] |>) q.
Proof using Type.
  intros Hl Hlt Hx Hact. apply (core_job (l <| lExecs ::= <[e := _]> |>)); [|done].
  apply (core_exec l _ e x); try done. simpl. intros Hc.
  destruct (lk_active _ _ Hl _ _ Hact) as (y & Hy & _ & Hnc & _). simplify_eq.
Qed.

(** An execution that is no longer active is dropped from the queue. *)
Lemma dropOne_core l e q :
  core l (e :: q) → (∀ x, lExecs l !! e = Some x → lActive l !! leaseOf x ≠ Some e) → core l q.
Proof using Type.
  intros [H1 H2 H3 H4 H5 H6 H7 H8 H9 H10 H11 H12 H13] Hna. simpl in H4. apply NoDup_cons in H4 as [_ H4].
  split; try done.
  - intros e' He'. apply H5. by right.
  - intros id e' He'. destruct (H6 id e' He') as (y & Hy & Hl & Hc & Hwhere). exists y. split_and!; try done.
    destruct Hwhere as [[->|?]%elem_of_cons|?]; [|by left|by right]. exfalso. apply (Hna y Hy). by rewrite Hl.
  - intros r Hr. destruct (H8 r Hr) as (e' & y & Hy & Hl & Hn). exists e', y. split_and!; try done.
    intros Hin. apply Hn. by right.
Qed.

Lemma core_queue l q q' : core l q → core (l <| lQueue := q' |>) q.
Proof using Type. intros [H1 H2 H3 H4 H5 H6 H7 H8 H9 H10 H11 H12 H13]. by split. Qed.

Lemma startLoop_core q : ∀ l, core l q →
  core (startLoop slots q l) (lQueue (startLoop slots q l)) ∧
  (lQueue (startLoop slots q l) ≠ [] → slots ≤ lRunning (startLoop slots q l)).
Proof using Type.
  induction q as [|e q IH]; intros l Hl; cbn [startLoop].
  { split; [by apply core_queue|done]. }
  destruct (Z.ltb_spec (lRunning l) slots); [|split; [by apply core_queue|by simpl]].
  destruct (lExecs l !! e) as [x|] eqn:Hx.
  - case_bool_decide as Ha; apply IH; [by apply startOne_core|]. apply (dropOne_core l e q Hl). intros y Hy. by simplify_eq.
  - apply IH. apply (dropOne_core l e q Hl). intros y Hy. by simplify_eq.
Qed.

(** A lease that is no longer active. *)
Lemma core_inactive l q id : core l q → core (l <| lActive ::= delete id |>) q.
Proof using Type.
  intros [H1 H2 H3 H4 H5 H6 H7 H8 H9 H10 H11 H12 H13]. split; simpl; try done.
  - intros id' e [Hne He]%lookup_delete_Some. by apply H6.
  - intros r Hr. destruct (H11 r Hr) as (? & ? & Ha). split_and!; try done. by apply lookup_delete_None; right.
Qed.

Lemma alter_insert_list {A} (g : A → A) (k : list A) i x : k !! i = Some x → alter g i k = <[i := g x]> k.
Proof using Type.
  revert i. induction k as [|a k IH]; intros [|i] Hi; simpl in *; [done..| |].
  - by injection Hi as ->.
  - by rewrite <- IH.
Qed.

Lemma cancelLease_core l q id : core l q → core (cancelLease l id) q.
Proof using Type.
  intros Hl. unfold cancelLease. destruct (lActive l !! id) as [e|] eqn:Ha; [|done].
  destruct (lk_active _ _ Hl _ _ Ha) as (x & Hx & Hid & Hnc & _).
  set (g := λ x, match heCancel x with CancelNil => x | _ => x <| heCancel := CancelCalled |> end).
  assert (E : l <| lExecs ::= alter g e |> <| lActive ::= delete id |> =
    l <| lActive ::= delete id |> <| lExecs ::= <[e := g x]> |>).
  { cbn. by rewrite (alter_insert_list g _ _ _ Hx). }
  rewrite E. apply (core_exec _ q e x); [by apply core_inactive|done|..].
  - unfold g. by destruct (heCancel x).
  - replace (heState (g x)) with (heState x) by (unfold g; by destruct (heCancel x)).
    apply (lk_state _ _ Hl), list_elem_of_lookup. by exists e.
  - unfold g. by intros ->.
  - intros _. simpl. by rewrite Hid, lookup_delete_eq.
Qed.

(** New work. *)
Lemma addWork_core l q work :
  core l q → wwLease work ∉ leaseOf <$> lExecs l → core (addWork l work) (q ++ [length (lExecs l)]).
Proof using Type.
  intros [H1 H2 H3 H4 H5 H6 H7 H8 H9 H10 H11 H12 H13] Hnew.
  assert (Hfresh : length (lExecs l) ∉ q ++ (jExec <$> lJobs l)) by (intros Hin%H5; lia).
  assert (Hkeep : ∀ e x, lExecs l !! e = Some x → (lExecs l ++ [HelperExecution work CancelNil "queued"]) !! e = Some x)
    by (intros; by apply lookup_app_l_Some).
  assert (Hperm : (q ++ [length (lExecs l)]) ++ (jExec <$> lJobs l) ≡ₚ length (lExecs l) :: (q ++ (jExec <$> lJobs l))).
  { rewrite <- app_assoc. simpl. by rewrite Permutation_middle. }
  split; simpl; try done.
  - rewrite fmap_app. apply NoDup_app. split_and!; [done| |apply NoDup_singleton].
    intros id Hid ->%list_elem_of_singleton. done.
  - rewrite Hperm. by apply NoDup_cons.
  - intros e. rewrite Hperm, elem_of_cons, length_app. simpl. intros [->|He%H5]; lia.
  - intros id e [[<- <-]|[Hne He]]%lookup_insert_Some.
    + eexists. split; [by apply list_lookup_middle|]. split_and!; [done|done|]. left. apply elem_of_snoc. by right.
    + destruct (H6 id e He) as (x & Hx & Hl & Hc & Hwhere). exists x. split_and!; [auto|done|done|].
      rewrite elem_of_snoc. tauto.
  - intros e r Hr. destruct (H7 e r Hr) as (x & Hx & Hl). exists x. auto.
  - intros r Hr. destruct (H8 r Hr) as (e & x & Hx & Hl & Hn). exists e, x. rewrite Hperm, not_elem_of_cons.
    split_and!; [auto|done| |done]. apply lookup_lt_Some in Hx. lia.
  - intros r Hr. destruct (H9 r Hr) as [?|(e & x & Hx & Hl & Hc)]; [by left|right]. exists e, x. auto.
  - intros r Hr. destruct (H11 r Hr) as (? & Hin & Ha). split_and!; [done| |].
    + rewrite fmap_app, elem_of_app. by left.
    + rewrite lookup_insert_ne; [done|]. intros Heq. by rewrite Heq in Hnew.
  - intros x [Hx|Hx%list_elem_of_singleton]%elem_of_app; [by apply H12|by subst].
Qed.

Lemma addWork_all ws : ∀ l,
  core l (lQueue l) → NoDup (wwLease <$> ws) → (∀ w, w ∈ ws → wwLease w ∉ leaseOf <$> lExecs l) →
  core (foldl addWork l ws) (lQueue (foldl addWork l ws)).
Proof using Type.
  induction ws as [|w ws IH]; intros l Hl Hnd Hnew; [done|]. simpl in *. apply NoDup_cons in Hnd as [Hw Hnd].
  apply IH; [apply addWork_core; [done|apply Hnew; left]|done|].
  intros w' Hw'. simpl. rewrite fmap_app, elem_of_app. simpl. rewrite list_elem_of_singleton. intros [Hin|Heq].
  - by apply (Hnew w'); [right|].
  - apply Hw. unfold leaseOf in Heq. simpl in Heq. rewrite <- Heq. by apply list_elem_of_fmap_2.
Qed.

Lemma cancel_all ids : ∀ l, core l (lQueue l) →
  core (foldl cancelLease l ids) (lQueue (foldl cancelLease l ids)) ∧
  leaseOf <$> lExecs (foldl cancelLease l ids) = leaseOf <$> lExecs l.
Proof using Type.
  induction ids as [|id ids IH]; intros l Hl; [done|]. simpl.
  assert (Hq : lQueue (cancelLease l id) = lQueue l) by (unfold cancelLease; by destruct (lActive l !! id)).
  destruct (IH (cancelLease l id)) as [Hc He]; [rewrite Hq; by apply cancelLease_core|]. split; [done|]. rewrite He.
  unfold cancelLease. destruct (lActive l !! id) as [e|] eqn:Ha; [|done]. simpl.
  destruct (lk_active _ _ Hl _ _ Ha) as (x & Hx & _).
  rewrite (alter_insert_list _ _ _ _ Hx). apply (leases_insert l e x); [done|]. by destruct (heCancel x).
Qed.
(** ** Goroutines *)

(** A goroutine goes on to its next stage. *)
Lemma core_stage l q k e sg sg' :
  core l q → lJobs l !! k = Some (Job e sg) →
  (∀ r, sg' = Reporting r → (∃ x, lExecs l !! e = Some x ∧ leaseOf x = rLease r) ∧ (telling r ∨ abandoned l (rLease r))) →
  core (l <| lJobs ::= <[k := Job e sg']> |>) q.
Proof using Type.
  intros [H1 H2 H3 H4 H5 H6 H7 H8 H9 H10 H11 H12 H13] Hk Hnew.
  assert (Hj : jExec <$> <[k := Job e sg']> (lJobs l) = jExec <$> lJobs l).
  { rewrite list_fmap_insert, list_insert_id; [done|]. by rewrite list_lookup_fmap, Hk. }
  assert (Hrep : ∀ e' r, Job e' (Reporting r) ∈ <[k := Job e sg']> (lJobs l) → (e' = e ∧ sg' = Reporting r) ∨ reporting l e' r).
  { intros e' r [i [(<- & [= <- <-] & _)|[_ Hi]]%list_lookup_insert_Some]%list_elem_of_lookup; [by left|right].
    apply list_elem_of_lookup. by exists i. }
  split; simpl; rewrite ?Hj, ?length_insert; try done.
  - intros e' r [[-> Heq]|Hr]%Hrep; [by apply Hnew|by apply H7].
  - intros r Hr. assert (Hr' : (∃ e', reporting l e' r) ∨ r ∈ lResults l ∨ sg' = Reporting r).
    { destruct Hr as [?|(e' & [[-> Heq]|Hr]%Hrep)]; [by right; left|by right; right|left; by exists e']. }
    destruct Hr' as [?|[?|Heq]]; [apply H9; by right|apply H9; by left|by apply Hnew].
Qed.

(** A goroutine delivers its result and ends. *)
Lemma core_report l q k e r :
  core l q → lJobs l !! k = Some (Job e (Reporting r)) →
  core (l <| lResults ::= λ c, c ++ [r] |> <| lJobs ::= delete k |>) q.
Proof using Type.
  intros [H1 H2 H3 H4 H5 H6 H7 H8 H9 H10 H11 H12 H13] Hk.
  assert (Hj : jExec <$> lJobs l ≡ₚ e :: (jExec <$> delete k (lJobs l))) by (by rewrite (delete_Permutation _ _ _ Hk) at 1).
  assert (Hq : q ++ (jExec <$> lJobs l) ≡ₚ e :: (q ++ (jExec <$> delete k (lJobs l)))) by (by rewrite Hj, Permutation_middle).
  assert (Hrep : reporting l e r) by (apply list_elem_of_lookup; by exists k).
  assert (Hold : ∀ e' r', Job e' (Reporting r') ∈ delete k (lJobs l) → reporting l e' r').
  { intros e' r' Hin. unfold reporting. rewrite (delete_Permutation _ _ _ Hk). by right. }
  destruct (H7 e r Hrep) as (x & Hx & Hlx). rewrite Hq in H4. apply NoDup_cons in H4 as [He Hnd].
  split; simpl; try done.
  - rewrite length_app, length_delete by (by eexists). pose proof (lookup_lt_Some _ _ _ Hk). simpl. lia.
  - intros e' He'. apply H5. rewrite Hq. by right.
  - intros id e' He'. destruct (H6 id e' He') as (y & Hy & Hl & Hc & Hwhere). exists y. split_and!; try done.
    rewrite Hj in Hwhere. rewrite fmap_app, elem_of_app. simpl. rewrite list_elem_of_singleton.
    destruct Hwhere as [?|[[->|?]%elem_of_cons|?]]; [by left| |by right; left|by right; right; left].
    right. right. right. by simplify_eq.
  - intros e' r' Hr'. by apply H7, Hold.
  - intros r' [Hr'|Hr'%list_elem_of_singleton]%elem_of_app.
    + destruct (H8 r' Hr') as (e' & y & Hy & Hl & Hn). exists e', y. split_and!; try done. intros Hin. apply Hn. rewrite Hq. by right.
    + subst r'. by exists e, x.
  - intros r' Hr'. apply H9. destruct Hr' as [[?|Hr'%list_elem_of_singleton]%elem_of_app|(e' & ?%Hold)].
    + by left.
    + subst r'. right. by exists e.
    + right. by exists e'.
Qed.

(** The loop receives a result. *)
Lemma core_received l q r rest :
  core l q → lResults l = r :: rest →
  core (match lActive l !! rLease r with
        | Some _ => l <| lResults := rest |> <| lRunning ::= Z.pred |>
                      <| lActive ::= delete (rLease r) |> <| lPending ::= λ p, p ++ [r] |>
        | None => l <| lResults := rest |> <| lRunning ::= Z.pred |>
        end) q.
Proof using Type.
  intros [H1 H2 H3 H4 H5 H6 H7 H8 H9 H10 H11 H12 H13] Hr.
  assert (Hact : ∀ id e, id ≠ rLease r → lActive l !! id = Some e → ∃ x, lExecs l !! e = Some x ∧ leaseOf x = id ∧
    heCancel x ≠ CancelCalled ∧ (e ∈ q ∨ e ∈ jExec <$> lJobs l ∨ id ∈ rLease <$> rest)).
  { intros id e Hne He. destruct (H6 id e He) as (x & Hx & Hl & Hc & Hwhere). exists x. split_and!; try done.
    rewrite Hr in Hwhere. simpl in Hwhere. rewrite elem_of_cons in Hwhere. tauto. }
  destruct (lActive l !! rLease r) as [e|] eqn:Ha.
  - assert (Htell : telling r).
    { destruct (H9 r) as [?|(e' & y & Hy & Hl & Hc)]; [left; rewrite Hr; left|done|exfalso].
      destruct (H6 _ _ Ha) as (x & Hx & Hlx & Hnc & _). rewrite <- Hl in Hlx.
      rewrite (lease_inj l e e' x y H3 Hx Hy Hlx) in Hx. by simplify_eq. }
    assert (Hknown : rLease r ∈ leaseOf <$> lExecs l).
    { destruct (H6 _ _ Ha) as (x & Hx & <- & _). apply list_elem_of_fmap_2, list_elem_of_lookup. by exists e. }
    split; simpl; try done.
    + rewrite H1, Hr. simpl. lia.
    + lia.
    + intros id e' [Hne He']%lookup_delete_Some. by apply Hact.
    + intros r' Hr'. apply H8. rewrite Hr. by right.
    + intros r' [?|?]; apply H9; [left; rewrite Hr; by right|by right].
    + rewrite app_assoc, fmap_app. apply NoDup_app. split_and!; [done| |apply NoDup_singleton].
      intros id [r' [-> Hr']]%list_elem_of_fmap Heq%list_elem_of_singleton.
      destruct (H11 r' Hr') as (_ & _ & Hn). rewrite Heq in Hn. by rewrite Ha in Hn.
    + intros r'. rewrite app_assoc, elem_of_snoc. intros [Hr'|Heq]; [|subst r'].
      * destruct (H11 r' Hr') as (? & ? & ?). split_and!; try done. by apply lookup_delete_None; right.
      * split_and!; [done|done|]. by apply lookup_delete_None; left.
  - split; simpl; try done.
    + rewrite H1, Hr. simpl. lia.
    + lia.
    + intros id e He. apply Hact; [|done]. intros ->. congruence.
    + intros r' Hr'. apply H8. rewrite Hr. by right.
    + intros r' [?|?]; apply H9; [left; rewrite Hr; by right|by right].
Qed.
(** ** The loop *)

(** The invariant of the loop, with its slots full while work waits. *)
Definition loop_ok (l : loop) : Prop := core l (lQueue l) ∧ (lQueue l ≠ [] → slots ≤ lRunning l).

Lemma flush_ok l : loop_ok l → loop_ok (flush l).
Proof using Type.
  intros [[H1 H2 H3 H4 H5 H6 H7 H8 H9 H10 H11 H12 H13] Hf]. unfold flush.
  destruct (lDirty l && negb (lInFlight l)); split; [|done|by split|done].
  split; simpl; rewrite ?app_nil_r; try done.
Qed.

Lemma dirty_ok l : loop_ok l → loop_ok (l <| lDirty := true |>).
Proof using Type. intros [[H1 H2 H3 H4 H5 H6 H7 H8 H9 H10 H11 H12 H13] Hf]. by split; [split|]. Qed.

Lemma handleReady_ok l lease hash rest : loop_ok l → loop_ok (handleReady (l <| lReady := rest |>) lease hash).
Proof using Type.
  intros [Hc Hf]. unfold handleReady. apply dirty_ok. simpl.
  assert (Hc' : core (l <| lReady := rest |> <| lBinaries ::= λ bs, bs ++ [hash] |>) (lQueue l)) by (destruct Hc; by split).
  destruct (lActive l !! lease) as [e|] eqn:Ha; [|by split].
  destruct (lk_active _ _ Hc _ _ Ha) as (x & Hx & Hid & Hnc & _).
  assert (Hex : core (l <| lReady := rest |> <| lBinaries ::= λ bs, bs ++ [hash] |> <| lExecs ::= <[e := x <| heState := "running" |>]> |>) (lQueue l))
    by (by apply (core_exec _ _ e x)).
  split; [|done]. revert Hex. cbn. by rewrite (alter_insert_list _ _ _ _ Hx).
Qed.

Lemma handleResult_ok l r rest : loop_ok l → lResults l = r :: rest → loop_ok (handleResult slots (l <| lResults := rest |>) r).
Proof using Type.
  intros [Hc Hf] Hr. unfold handleResult. apply dirty_ok. pose proof (core_received l _ r rest Hc Hr) as Hrec.
  cbn [lActive set_field]. change (lActive (l <| lResults := rest |> <| lRunning ::= Z.pred |>)) with (lActive l).
  destruct (lActive l !! rLease r); by apply startLoop_core.
Qed.

Lemma handleResponse_ok l res l' :
  loop_ok l → NoDup (wwLease <$> Work res) → (∀ w, w ∈ Work res → wwLease w ∉ leaseOf <$> lExecs l) →
  handleResponse slots l (inr res) = inr l' → loop_ok l'.
Proof using Type.
  intros [Hc Hf] Hnd Hnew. unfold handleResponse.
  destruct (bool_decide (wrError res = "")); [|done]. cbn [negb]. destruct (Done res); [done|]. intros [= <-].
  assert (Hc' : core (l <| lInFlight := false |> <| lRequest := None |>) (lQueue l)).
  { destruct Hc. split; try done. simpl. split; [done|by intros [? ?]]. }
  destruct (cancel_all (Cancel res) _ Hc') as [Hcc Hex]. apply startLoop_core, addWork_all; [done|done|].
  intros w Hw Hin. apply (Hnew w Hw). exact (eq_ind _ (λ k, wwLease w ∈ k) Hin _ Hex).
Qed.

Lemma handle_ok l ev l' : loop_ok l → admissible l ev → handle slots l ev = Some (inr l') → loop_ok l'.
Proof using Type.
  intros Hl Had. pose proof Hl as [Hc Hf]. destruct ev as [exchange| | | |k bin|k|k r|k]; cbn [handle admissible] in *.
  - destruct (lInFlight l); [|done]. intros [= Hres]. destruct exchange as [e|res]; [done|].
    destruct Had as [Hnd Hnew]. by eapply handleResponse_ok.
  - destruct (lReady l) as [|[lease hash] rest]; [done|]. intros [= <-]. by apply handleReady_ok.
  - destruct (lResults l) as [|r rest] eqn:Hr; [done|]. intros [= <-]. by apply handleResult_ok.
  - intros [= <-]. by apply dirty_ok.
  - destruct (lJobs l !! k) as [[e []]|] eqn:Hk; try done. destruct (lExecs l !! e) as [x|] eqn:Hx; [|done].
    intros [= <-]. split; [|done]. apply (core_stage l (lQueue l) k e Building); [done|done|]. intros r. unfold afterBuild.
    destruct bin as [hash|err]; [destruct (heCancel x) eqn:Hcx; try done|]; intros [= <-]; simpl; (split; [by exists x|]).
    + right. by exists e, x.
    + left. by right.
  - destruct (lJobs l !! k) as [[e [|hash| |]]|] eqn:Hk; try done. destruct (lExecs l !! e) as [x|] eqn:Hx; [|done]. simpl.
    destruct (Z.ltb _ _); [|done]. intros [= <-]. split; [|done].
    pose proof (core_stage l (lQueue l) k e _ Executing Hc Hk) as Hst. destruct Hst; [done|by split].
  - destruct (lJobs l !! k) as [[e []]|] eqn:Hk; try done. destruct (lExecs l !! e) as [x|] eqn:Hx; [|done].
    intros [= <-]. split; [|done]. apply (core_stage l (lQueue l) k e Executing); [done|done|]. intros r' [= <-].
    split; [by exists x|left]. done.
  - destruct (lJobs l !! k) as [[e [| | |r]]|] eqn:Hk; try done. destruct (Z.ltb _ _); [|done]. intros [= <-].
    split; [by apply (core_report l (lQueue l) k e r)|done].
Qed.

Lemma loop_invariant l : loopReached slots l → loop_ok l.
Proof using Type.
  induction 1 as [|l ev l' _ IH Had Hstep].
  { apply flush_ok. split; [|done]. split; simpl; try done; try (apply NoDup_nil_2); try lia.
    - by intros e He%not_elem_of_nil.
    - intros e r Hr. by apply not_elem_of_nil in Hr.
    - by intros r Hr%not_elem_of_nil.
    - intros r [Hr%not_elem_of_nil|[e Hr%not_elem_of_nil]]; done.
    - by intros r Hr%not_elem_of_nil.
    - by intros x Hx%not_elem_of_nil. }
  unfold loopStep in Hstep.
  assert (Hcase : (∃ l1, handle slots l ev = Some (inr l1) ∧ l' = flush l1) ∨ handle slots l ev = Some (inr l')).
  { destruct ev; try by right. all: left; destruct (handle _ _ _) as [[?|l1]|]; cbn in Hstep; try done; exists l1; split; [done|congruence]. }
  destruct Hcase as [(l1 & Hh & ->)|Hh]; [apply flush_ok|]; by eapply handle_ok.
Qed.
(** ** Progress *)

Definition stageWork (sg : stage) : Z :=
  match sg with Building => 6 | Announcing _ => 5 | Executing => 3 | Reporting _ => 2 end.

(** The steps that are left of what the helper has. *)
Definition workLeft (l : loop) : Z :=
  7 * Z.of_nat (length (lQueue l)) + sumZ ((λ j, stageWork (jStage j)) <$> lJobs l) +
  Z.of_nat (length (lReady l)) + Z.of_nat (length (lResults l)).

Lemma startLoop_work q : ∀ l,
  workLeft (startLoop slots q l) ≤ 7 * Z.of_nat (length q) + sumZ ((λ j, stageWork (jStage j)) <$> lJobs l) +
    Z.of_nat (length (lReady l)) + Z.of_nat (length (lResults l)).
Proof using Type.
  induction q as [|e q IH]; intros l; cbn [startLoop]; [unfold workLeft; simpl; lia|].
  destruct (_ <? _); [|unfold workLeft; simpl; lia].
  assert (Hskip : workLeft (startLoop slots q l) ≤ 7 * Z.of_nat (length (e :: q)) +
    sumZ ((λ j, stageWork (jStage j)) <$> lJobs l) + Z.of_nat (length (lReady l)) + Z.of_nat (length (lResults l)))
    by (etrans; [apply IH|simpl; lia]).
  destruct (lExecs l !! e) as [x|]; [|done]. case_bool_decide; [|done].
  etrans; [apply IH|]. cbn [lJobs lReady lResults set_field]. simpl. rewrite fmap_app, sumZ_app. simpl. lia.
Qed.

Lemma stages_insert (js : list job) k e sg sg' :
  js !! k = Some (Job e sg) →
  sumZ ((λ j, stageWork (jStage j)) <$> <[k := Job e sg']> js) =
  sumZ ((λ j, stageWork (jStage j)) <$> js) - stageWork sg + stageWork sg'.
Proof using Type.
  intros Hk. rewrite (sumZ_insert _ _ _ _ _ Hk). simpl. lia.
Qed.

Lemma stages_delete (js : list job) k e sg :
  js !! k = Some (Job e sg) →
  sumZ ((λ j, stageWork (jStage j)) <$> delete k js) = sumZ ((λ j, stageWork (jStage j)) <$> js) - stageWork sg.
Proof using Type.
  revert k. induction js as [|j js IH]; intros k Hk; [done|]. destruct k as [|k].
  - injection Hk as ->. cbn. unfold sumZ. cbn. lia.
  - change (delete (S k) (j :: js)) with (j :: delete k js). rewrite !fmap_cons.
    pose proof (IH k Hk) as E. unfold sumZ in *. cbn [foldr]. lia.
Qed.

(** The events by which the helper works on what it has. *)
Definition working (ev : loopEvent) : Prop := match ev with LResponse _ | LTick => False | _ => True end.

Lemma flush_work l : workLeft (flush l) = workLeft l.
Proof using Type. unfold flush. by destruct (_ && _). Qed.

Lemma handle_work l ev l' : working ev → handle slots l ev = Some (inr l') → workLeft l' < workLeft l.
Proof using Type.
  destruct ev as [exchange| | | |k bin|k|k r|k]; intros Hw; try done; cbn [handle].
  - destruct (lReady l) as [|[lease hash] rest] eqn:Hr; [done|]. intros [= <-]. unfold handleReady, workLeft.
    rewrite Hr. match goal with |- context [match ?x with Some _ => _ | None => _ end] => destruct x end; simpl; lia.
  - destruct (lResults l) as [|r rest] eqn:Hr; [done|]. intros [= <-]. unfold handleResult.
    assert (Hd : ∀ l0, workLeft (l0 <| lDirty := true |>) = workLeft l0) by done. rewrite Hd. unfold start.
    eapply Z.le_lt_trans; [apply startLoop_work|]. unfold workLeft. rewrite Hr.
    match goal with |- context [match ?x with Some _ => _ | None => _ end] => destruct x end; simpl; lia.
  - destruct (lJobs l !! k) as [[e []]|] eqn:Hk; try done. destruct (lExecs l !! e) as [x|]; [|done]. intros [= <-].
    unfold workLeft. simpl. rewrite (stages_insert _ _ _ _ _ Hk). simpl. unfold afterBuild.
    destruct bin as [?|?]; [destruct (heCancel x)|]; simpl; lia.
  - destruct (lJobs l !! k) as [[e [|hash| |]]|] eqn:Hk; try done. destruct (lExecs l !! e) as [x|]; [|done]. simpl.
    destruct (Z.ltb _ _); [|done]. intros [= <-]. unfold workLeft. simpl. rewrite (stages_insert _ _ _ _ _ Hk), length_app. simpl. lia.
  - destruct (lJobs l !! k) as [[e []]|] eqn:Hk; try done. destruct (lExecs l !! e) as [x|]; [|done]. intros [= <-].
    unfold workLeft. simpl. rewrite (stages_insert _ _ _ _ _ Hk). simpl. lia.
  - destruct (lJobs l !! k) as [[e [| | |r]]|] eqn:Hk; try done. destruct (Z.ltb _ _); [|done]. intros [= <-].
    unfold workLeft. simpl. rewrite (stages_delete _ _ _ _ Hk), length_app. simpl. lia.
Qed.

(** While a lease is active some such event can happen, whatever builds and
    executions return. *)
Lemma working_enabled l id e bin r :
  loop_ok l → 1 ≤ slots → lActive l !! id = Some e →
  ∃ ev l', working ev ∧ (ev = LReady ∨ ev = LResult ∨ ∃ k, ev = LBuilt k bin ∨ ev = LAnnounce k ∨ ev = LExecuted k r ∨ ev = LReport k) ∧
    handle slots l ev = Some (inr l').
Proof using Type.
  intros [Hc Hf] Hs Ha. destruct (lk_active _ _ Hc _ _ Ha) as (x & Hx & _ & _ & Hwhere).
  destruct (lResults l) as [|r0 rest] eqn:Hr.
  2: { eexists LResult, _. split_and!; [done|by right; left|]. cbn [handle]. by rewrite Hr. }
  assert (Hjobs : lJobs l ≠ []).
  { intros Hnil. pose proof (lk_count _ _ Hc) as Hcount. rewrite Hnil, Hr in Hcount. simpl in Hcount.
    destruct Hwhere as [Hq|[Hj|Hin]].
    - assert (lQueue l ≠ []) as Hne by (intros E; by rewrite E in Hq; apply not_elem_of_nil in Hq). specialize (Hf Hne). lia.
    - rewrite Hnil in Hj. by apply not_elem_of_nil in Hj.
    - by apply not_elem_of_nil in Hin. }
  destruct (lJobs l) as [|[e0 sg] js] eqn:Hj; [done|].
  assert (Hk : lJobs l !! 0%nat = Some (Job e0 sg)) by (by rewrite Hj).
  assert (is_Some (lExecs l !! e0)) as [x0 Hx0].
  { apply lookup_lt_is_Some, (lk_bound _ _ Hc). rewrite Hj. simpl. apply elem_of_app. right. left. }
  destruct sg as [|hash| |r'].
  - eexists (LBuilt 0 bin), _. split_and!; [done|eauto|]. cbn [handle]. rewrite Hk, Hx0. reflexivity.
  - destruct (lReady l) as [|[lease h] rest] eqn:Hrd.
    + eexists (LAnnounce 0), _. split_and!; [done|eauto 6|]. cbn [handle]. rewrite Hk, Hx0. simpl. rewrite Hrd. simpl.
      rewrite (proj2 (Z.ltb_lt _ _)) by (simpl; lia); reflexivity.
    + eexists LReady, _. split_and!; [done|by left|]. cbn [handle]. by rewrite Hrd.
  - eexists (LExecuted 0 r), _. split_and!; [done|eauto 7|]. cbn [handle]. rewrite Hk, Hx0. reflexivity.
  - eexists (LReport 0), _. split_and!; [done|eauto 8|]. cbn [handle]. rewrite Hk, Hr. simpl. rewrite (proj2 (Z.ltb_lt _ _)) by (simpl; lia); reflexivity.
Qed.
(** the helper's loop.  It never has more than [-j] goroutines with results
    to be received, and exactly [-j] while work is queued.  No lease is lost:
    a lease it says it works on is queued, has its one goroutine, or its result
    is to be received, and it was not canceled. *)
Theorem helper_loop_safe l :
  loopReached slots l →
  lRunning l = Z.of_nat (length (lJobs l) + length (lResults l)) ∧ lRunning l ≤ Z.max 0 slots ∧
  (lQueue l ≠ [] → slots ≤ lRunning l) ∧
  NoDup (lQueue l ++ (jExec <$> lJobs l)) ∧
  ∀ id e, lActive l !! id = Some e → ∃ x, lExecs l !! e = Some x ∧ leaseOf x = id ∧ heCancel x ≠ CancelCalled ∧
    (e ∈ lQueue l ∨ e ∈ jExec <$> lJobs l ∨ id ∈ rLease <$> lResults l).
Proof using Type.
  intros Hr. destruct (loop_invariant l Hr) as [Hc Hf]. split_and!; [|apply Hc|done|apply Hc|apply (lk_active _ _ Hc)].
  rewrite (lk_count _ _ Hc). lia.
Qed.

(** C10: what a helper reports.  Over all its requests it reports a lease at most
    once, only a lease it was given, and not one it still works on.  Every
    result it reports is a pass or has an error: the empty result of a
    goroutine whose lease was canceled while it built, which the leader would
    take for a failure of the test, never gets there. *)
Theorem helper_reports_once l :
  loopReached slots l →
  NoDup (rLease <$> lReported l ++ lPending l) ∧
  ∀ r, r ∈ lReported l ++ lPending l →
    (rPassed r = true ∨ rError r ≠ "") ∧ rLease r ∈ leaseOf <$> lExecs l ∧ lActive l !! rLease r = None.
Proof using Type. intros Hr. destruct (loop_invariant l Hr) as [Hc _]. split; [apply Hc|apply (lk_pending _ _ Hc)]. Qed.

(** C35: a helper finishes what it has.  While a lease is active one of its
    goroutines or its loop can go on, whatever the build and the execution
    return, and every such step reduces the work that is left, so that without
    new work every lease is reported or canceled. *)
Theorem helper_finishes l :
  loopReached slots l → 1 ≤ slots →
  (∀ id e bin r, lActive l !! id = Some e → ∃ ev l', working ev ∧
    (ev = LReady ∨ ev = LResult ∨ ∃ k, ev = LBuilt k bin ∨ ev = LAnnounce k ∨ ev = LExecuted k r ∨ ev = LReport k) ∧
    loopStep slots l ev = Some (inr l')) ∧
  ∀ ev l', working ev → loopStep slots l ev = Some (inr l') → workLeft l' < workLeft l.
Proof using Type.
  intros Hr Hs. pose proof (loop_invariant l Hr) as Hl. split.
  - intros id e bin r Ha. destruct (working_enabled l id e bin r Hl Hs Ha) as (ev & l' & Hw & Hev & Hh).
    exists ev. destruct ev; try done; unfold loopStep; rewrite Hh; eexists; (split_and!; [done|done|reflexivity]).
  - intros ev l' Hw. destruct ev; try done; unfold loopStep.
    1,2: destruct (handle _ _ _) as [[?|l1]|] eqn:Hh; cbn; try done; intros [= <-]; rewrite flush_work; by eapply handle_work.
    all: by apply handle_work.
Qed.
End facts.

(** ** An example *)

(** One slot and two tests: the second waits for the first. *)
Definition exWork (id : Z) : workerWork := WorkerWork id "p" "TestA" "h" [].
Definition exResponse : loopEvent := LResponse (inr (WorkerResponse [exWork 1; exWork 2] [] false "")).
Definition exPass : workerResult := WorkerResult 0 true false 5 1 1 [] ∅ [] "" false.

Fixpoint runLoop (slots : Z) (l : loop) (evs : list loopEvent) : option loop :=
  match evs with
  | [] => Some l
  | ev :: evs => match loopStep slots l ev with Some (inr l) => runLoop slots l evs | _ => None end
  end.

Lemma runLoop_reached slots evs : ∀ l l',
  loopReached slots l → Forall (λ ev, ∀ l, admissible l ev) evs → runLoop slots l evs = Some l' → loopReached slots l'.
Proof.
  induction evs as [|ev evs IH]; intros l l' Hr Had; cbn [runLoop]; [by intros [= <-]|]. apply Forall_cons in Had as [Ha Had].
  destruct (loopStep slots l ev) as [[?|l1]|] eqn:E; [done| |done]. apply IH; [|done]. by eapply LoopStep.
Qed.

Definition exQueued : loop := default initLoop (runLoop 1 (flush initLoop) [exResponse]).
Definition exEvents : list loopEvent :=
  [LBuilt 0 (Ok "h"); LAnnounce 0; LReady; LExecuted 0 exPass; LReport 0; LResult].
Definition exLoop : loop := default initLoop (runLoop 1 exQueued exEvents).

Example exLoop_state :
  (lRunning exLoop, lQueue exLoop, rLease <$> lReported exLoop ++ lPending exLoop, heState <$> lExecs exLoop) =
  (1, [], [1], ["running"; "building"]).
Proof. reflexivity. Qed.

Lemma exLoop_reached : loopReached 1 exLoop.
Proof.
  apply (runLoop_reached 1 exEvents exQueued); [| |vm_compute; reflexivity].
  - apply (LoopStep 1 (flush initLoop) exResponse); [constructor| |vm_compute; reflexivity]. split.
    + apply NoDup_cons. split; [|apply NoDup_singleton]. by intros [=]%list_elem_of_singleton.
    + intros w _. apply not_elem_of_nil.
  - unfold exEvents. repeat (apply Forall_cons_2; [intros l; first [exact I|by left]|]). apply Forall_nil_2.
Qed.

Lemma helper_loop_safe_witness : lRunning exLoop ≤ 1.
Proof. exact (proj1 (proj2 (helper_loop_safe 1 exLoop exLoop_reached))). Defined.

Lemma helper_reports_once_witness : NoDup (rLease <$> lReported exLoop ++ lPending exLoop).
Proof. exact (proj1 (helper_reports_once 1 exLoop exLoop_reached)). Defined.

Lemma helper_finishes_witness :
  ∃ ev l', working ev ∧ loopStep 1 exLoop ev = Some (inr l').
Proof.
  destruct (proj1 (helper_finishes 1 exLoop exLoop_reached ltac:(lia)) 2 1%nat (Ok "h") exPass eq_refl)
    as (ev & l' & Hw & _ & Hs).
  exact (ex_intro _ ev (ex_intro _ l' (conj Hw Hs))).
Defined.
