(* ===== verification/WorkerFacts.v ===== *)
(** * What leader and helper agree on *)

From S2P Require Import Prelude GoStrings Flags Path Profile Utf8 Invocation GoFmt Args Sha256 Quote HistoryTypes TestCache Server Fleet FleetInv FleetCommit FleetSteps FleetSystem FleetTheorems FleetGrowth Isolated Worker WorkerLoop.

(** ** The same command line everywhere *)

(** What the flags force at the end of a command line, and what they therefore
    remove from it. *)
Definition forcedArgs (f : flags) : list string :=
  "-test.count=1" :: (if failFast f then ["-test.failfast=true"] else []) ++ (if jsonSummary f then ["-test.v=true"] else []).

Definition kept (f : flags) (arg : string) : bool :=
  negb (setsFlag "-test.count" arg) && negb (failFast f && setsFlag "-test.failfast" arg) &&
  negb (jsonSummary f && setsFlag "-test.v" arg).

Lemma effectiveTestArgs_kept f task profile :
  effectiveTestArgs f task profile =
  filter (λ arg, kept f arg = true) (profileTestArgs (binArgs (bin task)) profile) ++ forcedArgs f.
Proof.
  unfold effectiveTestArgs. generalize (profileTestArgs (binArgs (bin task)) profile) as args. intros args.
  unfold setTestArg, forcedArgs. destruct (failFast f) eqn:Eff, (jsonSummary f) eqn:Ej; rewrite ?filter_app, ?list_filter_filter;
    cbn [app]; simpl; rewrite <- ?app_assoc; cbn [app]; f_equal; apply list_filter_iff; intros arg; unfold kept; rewrite Eff, Ej;
    destruct (setsFlag "-test.count" arg), (setsFlag "-test.failfast" arg), (setsFlag "-test.v" arg); simpl; naive_solver.
Qed.

Lemma forced_not_kept f : filter (λ arg, kept f arg = true) (forcedArgs f) = [].
Proof. unfold forcedArgs, kept. destruct (failFast f), (jsonSummary f); reflexivity. Qed.

(** The marker that [directTestArgs] removes. *)
Definition test2json : string := "-test.v=test2json".

Lemma test2json_absent f task profile :
  jsonSummary f = true ∨ test2json ∉ normalizeTestFlag <$> TestFlags profile →
  test2json ∉ effectiveTestArgs f task profile.
Proof.
  intros Hcond. rewrite effectiveTestArgs_kept, elem_of_app, list_elem_of_filter. intros [[Hk Hin]|Hin].
  - destruct Hcond as [Hj|Hn].
    + unfold kept in Hk. assert (Hv : setsFlag "-test.v" test2json = true) by reflexivity.
      rewrite Hj, Hv in Hk. cbn [andb negb] in Hk. by rewrite andb_false_r in Hk.
    + unfold profileTestArgs in Hin. rewrite elem_of_app in Hin. destruct Hin as [Hin|?]; [|done].
      assert (Hd : test2json ∉ directTestArgs (binArgs (bin task))).
      { unfold directTestArgs. rewrite list_elem_of_filter. by intros [? _]. }
      destruct (shortSet profile), (negb (Timeout profile =? 0)); unfold setTestArg in Hin;
        repeat (rewrite ?elem_of_app, ?list_elem_of_filter in Hin;
          destruct Hin as [Hin|Hin%list_elem_of_singleton]; [|discriminate Hin]; try (destruct Hin as [_ Hin])); done.
  - unfold forcedArgs in Hin. destruct (failFast f), (jsonSummary f); cbn [app] in Hin; rewrite ?elem_of_cons in Hin;
      repeat (destruct Hin as [Hin|Hin]; [discriminate Hin|]); by apply not_elem_of_nil in Hin.
Qed.

(** Resolving arguments that are resolved already changes nothing. *)
Lemma effectiveTestArgs_again f f' task task' profile profile' :
  failFast f' = failFast f → jsonSummary f' = jsonSummary f →
  shortSet profile' = false → Timeout profile' = 0 → TestFlags profile' = [] →
  jsonSummary f = true ∨ test2json ∉ normalizeTestFlag <$> TestFlags profile →
  binArgs (bin task') = effectiveTestArgs f task profile →
  effectiveTestArgs f' task' profile' = effectiveTestArgs f task profile.
Proof.
  intros Hff Hj Hs Ht Hfl Hcond Hargs. pose proof (test2json_absent f task profile Hcond) as Hno.
  rewrite (effectiveTestArgs_kept f'). unfold profileTestArgs. rewrite Hs, Ht, Hfl. simpl negb. cbv iota.
  rewrite Hargs, fmap_nil, app_nil_r. 
  assert (directTestArgs (effectiveTestArgs f task profile) = effectiveTestArgs f task profile) as ->.
  { apply filter_all. intros x Hx Heq. apply Hno. unfold test2json. by rewrite <- Heq. }
  assert (Hk : ∀ arg, kept f' arg = kept f arg) by (intros arg; unfold kept; by rewrite Hff, Hj).
  assert (forcedArgs f' = forcedArgs f) as -> by (unfold forcedArgs; by rewrite Hff, Hj).
  rewrite effectiveTestArgs_kept, (list_filter_iff _ (λ arg, kept f arg = true)) by (intros; by rewrite Hk).
  rewrite filter_app, forced_not_kept, app_nil_r, list_filter_filter.
  f_equal. apply list_filter_iff. naive_solver.
Qed.

Section agreement.
Context `{GoRuntime}.

End agreement.

(** ** Connections are part of the fleet *)

Section serving.
Context `{GoRuntime} (fl : flags).

(** What a connection waits for. *)
Definition awaits (c : conn) (i : connInput) : Prop :=
  match c, i with
  | CGreet, InHello _ | CConfig _, InSent _ | CReply _ _, InSent _ | CRead _, InRequest _
  | CAccept _ _ _, InTurn | CLeave _ _, InTurn => True
  | _, _ => False
  end.

(** The worker of a connection is a helper of the fleet. *)
Definition conn_ok (y : system) (c : conn) : Prop :=
  match c with
  | CGreet | CClosed => True
  | CConfig wi | CRead wi | CAccept wi _ _ | CReply wi _ | CLeave wi _ => helper y wi
  end.

Lemma conn_ok_stable y e y' c : reachable fl y → step fl y e y' → conn_ok y c → conn_ok y' c.
Proof using Type.
  intros Hr Hs. pose proof (reachable_inv fl y Hr) as Hy. destruct c; simpl; try done; by eapply helper_stable.
Qed.

Lemma joined_helper y name sl now : sys_inv fl y →
  helper (y <| lead := (addWorker (lead y) name sl false now).2 |>) (length (workers (flt (lead y)))).
Proof using Type.
  intros Hy. split; simpl.
  - intros Hl. destruct (si_local _ _ Hy _ Hl) as (w & Hw & _). apply lookup_lt_Some in Hw. lia.
  - apply lookup_lt_is_Some. rewrite length_app. simpl. lia.
Qed.

Lemma rejectHello_slots h : rejectHello h = "" → 1 ≤ whSlots h ≤ 1024.
Proof using Type.
  unfold rejectHello. destruct (negb (_ =? _)); [done|]. destruct (_ || _); [done|].
  destruct (Z.ltb_spec (whSlots h) 1), (Z.ltb_spec 1024 (whSlots h)); simpl; intros; done || lia.
Qed.

Lemma event_enabled y c i now e : conn_ok y c → serveEvent c i now = Some e → enabled y e.
Proof using Type.
  destruct c as [|wi|wi|wi [|r rest] req|wi res|wi err|], i as [[h|]|err'|req'|]; simpl; try done; intros Hok.
  - case_bool_decide as Hh; [|done]. intros [= <-]. simpl. by apply rejectHello_slots.
  - by intros [= <-].
  - by intros [= <-].
  - by intros [= <-].
Qed.

Lemma exec_defined y e : reachable fl y → enabled y e → ∃ y', exec fl y e = Some y' ∧ step fl y e y'.
Proof using Type.
  intros Hr He. destruct (step_total fl y e (reachable_inv fl y Hr) He) as (y' & E & _). exists y'. by split.
Qed.

Lemma serveNext_defined y c i now : reachable fl y → conn_ok y c → awaits c i → is_Some (serveNext fl y c i now).
Proof using Type.
  intros Hr Hok. destruct c as [|wi|wi|wi [|r rest] req|wi [ws cs [] e]|wi err|], i as [[h|]|err'|[?|req']|]; simpl; try done; intros _; try by eexists.
  - destruct (poll_inv fl y wi req now (reachable_inv fl y Hr) Hok) as (res & st & -> & _). by eexists.
  - destruct e; by eexists.
Qed.

Lemma serveNext_ok y c i now c' y' :
  reachable fl y → conn_ok y c → serveNext fl y c i now = Some c' →
  (serveEvent c i now = None → conn_ok y c') ∧ (∀ e, serveEvent c i now = Some e → step fl y e y' → conn_ok y' c').
Proof using Type.
  intros Hr Hok Hn. pose proof (reachable_inv fl y Hr) as Hy. split.
  - intros He. destruct c as [|wi|wi|wi [|r rest] req|wi [ws cs [] e]|wi err|], i as [[h|]|err'|[?|req']|];
      cbn [serveNext serveEvent conn_ok] in *; repeat first [done | progress simplify_eq | case_match].
  - intros e He Hs. destruct c as [|wi|wi|wi [|r rest] req|wi res|wi err|], i as [[h|]|err'|[?|req']|]; simpl in *; try done.
    + case_bool_decide; [|done]. simplify_eq. destruct Hs as [_ E]. cbn [exec] in E. simplify_eq. by apply joined_helper.
    + destruct (exchangeLocked _ _ _ _ _) as [[res st]|]; [|done]. cbn in Hn. simplify_eq. by eapply helper_stable.
    + simplify_eq. by eapply helper_stable.
    + by simplify_eq.
Qed.

(** One step of a connection. *)
Lemma serveStep_ok y c i now c' y' :
  reachable fl y → conn_ok y c → serveStep fl y c i now = Some (c', y') →
  (y' = y ∨ ∃ e, step fl y e y') ∧ reachable fl y' ∧ conn_ok y' c'.
Proof using Type.
  intros Hr Hok. unfold serveStep. destruct (serveNext fl y c i now) as [c1|] eqn:Hn; [|done]. cbn [mbind option_bind].
  destruct (serveEvent c i now) as [e|] eqn:He.
  - destruct (exec_defined y e Hr (event_enabled y c i now e Hok He)) as (y1 & -> & Hs). intros [= <- <-].
    split_and!; [right; by exists e|by eapply reach_step|]. exact (proj2 (serveNext_ok y c i now c1 y1 Hr Hok Hn) e He Hs).
  - intros [= <- <-]. split_and!; [by left|done|]. exact (proj1 (serveNext_ok y c i now c1 y Hr Hok Hn) He).
Qed.

(** C18: connections refine the fleet.  Each step of [serveWorker] either leaves
    the fleet alone (a helper that is turned away never becomes part of it) or
    is one enabled event of the distributed run, so that everything proved of
    distributed runs holds with real connections; no step dereferences nil
    whatever arrives; and the worker of a connection stays a helper of the
    fleet, whatever other connections and the leader do in between. *)
Theorem serveWorker_refines y c :
  reachable fl y → conn_ok y c →
  (∀ i now, awaits c i → is_Some (serveStep fl y c i now)) ∧
  (∀ i now c' y', serveStep fl y c i now = Some (c', y') → (y' = y ∨ ∃ e, step fl y e y') ∧ reachable fl y' ∧ conn_ok y' c') ∧
  (∀ e y', step fl y e y' → conn_ok y' c).
Proof using Type.
  intros Hr Hok. split_and!; [|by intros i now c' y'; apply serveStep_ok|by intros e y' Hs; eapply conn_ok_stable].
  intros i now Ha. unfold serveStep. destruct (serveNext_defined y c i now Hr Hok Ha) as [c' ->]. cbn [mbind option_bind].
  destruct (serveEvent c i now) as [e|] eqn:He; [|by eexists].
  destruct (exec_defined y e Hr (event_enabled y c i now e Hok He)) as (y' & -> & _). by eexists.
Qed.
End serving.

(** ** Binaries *)

(** a helper never runs the wrong binary.  Whatever builds return, as long
    as the leader names one binary per package, every binary that
    [helperBuilder.binary] returns is of the package that was asked for and has
    the hash the leader named; a build that gives anything else is an error and
    nothing of it is kept; and a package is built successfully at most once. *)
Theorem binary_matches `{GoRuntime} (b b' : helperBuilder) work build res (named : string → string) :
  (∀ p bin, hbBins b !! p = Some bin → pkg bin = p ∧ binHash (absBin bin) = named p) →
  wwBinary work = named (wwPackage work) →
  binary b work build = (res, b') →
  (∀ p bin, hbBins b' !! p = Some bin → pkg bin = p ∧ binHash (absBin bin) = named p) ∧
  match res with
  | Ok bin => pkg bin = wwPackage work ∧ binHash (absBin bin) = wwBinary work ∧ hbBins b' !! wwPackage work = Some bin ∧
      ∀ build', binary b' work build' = (Ok bin, b')
  | Err _ => b' = b
  end.
Proof.
  intros Hinv Hname. unfold binary. destruct (hbBins b !! wwPackage work) as [bin|] eqn:Hb.
  { intros [= <- <-]. destruct (Hinv _ _ Hb) as [Hp Hh]. split_and!; try done; [congruence|]. intros build'. by rewrite Hb. }
  destruct (build _) as [built|e]; [|by intros [= <- <-]].
  destruct (capturedTestBinaries built) as [|bin [|? ?]]; [by intros [= <- <-]| |by intros [= <- <-]].
  case_bool_decide as Hp; cbn [negb]; [|by intros [= <- <-]]. case_bool_decide as Hh; cbn [negb]; [|by intros [= <- <-]].
  intros [= <- <-]. simpl. split_and!; try done.
  - intros p bin' [[<- <-]|[_ Hold]]%lookup_insert_Some; [split; congruence|by apply Hinv].
  - by rewrite lookup_insert_eq.
  - intros build'. by rewrite lookup_insert_eq.
Qed.

(** ** Examples *)

#[local] Existing Instance testRuntime.

Definition helperExample : flags := exampleFlags <| helperAddr := "leader" |>.


Lemma serveWorker_refines_witness : is_Some (serveStep exampleFlags ex3 (CLeave 1 None) InTurn 20).
Proof. exact (proj1 (serveWorker_refines exampleFlags ex3 (CLeave 1 None) ex3_reachable ex3_helper) InTurn 20 I). Defined.

Definition builtServer (name hash : string) : Server :=
  exampleServer <| cacheDir := "/c" |> <| pkgs := {[name := examplePackage <| exeHash := hash |>]} |>.

Lemma binary_matches_witness :
  (∃ bin, (binary (HelperBuilder exampleServer ∅) (WorkerWork 1 "p" "TestA" "abc" []) (λ _, Ok (builtServer "p" "abc"))).1 = Ok bin) ∧
  (binary (HelperBuilder exampleServer ∅) (WorkerWork 1 "p" "TestA" "xyz" []) (λ _, Ok (builtServer "p" "abc"))).2 = HelperBuilder exampleServer ∅.
Proof.
  split; [vm_compute; by eexists|].
  assert (Hnone : ∀ p bin, hbBins (HelperBuilder exampleServer ∅) !! p = Some bin → pkg bin = p ∧ binHash (absBin bin) = "xyz")
    by (intros p bin Hp; cbn in Hp; rewrite lookup_empty in Hp; discriminate Hp).
  destruct (binary (HelperBuilder exampleServer ∅) (WorkerWork 1 "p" "TestA" "xyz" []) (λ _, Ok (builtServer "p" "abc"))) as [res b'] eqn:E.
  destruct (binary_matches (HelperBuilder exampleServer ∅) b' (WorkerWork 1 "p" "TestA" "xyz" []) (λ _, Ok (builtServer "p" "abc")) res (λ _, "xyz") Hnone eq_refl E) as [_ Hres].
  destruct res as [bin|e]; [exfalso; vm_compute in E; discriminate E|exact Hres].
Defined.
