(* ===== verification/FleetLink.v ===== *)
(** * A helper and its connection, end to end

    The leader's side of a connection and the helper's loop, joined by the
    network, while the rest of the fleet does anything. *)

From S2P Require Import Prelude GoStrings Flags Path Profile Utf8 Invocation GoFmt Args Sha256 Quote HistoryTypes TestCache Server Fleet FleetInv FleetCommit FleetSteps FleetSystem FleetTheorems FleetGrowth Isolated Worker WorkerLoop WorkerLoopFacts WorkerFacts.

(** ** Leases of one worker during the events of others *)

Section others.
Context `{GoRuntime} (fl : flags).

(** The events of the connection of worker [wi]. *)
Definition touches (wi : nat) (e : event) : Prop :=
  match e with
  | EvLeave wj _ _ | EvResult wj _ _ | EvPoll wj _ _ => wj = wi
  | _ => False
  end.

(** The run goes on. *)
Definition live (y : system) : Prop := stopped (flt (lead y)) = false ∧ canceled (srv (lead y)) = false.

Definition leasesOf (y : system) (wi : nat) : gset Z := from_option wLeases ∅ (workers (flt (lead y)) !! wi).

Lemma leasesOf_some y wi w : workers (flt (lead y)) !! wi = Some w → leasesOf y wi = wLeases w.
Proof using Type. unfold leasesOf. by intros ->. Qed.

Lemma leasesOf_sub y y' wi :
  sys_inv fl y → sys_inv fl y' → helper y wi →
  leases (flt (lead y')) ⊆ leases (flt (lead y)) → (∀ id, owner (flt (lead y')) id = owner (flt (lead y)) id) →
  leasesOf y' wi ⊆ leasesOf y wi.
Proof using Type.
  intros Hy Hy' [_ [w Hw]] Hsub Ho. rewrite (leasesOf_some y wi w Hw). unfold leasesOf.
  destruct (workers (flt (lead y')) !! wi) as [w'|] eqn:Hw'; [|set_solver]. simpl.
  by apply (wLeases_sub (flt (lead y)) (flt (lead y')) wi w w'); [apply Hy|apply Hy'|..].
Qed.

Lemma accept_other y wi wj r now st' :
  sys_inv fl y → sys_inv fl (y <| lead := st' |>) → helper y wi →
  is_Some (workers (flt (lead y)) !! wj) → accept fl (lead y) wj r now = Some st' →
  leasesOf (y <| lead := st' |>) wi ⊆ leasesOf y wi ∧ (live (y <| lead := st' |>) → live y).
Proof using Type.
  intros Hy Hy' Hh [w Hw] E.
  destruct (accept_spec fl (lead y) wj w r now (si_fleet _ _ Hy) Hw) as (st1 & E1 & _ & Hcase). rewrite E in E1. injection E1 as <-.
  destruct (accept_shrinks fl _ _ _ _ _ (si_fleet _ _ Hy) Hcase) as (_ & Hsub & Ho & _ & Hsp & Hcan). split.
  - by apply leasesOf_sub.
  - unfold live. simpl. rewrite Hsp. intros [? ?]. auto.
Qed.

(** An event of the rest of the fleet gives worker [wi] no lease, and does not
    bring a run that is over back to life. *)
Lemma other_event y e y' wi :
  sys_inv fl y → step fl y e y' → helper y wi → ¬ touches wi e →
  leasesOf y' wi ⊆ leasesOf y wi ∧ (live y' → live y).
Proof using Type.
  intros Hy Hs Hh Ht. pose proof Hs as [He E]. destruct (step_total fl y e Hy He) as (y1 & E1 & Hy' & _). rewrite E in E1. injection E1 as <-.
  pose proof (si_fleet _ _ Hy) as Hf. pose proof Hh as [Hne [w Hw]]. pose proof (lookup_lt_Some _ _ _ Hw) as Hlt.
  assert (Hsame : workers (flt (lead y')) !! wi = workers (flt (lead y)) !! wi → leasesOf y' wi ⊆ leasesOf y wi)
    by (unfold leasesOf; by intros ->).
  destruct e as [name sl now|wj err now|wj r now|wj req now|tasks now|k now now'|k r now| |now|]; cbn [exec enabled touches] in *.
  - simplify_eq/=. split; [|done]. apply Hsame. simpl. by rewrite lookup_app_l.
  - destruct He as [_ [w' Hw']].
    destruct (disconnect_inv (lead y) wj w' err now Hf Hw') as (st' & E' & Hf' & Hl & Hsr & _ & _ & Ho & _ & _ & Hsp & _).
    rewrite E' in E. cbn in E. simplify_eq. split.
    + apply leasesOf_sub; [done..| |]; simpl; [rewrite Hl; set_solver|intros id; apply Ho].
    + unfold live. simpl. by rewrite Hsp, (srv_frame_canceled _ _ Hsr).
  - destruct (accept _ _ _ _ _) as [st'|] eqn:Ea; [|done]. cbn in E. simplify_eq.
    apply (accept_other y wi wj r now); [done..| |done]. by destruct He.
  - destruct He as [Hnj [w' Hw']].
    destruct (exchangeLocked_spec fl (lead y) wj w' req now Hf Hw') as
      (res & st' & w2 & E' & _ & Hq & _ & _ & _ & _ & _ & _ & Hsp & _ & _ & Hoth & _ & _).
    rewrite E' in E. cbn in E. simplify_eq. split; [apply Hsame; simpl; by apply Hoth|].
    unfold live. simpl. by rewrite Hsp, (srv_frame_canceled _ _ (qs_srv _ _ Hq)).
  - simplify_eq/=. split; [|done]. apply Hsame. simpl. rewrite list_lookup_alter_ne by lia. by rewrite lookup_app_l.
  - destruct (localW y) as [wj|] eqn:Hl; [|done]. cbn [mbind option_bind] in E.
    destruct (si_local _ _ Hy wj Hl) as (w' & Hw' & _).
    destruct (localAssign_spec fl (lead y) wj w' now now' Hf Hw') as (ls & st' & w2 & E' & _ & _ & _ & _ & Hoth & Hsp & _ & Hcan & _).
    rewrite E' in E. cbn in E. simplify_eq. split; [apply Hsame; simpl; apply Hoth; congruence|].
    unfold live. simpl. by rewrite Hsp, Hcan.
  - destruct (localW y) as [wj|] eqn:Hl; [|done]. cbn [mbind option_bind] in E.
    destruct (si_local _ _ Hy wj Hl) as (w' & Hw' & _). destruct (locals y !! k) as [[|id task|]|] eqn:Hk; try done.
    destruct (accept_spec fl (lead y) wj w' (r <| rLease := id |>) now Hf Hw') as (st1 & E1 & Hf1 & Hcase). rewrite E1 in E. cbn in E. simplify_eq.
    destruct (accept_shrinks fl _ _ _ _ _ Hf Hcase) as (_ & Hsub & Ho & _ & Hsp & Hcan). split.
    + by apply leasesOf_sub.
    + unfold live. simpl. rewrite Hsp. intros [? ?]. auto.
  - simplify_eq/=. split; [by apply Hsame|]. by intros [_ ?].
  - destruct (stopRun_spec (lead y) now Hf) as (st' & E' & _ & _ & _ & Hst & _ & Hno & _). rewrite E' in E. cbn in E. simplify_eq. split.
    + unfold leasesOf. simpl. destruct (workers (flt st') !! wi) as [w'|] eqn:Hw'; [|set_solver]. simpl. destruct (Hno _ _ Hw') as [-> _]. set_solver.
    + unfold live. simpl. rewrite Hst. by intros [? _].
  - simplify_eq/=. split; [by apply Hsame|]. by intros [? _].
Qed.

(** What a poll of worker [wi] gives it: exactly the leases of the response,
    all of them new. *)
Lemma own_poll y wi req now res st' :
  sys_inv fl y → helper y wi → exchangeLocked fl (lead y) wi req now = Some (res, st') →
  let y' := y <| lead := st' |> in
  (∀ id, id ∈ leasesOf y' wi → id ∈ leasesOf y wi ∨ id ∈ wwLease <$> Work res) ∧
  NoDup (wwLease <$> Work res) ∧
  (∀ b, b ∈ Work res → nextID (flt (lead y)) < wwLease b ≤ nextID (flt st')) ∧
  (∀ id, id ∈ Cancel res → id ∈ leasesOf y' wi → id ∈ wwLease <$> Work res) ∧ (live y' → live y).
Proof using Type.
  intros Hy [_ [w Hw]] E. pose proof (si_fleet _ _ Hy) as Hi. cbv zeta. rewrite (leasesOf_some y wi w Hw).
  destruct (exchangeLocked_spec fl (lead y) wi w req now Hi Hw) as
    (res0 & st0 & w' & E0 & Hi' & Hq & Hw' & _ & _ & _ & _ & _ & Hsp & Hcan & _ & _ & _ & _).
  rewrite E in E0. injection E0 as <- <-. 
  assert (leasesOf (y <| lead := st' |>) wi = wLeases w') as -> by (unfold leasesOf; simpl; by rewrite Hw').
  assert (Hlive : live (y <| lead := st' |>) → live y)
    by (unfold live; simpl; by rewrite Hsp, (srv_frame_canceled _ _ (qs_srv _ _ Hq))).
  set (w1 := w <| LastSeen := now |> <| binaries ::= λ b, list_to_set (Binaries req) ∪ b |>).
  assert (Hi1 : fleet_inv (putWorker (lead y) wi w1)) by (by apply (fleet_inv_putWorker _ _ w)).
  assert (Hw1 : workers (flt (putWorker (lead y) wi w1)) !! wi = Some w1)
    by (simpl; by rewrite list_lookup_insert_eq by (by eapply lookup_lt_Some)).
  destruct (reportAll_spec now wi (Active req) [] (putWorker (lead y) wi w1) Hi1) as (c2 & st2 & E2 & Hi2 & _ & Hl2 & _); [by eauto|].
  assert (Hn2 : nextID (flt (lead y)) ≤ nextID (flt st2)) by (pose proof (gr_next _ _ (reportAll_grows now wi _ _ _ E2)); done).
  assert (Hw2 : workers (flt st2) !! wi = Some w1) by (by rewrite (proj1 Hl2)).
  assert (Hab : ∃ bs, Work res = bs ∧ assigned_batch st2 st' wi bs).
  { unfold exchangeLocked in E. rewrite Hw in E. cbn [mbind option_bind] in E. fold w1 in E. rewrite E2 in E. cbn [mbind option_bind] in E.
    rewrite Hw2 in E. cbn [mbind option_bind] in E. destruct (negb _ && _) eqn:Eb in E.
    - destruct (assignLocked_spec fl st2 wi (Z.min workerBatchLimit (Slots w1 + workerBatchLimit - Z.of_nat (size (wLeases w1)))) now w1 Hi2 Hw2)
        as (bs & st3 & E3 & _ & _ & Hab & _). rewrite E3 in E. cbn [mbind option_bind] in E. simplify_eq. by exists bs.
    - simplify_eq. exists []. split; [done|apply assigned_nil]. }
  destruct Hab as (bs & Hbs & Hab). rewrite Hbs.
  destruct (assigned_leases st2 st' wi bs w1 w' Hi2 Hi' Hab Hw2 Hw') as [Hin Honly].
  assert (Hold : ∀ id, id ∈ wLeases w' → id ∈ wLeases w ∨ id ∈ wwLease <$> bs).
  { intros id [?|(b & Hb & ->)]%Honly; [by left|right]. by apply list_elem_of_fmap_2. }
  assert (Hnew : ∀ b, b ∈ bs → nextID (flt (lead y)) < wwLease b ≤ nextID (flt st')).
  { intros b Hb. destruct (ab_new _ _ _ _ Hab b Hb) as (Hlt & Hlv & _).
    destruct (li_live _ (fi_lease _ Hi') _ Hlv) as [l Hl]. destruct (li_bound _ (fi_lease _ Hi') _ _ Hl) as [Hb' _]. lia. }
  split_and!; [done|apply (ab_nodup _ _ _ _ Hab)|done| |done].
  intros id Hid [Hin'|?]%Hold; [|done]. by destruct (Hcan id).
Qed.

(** What accepting a result of worker [wi] does to its leases. *)
Lemma own_result y wi r now st' :
  sys_inv fl y → helper y wi → accept fl (lead y) wi r now = Some st' →
  let y' := y <| lead := st' |> in
  leasesOf y' wi ⊆ leasesOf y wi ∧ (live y' → live y) ∧ (live y → rLease r ∉ leasesOf y' wi).
Proof using Type.
  intros Hy Hh E. destruct (result_inv fl y wi r now Hy Hh) as (st1 & w & E1 & Hw & Hcase & Hy'). rewrite E in E1. injection E1 as <-. cbv zeta.
  destruct (accept_other y wi wi r now st' Hy Hy' Hh) as [Hsub Hlive]; [by eexists|done|]. split_and!; [done|done|].
  intros [Hs Hc]. unfold leasesOf. simpl. destruct (workers (flt st') !! wi) as [w'|] eqn:Hw'; [|set_solver]. simpl.
  apply (accept_releases fl (lead y) st' wi w w' r); try done; [apply Hy|apply Hy'].
Qed.
End others.

(** ** The helper's side *)

Section helperSide.
Context (slots : Z).

(** The helper knows of a lease: it works on it or has its result. *)
Definition holds (l : loop) (id : Z) : Prop := is_Some (lActive l !! id) ∨ id ∈ rLease <$> lPending l.

Definition seen (l : loop) : list Z := leaseOf <$> lExecs l.

Lemma fmap_alter_same {A B} (g : A → B) (h : A → A) (k : list A) i : (∀ x, g (h x) = g x) → g <$> alter h i k = g <$> k.
Proof using Type.
  intros Hg. revert i. induction k as [|a k IH]; intros [|i]; simpl; [done..| |].
  - by rewrite Hg.
  - f_equal. apply IH.
Qed.

Lemma startLoop_keeps q : ∀ l, let l' := startLoop slots q l in
  lActive l' = lActive l ∧ lPending l' = lPending l ∧ lInFlight l' = lInFlight l ∧ lRequest l' = lRequest l ∧
  lDirty l' = lDirty l ∧ seen l' = seen l.
Proof using Type.
  induction q as [|e q IH]; intros l; cbv zeta; cbn [startLoop]; [done|]. destruct (_ <? _); [|done].
  destruct (lExecs l !! e) as [x|] eqn:Hx; [|apply IH]. case_bool_decide; [|apply IH].
  edestruct IH as (-> & -> & -> & -> & -> & ->). split_and!; try done. unfold seen. simpl. by apply (leases_insert l e x).
Qed.

(** Sending a request loses nothing. *)
Lemma flush_holds l id :
  seen (flush l) = seen l ∧
  (lInFlight l = true → lInFlight (flush l) = true ∧ lRequest (flush l) = lRequest l ∧ (holds l id → holds (flush l) id)) ∧
  (lInFlight l = false → holds l id → holds (flush l) id ∨
    ∃ req, lRequest (flush l) = Some req ∧ lInFlight (flush l) = true ∧ id ∈ rLease <$> Results req).
Proof using Type.
  unfold flush. destruct (lDirty l), (lInFlight l) eqn:Hf; simpl; split_and!; try done; try (intros; by left).
  intros _ [Ha|Hp]; [left; by left|right]. eexists. split_and!; try done.
Qed.

Lemma handle_holds l ev l' :
  (∀ x, ev ≠ LResponse x) → handle slots l ev = Some (inr l') →
  seen l' = seen l ∧ lInFlight l' = lInFlight l ∧ lRequest l' = lRequest l ∧ ∀ id, holds l id → holds l' id.
Proof using Type.
  intros Hne. destruct ev as [x| | | |k bin|k|k r|k]; [by destruct (Hne x)|..]; cbn [handle].
  - destruct (lReady l) as [|[lease hash] rest]; [done|]. intros [= <-]. unfold handleReady.
    cbn [lActive set_field]. change (lActive (l <| lReady := rest |> <| lBinaries ::= λ bs, bs ++ [hash] |>)) with (lActive l).
    destruct (lActive l !! lease) as [e|]; [|done]. split_and!; try done. unfold seen. simpl.
    by apply fmap_alter_same.
  - destruct (lResults l) as [|r rest]; [done|]. intros [= <-]. unfold handleResult.
    match goal with |- context [start slots ?x] => remember x as l1 eqn:Hl1 end.
    assert (Hk : seen l1 = seen l ∧ lInFlight l1 = lInFlight l ∧ lRequest l1 = lRequest l ∧ ∀ id, holds l id → holds l1 id).
    { subst l1. simpl.
      destruct (lActive l !! rLease r) as [e|] eqn:He; [|by split_and!]. split_and!; try done. unfold holds. simpl. intros id Hid.
      rewrite fmap_app, elem_of_app. simpl. rewrite list_elem_of_singleton.
      destruct (decide (id = rLease r)) as [->|Hn]; [right; by right|].
      destruct Hid as [?|?]; [left; by rewrite lookup_delete_ne|right; by left]. }
    clear Hl1. destruct Hk as (<- & <- & <- & Hh). destruct (startLoop_keeps (lQueue l1) l1) as (Ha & Hp & Hf & Hr & _ & Hs).
    fold (start slots l1) in Ha, Hp, Hf, Hr, Hs. split_and!; [exact Hs|exact Hf|exact Hr|].
    intros id Hid. specialize (Hh id Hid). unfold holds in *. simpl. by rewrite Ha, Hp.
  - by intros [= <-].
  - destruct (lJobs l !! k) as [[e []]|]; try done. destruct (lExecs l !! e); [|done]. by intros [= <-].
  - destruct (lJobs l !! k) as [[e [|hash| |]]|]; try done. destruct (lExecs l !! e); [|done]. simpl. destruct (_ <? _); [|done]. by intros [= <-].
  - destruct (lJobs l !! k) as [[e []]|]; try done. destruct (lExecs l !! e); [|done]. by intros [= <-].
  - destruct (lJobs l !! k) as [[e [| | |r]]|]; try done. destruct (_ <? _); [|done]. by intros [= <-].
Qed.

(** A response: leases are dropped, work is added. *)
Lemma cancelAll_active ids id : ∀ l, id ∉ ids → lActive (foldl cancelLease l ids) !! id = lActive l !! id.
Proof using Type.
  induction ids as [|i ids IH]; intros l Hid; [done|]. apply not_elem_of_cons in Hid as [Hne Hid]. simpl. rewrite IH by done.
  unfold cancelLease. destruct (lActive l !! i); [|done]. simpl. by rewrite lookup_delete_ne.
Qed.

Lemma cancelAll_keeps ids : ∀ l, let l' := foldl cancelLease l ids in
  lPending l' = lPending l ∧ lInFlight l' = lInFlight l ∧ seen l' = seen l.
Proof using Type.
  induction ids as [|i ids IH]; intros l; [done|]. cbv zeta. simpl. destruct (IH (cancelLease l i)) as (-> & -> & ->).
  unfold cancelLease. destruct (lActive l !! i) as [e|]; [|done]. split_and!; try done. unfold seen. simpl.
  apply fmap_alter_same. intros x. by destruct (heCancel x).
Qed.

Lemma addAll_keeps ws : ∀ l, let l' := foldl addWork l ws in
  lPending l' = lPending l ∧ lInFlight l' = lInFlight l ∧ seen l' = seen l ++ (wwLease <$> ws) ∧
  (∀ id, is_Some (lActive l !! id) ∨ id ∈ wwLease <$> ws → is_Some (lActive l' !! id)).
Proof using Type.
  induction ws as [|w ws IH]; intros l; cbv zeta.
  { simpl. rewrite app_nil_r. split_and!; try done. by intros id [?|?%not_elem_of_nil]. }
  simpl. destruct (IH (addWork l w)) as (-> & -> & -> & Ha). split_and!; try done.
  - unfold seen. simpl. by rewrite fmap_app, <- app_assoc.
  - intros id Hid. apply Ha. simpl. destruct (decide (id = wwLease w)) as [->|Hne]; [left; by rewrite lookup_insert_eq|].
    rewrite lookup_insert_ne by done. rewrite elem_of_cons in Hid. naive_solver.
Qed.

Lemma response_holds l res l' :
  handleResponse slots l (inr res) = inr l' →
  lInFlight l' = false ∧ seen l' = seen l ++ (wwLease <$> Work res) ∧
  ∀ id, (holds l id ∧ (id ∈ Cancel res → id ∈ wwLease <$> Work res)) ∨ id ∈ wwLease <$> Work res → holds l' id.
Proof using Type.
  unfold handleResponse. destruct (bool_decide (wrError res = "")); [|done]. cbn [negb]. destruct (Done res); [done|]. intros Heq.
  set (l0 := l <| lInFlight := false |> <| lRequest := None |>) in *.
  assert (l' = start slots (foldl addWork (foldl cancelLease l0 (Cancel res)) (Work res))) as -> by congruence. clear Heq.
  pose proof (cancelAll_keeps (Cancel res) l0) as (Hp1 & Hf1 & Hs1). set (l1 := foldl cancelLease l0 (Cancel res)) in *.
  pose proof (addAll_keeps (Work res) l1) as (Hp2 & Hf2 & Hs2 & Ha2). set (l2 := foldl addWork l1 (Work res)) in *.
  destruct (startLoop_keeps (lQueue l2) l2) as (Ha & Hp & Hf & _ & _ & Hs). fold (start slots l2) in Ha, Hp, Hf, Hs.
  split_and!; [by rewrite Hf, Hf2, Hf1|rewrite Hs, Hs2, Hs1; done|]. intros id Hid. unfold holds. rewrite Ha, Hp, Hp2, Hp1.
  destruct (decide (id ∈ wwLease <$> Work res)) as [Hw|Hw]; [left; apply Ha2; by right|].
  destruct Hid as [[[Hact|Hpend] Hc]|?]; [|by right|done]. left. apply Ha2. left. unfold l1.
  rewrite cancelAll_active; [done|]. intros Hin. by apply Hw, Hc.
Qed.
End helperSide.

(** ** The connection *)

Record link := Link {
  kSys : system;
  kConn : conn;                   (** the leader's side *)
  kNet : option workerResponse;   (** sent to the helper, not yet received *)
  kHelper : loop
}.

#[export] Instance eta_link : Eta link := λ k, Link (kSys k) (kConn k) (kNet k) (kHelper k).

Section link.
Context `{GoRuntime} (fl : flags) (slots : Z) (wi : nat).

(** What can arrive at the leader's side: a request is the one the helper has
    under way. *)
Definition canArrive (k : link) (i : connInput) : Prop :=
  match i with
  | InHello _ => False
  | InRequest (inr req) => kNet k = None ∧ lRequest (kHelper k) = Some req
  | _ => True
  end.

Definition netAfter (k : link) (i : connInput) : option workerResponse :=
  match kConn k, i with
  | CReply _ res, InSent None => Some res
  | _, _ => kNet k
  end.

Inductive linkStep : link → link → Prop :=
  | LinkOther k e y' : step fl (kSys k) e y' → ¬ touches wi e → linkStep k (k <| kSys := y' |>)
  | LinkServe k i now c' y' :
      canArrive k i → serveStep fl (kSys k) (kConn k) i now = Some (c', y') →
      linkStep k (Link y' c' (netAfter k i) (kHelper k))
  | LinkLoop k ev l' :
      (∀ x, ev ≠ LResponse x) → admissible (kHelper k) ev → loopStep slots (kHelper k) ev = Some (inr l') →
      linkStep k (k <| kHelper := l' |>)
  | LinkDeliver k res l' :
      kNet k = Some res → loopStep slots (kHelper k) (LResponse (inr res)) = Some (inr l') →
      linkStep k (Link (kSys k) (kConn k) None l').

(** A helper that has just been told its configuration. *)
Definition linkStart (k : link) : Prop :=
  reachable fl (kSys k) ∧ helper (kSys k) wi ∧ leasesOf (kSys k) wi = ∅ ∧ kConn k = CRead wi ∧ kNet k = None ∧
  kHelper k = flush initLoop.

Inductive linked : link → Prop :=
  | linked_start k : linkStart k → linked k
  | linked_step k k' : linked k → linkStep k k' → linked k'.

(** The connection is up. *)
Definition open (k : link) : Prop :=
  match kConn k with CRead wj | CAccept wj _ _ | CReply wj _ => wj = wi | _ => False end.

(** The response that is on its way. *)
Definition inflight (k : link) : option workerResponse :=
  match kConn k with CReply _ res => Some res | _ => kNet k end.

(** The results of the helper's request that the leader has not accepted yet. *)
Definition unprocessed (k : link) : list workerResult :=
  match kConn k with
  | CRead _ => if kNet k is None then from_option Results [] (lRequest (kHelper k)) else []
  | CAccept _ rest _ => rest
  | _ => []
  end.

Definition inflightWork (k : link) : list Z := from_option (λ res, wwLease <$> Work res) [] (inflight k).

Record link_ok (k : link) : Prop := {
  lo_reach : reachable fl (kSys k);
  lo_loop : loopReached slots (kHelper k);
  lo_conn : conn_ok (kSys k) (kConn k) ∧ (open k ∨ kConn k = CClosed ∨ ∃ err, kConn k = CLeave wi err);
  lo_idle : open k → lInFlight (kHelper k) = false → kConn k = CRead wi ∧ kNet k = None;
  lo_net : open k → is_Some (kNet k) → kConn k = CRead wi;
  lo_seen : ∀ id, id ∈ seen (kHelper k) → id ≤ nextID (flt (lead (kSys k)));
  lo_work : ∀ res, inflight k = Some res → NoDup (wwLease <$> Work res) ∧
    (∀ id, id ∈ wwLease <$> Work res → id ≤ nextID (flt (lead (kSys k))) ∧ id ∉ seen (kHelper k));
  lo_cancel : open k → ∀ res id, inflight k = Some res → id ∈ Cancel res → id ∈ leasesOf (kSys k) wi → id ∈ wwLease <$> Work res;
  lo_leases : open k → live (kSys k) → ∀ id, id ∈ leasesOf (kSys k) wi →
    holds (kHelper k) id ∨ id ∈ rLease <$> unprocessed k ∨ id ∈ inflightWork k
}.

Lemma link_start k : linkStart k → link_ok k.
Proof using Type.
  intros (Hr & Hh & Hl & Hc & Hn & Hk). split; rewrite ?Hk; try done.
  - constructor.
  - unfold open. rewrite Hc. split; [done|by left].
  - by intros id ?%not_elem_of_nil.
  - unfold inflight. rewrite Hc, Hn. done.
  - unfold inflight. rewrite Hc, Hn. done.
  - intros _ _ id. rewrite Hl. set_solver.
Qed.

Lemma open_helper k : link_ok k → open k → helper (kSys k) wi.
Proof using Type. intros Hk. unfold open. destruct (lo_conn _ Hk) as [Hc _]. destruct (kConn k); try done; by intros <-. Qed.

Lemma link_other k e y' : link_ok k → step fl (kSys k) e y' → ¬ touches wi e → link_ok (k <| kSys := y' |>).
Proof using Type.
  intros Hk Hs Ht. pose proof (reachable_inv fl _ (lo_reach _ Hk)) as Hy. pose proof (open_helper k Hk) as Hopen.
  pose proof Hs as [_ E]. pose proof (gr_next _ _ (exec_grows fl _ _ _ Hy E)) as Hg.
  destruct Hk as [H1 H2 [H3 H3'] H4 H5 H6 H7 H8 H9]. split; simpl; try done.
  - by eapply reach_step.
  - split; [by eapply (conn_ok_stable fl (kSys k))|done].
  - intros id Hid. specialize (H6 id Hid). lia.
  - intros res Hres. destruct (H7 res Hres) as [Hnd Hw]. split; [done|]. intros id Hid. destruct (Hw id Hid). split; [lia|done].
  - intros Ho res id Hres Hc Hid. apply (H8 Ho res id Hres Hc). by apply (other_event fl _ e y' wi Hy Hs (Hopen Ho) Ht).
  - intros Ho Hl id Hid. destruct (other_event fl _ e y' wi Hy Hs (Hopen Ho) Ht) as [Hsub Hlive]. apply H9; [done|auto|by apply Hsub].
Qed.

(** A step of the helper on its own. *)
Lemma loopStep_holds l ev l' :
  (∀ x, ev ≠ LResponse x) → loopStep slots l ev = Some (inr l') →
  seen l' = seen l ∧ (lInFlight l = true → lInFlight l' = true ∧ lRequest l' = lRequest l ∧ ∀ id, holds l id → holds l' id) ∧
  (lInFlight l = false → ∀ id, holds l id → holds l' id ∨
    ∃ req, lRequest l' = Some req ∧ lInFlight l' = true ∧ id ∈ rLease <$> Results req).
Proof using Type.
  intros Hne Hst.
  assert (Hcase : (∃ l1, handle slots l ev = Some (inr l1) ∧ l' = flush l1) ∨ handle slots l ev = Some (inr l')).
  { unfold loopStep in Hst. destruct ev; try by right. 1: by destruct (Hne exchange).
    all: left; destruct (handle _ _ _) as [[?|l1]|]; cbn in Hst; try done; exists l1; split; [done|congruence]. }
  destruct Hcase as [(l1 & Hh & ->)|Hh]; destruct (handle_holds slots l ev _ Hne Hh) as (Hs & Hf & Hr & Hid).
  - split_and!; [by rewrite (proj1 (flush_holds l1 0))| |].
    + intros Hin. rewrite <- Hf in Hin. split_and!; [apply (flush_holds l1 0); done| |].
      * rewrite <- Hr. by apply (flush_holds l1 0).
      * intros id H1. apply (flush_holds l1 id); auto.
    + intros Hin id H1. rewrite <- Hf in Hin. apply (flush_holds l1 id); auto.
  - split_and!; [done|by rewrite Hf, Hr|]. intros _ id H1. left. auto.
Qed.

Lemma link_loop k ev l' :
  link_ok k → (∀ x, ev ≠ LResponse x) → admissible (kHelper k) ev → loopStep slots (kHelper k) ev = Some (inr l') →
  link_ok (k <| kHelper := l' |>).
Proof using Type.
  intros [H1 H2 H3 H4 H5 H6 H7 H8 H9] Hne Had Hst. destruct (loopStep_holds _ _ _ Hne Hst) as (Hs & Hbusy & Hidle).
  pose proof (loop_invariant slots _ H2) as [Hc _].
  split; simpl; try done.
  - by eapply LoopStep.
  - intros Ho Hf. apply (H4 Ho). destruct (lInFlight (kHelper k)); [|done]. destruct (Hbusy eq_refl). congruence.
  - by rewrite Hs.
  - intros res Hres. rewrite Hs. by apply H7.
  - intros Ho Hl id Hid. destruct (lInFlight (kHelper k)) eqn:Hf.
    + destruct (Hbusy eq_refl) as (_ & Hr & Hh). unfold unprocessed. simpl. rewrite Hr.
      destruct (H9 Ho Hl id Hid) as [?|?]; [left; auto|by right].
    + destruct (H4 Ho eq_refl) as [Hcn Hn]. assert (Hnone : lRequest (kHelper k) = None).
      { destruct (lRequest (kHelper k)) eqn:E; [|done]. assert (lInFlight (kHelper k) = true); [|congruence]. apply (lk_flight _ _ _ Hc). by eexists. }
      assert (Hold : holds (kHelper k) id).
      { destruct (H9 Ho Hl id Hid) as [?|[Hu|Hw]]; [done| |].
        - unfold unprocessed in Hu. rewrite Hcn, Hn, Hnone in Hu. by apply not_elem_of_nil in Hu.
        - unfold inflightWork, inflight in Hw. rewrite Hcn, Hn in Hw. by apply not_elem_of_nil in Hw. }
      destruct (Hidle eq_refl id Hold) as [?|(req & Hreq & _ & Hin)]; [by left|right; left].
      unfold unprocessed. simpl. by rewrite Hcn, Hn, Hreq.
Qed.

Lemma link_deliver k res l' :
  link_ok k → kNet k = Some res → loopStep slots (kHelper k) (LResponse (inr res)) = Some (inr l') →
  link_ok (Link (kSys k) (kConn k) None l').
Proof using Type.
  intros [H1 H2 H3 H4 H5 H6 H7 H8 H9] Hn Hst.
  assert (Hcr : open k → kConn k = CRead wi) by (intros Ho; apply (H5 Ho); rewrite Hn; by eexists).
  assert (Hnr : ∀ wj r, kConn k ≠ CReply wj r).
  { intros wj r Hcn. destruct H3 as [_ [Ho|[?|[? ?]]]]; [|congruence..]. specialize (Hcr Ho). congruence. }
  assert (Hin : inflight k = Some res) by (unfold inflight; destruct (kConn k); try done; by destruct (Hnr wi0 res0)).
  assert (Hnone : inflight (Link (kSys k) (kConn k) None l') = None)
    by (unfold inflight; simpl; destruct (kConn k); try done; by destruct (Hnr wi0 res0)).
  destruct (H7 res Hin) as [Hnd Hw].
  assert (Had : admissible (kHelper k) (LResponse (inr res))).
  { split; [done|]. intros w Hwin Hseen. apply (Hw (wwLease w)); [by apply list_elem_of_fmap_2|done]. }
  pose proof Hst as Hh. unfold loopStep in Hh. cbn [handle] in Hh. destruct (lInFlight (kHelper k)); [|done]. cbn [mbind option_bind] in Hh.
  destruct (handleResponse slots (kHelper k) (inr res)) as [?|l1] eqn:Hres; [done|]. injection Hh as <-.
  destruct (response_holds slots (kHelper k) res l1 Hres) as (Hf & Hs & Hho).
  split; simpl; try done.
  - by eapply LoopStep.
  - intros Ho _. split; [by apply Hcr|done].
  - intros id. rewrite (proj1 (flush_holds l1 id)), Hs, elem_of_app. intros [?|Hid]; [by apply H6|]. by apply (Hw id).
  - rewrite Hnone. done.
  - rewrite Hnone. done.
  - intros Ho Hl id Hid.
    assert (Hl1 : holds l1 id).
    { apply Hho. destruct (H9 Ho Hl id Hid) as [?|[Hu|Hwk]].
      - left. split; [done|]. intros Hc. by apply (H8 Ho res id Hin Hc).
      - unfold unprocessed in Hu. rewrite (Hcr Ho), Hn in Hu. by apply not_elem_of_nil in Hu.
      - right. unfold inflightWork in Hwk. by rewrite Hin in Hwk. }
    destruct (flush_holds l1 id) as (_ & _ & Hfl). destruct (Hfl Hf Hl1) as [?|(req & Hreq & _ & Hr)]; [by left|right; left].
    unfold unprocessed. simpl. by rewrite (Hcr Ho), Hreq.
Qed.

(** The response or the request that is not there yet. *)
Lemma no_net k : link_ok k → open k → kConn k ≠ CRead wi → kNet k = None.
Proof using Type. intros Hk Ho Hne. destruct (kNet k) eqn:E; [|done]. destruct Hne. apply (lo_net _ Hk Ho). rewrite E. by eexists. Qed.

(** The leader accepts a result. *)
Lemma serve_accept k r rest req now st' :
  link_ok k → kConn k = CAccept wi (r :: rest) req → accept fl (lead (kSys k)) wi r now = Some st' →
  reachable fl ((kSys k) <| lead := st' |>) → conn_ok ((kSys k) <| lead := st' |>) (CAccept wi rest req) →
  link_ok (Link ((kSys k) <| lead := st' |>) (CAccept wi rest req) (kNet k) (kHelper k)).
Proof using Type.
  intros Hk Hc Ha Hr' Hok'. assert (Ho : open k) by (unfold open; by rewrite Hc).
  assert (Hn : kNet k = None) by (apply (no_net k Hk Ho); by rewrite Hc).
  pose proof (reachable_inv fl _ (lo_reach _ Hk)) as Hy.
  destruct (own_result fl (kSys k) wi r now st' Hy (open_helper k Hk Ho) Ha) as (Hsub & Hlive & Hgone).
  pose proof (accept_grows fl (lead (kSys k)) wi r now st' (si_fleet _ _ Hy) Ha) as [_ Hg].
  destruct Hk as [H1 H2 H3 H4 H5 H6 H7 H8 H9]. split; simpl; try done.
  - split; [done|by left].
  - intros _ Hf. destruct (H4 Ho Hf). congruence.
  - rewrite Hn. by intros _ [? ?].
  - intros id Hid. specialize (H6 id Hid). lia.
  - unfold inflight. simpl. by rewrite Hn.
  - unfold inflight. simpl. by rewrite Hn.
  - intros _ Hl id Hid. destruct (H9 Ho (Hlive Hl) id (Hsub id Hid)) as [?|[Hu|Hw]]; [by left| |].
    + unfold unprocessed in Hu. rewrite Hc in Hu. simpl in Hu. apply elem_of_cons in Hu as [->|Hu]; [|right; by left].
      exfalso. by apply (Hgone (Hlive Hl)).
    + unfold inflightWork, inflight in Hw. rewrite Hc, Hn in Hw. by apply not_elem_of_nil in Hw.
Qed.

(** The leader answers. *)
Lemma serve_poll k req now res st' :
  link_ok k → kConn k = CAccept wi [] req → exchangeLocked fl (lead (kSys k)) wi req now = Some (res, st') →
  reachable fl ((kSys k) <| lead := st' |>) → conn_ok ((kSys k) <| lead := st' |>) (CReply wi res) →
  link_ok (Link ((kSys k) <| lead := st' |>) (CReply wi res) (kNet k) (kHelper k)).
Proof using Type.
  intros Hk Hc He Hr' Hok'. assert (Ho : open k) by (unfold open; by rewrite Hc).
  assert (Hn : kNet k = None) by (apply (no_net k Hk Ho); by rewrite Hc).
  pose proof (reachable_inv fl _ (lo_reach _ Hk)) as Hy.
  destruct (own_poll fl (kSys k) wi req now res st' Hy (open_helper k Hk Ho) He) as (Honly & Hnd & Hnew & Hcan & Hlive).
  pose proof (exchange_grows fl (lead (kSys k)) wi req now res st' He) as [_ Hg].
  destruct Hk as [H1 H2 H3 H4 H5 H6 H7 H8 H9]. split; simpl; try done.
  - split; [done|by left].
  - intros _ Hf. destruct (H4 Ho Hf). congruence.
  - rewrite Hn. by intros _ [? ?].
  - intros id Hid. specialize (H6 id Hid). lia.
  - intros res' [= <-]. split; [done|]. intros id (b & -> & Hb)%list_elem_of_fmap. specialize (Hnew b Hb). split; [lia|].
    intros Hs%H6. lia.
  - intros _ res' id [= <-]. apply Hcan.
  - intros _ Hl id [Hold|Hw]%Honly; [|by right; right]. destruct (H9 Ho (Hlive Hl) id Hold) as [?|[Hu|Hw]]; [by left| |].
    + unfold unprocessed in Hu. rewrite Hc in Hu. by apply not_elem_of_nil in Hu.
    + unfold inflightWork, inflight in Hw. rewrite Hc, Hn in Hw. by apply not_elem_of_nil in Hw.
Qed.

(** A connection that is given up. *)
Lemma serve_close k y' c' net :
  link_ok k → reachable fl y' → grows (lead (kSys k)) (lead y') → conn_ok y' c' →
  c' = CClosed ∨ (∃ err, c' = CLeave wi err) → (net = kNet k ∨ net = inflight k) →
  link_ok (Link y' c' net (kHelper k)).
Proof using Type.
  intros Hk Hr [_ Hg] Hok Hc Hnet.
  assert (Hclosed : ¬ open (Link y' c' net (kHelper k))) by (unfold open; simpl; destruct Hc as [->|[err ->]]; by intros []).
  assert (Hinf : ∀ res, inflight (Link y' c' net (kHelper k)) = Some res → inflight k = Some res).
  { intros res. assert (inflight (Link y' c' net (kHelper k)) = net) as -> by (unfold inflight; simpl; by destruct Hc as [->|[err ->]]).
    destruct Hnet as [-> | ->]; [|done]. intros Hres. unfold inflight. destruct (kConn k) eqn:Hcn; try done. exfalso.
    assert (Ho : open k) by (destruct (lo_conn _ Hk) as [_ [?|[?|[? ?]]]]; [done|congruence|congruence]).
    assert (kConn k = CRead wi); [|congruence]. apply (lo_net _ Hk Ho). rewrite Hres. by eexists. }
  destruct Hk as [H1 H2 H3 H4 H5 H6 H7 H8 H9]. split; simpl; try done.
  - split; [done|by right].
  - intros id Hid. specialize (H6 id Hid). lia.
  - intros res Hres. destruct (H7 res (Hinf res Hres)) as [Hnd Hw]. split; [done|]. intros id Hid. destruct (Hw id Hid). split; [lia|done].
Qed.

Lemma link_serve k i now c' y' :
  link_ok k → canArrive k i → serveStep fl (kSys k) (kConn k) i now = Some (c', y') →
  link_ok (Link y' c' (netAfter k i) (kHelper k)).
Proof using Type.
  intros Hk Hca Hst. destruct (serveStep_ok fl _ _ _ _ _ _ (lo_reach _ Hk) (proj1 (lo_conn _ Hk)) Hst) as (_ & Hr & Hok).
  pose proof (lo_conn _ Hk) as [_ Hconn]. unfold netAfter. unfold serveStep in Hst.
  destruct (kConn k) as [|wj|wj|wj rest req|wj res|wj err|] eqn:Hc.
  - exfalso. unfold open in Hconn. rewrite Hc in Hconn. naive_solver.
  - exfalso. unfold open in Hconn. rewrite Hc in Hconn. naive_solver.
  - assert (wj = wi) as -> by (unfold open in Hconn; rewrite Hc in Hconn; naive_solver).
    destruct i as [| |[err|req]|]; cbn in Hst; simplify_eq.
    + apply (serve_close k); try done; [right; by eexists|by left].
    + destruct Hca as [Hn Hreq]. assert (Ho : open k) by (unfold open; by rewrite Hc).
      pose proof (loop_invariant slots _ (lo_loop _ Hk)) as [Hcore _].
      destruct Hk as [H1 H2 H3 H4 H5 H6 H7 H8 H9]. split; simpl; try done.
      * split; [done|by left].
      * intros _ Hf. assert (lInFlight (kHelper k) = true); [|congruence]. apply (lk_flight _ _ _ Hcore). rewrite Hreq. by eexists.
      * rewrite Hn. by intros _ [? ?].
      * unfold inflight. simpl. by rewrite Hn.
      * unfold inflight. simpl. by rewrite Hn.
      * intros _ Hl id Hid. destruct (H9 Ho Hl id Hid) as [?|[Hu|Hw]]; [by left|right; left|right; right].
        -- unfold unprocessed in *. simpl. by rewrite Hc, Hn, Hreq in Hu.
        -- unfold inflightWork, inflight in *. simpl. by rewrite Hc in Hw.
  - assert (wj = wi) as -> by (unfold open in Hconn; rewrite Hc in Hconn; naive_solver).
    destruct i as [| |[err|req']|]; try (by destruct rest). destruct rest as [|r rest].
    + cbn [serveNext serveEvent] in Hst. destruct (exchangeLocked _ _ _ _ _) as [[res st']|] eqn:He; [|done].
      cbn [mbind option_bind exec] in Hst. rewrite He in Hst. cbn [mbind option_bind] in Hst. simplify_eq. by apply (serve_poll k req now).
    + cbn [serveNext serveEvent mbind option_bind exec] in Hst. destruct (accept _ _ _ _ _) as [st'|] eqn:Ha; [|done].
      cbn [mbind option_bind] in Hst. simplify_eq. by apply (serve_accept k r rest req now).
  - assert (wj = wi) as -> by (unfold open in Hconn; rewrite Hc in Hconn; naive_solver).
    assert (Ho : open k) by (unfold open; by rewrite Hc).
    destruct i as [|err|[err|req']|]; try (by destruct res as [? ? [] []]).
    assert (Hcase : y' = kSys k ∧ ((c' = CLeave wi err) ∨ (err = None ∧ c' = CRead wi))).
    { clear -Hst. destruct res as [ws cs d e], d; [|destruct e]; [|destruct err|]; cbn in Hst; simplify_eq; naive_solver. }
    destruct Hcase as [-> [->|[-> ->]]].
    + apply (serve_close k); try done; [right; by eexists|]. unfold inflight. rewrite Hc. destruct err; [by left|by right].
    + assert (Hin : inflight k = Some res) by (unfold inflight; by rewrite Hc).
      destruct Hk as [H1 H2 H3 H4 H5 H6 H7 H8 H9]. split; simpl; try done.
      * split; [done|by left].
      * intros _ Hf. destruct (H4 Ho Hf). congruence.
      * unfold inflight. simpl. rewrite <- Hin. done.
      * intros _ res' id [= <-]. by apply (H8 Ho res id Hin).
      * intros _ Hl id Hid. destruct (H9 Ho Hl id Hid) as [?|[Hu|Hw]]; [by left| |right; right].
        -- unfold unprocessed in Hu. rewrite Hc in Hu. by apply not_elem_of_nil in Hu.
        -- unfold inflightWork in *. rewrite Hin in Hw. done.
  - destruct i as [| |[err'|req']|]; try done. cbn [serveNext serveEvent mbind option_bind] in Hst.
    pose proof (reachable_inv fl _ (lo_reach _ Hk)) as Hy.
    destruct (exec fl (kSys k) (EvLeave wj err now)) as [y1|] eqn:E; [|done]. cbn [mbind option_bind] in Hst. simplify_eq.
    apply (serve_close k); try done; [by eapply exec_grows|by left|by left].
  - by destruct i as [| |[err'|req']|].
Qed.

Lemma link_invariant k : linked k → link_ok k.
Proof using Type.
  induction 1 as [k Hs|k k' _ IH Hs]; [by apply link_start|].
  destruct Hs; [by eapply link_other|by eapply link_serve|by eapply link_loop|by eapply link_deliver].
Qed.

(** C4: no lease is lost between leader and helper.  While a helper is connected
    and the run goes on, every lease the leader counts as the helper's is one
    the helper works on (it is queued, or has a goroutine, or its result is to
    be received), or is in a response on its way to it, or its result waits for
    the next request or is in the request under way.  This holds whatever the
    other workers, the leader's run and the network's timing do. *)
Theorem link_no_lease_lost k id :
  linked k → open k → live (kSys k) → id ∈ leasesOf (kSys k) wi →
  (∃ e x, lActive (kHelper k) !! id = Some e ∧ lExecs (kHelper k) !! e = Some x ∧ heCancel x ≠ CancelCalled ∧
     (e ∈ lQueue (kHelper k) ∨ e ∈ jExec <$> lJobs (kHelper k) ∨ id ∈ rLease <$> lResults (kHelper k))) ∨
  id ∈ rLease <$> lPending (kHelper k) ∨ id ∈ rLease <$> unprocessed k ∨ id ∈ inflightWork k.
Proof using Type.
  intros Hk Ho Hl Hid. pose proof (link_invariant k Hk) as Hok.
  destruct (lo_leases _ Hok Ho Hl id Hid) as [[[e Ha]|Hp]|?]; [left|by right; left|by right; right].
  pose proof (loop_invariant slots _ (lo_loop _ Hok)) as [Hc _].
  destruct (lk_active _ _ _ Hc _ _ Ha) as (x & Hx & _ & Hn & Hw). by exists e, x.
Qed.
End link.

(** ** An example *)

#[local] Existing Instance testRuntime.

Definition exLink : link := Link ex2 (CRead 1) None (flush initLoop).
Definition exRequest : workerRequest := WorkerRequest [] [] [].

(** The helper's first request has arrived, and has been answered. *)
Definition exAsked : link := Link ex2 (CAccept 1 [] exRequest) None (flush initLoop).
Definition exAnswered : link :=
  match serveStep exampleFlags ex2 (CAccept 1 [] exRequest) InTurn 12 with
  | Some (c, y) => Link y c None (flush initLoop)
  | None => exAsked
  end.

Lemma exAnswered_linked : linked exampleFlags 1 1 exAnswered.
Proof.
  assert (H0 : linked exampleFlags 1 1 exLink).
  { apply linked_start. split; [exact ex2_reachable|]. split; [exact ex2_helper|]. split_and!; vm_compute; reflexivity. }
  assert (H1 : linked exampleFlags 1 1 exAsked).
  { apply (linked_step _ _ _ exLink); [exact H0|].
    apply (LinkServe exampleFlags 1 1 exLink (InRequest (inr exRequest)) 11 (CAccept 1 [] exRequest) ex2); [|reflexivity].
    split; vm_compute; reflexivity. }
  apply (linked_step _ _ _ exAsked); [exact H1|].
  destruct (serveStep exampleFlags ex2 (CAccept 1 [] exRequest) InTurn 12) as [[c y]|] eqn:E.
  - unfold exAnswered. rewrite E. apply (LinkServe exampleFlags 1 1 exAsked InTurn 12 c y I E).
  - exfalso. vm_compute in E. discriminate E.
Qed.

Lemma link_no_lease_lost_witness :
  1 ∈ leasesOf (kSys exAnswered) 1 ∧
  (is_Some (lActive (kHelper exAnswered) !! 1) ∨ 1 ∈ rLease <$> lPending (kHelper exAnswered) ∨
   1 ∈ rLease <$> unprocessed exAnswered ∨ 1 ∈ inflightWork exAnswered).
Proof.
  assert (Hid : 1 ∈ leasesOf (kSys exAnswered) 1) by (apply (bool_decide_eq_true_1 (1 ∈ leasesOf (kSys exAnswered) 1)); vm_compute; reflexivity).
  split; [exact Hid|].
  assert (Ho : open 1 exAnswered) by (vm_compute; reflexivity).
  assert (Hl : live (kSys exAnswered)) by (split; vm_compute; reflexivity).
  destruct (link_no_lease_lost exampleFlags 1 1 exAnswered 1 exAnswered_linked Ho Hl Hid) as [(e & x & Ha & _)|Hr].
  - left. exists e. exact Ha.
  - right. exact Hr.
Defined.
