(* ===== verification/CacheTypes.v ===== *)
(** * The GOCACHEPROG protocol (cacheprog.go) and what it needs of the library

    The requests and responses of cmd/go's cache protocol, and the decoding of
    hexadecimal, of decimal numbers and of fields. *)

From Stdlib Require Import Ascii.
From S2P Require Import Prelude GoStrings Utf8 GoFmt Sha256 CappedBuffer.

(** ** The protocol *)

Definition cacheProgGet : string := "get".
Definition cacheProgPut : string := "put".
Definition cacheProgClose : string := "close".

(** Byte slices are strings; the body of a put comes with the request. *)
Record cacheProgRequest := CacheRequest {
  crID : Z;
  crCommand : string;
  crActionID : string;
  crOutputID : string;
  crObjectID : string;
  crBodySize : Z
}.

#[export] Instance eta_cacheProgRequest : Eta cacheProgRequest := λ r,
  CacheRequest (crID r) (crCommand r) (crActionID r) (crOutputID r) (crObjectID r) (crBodySize r).

Record cacheProgResponse := CacheResponse {
  cpID : Z;
  cpErr : string;
  KnownCommands : list string;
  cpMiss : bool;
  cpOutputID : string;
  cpObjectID : string;
  cpSize : Z;
  cpTime : option Time;
  cpTimeNanos : Z;
  DiskPath : string
}.

#[export] Instance eta_cacheProgResponse : Eta cacheProgResponse := λ r,
  CacheResponse (cpID r) (cpErr r) (KnownCommands r) (cpMiss r) (cpOutputID r) (cpObjectID r) (cpSize r)
    (cpTime r) (cpTimeNanos r) (DiskPath r).

Definition zeroResponse : cacheProgResponse := CacheResponse 0 "" [] false "" "" 0 None 0 "".
Definition missResponse : cacheProgResponse := zeroResponse <| cpMiss := true |>.

(** Older helpers call the output ID an object ID. *)
Definition normalizeRequest (r : cacheProgRequest) : cacheProgRequest :=
  if bool_decide (crOutputID r = "") && negb (bool_decide (crObjectID r = "")) then r <| crOutputID := crObjectID r |> else r.

(** ** Hexadecimal *)

Definition fromHexChar (a : ascii) : option Z :=
  let b := byteZ a in
  if (48 <=? b) && (b <=? 57) then Some (b - 48)
  else if (97 <=? b) && (b <=? 102) then Some (b - 87)
  else if (65 <=? b) && (b <=? 70) then Some (b - 55)
  else None.

(** [hex.DecodeString]; [None] is its error. *)
Fixpoint DecodeString (s : string) : option string :=
  match s with
  | EmptyString => Some ""
  | String a (String b s) =>
      x ← fromHexChar a; y ← fromHexChar b; r ← DecodeString s; Some (String (ofByteZ (16 * x + y)) r)
  | String _ EmptyString => None
  end.

Definition validCacheHex (s : string) : bool :=
  (strlen s =? 64) && bool_decide (is_Some (DecodeString s)).

(** ** Decimal numbers *)

Fixpoint digits (s : string) (acc : Z) : option Z :=
  match s with
  | EmptyString => Some acc
  | String a s =>
      let b := byteZ a in
      if (48 <=? b) && (b <=? 57) then digits s (10 * acc + (b - 48)) else None
  end.

(** [strconv.ParseInt(s, 10, 64)] *)
Definition ParseInt (s : string) : option Z :=
  let '(neg, rest) := match s with
                      | String "+" r => (false, r)
                      | String "-" r => (true, r)
                      | _ => (false, s)
                      end in
  if bool_decide (rest = "") then None
  else
    n ← digits rest 0;
    let v := if neg then - n else n in
    if (- 2 ^ 63 <=? v) && (v <? 2 ^ 63) then Some v else None.

(** ** Fields *)

(** [unicode.IsSpace] *)
Definition isSpace (r : Z) : bool :=
  ((9 <=? r) && (r <=? 13)) || (r =? 32) || (r =? 0x85) || (r =? 0xA0) || (r =? 0x1680) ||
  ((0x2000 <=? r) && (r <=? 0x200A)) || (r =? 0x2028) || (r =? 0x2029) || (r =? 0x202F) || (r =? 0x205F) || (r =? 0x3000).

(** [strings.Fields], over the runes; [word] is the field under way. *)
Fixpoint fieldsOf (cs : list (Z * string)) (word : string) : list string :=
  match cs with
  | [] => if bool_decide (word = "") then [] else [word]
  | (r, enc) :: cs =>
      if isSpace r then (if bool_decide (word = "") then fieldsOf cs "" else word :: fieldsOf cs "")
      else fieldsOf cs (word +:+ enc)
  end.

Definition Fields (s : string) : list string := fieldsOf (chunks s) "".

(** [strings.TrimSpace] *)
Fixpoint dropSpace (cs : list (Z * string)) : list (Z * string) :=
  match cs with
  | (r, enc) :: cs' => if isSpace r then dropSpace cs' else cs
  | [] => []
  end.

Definition TrimSpace (s : string) : string := concatS (reverse (dropSpace (reverse (dropSpace (chunks s)))).*2).

(** ** Base64 *)

(** The alphabet of [base64.RawURLEncoding]. *)
Definition base64Char (d : Z) : ascii :=
  ofByteZ (if d <? 26 then 65 + d else if d <? 52 then 71 + d else if d <? 62 then d - 4 else if d =? 62 then 45 else 95).

(** Three bytes make four characters; there is no padding. *)
Fixpoint base64RawURL (s : string) : string :=
  match s with
  | EmptyString => ""
  | String a EmptyString =>
      let x := byteZ a in String (base64Char (x / 4)) (String (base64Char (x `mod` 4 * 16)) "")
  | String a (String b EmptyString) =>
      let x := byteZ a in
      let y := byteZ b in
      String (base64Char (x / 4)) (String (base64Char (x `mod` 4 * 16 + y / 16)) (String (base64Char (y `mod` 16 * 4)) ""))
  | String a (String b (String c s)) =>
      let x := byteZ a in
      let y := byteZ b in
      let z := byteZ c in
      String (base64Char (x / 4)) (String (base64Char (x `mod` 4 * 16 + y / 16))
        (String (base64Char (y `mod` 16 * 4 + z / 64)) (String (base64Char (z `mod` 64)) (base64RawURL s))))
  end.

(** The part of a build ID that stands for the action, 120 bits of its ID. *)
Definition actionIDPrefix (actionID : string) : string :=
  if strlen actionID <? 15 then "" else base64RawURL (takeS 15 actionID).

(** ** Lemmas *)

Lemma fromHex_hexDigit d : 0 ≤ d < 16 → fromHexChar (hexDigit d) = Some d.
Proof.
  intros Hd. assert (Hall : forallb (λ n, bool_decide (fromHexChar (hexDigit (Z.of_nat n)) = Some (Z.of_nat n))) (seq 0 16) = true) by reflexivity.
  rewrite forallb_forall in Hall. specialize (Hall (Z.to_nat d)). rewrite Z2Nat.id in Hall by lia.
  eapply bool_decide_eq_true_1, Hall. apply in_seq. lia.
Qed.

Lemma Decode_Encode s : DecodeString (EncodeToString s) = Some s.
Proof.
  induction s as [|a s IH]; [done|]. cbn [EncodeToString DecodeString].
  pose proof (byteZ_range a). assert (0 ≤ byteZ a / 16 < 16) by (split; [apply Z.div_pos|apply Z.div_lt_upper_bound]; lia).
  pose proof (Z.mod_pos_bound (byteZ a) 16).
  rewrite !fromHex_hexDigit by lia. cbn [mbind option_bind]. rewrite IH. cbn [mbind option_bind].
  rewrite <- Z.div_mod by lia. by rewrite ofByteZ_byteZ.
Qed.

Lemma strlen_EncodeToString s : strlen (EncodeToString s) = 2 * strlen s.
Proof. unfold strlen. induction s as [|a s IH]; [done|]. cbn [EncodeToString String.length]. lia. Qed.

Lemma strlen_Sum256 s : strlen (Sum256 s) = 32.
Proof.
  pose proof (length_hashString s) as Hl. unfold hashString in Hl. rewrite length_EncodeToString in Hl. unfold strlen. lia.
Qed.

Lemma validCacheHex_Encode s : validCacheHex (EncodeToString s) = true ↔ strlen s = 32.
Proof.
  unfold validCacheHex. rewrite Decode_Encode, strlen_EncodeToString, bool_decide_true, andb_true_r by by eexists.
  rewrite Z.eqb_eq. lia.
Qed.

Lemma EncodeToString_inj s t : EncodeToString s = EncodeToString t → s = t.
Proof. intros E. apply (f_equal DecodeString) in E. rewrite !Decode_Encode in E. by injection E. Qed.

Example fields_example : Fields ("v1 ab" +:+ String "009"%char "cd  7" +:+ String "010"%char "") = ["v1"; "ab"; "cd"; "7"].
Proof. reflexivity. Qed.

Example parseInt_examples :
  (ParseInt "-12", ParseInt "9223372036854775807", ParseInt "9223372036854775808", ParseInt "1_0") =
  (Some (-12), Some (2 ^ 63 - 1), None, None).
Proof. vm_compute. reflexivity. Qed.

Example base64_examples : (base64RawURL "foobar", base64RawURL "fooba", base64RawURL "foob", base64RawURL (String "255"%char (String "239"%char ""))) =
  ("Zm9vYmFy", "Zm9vYmE", "Zm9vYg", "_-8").
Proof. vm_compute. reflexivity. Qed.
