(* ===== verification/LocalCache.v ===== *)
(** * The local build cache (localcache.go)

    The GOCACHEPROG that gotst runs itself: objects named by the SHA-256 of
    their content and an index from action IDs to them, both replaced by
    rename, with the ordinary Go disk cache behind it for reading. *)

From S2P Require Import Prelude GoStrings Path Utf8 GoFmt Sha256 Quote Json CappedBuffer TestCache Disk ResultCache CacheTypes.

Record localCacheIndex := LocalCacheIndex {
  lciVersion : Z;
  lciOutputID : string;
  lciSize : Z;
  lciTimeNanos : Z
}.

(** [json.Marshal] of an index *)
Definition MarshalIndex (i : localCacheIndex) : string :=
  marshal (JObject [("version", JInt (lciVersion i)); ("output_id", JString (lciOutputID i));
                    ("size", JInt (lciSize i)); ("time_nanos", JInt (lciTimeNanos i))]).

(** [json.Unmarshal] into an index; [exactIndex] are those that its encoding
    carries unchanged. *)
Class IndexCodec := {
  UnmarshalIndex : string → option localCacheIndex;
  exactIndex : localCacheIndex → Prop;
  Unmarshal_MarshalIndex : ∀ i, exactIndex i → UnmarshalIndex (MarshalIndex i +:+ newline) = Some i
}.

Record localBuildCache := LocalBuildCache {
  lbDir : string;
  lbStockDir : string
}.

(** What the system answers: faults of reading and of [os.Stat], the time of the
    object, and the calls of the two replacements, with what a second read of
    the destination gives after a failed rename. *)
Record localIO := LocalIO {
  liRead : string → option ioError;
  liStat : string → option error;
  liModTime : Z;
  liObject : writeFaults;
  liObjectReread : ioError + string;
  liIndex : writeFaults;
  liIndexReread : ioError + string
}.

Definition sub2 (id : string) : string := takeS 2 id.

Definition actionPath (c : localBuildCache) (id : string) : string :=
  PathJoin [lbDir c; "action"; sub2 id; id +:+ ".json"].

Definition outputPath (c : localBuildCache) (id : string) : string :=
  PathJoin [lbDir c; "object"; sub2 id; id].

(** [os.ReadFile] *)
Definition readFile (d : disk) (faults : string → option ioError) (path : string) : ioError + string :=
  match faults path with
  | Some e => inl e
  | None =>
      match fileAt d (Dir path) (Base path) with
      | Some (Regular data) => inr data
      | Some Subdirectory => inl (IOError "is a directory")
      | None => inl NotExist
      end
  end.

(** The path is a regular file of [size] bytes. *)
Definition regularOfSize (d : disk) (faults : string → option error) (path : string) (size : Z) : bool :=
  match faults path, fileAt d (Dir path) (Base path) with
  | None, Some (Regular data) => strlen data =? size
  | _, _ => false
  end.

Definition readStockGoCache (d : disk) (io : localIO) (dir actionHex : string) : option cacheProgResponse :=
  if negb (validCacheHex actionHex) || negb (IsAbs dir) then None
  else
    match readFile d (liRead io) (PathJoin [dir; sub2 actionHex; actionHex +:+ "-a"]) with
    | inl _ => None
    | inr data =>
        match Fields data with
        | [v; action; output; sizeText; nanosText] =>
            if negb (bool_decide (v = "v1")) || negb (bool_decide (action = actionHex)) || negb (validCacheHex output) then None
            else
              size ← ParseInt sizeText;
              nanos ← (if size <? 0 then None else ParseInt nanosText);
              let path := PathJoin [dir; sub2 output; output +:+ "-d"] in
              if (nanos <? 0) || negb (regularOfSize d (liStat io) path size) then None
              else
                outputID ← DecodeString output;
                Some (zeroResponse <| cpOutputID := outputID |> <| cpSize := size |> <| cpTime := Some nanos |> <| DiskPath := path |>)
        | _ => None
        end
    end.

Section cache.
Context `{IndexCodec}.

(** What the index of an action gives, if it is usable. *)
Definition fromIndex (c : localBuildCache) (d : disk) (io : localIO) (data : string) : option cacheProgResponse :=
  idx ← UnmarshalIndex data;
  if negb (lciVersion idx =? 1) || negb (validCacheHex (lciOutputID idx)) then None
  else
    let path := outputPath c (lciOutputID idx) in
    if negb (regularOfSize d (liStat io) path (lciSize idx)) then None
    else
      outputID ← DecodeString (lciOutputID idx);
      Some (zeroResponse <| cpOutputID := outputID |> <| cpSize := lciSize idx |>
              <| cpTime := Some (lciTimeNanos idx) |> <| DiskPath := path |>).

(** [get]; an error comes without a response. *)
Definition get (c : localBuildCache) (d : disk) (io : localIO) (actionID : string) : error + cacheProgResponse :=
  let actionHex := EncodeToString actionID in
  if negb (validCacheHex actionHex) then inr missResponse
  else
    let fallback :=
      match (if bool_decide (lbStockDir c = "") then None else readStockGoCache d io (lbStockDir c) actionHex) with
      | Some res => inr res
      | None => inr missResponse
      end in
    match readFile d (liRead io) (actionPath c actionHex) with
    | inr data => match fromIndex c d io data with Some res => inr res | None => fallback end
    | inl NotExist => fallback
    | inl (IOError msg) => inl (EMsg msg)
    end.

(** The file was read and has this content. *)
Definition sameData (r : ioError + string) (data : string) : bool :=
  match r with inr old => bool_decide (old = data) | inl _ => false end.

(** [writeCacheFile] *)
Definition writeCacheFile (f : writeFaults) (faults : string → option ioError) (reread : ioError + string)
    (path data : string) (d : disk) : option error * disk :=
  if sameData (readFile d faults path) data then (None, d)
  else
    match mkdirErr f with
    | Some e => (Some e, d)
    | None =>
        match stage f (Dir path) data (mkdirAll d (Dir path)) with
        | (Some e, d) => (Some e, d)
        | (None, d) =>
            match renameErr f with
            | Some _ => if sameData reread data then (None, d) else rename f (Dir path) (Base path) data d
            | None => rename f (Dir path) (Base path) data d
            end
        end
    end.

Definition put (c : localBuildCache) (d : disk) (io : localIO) (actionID outputID : string) (size : Z) (body : string)
    : result string * disk :=
  let actionHex := EncodeToString actionID in
  let outputHex := EncodeToString outputID in
  if negb (validCacheHex actionHex) || negb (validCacheHex outputHex) || negb (strlen outputID =? 32) then
    (Err (EMsg "invalid cache action or output ID"), d)
  else if negb (strlen body =? size) then
    (Err (EMsg ("cache body is " +:+ itoa (strlen body) +:+ " bytes; want " +:+ itoa size)), d)
  else if negb (bool_decide (Sum256 body = outputID)) then (Err (EMsg "cache body hash does not match output ID"), d)
  else
    let path := outputPath c outputHex in
    match writeCacheFile (liObject io) (liRead io) (liObjectReread io) path body d with
    | (Some e, d) => (Err e, d)
    | (None, d) =>
        match liStat io path with
        | Some e => (Err e, d)
        | None =>
            let idx := LocalCacheIndex 1 outputHex size (liModTime io) in
            match writeCacheFile (liIndex io) (liRead io) (liIndexReread io) (actionPath c actionHex) (MarshalIndex idx +:+ newline) d with
            | (Some e, d) => (Err e, d)
            | (None, d) => (Ok path, d)
            end
        end
    end.

(** ** Serving *)

(** The body that comes with a request, and what is wrong with it. *)
Definition readBody (req : cacheProgRequest) (body : result string) : result string :=
  if bool_decide (crCommand req = cacheProgPut) && (0 <? crBodySize req) then
    b ← body;
    if strlen b =? crBodySize req then Ok b
    else Err (EMsg ("cache put body is " +:+ itoa (strlen b) +:+ " bytes; want " +:+ itoa (crBodySize req)))
  else Ok "".

(** What the goroutine of a request does; [None] is a nil dereference. *)
Definition respond `{GoRuntime} (c : localBuildCache) (d : disk) (io : localIO) (req : cacheProgRequest) (body : string)
    : option (cacheProgResponse * disk) :=
  let res := zeroResponse <| cpID := crID req |> in
  if bool_decide (crCommand req = cacheProgGet) then
    match get c d io (crActionID req) with
    | inl _ => None (** [res.ID] of a nil response *)
    | inr res => Some (res <| cpID := crID req |>, d)
    end
  else if bool_decide (crCommand req = cacheProgPut) then
    match put c d io (crActionID req) (crOutputID req) (crBodySize req) body with
    | (Ok path, d) => Some (res <| DiskPath := path |>, d)
    | (Err e, d) => Some (res <| cpErr := Error e |>, d)
    end
  else Some (res <| cpErr := "unsupported cache command " +:+ Quote (crCommand req) |>, d).

(** The requests that are read until the input ends or the close request: those
    that are started, each with its body, and how the loop ends, with the ID of
    the close request.  [last] is the error that is not the end of the input. *)
Fixpoint acceptRequests (inputs : list (cacheProgRequest * result string)) (last : option error)
    : list (cacheProgRequest * string) * result (option Z) :=
  match inputs with
  | [] => ([], match last with None => Ok None | Some e => Err e end)
  | (req, body) :: rest =>
      let req := normalizeRequest req in
      match readBody req body with
      | Err e => ([], Err e)
      | Ok b =>
          if bool_decide (crCommand req = cacheProgClose) then ([], Ok (Some (crID req)))
          else let '(started, ending) := acceptRequests rest last in ((req, b) :: started, ending)
      end
  end.

(** The started requests in the order in which they are done, each with what the
    system answers to it. *)
Fixpoint respondAll `{GoRuntime} (c : localBuildCache) (d : disk) (work : list (localIO * (cacheProgRequest * string)))
    : option (list cacheProgResponse * disk) :=
  match work with
  | [] => Some ([], d)
  | (io, (req, body)) :: work =>
      '(res, d) ← respond c d io req body;
      '(out, d) ← respondAll c d work;
      Some (res :: out, d)
  end.

(** [serve]: what it writes and returns, when the started requests are done in
    the order of [work]; the close request is answered after all of them. *)
Definition serve `{GoRuntime} (c : localBuildCache) (d : disk) (inputs : list (cacheProgRequest * result string))
    (last : option error) (work : list (localIO * (cacheProgRequest * string)))
    : option (list cacheProgResponse * option error * disk) :=
  let hello := zeroResponse <| KnownCommands := [cacheProgGet; cacheProgPut; cacheProgClose] |> in
  '(out, d) ← respondAll c d work;
  Some match (acceptRequests inputs last).2 with
       | Ok (Some id) => (hello :: out ++ [zeroResponse <| cpID := id |>], None, d)
       | Ok None => (hello :: out, None, d)
       | Err e => (hello :: out, Some e, d)
       end.
End cache.
