(* ===== verification/LocalCacheFacts.v ===== *)
(** * What the local build cache guarantees *)

From Stdlib Require Import Ascii.
From S2P Require Import Prelude GoStrings Path Utf8 GoFmt Sha256 Quote Json CappedBuffer TestCache Disk ResultCache CacheTypes LocalCache.

(** ** Where files are *)

Lemma PathJoin_abs_list es l :
  es ≠ [] → Forall normal_elem es → Forall normal_elem l → PathJoin (abs es :: l) = abs (es ++ l).
Proof.
  intros Hne Hes Hl. unfold PathJoin. rewrite filter_cons_True by apply normal_elem_nonempty_abs.
  rewrite filter_all; [|intros x Hx; rewrite Forall_forall in Hl; by apply Hl].
  assert (HJ : Join (abs es :: l) slashS = abs (es ++ l)).
  { clear Hl. revert es Hne Hes. induction l as [|x l IH] using rev_ind; intros es Hne Hes; [by rewrite app_nil_r|].
    rewrite app_assoc, abs_snoc. change (abs es :: l ++ [x]) with ((abs es :: l) ++ [x]). rewrite Join_snoc.
    destruct (es ++ l) eqn:E; [by destruct es|]. by rewrite <- E, IH. }
  rewrite HJ. apply Clean_abs. apply Forall_app. auto.
Qed.

Lemma Base_abs_snoc es e : Forall normal_elem es → normal_elem e → Base (abs (es ++ [e])) = e.
Proof.
  intros Hes He. unfold Base. rewrite bool_decide_false by apply normal_elem_nonempty_abs.
  rewrite Split_abs by (apply Forall_app; auto). destruct (es ++ [e]) eqn:E; [by destruct es|]. rewrite <- E.
  rewrite filter_cons_False by auto. rewrite filter_all.
  - by rewrite reverse_snoc.
  - intros x Hx. apply elem_of_snoc in Hx. rewrite Forall_forall in Hes. destruct Hx as [?| ->]; [by apply Hes|apply He].
Qed.

(** Hexadecimal digits make a file name. *)
Lemma allChars_app P a b : allChars P (a +:+ b) = allChars P a && allChars P b.
Proof. induction a as [|c a IH]; [done|]. change (String c a +:+ b) with (String c (a +:+ b)). cbn. by rewrite IH, andb_assoc. Qed.

Lemma hex_normal s : allChars isHex s = true → s ≠ "" → normal_elem s.
Proof.
  intros Hs Hne. repeat split; [by apply (allChars_not isHex)|done| |]; intros ->; discriminate Hs.
Qed.

Lemma allChars_takeS P n s : allChars P s = true → allChars P (takeS n s) = true.
Proof. revert n. induction s as [|a s IH]; intros [|n] Hs; try done. cbn in *. apply andb_prop in Hs as [-> Hs]. simpl. by apply IH. Qed.

Lemma append_cancel_r a b s : a +:+ s = b +:+ s → a = b.
Proof.
  revert b. induction a as [|c a IH]; intros [|c' b]; [done| | |];
    rewrite ?append_empty_l, ?append_cons; intros E; pose proof (f_equal String.length E) as El; simpl in El; rewrite ?length_append in El; try lia.
  injection E as -> E. f_equal. by apply IH.
Qed.

(** An absolute cache directory that is not the root. *)
Record rooted (c : localBuildCache) (es : list string) : Prop := {
  rt_dir : lbDir c = abs es;
  rt_normal : Forall normal_elem es;
  rt_ne : es ≠ []
}.

(** A SHA-256 in hexadecimal, and the names made of it. *)
Lemma hexID_normal id : strlen id = 32 →
  normal_elem (EncodeToString id) ∧ normal_elem (sub2 (EncodeToString id)) ∧ normal_elem (EncodeToString id +:+ ".json").
Proof.
  intros Hid. pose proof (EncodeToString_isHex id) as Hh.
  destruct id as [|a id]; [done|]. set (hx := EncodeToString (String a id)) in *.
  assert (hx ≠ "" ∧ sub2 hx ≠ "") as [Hne Hne2] by done. split_and!.
  - by apply hex_normal.
  - apply hex_normal; [by apply allChars_takeS|done].
  - split; [|split; [|split]].
    + unfold elem_ok. rewrite ContainsByte_append. by rewrite (allChars_not isHex hx) by done.
    + by destruct hx.
    + destruct hx as [|b [|b' hx']]; discriminate.
    + destruct hx as [|b [|b' [|b'' hx']]]; discriminate.
Qed.

Lemma outputPath_at c es id : rooted c es → strlen id = 32 →
  Dir (outputPath c (EncodeToString id)) = abs (es ++ ["object"; sub2 (EncodeToString id)]) ∧
  Base (outputPath c (EncodeToString id)) = EncodeToString id.
Proof.
  intros [Hd Hn Hne] Hid. destruct (hexID_normal id Hid) as (H1 & H2 & _). unfold outputPath. rewrite Hd.
  assert (Ho : normal_elem "object") by done.
  rewrite PathJoin_abs_list by auto. replace (es ++ ["object"; sub2 (EncodeToString id); EncodeToString id])
    with ((es ++ ["object"; sub2 (EncodeToString id)]) ++ [EncodeToString id]) by (by rewrite <- app_assoc).
  assert (Forall normal_elem (es ++ ["object"; sub2 (EncodeToString id)])) by (apply Forall_app; auto).
  by rewrite Dir_abs_snoc, Base_abs_snoc by auto.
Qed.

Lemma actionPath_at c es id : rooted c es → strlen id = 32 →
  Dir (actionPath c (EncodeToString id)) = abs (es ++ ["action"; sub2 (EncodeToString id)]) ∧
  Base (actionPath c (EncodeToString id)) = EncodeToString id +:+ ".json".
Proof.
  intros [Hd Hn Hne] Hid. destruct (hexID_normal id Hid) as (H1 & H2 & H3). unfold actionPath. rewrite Hd.
  assert (Ho : normal_elem "action") by done.
  rewrite PathJoin_abs_list by auto. replace (es ++ ["action"; sub2 (EncodeToString id); EncodeToString id +:+ ".json"])
    with ((es ++ ["action"; sub2 (EncodeToString id)]) ++ [EncodeToString id +:+ ".json"]) by (by rewrite <- app_assoc).
  assert (Forall normal_elem (es ++ ["action"; sub2 (EncodeToString id)])) by (apply Forall_app; auto).
  by rewrite Dir_abs_snoc, Base_abs_snoc by auto.
Qed.

(** Objects and indexes are apart. *)
Lemma object_not_action c es o a : rooted c es → strlen o = 32 → strlen a = 32 →
  Dir (outputPath c (EncodeToString o)) ≠ Dir (actionPath c (EncodeToString a)).
Proof.
  intros Hc Ho Ha. rewrite (proj1 (outputPath_at c es o Hc Ho)), (proj1 (actionPath_at c es a Hc Ha)).
  destruct (hexID_normal o Ho) as (_ & Ho2 & _), (hexID_normal a Ha) as (_ & Ha2 & _). destruct Hc as [_ Hn _].
  assert (Ho' : normal_elem "object") by done. assert (Ha' : normal_elem "action") by done.
  intros E. apply abs_inj in E; [|apply Forall_app; auto..].
  apply app_inv_head in E. discriminate E.
Qed.

(** ** Replacing a file *)

(** The name of a temporary file is none of an object or an index. *)
Definition temporary (f : writeFaults) : Prop := HasPrefix (tempName f) ".gotst-cache-" = true.

Lemma hex_not_temporary f id suffix : temporary f → strlen id = 32 → EncodeToString id +:+ suffix ≠ tempName f.
Proof.
  intros Ht Hid E. unfold temporary in Ht. rewrite <- E in Ht. destruct id as [|a id]; [done|].
  pose proof (EncodeToString_isHex (String a id)) as Hh. cbn [EncodeToString] in *.
  destruct (hexDigit (byteZ a / 16)) eqn:Ed. 
  unfold HasPrefix in Ht. cbn in Ht, Hh. apply andb_prop in Hh as [Hh _].
  repeat match goal with b : bool |- _ => destruct b end; done.
Qed.

Lemma writeCacheFile_spec f faults reread path data d err d' :
  writeCacheFile f faults reread path data d = (err, d') → Base path ≠ tempName f →
  (fileAt d' (Dir path) (Base path) = fileAt d (Dir path) (Base path) ∨ fileAt d' (Dir path) (Base path) = Some (Regular data)) ∧
  (∀ dir name, (dir, name) ≠ (Dir path, Base path) → (dir, name) ≠ (Dir path, tempName f) → fileAt d' dir name = fileAt d dir name) ∧
  (err = None → renameErr f = None → faults path = None → fileAt d' (Dir path) (Base path) = Some (Regular data)).
Proof.
  intros Hw Hne. revert Hw. unfold writeCacheFile. destruct (sameData _ _) eqn:Hsame.
  { intros [= <- <-]. split_and!; [by left|done|]. intros _ _ Hf. unfold sameData, readFile in Hsame. rewrite Hf in Hsame.
    destruct (fileAt d (Dir path) (Base path)) as [[old|]|]; try done. by apply bool_decide_eq_true in Hsame as ->. }
  destruct (mkdirErr f); [intros [= <- <-]; by split_and!; [left| |]|].
  assert (Hst : ∀ dir name, (dir, name) ≠ (Dir path, tempName f) →
    fileAt (stage f (Dir path) data (mkdirAll d (Dir path))).2 dir name = fileAt d dir name).
  { intros dir name Hn. by rewrite stage_other, fileAt_mkdirAll. }
  destruct (stage f (Dir path) data (mkdirAll d (Dir path))) as [[e|] d1] eqn:Es; simpl in Hst.
  { intros [= <- <-]. split_and!; [left; apply Hst; congruence|intros; by apply Hst|done]. }
  destruct (renameErr f) eqn:Er.
  - destruct (sameData reread data).
    + intros [= <- <-]. split_and!; [left; apply Hst; congruence|intros; by apply Hst|done].
    + unfold rename. rewrite Er. intros [= <- <-]. split_and!; [| |done].
      * left. rewrite fileAt_removeAt_ne by congruence. apply Hst. congruence.
      * intros dir name H1 H2. rewrite fileAt_removeAt_ne by done. by apply Hst.
  - destruct (rename_spec f (Dir path) (Base path) data d1 Hne) as (Hdst & _ & Hrest).
    assert (Hok : (rename f (Dir path) (Base path) data d1).1 = None) by (unfold rename; by rewrite Er).
    intros Hren. rewrite Hren in Hdst, Hrest, Hok. simpl in *. subst err. split_and!; [by right| |done].
    intros dir name H1 H2. rewrite Hrest by done. by apply Hst.
Qed.

Lemma writeCacheFile_faultFree f faults reread path data d : faultFree f → (writeCacheFile f faults reread path data d).1 = None.
Proof.
  intros Hf. unfold writeCacheFile. destruct (sameData _ _); [done|]. rewrite (ff_mkdir f Hf).
  pose proof (stage_faultFree f (Dir path) data (mkdirAll d (Dir path)) Hf) as Hs.
  destruct (stage f _ _ _) as [[e|] d1]; [done|]. unfold rename. by rewrite (ff_rename f Hf).
Qed.

(** ** The invariant *)

(** What an object's file holds hashes to its name. *)
Definition objects_ok (c : localBuildCache) (d : disk) : Prop :=
  ∀ o data, strlen o = 32 →
  fileAt d (Dir (outputPath c (EncodeToString o))) (Base (outputPath c (EncodeToString o))) = Some (Regular data) → Sum256 data = o.

Section facts.
Context `{IndexCodec}.

Definition index_ok (data : string) : Prop :=
  ∃ o size t, strlen o = 32 ∧ UnmarshalIndex data = Some (LocalCacheIndex 1 (EncodeToString o) size t).

Definition indexes_ok (c : localBuildCache) (d : disk) : Prop :=
  ∀ a data, strlen a = 32 →
  fileAt d (Dir (actionPath c (EncodeToString a))) (Base (actionPath c (EncodeToString a))) = Some (Regular data) → index_ok data.

Definition cache_ok (c : localBuildCache) (d : disk) : Prop := objects_ok c d ∧ indexes_ok c d.

Lemma writeObject_ok c es f faults reread o body d err d' :
  rooted c es → temporary f → strlen o = 32 → Sum256 body = o →
  writeCacheFile f faults reread (outputPath c (EncodeToString o)) body d = (err, d') →
  cache_ok c d → cache_ok c d'.
Proof using Type.
  intros Hc Ht Ho Hsum Hw [Hobj Hidx]. pose proof (hex_not_temporary f o "" Ht Ho) as Hne. rewrite append_empty_r in Hne.
  destruct (outputPath_at c es o Hc Ho) as [Hdir Hbase].
  destruct (writeCacheFile_spec _ _ _ _ _ _ _ _ Hw ltac:(by rewrite Hbase)) as (Hdst & Hrest & _). split.
  - intros o' data Ho' Hat. destruct (decide (o' = o)) as [->|Hoo].
    + destruct Hdst as [Hdst|Hdst]; rewrite Hdst in Hat; [by apply Hobj|]. congruence.
    + rewrite Hrest in Hat; [by apply Hobj| |]; destruct (outputPath_at c es o' Hc Ho') as [_ Hb']; rewrite ?Hb', ?Hbase.
      * intros E. apply Hoo, EncodeToString_inj. congruence.
      * pose proof (hex_not_temporary f o' "" Ht Ho') as Hne'. rewrite append_empty_r in Hne'. congruence.
  - intros a data Ha Hat. pose proof (object_not_action c es o a Hc Ho Ha).
    rewrite Hrest in Hat by congruence. by apply (Hidx a).
Qed.

Lemma writeIndex_ok c es f faults reread a data d err d' :
  rooted c es → temporary f → strlen a = 32 → index_ok data →
  writeCacheFile f faults reread (actionPath c (EncodeToString a)) data d = (err, d') →
  cache_ok c d → cache_ok c d'.
Proof using Type.
  intros Hc Ht Ha Hdata Hw [Hobj Hidx]. pose proof (hex_not_temporary f a ".json" Ht Ha) as Hne.
  destruct (actionPath_at c es a Hc Ha) as [Hdir Hbase].
  destruct (writeCacheFile_spec _ _ _ _ _ _ _ _ Hw ltac:(by rewrite Hbase)) as (Hdst & Hrest & _). split.
  - intros o data' Ho Hat. pose proof (object_not_action c es o a Hc Ho Ha).
    rewrite Hrest in Hat by congruence. by apply Hobj.
  - intros a' data' Ha' Hat. destruct (decide (a' = a)) as [->|Haa].
    + destruct Hdst as [Hdst|Hdst]; rewrite Hdst in Hat; [by apply (Hidx a)|]. by injection Hat as <-.
    + rewrite Hrest in Hat; [by apply (Hidx a')| |]; destruct (actionPath_at c es a' Hc Ha') as [_ Hb']; rewrite ?Hb', ?Hbase.
      * intros E. apply Haa, EncodeToString_inj. injection E as _ E. by apply append_cancel_r in E.
      * pose proof (hex_not_temporary f a' ".json" Ht Ha'). congruence.
Qed.

(** What a put that got past its checks was given. *)
Lemma put_checked a o :
  negb (validCacheHex (EncodeToString a)) || negb (validCacheHex (EncodeToString o)) || negb (strlen o =? 32) = false →
  strlen a = 32 ∧ strlen o = 32.
Proof using Type.
  intros Hv. apply orb_false_iff in Hv as [Hv _]. apply orb_false_iff in Hv as [Ha Ho].
  apply negb_false_iff in Ha, Ho. by rewrite !validCacheHex_Encode in *.
Qed.

Lemma put_ok c es d io a o size body :
  rooted c es → temporary (liObject io) → temporary (liIndex io) →
  exactIndex (LocalCacheIndex 1 (EncodeToString o) size (liModTime io)) → cache_ok c d → cache_ok c (put c d io a o size body).2.
Proof using Type.
  intros Hc Ht1 Ht2 Hex Hok. unfold put. destruct (negb _ || negb _ || negb _) eqn:Hv; [done|].
  apply put_checked in Hv as [Ha Ho].
  destruct (negb (strlen body =? size)); [done|]. destruct (negb (bool_decide _)) eqn:Hs; [done|].
  apply negb_false_iff, bool_decide_eq_true in Hs.
  destruct (writeCacheFile (liObject io) _ _ _ _ d) as [[e|] d1] eqn:Hw1; simpl;
    pose proof (writeObject_ok c es _ _ _ o _ _ _ _ Hc Ht1 Ho Hs Hw1 Hok) as Hok1; [done|].
  destruct (liStat io _); [done|]. cbv zeta.
  assert (Hidx : index_ok (MarshalIndex (LocalCacheIndex 1 (EncodeToString o) size (liModTime io)) +:+ newline)).
  { exists o, size, (liModTime io). split; [done|]. by apply Unmarshal_MarshalIndex. }
  destruct (writeCacheFile (liIndex io) _ _ _ _ d1) as [[e|] d2] eqn:Hw2; simpl;
    by apply (writeIndex_ok c es _ _ _ a _ _ _ _ Hc Ht2 Ha Hidx Hw2 Hok1).
Qed.

(** ** Theorems *)

(** The states of the cache: it starts empty and serves requests; another
    process that serves the same directory only adds such steps. *)
Inductive reachable `{GoRuntime} (c : localBuildCache) : disk → Prop :=
  | reachable_empty : reachable c ∅
  | reachable_request d io req body res d' :
      reachable c d → temporary (liObject io) → temporary (liIndex io) →
      exactIndex (LocalCacheIndex 1 (EncodeToString (crOutputID req)) (crBodySize req) (liModTime io)) →
      respond c d io req body = Some (res, d') → reachable c d'.

Lemma reachable_ok `{GoRuntime} c es d : rooted c es → reachable c d → cache_ok c d.
Proof using Type.
  intros Hc. induction 1 as [|d io req body res d' _ IH Ht1 Ht2 Hex Hr].
  { by split; intros ? ? _. }
  revert Hr. unfold respond. destruct (bool_decide (crCommand req = _)).
  { destruct (get c d io _); [done|]. by intros [= _ <-]. }
  destruct (bool_decide (crCommand req = _)); [|by intros [= _ <-]].
  pose proof (put_ok c es d io (crActionID req) (crOutputID req) (crBodySize req) body Hc Ht1 Ht2 Hex IH) as Hok.
  destruct (put _ _ _ _ _ _ _) as [[p|e] d1]; by intros [= _ <-].
Qed.

(** The content of a hit is where the response says and has the size and hash of the response. *)
Definition genuine (d : disk) (res : cacheProgResponse) : Prop :=
  ∃ data, fileAt d (Dir (DiskPath res)) (Base (DiskPath res)) = Some (Regular data) ∧
  Sum256 data = cpOutputID res ∧ strlen data = cpSize res.

Lemma fromIndex_genuine c d io data res :
  objects_ok c d → index_ok data → fromIndex c d io data = Some res → genuine d res ∧ cpMiss res = false.
Proof using Type.
  intros Hobj (o & size & t & Ho & Hu). unfold fromIndex. rewrite Hu. cbn [mbind option_bind lciVersion lciOutputID lciSize].
  destruct (negb (1 =? 1) || _); [done|]. destruct (regularOfSize _ _ _ _) eqn:Hr; [|done]. simpl negb. cbv iota.
  rewrite Decode_Encode. cbn [mbind option_bind]. intros [= <-]. split; [|done]. unfold regularOfSize in Hr.
  destruct (liStat io _); [done|]. destruct (fileAt d _ _) as [[x|]|] eqn:Hat; try done. apply Z.eqb_eq in Hr.
  exists x. split_and!; [done|by apply Hobj|done].
Qed.

(** C30: Whatever requests the cache has served, and whatever calls failed under
    them, the content it serves for an action from its own directory has the
    size and the SHA-256 that the response announces; any other hit is the one
    that the ordinary Go cache has for the action. *)
Theorem local_cache_integrity `{GoRuntime} c es d io a res :
  rooted c es → reachable c d → get c d io a = inr res → cpMiss res = false →
  genuine d res ∨ (lbStockDir c ≠ "" ∧ readStockGoCache d io (lbStockDir c) (EncodeToString a) = Some res).
Proof using Type.
  intros Hc Hd Hg Hm. destruct (reachable_ok c es d Hc Hd) as [Hobj Hidx]. revert Hg. unfold get.
  destruct (validCacheHex (EncodeToString a)) eqn:Hv; simpl negb; cbv iota; [|by intros [= <-]].
  apply validCacheHex_Encode in Hv. set (fb := match (if bool_decide (lbStockDir c = "") then None else _) with Some r => _ | None => _ end).
  assert (Hfb : fb = inr res → lbStockDir c ≠ "" ∧ readStockGoCache d io (lbStockDir c) (EncodeToString a) = Some res).
  { unfold fb. case_bool_decide; [by intros [= <-]|]. destruct (readStockGoCache _ _ _ _) eqn:E; [|by intros [= <-]]. by intros [= ->]. }
  unfold readFile. destruct (liRead io _) as [[]|]; [by right; apply Hfb|done|].
  destruct (fileAt d _ _) as [[data|]|] eqn:Hat; [|done|by right; apply Hfb].
  destruct (fromIndex c d io data) as [r|] eqn:Hf; [|by right; apply Hfb].
  intros [= ->]. left. eapply fromIndex_genuine; [done| |done]. by apply (Hidx a).
Qed.

(** A put of a body under its own hash, without faults, is answered with the
    path of the object, which then holds the body; the next get of the action
    is a hit that announces that output, with the size of the body and the time
    of the object. *)
Theorem local_put_get c es d io io' a body :
  let o := Sum256 body in
  let path := outputPath c (EncodeToString o) in
  rooted c es → strlen a = 32 → faultFree (liObject io) → faultFree (liIndex io) → temporary (liObject io) → temporary (liIndex io) →
  (∀ p, liRead io p = None ∧ liStat io p = None ∧ liRead io' p = None ∧ liStat io' p = None) →
  exactIndex (LocalCacheIndex 1 (EncodeToString o) (strlen body) (liModTime io)) →
  ∃ d', put c d io a o (strlen body) body = (Ok path, d') ∧
  fileAt d' (Dir path) (Base path) = Some (Regular body) ∧
  get c d' io' a = inr (zeroResponse <| cpOutputID := o |> <| cpSize := strlen body |> <| cpTime := Some (liModTime io) |> <| DiskPath := path |>).
Proof using Type.
  intros o path Hc Ha Hf1 Hf2 Ht1 Ht2 Hio Hex. assert (Ho : strlen o = 32) by apply strlen_Sum256.
  unfold put. rewrite (proj2 (validCacheHex_Encode a) Ha), (proj2 (validCacheHex_Encode o) Ho), Ho, Z.eqb_refl.
  rewrite bool_decide_true by done. simpl negb. simpl orb. cbv iota. fold path.
  destruct (outputPath_at c es o Hc Ho) as [_ Hb1], (actionPath_at c es a Hc Ha) as [_ Hb2].
  pose proof (hex_not_temporary _ o "" Ht1 Ho) as Hn1. rewrite append_empty_r in Hn1.
  pose proof (hex_not_temporary _ a ".json" Ht2 Ha) as Hn2. pose proof (object_not_action c es o a Hc Ho Ha) as Hdis.
  destruct (writeCacheFile (liObject io) _ _ path body d) as [err d1] eqn:Hw1.
  pose proof (writeCacheFile_faultFree _ (liRead io) (liObjectReread io) path body d Hf1) as E1. rewrite Hw1 in E1. simpl in E1. subst err.
  destruct (writeCacheFile_spec _ _ _ _ _ _ _ _ Hw1 ltac:(unfold path; by rewrite Hb1)) as (_ & _ & Hat1).
  rewrite (proj1 (proj2 (Hio path))). cbv zeta.
  set (idx := MarshalIndex _ +:+ newline). set (apath := actionPath c (EncodeToString a)) in *.
  destruct (writeCacheFile (liIndex io) _ _ apath idx d1) as [err d2] eqn:Hw2.
  pose proof (writeCacheFile_faultFree _ (liRead io) (liIndexReread io) apath idx d1 Hf2) as E2. rewrite Hw2 in E2. simpl in E2. subst err.
  destruct (writeCacheFile_spec _ _ _ _ _ _ _ _ Hw2 ltac:(by rewrite Hb2)) as (_ & Hrest & Hat2).
  exists d2. split; [by rewrite Z.eqb_refl|]. 
  assert (Hobj : fileAt d2 (Dir path) (Base path) = Some (Regular body)).
  { fold path in Hdis. rewrite Hrest by congruence. apply Hat1; [done|apply Hf1|apply Hio]. }
  split; [done|]. unfold get. rewrite (proj2 (validCacheHex_Encode a) Ha). simpl negb. cbv iota zeta.
  unfold readFile. fold apath. rewrite (proj1 (proj2 (proj2 (Hio apath)))), Hat2 by (try apply Hf2; try done; apply Hio).
  unfold fromIndex, idx. rewrite Unmarshal_MarshalIndex by done. cbn [mbind option_bind lciVersion lciOutputID lciSize lciTimeNanos].
  rewrite (proj2 (validCacheHex_Encode o) Ho). simpl orb. cbv iota. fold path. unfold regularOfSize.
  rewrite (proj2 (proj2 (proj2 (Hio path)))), Hobj, Z.eqb_refl. simpl negb. cbv iota. by rewrite Decode_Encode.
Qed.

Lemma local_respond `{GoRuntime} c d io req body :
  match respond c d io req body with None => True | Some (res, _) => cpID res = crID req end.
Proof using Type.
  unfold respond. case_bool_decide; [by destruct (get _ _ _ _)|]. case_bool_decide; [|done]. by destruct (put _ _ _ _ _ _ _) as [[]].
Qed.

(** A request is answered under its own ID, whatever fails, and only a put
    changes the directory.  The process dies instead exactly when the index of
    the action of a get cannot be read for a reason other than that it is not
    there: the response of [get] is nil then. *)
Theorem local_respond_errors `{GoRuntime} c d io req body :
  match respond c d io req body with
  | None => crCommand req = cacheProgGet ∧ strlen (crActionID req) = 32 ∧
            ∃ msg, readFile d (liRead io) (actionPath c (EncodeToString (crActionID req))) = inl (IOError msg)
  | Some (res, d') =>
      cpID res = crID req ∧ (crCommand req ≠ cacheProgPut → d' = d) ∧
      (crCommand req ≠ cacheProgGet → crCommand req ≠ cacheProgPut → cpErr res ≠ "") ∧
      (crCommand req = cacheProgGet → ∀ msg,
         strlen (crActionID req) = 32 → readFile d (liRead io) (actionPath c (EncodeToString (crActionID req))) ≠ inl (IOError msg))
  end.
Proof using Type.
  unfold respond. case_bool_decide as Hg.
  - unfold get. destruct (validCacheHex _) eqn:Hv; simpl negb; cbv iota zeta.
    + apply validCacheHex_Encode in Hv.
      destruct (readFile d (liRead io) _) as [[|msg]|data]; [| |destruct (fromIndex c d io data)];
        [| by split_and!; [| |eexists]|by split_and!|]; destruct (if bool_decide (lbStockDir c = "") then _ else _); by split_and!.
    + split_and!; try done. intros _ msg Hl. apply validCacheHex_Encode in Hl. congruence.
  - case_bool_decide as Hp; [|by split_and!]. destruct (put _ _ _ _ _ _ _) as [[]]; by split_and!.
Qed.

Lemma respondAll_ids `{GoRuntime} c d work out d' :
  respondAll c d work = Some (out, d') → cpID <$> out = (λ w, crID w.2.1) <$> work.
Proof using Type.
  revert d out d'. induction work as [|[io [req body]] work IH]; intros d out d'; simpl; [by intros [= <- <-]|].
  pose proof (local_respond c d io req body) as Hr. destruct (respond c d io req body) as [[res d1]|]; [|done]. cbn [mbind option_bind].
  destruct (respondAll c d1 work) as [[out1 d2]|] eqn:E; [|done]. cbn [mbind option_bind]. intros [= <- <-].
  rewrite fmap_cons, (IH _ _ _ E). by rewrite Hr.
Qed.

Lemma acceptRequests_ids inputs last started ending :
  acceptRequests inputs last = (started, Ok ending) →
  ∃ rest, crID <$> inputs.*1 = (crID <$> started.*1) ++ option_list ending ++ rest ∧ (ending = None → rest = []).
Proof using Type.
  revert started. induction inputs as [|[req body] inputs IH]; intros started; simpl.
  { destruct last; [done|]. intros [= <- <-]. by exists []. }
  assert (Hn : crID (normalizeRequest req) = crID req) by (unfold normalizeRequest; by destruct (_ && _)).
  destruct (readBody _ body); [|done]. case_bool_decide.
  { intros [= <- <-]. exists (crID <$> inputs.*1). by rewrite Hn. }
  destruct (acceptRequests inputs last) as [st en]. intros [= <- ->]. destruct (IH st eq_refl) as (rest & E & Hrest).
  exists rest. split; [|done]. cbn [fmap list_fmap fst app]. f_equal; [done|]. exact E.
Qed.

(** Every request that is read up to the close request is answered once, in
    whatever order they are done, and the close request last of all. *)
Theorem local_serve_answers `{GoRuntime} c d inputs last work started ending out err d' :
  acceptRequests inputs last = (started, Ok ending) → work.*2 ≡ₚ started →
  serve c d inputs last work = Some (out, err, d') →
  err = None ∧ ∃ answered rest, cpID <$> out = 0 :: answered ++ option_list ending ∧
  answered ≡ₚ crID <$> started.*1 ∧ crID <$> inputs.*1 = (crID <$> started.*1) ++ option_list ending ++ rest.
Proof using Type.
  intros Ha Hp. unfold serve. rewrite Ha. destruct (respondAll c d work) as [[answers d1]|] eqn:E; [|done]. cbn [mbind option_bind snd].
  destruct (acceptRequests_ids _ _ _ _ Ha) as (rest & Hin & _).
  assert (Hans : (cpID <$> answers) ≡ₚ crID <$> started.*1).
  { rewrite (respondAll_ids _ _ _ _ _ E). rewrite <- Hp, <- !list_fmap_compose. done. }
  destruct ending as [id|]; intros [= <- <- <-]; (split; [done|]); exists (cpID <$> answers), rest; split_and!; try done.
  - by rewrite fmap_cons, fmap_app.
  - by rewrite fmap_cons, app_nil_r.
Qed.
End facts.

(** ** Witnesses *)

#[local] Existing Instance testRuntime.

Definition exCache : localBuildCache := LocalBuildCache "/c" "".
Definition exBody : string := "object".
Definition exAction : string := Sum256 "action".
Definition exIO : localIO :=
  LocalIO (λ _, None) (λ _, None) 99 (noFaults ".gotst-cache-1") (inl NotExist) (noFaults ".gotst-cache-2") (inl NotExist).
Definition exIndex : localCacheIndex := LocalCacheIndex 1 (EncodeToString (Sum256 exBody)) 6 99.

Definition exIndexCodec : IndexCodec.
Proof.
  refine {| exactIndex := λ i, i = exIndex;
            UnmarshalIndex := λ s, if String.eqb s (MarshalIndex exIndex +:+ newline) then Some exIndex else None |}.
  intros i ->. by rewrite String.eqb_refl.
Defined.

#[local] Existing Instance exIndexCodec.

Definition exPut : cacheProgRequest := CacheRequest 1 cacheProgPut exAction (Sum256 exBody) "" 6.
Definition exDisk : disk := (put exCache ∅ exIO exAction (Sum256 exBody) 6 exBody).2.
Definition exHit : cacheProgResponse :=
  zeroResponse <| cpOutputID := Sum256 exBody |> <| cpSize := 6 |> <| cpTime := Some 99 |>
    <| DiskPath := outputPath exCache (EncodeToString (Sum256 exBody)) |>.

Lemma exCache_rooted : rooted exCache ["c"].
Proof. split; [done| |done]. apply Forall_singleton. done. Qed.

Lemma local_cache_integrity_witness : get exCache exDisk exIO exAction = inr exHit ∧ (genuine exDisk exHit ∨ "" ≠ "" ∧ readStockGoCache exDisk exIO "" (EncodeToString exAction) = Some exHit).
Proof.
  assert (Hget : get exCache exDisk exIO exAction = inr exHit) by (vm_compute; reflexivity).
  split; [exact Hget|]. apply (local_cache_integrity exCache ["c"] exDisk exIO exAction exHit); [exact exCache_rooted| |exact Hget|reflexivity].
  apply (reachable_request exCache ∅ exIO exPut exBody
    (zeroResponse <| cpID := 1 |> <| DiskPath := outputPath exCache (EncodeToString (Sum256 exBody)) |>)).
  - constructor.
  - reflexivity.
  - reflexivity.
  - reflexivity.
  - vm_cast_no_check (eq_refl (Some (zeroResponse <| cpID := 1 |> <| DiskPath := outputPath exCache (EncodeToString (Sum256 exBody)) |>, exDisk))).
Defined.

Lemma local_put_get_witness : ∃ d', put exCache ∅ exIO exAction (Sum256 exBody) 6 exBody = (Ok (DiskPath exHit), d') ∧
  fileAt d' (Dir (DiskPath exHit)) (Base (DiskPath exHit)) = Some (Regular exBody) ∧ get exCache d' exIO exAction = inr exHit.
Proof.
  apply (local_put_get exCache ["c"] ∅ exIO exIO exAction exBody); [exact exCache_rooted|apply strlen_Sum256|by split|by split|reflexivity|reflexivity| |reflexivity].
  intros p. by split_and!.
Defined.

Definition exGet : cacheProgRequest := CacheRequest 2 cacheProgGet exAction "" "" 0.
Definition exClose : cacheProgRequest := CacheRequest 3 cacheProgClose "" "" "" 0.

Lemma local_serve_answers_witness :
  ∃ out d', serve exCache ∅ [(exPut, Ok exBody); (exGet, Ok ""); (exClose, Ok "")] None [(exIO, (exGet, "")); (exIO, (exPut, exBody))] = Some (out, None, d') ∧
  cpID <$> out = [0; 2; 1; 3] ∧ ∃ answered rest, cpID <$> out = 0 :: answered ++ option_list (Some 3) ∧
  answered ≡ₚ [1; 2] ∧ [1; 2; 3] = [1; 2] ++ option_list (Some 3) ++ rest.
Proof.
  set (inputs := [(exPut, Ok exBody); (exGet, Ok ""); (exClose, Ok "")]). set (work := [(exIO, (exGet, "")); (exIO, (exPut, exBody))]).
  assert (Hids : match serve exCache ∅ inputs None work with Some (out, None, _) => cpID <$> out = [0; 2; 1; 3] | _ => False end) by (vm_compute; reflexivity).
  destruct (serve exCache ∅ inputs None work) as [[[out [|]] d']|] eqn:Hs; [destruct Hids| |destruct Hids]. exists out, d'. split_and!; [done|done|].
  apply (local_serve_answers exCache ∅ inputs None work [(exPut, exBody); (exGet, "")] (Some 3) out None d'); [vm_compute; reflexivity| |done].
  apply perm_swap.
Defined.
