(* ===== verification/CacheClient.v ===== *)
(** * The client of a cache program (cacheprog.go, [cacheProgClient])

    Calls of [send] share one connection: each registers the ID of its request
    in [pending], writes the request and waits on its own channel, and
    [readLoop] hands every response to the call that waits for its ID.  The
    state holds the calls ever made, by number; an event is a step of a call or
    of [readLoop]. *)

From S2P Require Import Prelude GoStrings Utf8 GoFmt Sha256 Quote CacheTypes.

(** ** Data *)

(** The channel of a call, of capacity one. *)
Inductive channel := Empty | Full (res : cacheProgResponse) | Closed.

(** Where a call of [send] is. *)
Inductive phase :=
  | Writing                                   (** holds or waits for [writeMu] *)
  | Waiting                                   (** in the select *)
  | Returned (r : result cacheProgResponse).

(** [clID] is the ID given to the request, if it got that far. *)
Record call := Call {
  clID : option Z;
  clPhase : phase;
  clChan : channel
}.

#[export] Instance eta_call : Eta call := λ c, Call (clID c) (clPhase c) (clChan c).

(** Where [readLoop] is; between taking a call out of [pending] and sending on
    its channel, it has released the mutex. *)
Inductive reader := Reading | Delivering (t : nat) (res : cacheProgResponse) | Stopped.

(** What has been put on the connection: requests, and the bodies of puts with
    their closing quote, if they got it. *)
Inductive item := Request (id : Z) | OpenBody (data : string) | CloseBody.

Record cacheProgClient := Client {
  can : list string;
  nextID : Z;
  pending : gmap Z nat;
  readErr : option error;
  clCalls : list call;
  clReader : reader;
  clWire : list item
}.

#[export] Instance eta_client : Eta cacheProgClient := λ c,
  Client (can c) (nextID c) (pending c) (readErr c) (clCalls c) (clReader c) (clWire c).

(** [startCacheProgClient], once the program has been started: from what it
    declares, or the error of reading that. *)
Definition startCacheProgClient (hello : result cacheProgResponse) : result cacheProgClient :=
  match hello with
  | Err e => Err (EWrap "reading GOCACHEPROG capabilities: " e)
  | Ok hello =>
      if bool_decide (KnownCommands hello = []) then Err (EMsg "GOCACHEPROG declared no supported commands")
      else Ok (Client (KnownCommands hello) 0 ∅ None [] Reading [])
  end.

Inductive event :=
  | ESend (req : cacheProgRequest)            (** a call of [send] up to the registration *)
  | EWrite (t : nat) (encErr : option error) (size : Z) (body : option (result string)) (flushErr : option error)
  | EWake (t : nat)                           (** the select receives *)
  | ECancel (t : nat) (err : error)           (** the select sees the context end *)
  | ERead (r : result cacheProgResponse)      (** [readLoop] decodes, up to [mu.Unlock] *)
  | EDeliver.                                 (** [readLoop] sends on the channel *)

Definition supports (c : cacheProgClient) (command : string) : bool := bool_decide (command ∈ can c).

(** The request and its body on the connection: the error, and what was put there. *)
Definition writeRequest (id : Z) (encErr : option error) (size : Z) (body : option (result string)) (flushErr : option error)
    : option error * list item :=
  match encErr with
  | Some e => (Some e, [])
  | None =>
      if 0 <? size then
        match body with
        | None => (Some (EMsg "cache put has size but no body"), [Request id])
        | Some (Err e) => (Some e, [Request id; OpenBody ""])
        | Some (Ok data) =>
            if negb (strlen data =? size) then
              (Some (EMsg ("cache put copied " +:+ itoa (strlen data) +:+ " bytes; want " +:+ itoa size)),
               [Request id; OpenBody data])
            else (flushErr, [Request id; OpenBody data; CloseBody])
        end
      else (flushErr, [Request id])
  end.

Definition setCall (c : cacheProgClient) (t : nat) (f : call → call) : cacheProgClient := c <| clCalls ::= alter f t |>.

Definition addCall (c : cacheProgClient) (k : call) : cacheProgClient := c <| clCalls ::= λ l, l ++ [k] |>.

Definition return_ (r : result cacheProgResponse) (k : call) : call := k <| clPhase := Returned r |>.

Section steps.
Context `{GoRuntime}.

(** [send] up to the registration *)
Definition sendStart (c : cacheProgClient) (req : cacheProgRequest) : cacheProgClient :=
  if negb (supports c (crCommand req)) then
    addCall c (Call None (Returned (Err (EMsg ("GOCACHEPROG does not support " +:+ Quote (crCommand req))))) Empty)
  else
    match readErr c with
    | Some e => addCall c (Call None (Returned (Err e)) Empty)
    | None =>
        let id := i64 (nextID c + 1) in
        (addCall c (Call (Some id) Writing Empty)) <| nextID := id |> <| pending ::= <[id := length (clCalls c)]> |>
    end.

Definition sendWrite (c : cacheProgClient) (t : nat) (id : Z) (encErr : option error) (size : Z)
    (body : option (result string)) (flushErr : option error) : cacheProgClient :=
  let '(err, items) := writeRequest id encErr size body flushErr in
  let c := c <| clWire ::= λ w, w ++ items |> in
  match err with
  | Some e => (setCall c t (return_ (Err e))) <| pending ::= delete id |>
  | None => setCall c t (λ k, k <| clPhase := Waiting |>)
  end.

(** What a receive on the channel makes of a response. *)
Definition received (res : cacheProgResponse) : result cacheProgResponse :=
  if bool_decide (cpErr res = "") then Ok res else Err (EMsg (cpErr res)).

(** The select receives; a channel is closed only after [readErr] is set. *)
Definition sendWake (c : cacheProgClient) (t : nat) (ch : channel) : option cacheProgClient :=
  match ch with
  | Empty => None
  | Full res => Some (setCall c t (λ k, (return_ (received res) k) <| clChan := Empty |>))
  | Closed => Some (setCall c t (return_ (match readErr c with Some e => Err e | None => Ok zeroResponse end)))
  end.

(** The iteration of [readLoop] up to [mu.Unlock]. *)
Definition readNext (c : cacheProgClient) (r : result cacheProgResponse) : cacheProgClient :=
  match r with
  | Err e =>
      c <| readErr := Some e |> <| clReader := Stopped |> <| pending := ∅ |>
        <| clCalls ::= imap (λ t k, if bool_decide (t ∈ (map_to_list (pending c)).*2) then k <| clChan := Closed |> else k) |>
  | Ok res =>
      let c' := c <| pending ::= delete (cpID res) |> in
      match pending c !! cpID res with
      | Some t => c' <| clReader := Delivering t res |>
      | None => c'
      end
  end.

Definition step (c : cacheProgClient) (e : event) : option cacheProgClient :=
  match e with
  | ESend req => Some (sendStart c req)
  | EWrite t encErr size body flushErr =>
      match clCalls c !! t with
      | Some (Call (Some id) Writing _) => Some (sendWrite c t id encErr size body flushErr)
      | _ => None
      end
  | EWake t =>
      match clCalls c !! t with
      | Some (Call _ Waiting ch) => sendWake c t ch
      | _ => None
      end
  | ECancel t err =>
      match clCalls c !! t with
      | Some (Call _ Waiting _) => Some (setCall c t (return_ (Err err)))
      | _ => None
      end
  | ERead r => match clReader c with Reading => Some (readNext c r) | _ => None end
  | EDeliver =>
      match clReader c with
      | Delivering t res =>
          k ← clCalls c !! t;
          match clChan k with
          | Empty => Some ((setCall c t (λ k, k <| clChan := Full res |>)) <| clReader := Reading |>)
          | _ => None
          end
      | _ => None
      end
  end.

Inductive reachable_client (hello : cacheProgResponse) : cacheProgClient → Prop :=
  | client_start c : startCacheProgClient (Ok hello) = Ok c → reachable_client hello c
  | client_step c e c' : reachable_client hello c → step c e = Some c' → reachable_client hello c'.
End steps.
