(* ===== verification/CacheClientFacts.v ===== *)
(** * What the client of a cache program guarantees *)

From S2P Require Import Prelude GoStrings Utf8 GoFmt Sha256 Quote CacheTypes CacheClient.

(** ** The invariant *)

(** Fewer calls than there are request IDs. *)
Definition few (c : cacheProgClient) : Prop := Z.of_nat (length (clCalls c)) < 2 ^ 63.

Definition delivering (c : cacheProgClient) (t : nat) : Prop := ∃ res, clReader c = Delivering t res.

Record client_ok (c : cacheProgClient) : Prop := {
  co_next : 0 ≤ nextID c ≤ Z.of_nat (length (clCalls c));
  co_ids : ∀ t k i, clCalls c !! t = Some k → clID k = Some i → 1 ≤ i ≤ nextID c;
  co_unique : ∀ t t' k k' i, clCalls c !! t = Some k → clCalls c !! t' = Some k' → clID k = Some i → clID k' = Some i → t = t';
  co_pending : ∀ i t, pending c !! i = Some t → ∃ k, clCalls c !! t = Some k ∧ clID k = Some i ∧ clChan k = Empty ∧ ¬ delivering c t;
  co_delivering : ∀ t res, clReader c = Delivering t res → ∃ k, clCalls c !! t = Some k ∧ clID k = Some (cpID res) ∧ clChan k = Empty;
  co_full : ∀ t k res, clCalls c !! t = Some k → clChan k = Full res → clID k = Some (cpID res);
  co_returned : ∀ t k res, clCalls c !! t = Some k → clPhase k = Returned (Ok res) → clID k = Some (cpID res) ∧ cpErr res = "";
  co_waiting : ∀ t k, clCalls c !! t = Some k → clPhase k = Waiting ∨ clPhase k = Writing →
    ∃ i, clID k = Some i ∧ (clChan k = Empty → pending c !! i = Some t ∨ delivering c t);
  co_stopped : clReader c = Stopped → is_Some (readErr c) ∧ pending c = ∅;
  co_closed : ∀ t k, clCalls c !! t = Some k → clChan k = Closed → is_Some (readErr c)
}.

Lemma lookup_snoc_Some {A} (l : list A) x t y : (l ++ [x]) !! t = Some y → l !! t = Some y ∨ (t = length l ∧ y = x).
Proof.
  rewrite lookup_app_Some. intros [|[Hl Hx]]; [by left|right]. apply list_lookup_singleton_Some in Hx as [Ht ->]. split; [lia|done].
Qed.

Lemma lookup_setCall c t f t' k' :
  clCalls (setCall c t f) !! t' = Some k' →
  ∃ k, clCalls c !! t' = Some k ∧ k' = (if bool_decide (t = t') then f k else k).
Proof.
  simpl. case_bool_decide as Ht.
  - subst t'. rewrite list_lookup_alter_eq, fmap_Some. intros (k & Hk & ->). eauto.
  - rewrite list_lookup_alter_ne by done. eauto.
Qed.

Lemma lookup_setCall_ne c t f t' : t ≠ t' → clCalls (setCall c t f) !! t' = clCalls c !! t'.
Proof. intros. simpl. by rewrite list_lookup_alter_ne. Qed.

Lemma length_setCall c t f : length (clCalls (setCall c t f)) = length (clCalls c).
Proof. apply length_alter. Qed.

(** A call changes its phase, and may take what is in its channel; its request
    leaves [pending] only with it. *)
Lemma setCall_ok c t f k ph ch pend :
  client_ok c → clCalls c !! t = Some k → f k = Call (clID k) ph ch →
  (∀ res, ph = Returned (Ok res) → clID k = Some (cpID res) ∧ cpErr res = "") →
  (ph = Waiting ∨ ph = Writing → clPhase k = Waiting ∨ clPhase k = Writing) →
  (ch = clChan k ∨ (ch = Empty ∧ clChan k ≠ Empty ∧ ∃ r, ph = Returned r)) →
  (pend = pending c ∨ ∃ i, clID k = Some i ∧ pend = delete i (pending c) ∧ ∃ r, ph = Returned r) →
  client_ok ((setCall c t f) <| pending := pend |>).
Proof.
  intros [Hn Hids Hu Hp Hd Hf Hr Hw Hs Hc] Hk Hfk Hph Hww Hch Hpend.
  assert (Hsub : ∀ i t', pend !! i = Some t' → pending c !! i = Some t').
  { intros i t' Hi. destruct Hpend as [->|(j & _ & -> & _)]; [done|]. by apply lookup_delete_Some in Hi as [_ Hi]. }
  assert (Hcall : ∀ t' k', clCalls (setCall c t f) !! t' = Some k' →
    ∃ k0, clCalls c !! t' = Some k0 ∧ clID k' = clID k0 ∧
      ((t' ≠ t ∧ k' = k0) ∨ (t' = t ∧ k0 = k ∧ clPhase k' = ph ∧ clChan k' = ch))).
  { intros t' k' Hk'. apply lookup_setCall in Hk' as (k0 & Hk0 & ->). exists k0. case_bool_decide; [|by auto].
    subst t'. assert (k0 = k) as -> by congruence. rewrite Hfk. by split_and!; [| |right]. }
  assert (Hkeep : ∀ k0, clCalls c !! t = Some k0 → clChan k0 = Empty → ch = Empty).
  { intros k0 Hk0 He. destruct Hch as [->|(-> & ? & _)]; congruence. }
  split; cbn [pending nextID clReader readErr].
  - simpl. by rewrite length_alter.
  - intros t' k' i Hk'. destruct (Hcall _ _ Hk') as (k0 & Hk0 & -> & _). by apply (Hids t').
  - intros t1 t2 k1 k2 i H1 H2. destruct (Hcall _ _ H1) as (k1' & H1' & -> & _), (Hcall _ _ H2) as (k2' & H2' & -> & _).
    by apply (Hu t1 t2 k1' k2').
  - intros i t' Hi. destruct (Hp i t' (Hsub _ _ Hi)) as (k0 & Hk0 & Hi0 & He & Hnd). destruct (decide (t' = t)) as [->|Ht].
    + exists (f k). rewrite Hfk. replace k0 with k in * by congruence. simpl.
      rewrite list_lookup_alter_eq, Hk. simpl; rewrite Hfk; split_and!; [done|done|by apply (Hkeep k)|done].
    + exists k0. simpl. rewrite list_lookup_alter_ne by done. by split_and!.
  - intros t' res Hdel. destruct (Hd t' res Hdel) as (k0 & Hk0 & Hi0 & He). destruct (decide (t' = t)) as [->|Ht].
    + exists (f k). rewrite Hfk. replace k0 with k in * by congruence. simpl.
      rewrite list_lookup_alter_eq, Hk. simpl; rewrite Hfk; split_and!; [done|done|by apply (Hkeep k)].
    + exists k0. simpl. rewrite list_lookup_alter_ne by done. by split_and!.
  - intros t' k' res Hk'. destruct (Hcall _ _ Hk') as (k0 & Hk0 & -> & [[_ ->]|(-> & -> & _ & ->)]); [by apply (Hf t')|].
    destruct Hch as [->|(-> & _)]; [by apply (Hf t)|done].
  - intros t' k' res Hk'. destruct (Hcall _ _ Hk') as (k0 & Hk0 & -> & [[_ ->]|(-> & -> & -> & _)]); [by apply (Hr t')|]. by apply Hph.
  - intros t' k' Hk' Hww'. destruct (Hcall _ _ Hk') as (k0 & Hk0 & -> & [[Ht ->]|(-> & -> & Ep & Ec)]).
    + destruct (Hw t' k0 Hk0 Hww') as (i & Hi & Hin). exists i. split; [done|]. intros He. destruct (Hin He) as [Hpi|?]; [|by right].
      left. destruct Hpend as [->|(j & Hj & -> & _)]; [done|]. simpl. rewrite lookup_delete_ne; [done|]. intros ->. by apply Ht, (Hu t' t k0 k i).
    + rewrite Ep in Hww'. destruct (Hw t k Hk (Hww Hww')) as (i & Hi & Hin). exists i. split; [done|]. rewrite Ec.
      destruct Hch as [->|(_ & _ & r & ->)]; [|by destruct Hww'].
      destruct Hpend as [->|(j & _ & _ & r & ->)]; [done|by destruct Hww'].
  - intros Hst. destruct (Hs Hst) as [HrE Hpe]. split; [done|]. destruct Hpend as [->|(j & _ & -> & _)]; [done|]. by rewrite Hpe, delete_empty.
  - intros t' k' Hk'. destruct (Hcall _ _ Hk') as (k0 & Hk0 & _ & [[_ ->]|(-> & -> & _ & ->)]); [by apply (Hc t')|].
    destruct Hch as [->|(-> & _)]; [by apply (Hc t)|done].
Qed.

Lemma client_ok_wire c w : client_ok c → client_ok (c <| clWire := w |>).
Proof. intros []. by split. Qed.

Section facts.
Context `{GoRuntime}.

Lemma sendWrite_ok c t id ch encErr size body flushErr :
  client_ok c → clCalls c !! t = Some (Call (Some id) Writing ch) → client_ok (sendWrite c t id encErr size body flushErr).
Proof using Type.
  intros Hc Hk. unfold sendWrite. destruct (writeRequest _ _ _ _ _) as [[e|] items];
    pose proof (client_ok_wire c (clWire c ++ items) Hc : client_ok (c <| clWire ::= λ w, w ++ items |>)) as Hc'; set (cw := c <| clWire ::= _ |>) in *.
  - apply (setCall_ok cw t _ _ (Returned (Err e)) ch (delete id (pending cw)) Hc' Hk); [done|done| |by left|].
    + by intros [|].
    + right. exists id. by split_and!; [| |eexists].
  - apply (setCall_ok cw t _ _ Waiting ch (pending cw) Hc' Hk); [done|done|by right|by left|by left].
Qed.

Lemma sendWake_ok c t i ch c' :
  client_ok c → clCalls c !! t = Some (Call i Waiting ch) → sendWake c t ch = Some c' → client_ok c'.
Proof using Type.
  intros Hc Hk. unfold sendWake. destruct ch as [|res|]; [done| |]; intros [= <-].
  - apply (setCall_ok c t _ _ (Returned (received res)) Empty (pending c) Hc Hk); [done| |by intros [|]|right; by split_and!; [| |eexists]|by left].
    unfold received. intros r. case_bool_decide; [|done]. intros [= <-]. by rewrite (co_full c Hc t _ res Hk).
  - destruct (co_closed c Hc t _ Hk eq_refl) as [e He]. rewrite He.
    apply (setCall_ok c t _ _ (Returned (Err e)) Closed (pending c) Hc Hk); [done|done|by intros [|]|by left|by left].
Qed.

Lemma sendCancel_ok c t i ch e :
  client_ok c → clCalls c !! t = Some (Call i Waiting ch) → client_ok (setCall c t (return_ (Err e))).
Proof using Type.
  intros Hc Hk. apply (setCall_ok c t _ _ (Returned (Err e)) ch (pending c) Hc Hk); [done|done|by intros [|]|by left|by left].
Qed.

Lemma sendStart_ok c req : client_ok c → few (sendStart c req) → client_ok (sendStart c req).
Proof using Type.
  intros Hc. destruct Hc as [Hn Hids Hu Hp Hd Hf Hr Hw Hs Hcl]. unfold sendStart, few.
  assert (Hnew : ∀ e, client_ok (addCall c (Call None (Returned (Err e)) Empty))).
  { intros e. split; simpl; try done; intros *.
    - rewrite length_app. simpl. lia.
    - intros [Hk|[_ ->]]%lookup_snoc_Some; [by eapply Hids|done].
    - intros [Hk|[_ ->]]%lookup_snoc_Some; [|done]. intros [Hk'|[_ ->]]%lookup_snoc_Some; [by eapply Hu|done].
    - intros Hi. destruct (Hp _ _ Hi) as (k & Hk & ?). exists k. split; [|done]. by apply lookup_app_l_Some.
    - intros Hdel. destruct (Hd _ _ Hdel) as (k & Hk & ?). exists k. split; [|done]. by apply lookup_app_l_Some.
    - intros [Hk|[_ ->]]%lookup_snoc_Some; [by eapply Hf|done].
    - intros [Hk|[_ ->]]%lookup_snoc_Some; [by eapply Hr|done].
    - intros [Hk|[_ ->]]%lookup_snoc_Some; [by eapply Hw|by intros [|]].
    - intros [Hk|[_ ->]]%lookup_snoc_Some; [by eapply Hcl|done]. }
  destruct (negb _); [intros _; apply Hnew|]. destruct (readErr c) as [e|] eqn:He; [intros _; apply Hnew|].
  intros Hfew. simpl in Hfew. rewrite length_app in Hfew. simpl in Hfew.
  set (id := i64 (nextID c + 1)). assert (Hid : id = nextID c + 1) by (apply i64_id; unfold in_int64, int64_min, int64_max; lia).
  assert (Hfresh : ∀ t k, clCalls c !! t = Some k → clID k ≠ Some id).
  { intros t k Hk Hi. pose proof (Hids t k id Hk Hi). lia. }
  clearbody id. split; simpl; try done; intros *.
  - rewrite length_app. simpl. lia.
  - intros [Hk|[_ ->]]%lookup_snoc_Some Hi; [pose proof (Hids _ _ _ Hk Hi); lia|]. simpl in Hi. injection Hi as <-. lia.
  - intros [Hk|[-> ->]]%lookup_snoc_Some [Hk'|[-> ->]]%lookup_snoc_Some Hi Hi'; simpl in Hi, Hi'; [by eapply Hu| | |done].
    + by destruct (Hfresh _ _ Hk); congruence.
    + by destruct (Hfresh _ _ Hk'); congruence.
  - rewrite lookup_insert_Some. intros [[<- <-]|[_ Hi]].
    + eexists. split; [by apply list_lookup_middle|]. split_and!; [done|done|]. intros [res Hdel].
      destruct (Hd _ _ Hdel) as (k & Hk & _). apply lookup_lt_Some in Hk. simpl in *. lia.
    + destruct (Hp _ _ Hi) as (k & Hk & ?). exists k. split; [|done]. by apply lookup_app_l_Some.
  - intros Hdel. destruct (Hd _ _ Hdel) as (k & Hk & ?). exists k. split; [|done]. by apply lookup_app_l_Some.
  - intros [Hk|[_ ->]]%lookup_snoc_Some; [by eapply Hf|done].
  - intros [Hk|[_ ->]]%lookup_snoc_Some; [by eapply Hr|done].
  - intros [Hk|[-> ->]]%lookup_snoc_Some Hww.
    + destruct (Hw _ _ Hk Hww) as (i & Hi & Hin). exists i. split; [done|]. intros Hem. destruct (Hin Hem) as [Hpi|]; [left|by right].
      rewrite lookup_insert_ne; [done|]. intros ->. by destruct (Hfresh _ _ Hk).
    + exists id. split; [done|]. intros _. left. by rewrite lookup_insert_eq.
  - intros Hst. destruct (Hs Hst) as [[e Hse] _]. congruence.
  - intros [Hk|[_ ->]]%lookup_snoc_Some; [|done]. intros Hcc. destruct (Hcl _ _ Hk Hcc). congruence.
Qed.

Lemma readNext_ok c r : client_ok c → clReader c = Reading → client_ok (readNext c r).
Proof using Type.
  intros [Hn Hids Hu Hp Hd Hf Hr Hw Hs Hcl] Hrd. destruct r as [res|e]; simpl.
  - destruct (pending c !! cpID res) as [t|] eqn:Ht.
    + split; simpl; try done.
      * intros i t' [Hne Hi]%lookup_delete_Some. destruct (Hp i t' Hi) as (k & Hk & Hki & He & Hnd). exists k. split_and!; try done.
        intros [res' [= <- <-]]. destruct (Hp _ _ Ht) as (k' & Hk' & Hki' & _). congruence.
      * intros t' res' [= <- <-]. destruct (Hp _ _ Ht) as (k & Hk & Hki & He & _). eauto.
      * intros t' k Hk Hww. destruct (Hw t' k Hk Hww) as (i & Hi & Hin). exists i. split; [done|]. intros He.
        destruct (Hin He) as [Hpi|[x Hdel]]; [|congruence]. destruct (decide (i = cpID res)) as [->|Hne].
        -- right. exists res. simpl. congruence.
        -- left. by rewrite lookup_delete_ne.
    + rewrite delete_id by done. by split.
  - assert (Hin : ∀ t, t ∈ (map_to_list (pending c)).*2 ↔ ∃ i, pending c !! i = Some t).
    { intros t. rewrite list_elem_of_fmap. split.
      - intros ([i t'] & -> & Hi%elem_of_map_to_list). eauto.
      - intros [i Hi]. exists (i, t). split; [done|]. by apply elem_of_map_to_list. }
    split; simpl; try done.
    + by rewrite length_imap.
    + intros t k i (k0 & Hk0 & ->)%list_lookup_imap_Some. case_bool_decide; simpl; by eapply Hids.
    + intros t t' k k' i (k0 & Hk0 & ->)%list_lookup_imap_Some (k0' & Hk0' & ->)%list_lookup_imap_Some Hi Hi'.
      eapply (Hu t t' k0 k0' i); [done|done| |]; by destruct (bool_decide (t ∈ _)), (bool_decide (t' ∈ _)).
    + intros t k res (k0 & Hk0 & ->)%list_lookup_imap_Some. case_bool_decide; simpl; [done|]. by eapply Hf.
    + intros t k res (k0 & Hk0 & ->)%list_lookup_imap_Some. case_bool_decide; simpl; by apply (Hr t).
    + intros t k (k0 & Hk0 & ->)%list_lookup_imap_Some Hww.
      destruct (Hw t k0 Hk0 ltac:(revert Hww; by case_bool_decide)) as (i & Hi & Hpi). exists i. case_bool_decide as Hb; simpl; [done|].
      split; [done|]. intros He. destruct (Hpi He) as [Hx|[x Hdel]]; [|congruence]. destruct Hb. apply Hin. eauto.
Qed.

Lemma deliver_ok c t k res :
  client_ok c → clReader c = Delivering t res → clCalls c !! t = Some k → clChan k = Empty →
  client_ok ((setCall c t (λ k, k <| clChan := Full res |>)) <| clReader := Reading |>).
Proof using Type.
  intros [Hn Hids Hu Hp Hd Hf Hr Hw Hs Hcl] Hrd Hk He. set (f := λ k : call, k <| clChan := Full res |>).
  destruct (Hd t res Hrd) as (kd & Hkd & Hkid & _). assert (kd = k) as -> by congruence. clear Hkd.
  assert (Hcall : ∀ t' k', clCalls (setCall c t f) !! t' = Some k' →
    ∃ k0, clCalls c !! t' = Some k0 ∧ clID k' = clID k0 ∧ clPhase k' = clPhase k0 ∧
      ((t' ≠ t ∧ k' = k0) ∨ (t' = t ∧ k0 = k ∧ clChan k' = Full res))).
  { intros t' k' Hk'. apply lookup_setCall in Hk' as (k0 & Hk0 & ->). exists k0. case_bool_decide; [|split_and!; [done|done|done|by left]].
    subst t'. split_and!; try done. right. split_and!; [done|congruence|done]. }
  split; simpl; try done.
  - by rewrite length_alter.
  - intros t' k' i Hk'. destruct (Hcall _ _ Hk') as (k0 & Hk0 & -> & _). by apply (Hids t').
  - intros t1 t2 k1 k2 i H1 H2. destruct (Hcall _ _ H1) as (k1' & H1' & -> & _), (Hcall _ _ H2) as (k2' & H2' & -> & _).
    by apply (Hu t1 t2 k1' k2').
  - intros i t' Hi. destruct (Hp i t' Hi) as (k0 & Hk0 & Hi0 & He0 & Hnd). exists k0.
    assert (t ≠ t') by (intros ->; apply Hnd; by eexists). rewrite list_lookup_alter_ne by done. split_and!; try done. by intros [? [=]].
  - intros t' k' res' Hk'. destruct (Hcall _ _ Hk') as (k0 & Hk0 & -> & _ & [[_ ->]|(-> & -> & ->)]); [by apply (Hf t')|]. by intros [= <-].
  - intros t' k' res' Hk'. destruct (Hcall _ _ Hk') as (k0 & Hk0 & -> & -> & _). by apply (Hr t').
  - intros t' k' Hk'. destruct (Hcall _ _ Hk') as (k0 & Hk0 & -> & -> & Hcase). intros Hww.
    destruct (Hw t' k0 Hk0 Hww) as (i & Hi & Hin). exists i. split; [done|]. destruct Hcase as [[Ht ->]|(_ & _ & ->)]; [|done].
    intros Hem. destruct (Hin Hem) as [?|[x Hdel]]; [by left|]. congruence.
  - intros t' k' Hk'. destruct (Hcall _ _ Hk') as (k0 & Hk0 & _ & _ & [[_ ->]|(-> & -> & ->)]); [by apply (Hcl t')|done].
Qed.

Lemma client_step_length c e c' : step c e = Some c' → (length (clCalls c) ≤ length (clCalls c'))%nat.
Proof using Type.
  destruct e as [req|t enc size body fl|t|t err|r|]; simpl.
  - intros [= <-]. unfold sendStart. destruct (negb _); [|destruct (readErr c)]; simpl; rewrite length_app; lia.
  - destruct (clCalls c !! t) as [[[id|] [] ch]|]; try done. intros [= <-]. unfold sendWrite.
    destruct (writeRequest _ _ _ _ _) as [[]]; simpl; by rewrite length_alter.
  - destruct (clCalls c !! t) as [[id [] ch]|]; try done. unfold sendWake.
    destruct ch; try done; intros [= <-]; simpl; by rewrite length_alter.
  - destruct (clCalls c !! t) as [[id [] ch]|]; try done. intros [= <-]. simpl. by rewrite length_alter.
  - destruct (clReader c); try done. intros [= <-]. destruct r as [res|]; simpl; [|by rewrite length_imap].
    by destruct (pending c !! cpID res).
  - destruct (clReader c) as [|t res|]; try done. destruct (clCalls c !! t) as [k|]; [|done]. cbn [mbind option_bind].
    destruct (clChan k); try done. intros [= <-]. simpl. by rewrite length_alter.
Qed.

Lemma client_step_ok c e c' : client_ok c → few c' → step c e = Some c' → client_ok c'.
Proof using Type.
  intros Hc Hfew. destruct e as [req|t enc size body fl|t|t err|r|]; simpl.
  - intros [= <-]. by apply sendStart_ok.
  - destruct (clCalls c !! t) as [[[id|] [] ch]|] eqn:Hk; try done. intros [= <-]. by eapply sendWrite_ok.
  - destruct (clCalls c !! t) as [[id [] ch]|] eqn:Hk; try done. by apply (sendWake_ok c t id).
  - destruct (clCalls c !! t) as [[id [] ch]|] eqn:Hk; try done. intros [= <-]. by eapply sendCancel_ok.
  - destruct (clReader c) eqn:Hr; try done. intros [= <-]. by apply readNext_ok.
  - destruct (clReader c) as [|t res|] eqn:Hr; try done. destruct (clCalls c !! t) as [k|] eqn:Hk; [|done]. cbn [mbind option_bind].
    destruct (clChan k) eqn:Hch; try done. intros [= <-]. by eapply deliver_ok.
Qed.

Lemma reachable_client_ok hello c : reachable_client hello c → few c → client_ok c.
Proof using Type.
  induction 1 as [c Hc|c e c' _ IH Hs]; intros Hfew.
  - simpl in Hc. case_bool_decide; [done|]. injection Hc as <-. split; simpl; try done; lia.
  - eapply client_step_ok; [|done|done]. apply IH. apply client_step_length in Hs. unfold few in *. lia.
Qed.

(** ** Theorems *)

(** C31: However the calls of [send] and the reading of responses interleave, a call
    that returns a response returns one that carries the ID of its own request,
    which no other call has, and that reports no error. *)
Theorem client_responses_match hello c t k res :
  reachable_client hello c → few c → clCalls c !! t = Some k → clPhase k = Returned (Ok res) →
  clID k = Some (cpID res) ∧ cpErr res = "" ∧ ∀ t' k', clCalls c !! t' = Some k' → clID k' = Some (cpID res) → t' = t.
Proof using Type.
  intros Hc Hfew Hk Hp. apply reachable_client_ok in Hc; [|done]. destruct (co_returned c Hc t k res Hk Hp) as [Hid He].
  split_and!; [done|done|]. intros t' k' Hk' Hid'. by apply (co_unique c Hc t' t k' k (cpID res)).
Qed.

(** The reader never blocks on the channel of a call, so that a call that is
    slow or that gave up delays no other.  Once reading has failed, no call is
    stuck: each that waits can take a response that came in time or return the
    error, and a new call returns the error without writing anything. *)
Theorem client_progress hello c :
  reachable_client hello c → few c →
  (∀ t res, clReader c = Delivering t res → is_Some (step c EDeliver)) ∧
  (∀ e, clReader c = Stopped → readErr c = Some e →
     (∀ t k, clCalls c !! t = Some k → clPhase k = Waiting →
        ∃ c' k' r, step c (EWake t) = Some c' ∧ clCalls c' !! t = Some k' ∧ clPhase k' = Returned r ∧
          (r = Err e ∨ ∃ res, clChan k = Full res ∧ r = received res)) ∧
     (∀ req, supports c (crCommand req) = true →
        step c (ESend req) = Some (addCall c (Call None (Returned (Err e)) Empty)))).
Proof using Type.
  intros Hr Hfew. pose proof (reachable_client_ok hello c Hr Hfew) as Hc. split.
  - intros t res Hd. destruct (co_delivering c Hc t res Hd) as (k & Hk & _ & He). simpl. rewrite Hd, Hk. cbn [mbind option_bind]. by rewrite He.
  - intros e Hst He. split.
    + intros t [i ph ch] Hk Hw. simpl in Hw. subst ph. destruct (co_waiting c Hc t _ Hk ltac:(by left)) as (id & _ & Hin).
      destruct (co_stopped c Hc Hst) as [_ Hp]. simpl in Hin. simpl. rewrite Hk. destruct ch as [|res|]; simpl.
      * destruct (Hin eq_refl) as [Hx|[x Hx]]; [|congruence]. rewrite Hp in Hx. by apply lookup_empty_Some in Hx.
      * eexists _, _, _. split_and!; [done|simpl; by rewrite list_lookup_alter_eq, Hk|done|right; eauto].
      * rewrite He. eexists _, _, _. split_and!; [done|simpl; by rewrite list_lookup_alter_eq, Hk|done|by left].
    + intros req Hs. simpl. unfold sendStart. by rewrite Hs, He.
Qed.
End facts.

(** ** Witnesses *)

#[local] Existing Instance testRuntime.

Definition exHello : cacheProgResponse := zeroResponse <| KnownCommands := [cacheProgGet; cacheProgPut] |>.
Definition exClient : cacheProgClient := Client [cacheProgGet; cacheProgPut] 0 ∅ None [] Reading [].
Definition exLookup : cacheProgRequest := CacheRequest 0 cacheProgGet "action" "" "" 0.

Definition steps (c : cacheProgClient) (es : list event) : option cacheProgClient :=
  foldl (λ c e, c ≫= λ c, step c e) (Some c) es.

Lemma steps_reachable hello es : ∀ c c', reachable_client hello c → steps c es = Some c' → reachable_client hello c'.
Proof.
  unfold steps. induction es as [|e es IH]; intros c c' Hc; simpl; [by intros [= <-]|].
  destruct (step c e) as [c1|] eqn:He; [|intros Hx; exfalso; clear -Hx; by induction es].
  apply IH. by eapply client_step.
Qed.

(** Two calls, answered in the other order. *)
Definition exEvents : list event :=
  [ESend exLookup; ESend exLookup; EWrite 1 None 0 None None; EWrite 0 None 0 None None;
   ERead (Ok (zeroResponse <| cpID := 2 |>)); EDeliver; ERead (Ok (missResponse <| cpID := 1 |>)); EDeliver; EWake 0; EWake 1].

Definition exDone : cacheProgClient :=
  Client [cacheProgGet; cacheProgPut] 2 ∅ None
    [Call (Some 1) (Returned (Ok (missResponse <| cpID := 1 |>))) Empty; Call (Some 2) (Returned (Ok (zeroResponse <| cpID := 2 |>))) Empty]
    Reading [Request 2; Request 1].

Lemma client_responses_match_witness :
  clCalls exDone !! 0%nat = Some (Call (Some 1) (Returned (Ok (missResponse <| cpID := 1 |>))) Empty) ∧ Some 1 = Some (cpID (missResponse <| cpID := 1 |>)).
Proof.
  split; [reflexivity|].
  apply (client_responses_match exHello exDone 0 (Call (Some 1) (Returned (Ok (missResponse <| cpID := 1 |>))) Empty) (missResponse <| cpID := 1 |>));
    [|reflexivity..].
  apply (steps_reachable exHello exEvents exClient); [apply client_start; reflexivity|vm_compute; reflexivity].
Defined.

(** Reading fails while a call waits. *)
Definition exFailed : cacheProgClient :=
  Client [cacheProgGet; cacheProgPut] 1 ∅ (Some (EMsg "EOF")) [Call (Some 1) Waiting Closed] Stopped [Request 1].

Lemma client_progress_witness : ∃ c' k' r, step exFailed (EWake 0) = Some c' ∧ clCalls c' !! 0%nat = Some k' ∧ clPhase k' = Returned r ∧
  (r = Err (EMsg "EOF") ∨ ∃ res, Closed = Full res ∧ r = received res).
Proof.
  refine (proj1 (proj2 (client_progress exHello exFailed _ _) (EMsg "EOF") _ _) 0%nat (Call (Some 1) Waiting Closed) _ _); [|reflexivity..].
  apply (steps_reachable exHello [ESend exLookup; EWrite 0 None 0 None None; ERead (Err (EMsg "EOF"))] exClient);
    [apply client_start; reflexivity|vm_compute; reflexivity].
Defined.

(** A put whose body is shorter than announced leaves its JSON string open on
    the connection, and the next request is written inside it. *)
Theorem client_short_body_garbles : ∃ c,
  steps exClient [ESend exLookup; EWrite 0 None 5 (Some (Ok "abc")) None; ESend exLookup; EWrite 1 None 0 None None] = Some c ∧
  clWire c = [Request 1; OpenBody "abc"; Request 2].
Proof. eexists. split; vm_compute; reflexivity. Qed.
