(* ===== verification/CacheShim.v ===== *)
(** * The cache shim (cacheprog.go, [cacheShim])

    Between cmd/go and the cache program: lookups are forwarded and their
    misses remembered, a hit that looks like an executable is checked and
    copied where it can be run, and a linked test executable that the [-exec]
    wrapper registers is put under the action that missed.  [downstream] calls
    are those of the client, whose outcome is an argument here. *)

From Stdlib Require Import Ascii.
From S2P Require Import Prelude GoStrings Path Utf8 GoFmt Sha256 Quote CappedBuffer CacheTypes.

(** ** Data *)

Record executableRegistration := ExecutableRegistration {
  erPath : string;
  erOutputHash : string;
  erSize : Z
}.

Record verifiedExecutable := VerifiedExecutable {
  veOutputHash : string;
  veSize : Z
}.

Record cacheLookupEvent := CacheLookupEvent {
  clActionID : string;
  clHit : bool
}.

Record toolExecEvent := ToolExecEvent {
  teImportPath : string;
  teTool : string;
  teBuildID : string
}.

Record cacheShim := CacheShim {
  directExecutables : bool;
  downCan : list string;      (** [downstream.can] *)
  execDir : string;
  execHits : Z;
  execPuts : Z;
  misses : gmap string string;
  uploaded : gset string;
  execHit : gset string;
  verifiedExec : gmap string verifiedExecutable
}.

#[export] Instance eta_cacheShim : Eta cacheShim := λ s,
  CacheShim (directExecutables s) (downCan s) (execDir s) (execHits s) (execPuts s) (misses s) (uploaded s)
    (execHit s) (verifiedExec s).

Definition newCacheShim (direct : bool) (commands : list string) (dir : string) : cacheShim :=
  CacheShim direct commands dir 0 0 ∅ ∅ ∅ ∅.

(** ** Files *)

(** A file with what the shim asks of it: its content, whether it is regular,
    and the owner's execute permission. *)
Record sfile := SFile {
  sfData : string;
  sfRegular : bool;
  sfExec : bool
}.

Abbreviation files := (gmap string sfile).

(** The faults of the calls, and the name of a temporary file. *)
Record shimIO := ShimIO {
  siOpen : string → option error;
  siStat : string → option error;
  siCreate : option error;
  siCopy : option error;
  siTempChmod : option error;
  siClose : option error;
  siRename : option error;
  siTemp : string;
  siChmod : option error
}.

(** What [go tool buildid] prints for a file of this content. *)
Class GoTool := toolBuildID : string → result string.

Definition enoent : error := EMsg "no such file or directory".

Definition statFile (io : shimIO) (fs : files) (path : string) : result sfile :=
  match siStat io path, fs !! path with
  | Some e, _ => Err e
  | None, None => Err enoent
  | None, Some f => Ok f
  end.

(** [os.Open] and reading it all. *)
Definition readAll (io : shimIO) (fs : files) (path : string) : result string :=
  match siOpen io path, fs !! path with
  | Some e, _ => Err e
  | None, None => Err enoent
  | None, Some f => if sfRegular f then Ok (sfData f) else Err (EMsg "is a directory")
  end.

Definition hashFile (io : shimIO) (fs : files) (path : string) : result (string * Z) :=
  data ← readAll io fs path; Ok (Sum256 data, strlen data).

(** The first bytes of ELF, PE, WebAssembly and Mach-O files. *)
Definition magicOf (bytes : list Z) : string := ofBytes bytes.

Definition executableMagic (b : string) : bool :=
  bool_decide (b = String "127"%char "ELF") || bool_decide (takeS 2 b = "MZ") || bool_decide (b = String "000"%char "asm") ||
  bool_decide (b = magicOf [0xfe; 0xed; 0xfa; 0xce]) || bool_decide (b = magicOf [0xfe; 0xed; 0xfa; 0xcf]) ||
  bool_decide (b = magicOf [0xce; 0xfa; 0xed; 0xfe]) || bool_decide (b = magicOf [0xcf; 0xfa; 0xed; 0xfe]).

Definition looksLikeExecutable (io : shimIO) (fs : files) (path : string) : bool :=
  match readAll io fs path with
  | Ok data => if strlen data <? 4 then false else executableMagic (takeS 4 data)
  | Err _ => false
  end.

(** [copyExecutable]; a temporary file is left behind when the rename fails over
    a destination that is there. *)
Definition copyExecutable (io : shimIO) (fs : files) (src dst : string) : option error * files :=
  match readAll io fs src with
  | Err e => (Some e, fs)
  | Ok data =>
      match siCreate io, siCopy io, siTempChmod io, siClose io with
      | None, None, None, None =>
          match siRename io with
          | None => (None, <[dst := SFile data true true]> fs)
          | Some e =>
              match statFile io fs dst with
              | Ok _ => (None, <[PathJoin [Dir dst; siTemp io] := SFile data true true]> fs)
              | Err _ => (Some e, fs)
              end
          end
      | Some e, _, _, _ | None, Some e, _, _ | None, None, Some e, _ | None, None, None, Some e => (Some e, fs)
      end
  end.

Section shim.
Context `{GoRuntime, GoTool}.

Definition readGoBuildID (io : shimIO) (fs : files) (path : string) : result string :=
  data ← readAll io fs path; out ← toolBuildID data; Ok (TrimSpace out).

(** ** Lookups *)

Definition recordMiss (s : cacheShim) (actionID : string) : cacheShim :=
  let prefix := actionIDPrefix actionID in
  if bool_decide (prefix = "") then s else s <| misses ::= <[prefix := actionID]> |>.

Definition executableWasCached (s : cacheShim) (outputHash : string) : bool := bool_decide (outputHash ∈ execHit s).

(** The build ID of the file has the action in front. *)
Definition hasActionID (io : shimIO) (fs : files) (path actionID : string) : bool :=
  match readGoBuildID io fs path with
  | Ok buildID =>
      match Split buildID "/"%char with
      | [action; _; _; _] => bool_decide (action = actionIDPrefix actionID)
      | _ => false
      end
  | Err _ => false
  end.

Definition hashIs (io : shimIO) (fs : files) (path outputID : string) : bool :=
  match hashFile io fs path with Ok (sum, _) => bool_decide (sum = outputID) | Err _ => false end.

Definition materializeExecutable (s : cacheShim) (io : shimIO) (fs : files) (actionID : string) (res : cacheProgResponse)
    : option string * files :=
  let path := DiskPath res in
  if bool_decide (path = "") || negb (looksLikeExecutable io fs path) then (None, fs)
  else if negb (hasActionID io fs path actionID) then (None, fs)
  else if negb (hashIs io fs path (cpOutputID res)) then (None, fs)
  else
    let runnable := match statFile io fs path with Ok f => sfRegular f && sfExec f | Err _ => false end in
    if directExecutables s && (bool_decide (GOOS = "windows") || runnable) then (Some path, fs)
    else
      let target := PathJoin [execDir s; EncodeToString (cpOutputID res)] in
      let there := match statFile io fs target with
                   | Ok f => sfRegular f && hashIs io fs target (cpOutputID res) && sfExec f
                   | Err _ => false
                   end in
      if there then (Some target, fs)
      else
        match copyExecutable io fs path target with
        | (Some _, fs) => (None, fs)
        | (None, fs) => (Some target, fs)
        end.

(** [forward], given what the client's [send] gives; also the lookups that are
    reported. *)
Definition forward (s : cacheShim) (io : shimIO) (fs : files) (req : cacheProgRequest) (sent : result cacheProgResponse)
    : result cacheProgResponse * cacheShim * files * list cacheLookupEvent :=
  let isGet := bool_decide (crCommand req = cacheProgGet) in
  match (if isGet && negb (bool_decide (cacheProgGet ∈ downCan s)) then Ok missResponse else sent) with
  | Err e => (Err e, s, fs, [])
  | Ok res =>
      if negb isGet then (Ok res, s, fs, [])
      else
        let res := if bool_decide (cpOutputID res = "") && negb (bool_decide (cpObjectID res = ""))
                   then res <| cpOutputID := cpObjectID res |> else res in
        let action := crActionID req in
        if cpMiss res then (Ok res, recordMiss s action, fs, [CacheLookupEvent action false])
        else
          let ev := [CacheLookupEvent action true] in
          if looksLikeExecutable io fs (DiskPath res) then
            match materializeExecutable s io fs action res with
            | (None, fs) => (Ok missResponse, recordMiss s action, fs, ev)
            | (Some path, fs) =>
                match statFile io fs path with
                | Ok f =>
                    if sfRegular f then
                      let outputHash := EncodeToString (cpOutputID res) in
                      (Ok (res <| DiskPath := path |>),
                       s <| execHit ::= λ h, {[outputHash]} ∪ h |> <| execHits ::= λ n, i64 (n + 1) |>
                         <| verifiedExec ::= <[Clean path := VerifiedExecutable outputHash (strlen (sfData f))]> |>,
                       fs, ev)
                    else (Ok missResponse, recordMiss s action, fs, ev)
                | Err _ => (Ok missResponse, recordMiss s action, fs, ev)
                end
            end
          else (Ok res, s, fs, ev)
  end.

(** The answer that [serveCmdGo] writes to a request. *)
Definition cmdGoResponse (req : cacheProgRequest) (r : result cacheProgResponse) : cacheProgResponse :=
  match r with
  | Ok res => res <| cpID := crID req |>
  | Err e => zeroResponse <| cpErr := Error e |> <| cpID := crID req |>
  end.

(** ** Registrations *)

(** An upload that was begun: its place in [uploaded] and the request. *)
Record upload := Upload {
  upPrefix : string;
  upPath : string;
  upRequest : cacheProgRequest
}.

(** [registerExecutable] up to the marking of the upload: it is over, or a put is
    to be sent. *)
Definition registerBegin (s : cacheShim) (io : shimIO) (fs : files) (reg : executableRegistration)
    : (option error + upload) * cacheShim :=
  match readGoBuildID io fs (erPath reg) with
  | Err e => (inl (Some e), s)
  | Ok buildID =>
      match Split buildID "/"%char with
      | [prefix; _; _; _] =>
          let actionID := default "" (misses s !! prefix) in
          if bool_decide (actionID = "") || negb (bool_decide (cacheProgPut ∈ downCan s)) then (inl None, s)
          else
            let badHash := (inl (Some (EMsg ("invalid executable hash " +:+ Quote (erOutputHash reg)))), s) in
            match DecodeString (erOutputHash reg) with
            | None => badHash
            | Some outputID =>
                if negb (strlen outputID =? 32) then badHash
                else
                  match hashFile io fs (erPath reg) with
                  | Err e => (inl (Some e), s)
                  | Ok (gotOutputID, gotSize) =>
                      if negb (bool_decide (gotOutputID = outputID)) || negb (gotSize =? erSize reg) then
                        (inl (Some (EMsg "captured executable changed before cache upload")), s)
                      else if bool_decide (prefix ∈ uploaded s) then (inl None, s)
                      else
                        (inr (Upload prefix (erPath reg) (CacheRequest 0 cacheProgPut actionID outputID "" (erSize reg))),
                         s <| uploaded ::= λ u, {[prefix]} ∪ u |>)
                  end
            end
      | _ => (inl (Some (EMsg ("test executable has unexpected Go build ID " +:+ Quote buildID))), s)
      end
  end.

(** The rest, given what [os.Open] and the client's [send] give; the mark is
    taken back unless the put succeeded. *)
Definition registerFinish (s : cacheShim) (io : shimIO) (fs : files) (up : upload) (openErr : option error)
    (sent : result cacheProgResponse) : option error * cacheShim * files :=
  let failed e := (Some e, s <| uploaded ::= λ u, u ∖ {[upPrefix up]} |>, fs) in
  match openErr with
  | Some e => failed e
  | None =>
      match sent with
      | Err e => failed e
      | Ok res =>
          if bool_decide (DiskPath res = "") then failed (EMsg "GOCACHEPROG executable put returned no disk path")
          else
            let chmod := directExecutables s && negb (bool_decide (GOOS = "windows")) in
            match (if chmod then siChmod io else None) with
            | Some e => failed (EWrap "marking cached executable: " e)
            | None =>
                (None, s <| execPuts ::= λ n, i64 (n + 1) |>,
                 if chmod then alter (λ f, SFile (sfData f) (sfRegular f) true) (DiskPath res) fs else fs)
            end
      end
  end.

(** [registerExecutable] with nothing in between. *)
Definition registerExecutable (s : cacheShim) (io : shimIO) (fs : files) (reg : executableRegistration)
    (sent : cacheProgRequest → result string → result cacheProgResponse) : option error * cacheShim * files :=
  match registerBegin s io fs reg with
  | (inl err, s) => (err, s, fs)
  | (inr up, s) => registerFinish s io fs up (siOpen io (upPath up)) (sent (upRequest up) (readAll io fs (upPath up)))
  end.

(** ** Connections *)

(** What a connection sends after its first byte, decoded or not. *)
Inductive message :=
  | MVerified (path : option string)               (** 'V' *)
  | MToolExec (ev : option toolExecEvent)          (** 'T' *)
  | MRegister (reg : result executableRegistration). (** 'R' *)

Inductive reply :=
  | RVerified (v : verifiedExecutable)   (** the zero value when not found *)
  | RNone
  | RRegister (err : string).

(** The connections of [acceptLoop] that are not cmd/go's; also the tool
    executions that are reported.  [err] in the last case is the error of
    [Accept], nil here: the inner [err] shadows it. *)
Definition handle (s : cacheShim) (io : shimIO) (fs : files) (m : message)
    (sent : cacheProgRequest → result string → result cacheProgResponse)
    : reply * cacheShim * files * list toolExecEvent :=
  match m with
  | MVerified path =>
      let v := path ≫= λ path, verifiedExec s !! Clean path in
      (RVerified (default (VerifiedExecutable "" 0) v), s, fs, [])
  | MToolExec ev => (RNone, s, fs, option_list ev)
  | MRegister reg =>
      let acceptErr : option error := None in
      let '(s, fs) := match reg with
                      | Ok reg => let '(_, s, fs) := registerExecutable s io fs reg sent in (s, fs)
                      | Err _ => (s, fs)
                      end in
      (RRegister (match acceptErr with Some e => Error e | None => "" end), s, fs, [])
  end.

(** ** The clients of the shim *)

(** [registerTestExecutable], given the reply. *)
Definition registerTestExecutable (r : result string) : option error :=
  match r with
  | Err e => Some e
  | Ok err => if bool_decide (err = "") then None else Some (EMsg err)
  end.

(** [lookupVerifiedTestExecutable], given the reply. *)
Definition lookupVerifiedTestExecutable (r : result verifiedExecutable) : option (string * Z) :=
  match r with
  | Err _ => None
  | Ok v => if negb (validCacheHex (veOutputHash v)) || (veSize v <? 0) then None else Some (veOutputHash v, veSize v)
  end.
End shim.
