(* ===== verification/CacheShimFacts.v ===== *)
(** * What the cache shim guarantees *)

From Stdlib Require Import Ascii.
From S2P Require Import Prelude GoStrings Path Utf8 GoFmt Sha256 Quote CappedBuffer CacheTypes CacheShim.

(** ** Files *)

Lemma readAll_file io fs path data : readAll io fs path = Ok data → ∃ f, fs !! path = Some f ∧ sfRegular f = true ∧ sfData f = data.
Proof.
  unfold readAll. destruct (siOpen io path); [done|]. destruct (fs !! path) as [f|]; [|done].
  destruct (sfRegular f) eqn:Hr; [|done]. intros [= <-]. eauto.
Qed.

Lemma statFile_file io fs path f : statFile io fs path = Ok f → fs !! path = Some f.
Proof. unfold statFile. destruct (siStat io path); [done|]. destruct (fs !! path); [|done]. by intros [= <-]. Qed.

Lemma hashIs_true io fs path o : hashIs io fs path o = true → ∃ data, readAll io fs path = Ok data ∧ Sum256 data = o.
Proof.
  unfold hashIs, hashFile. destruct (readAll io fs path) as [data|]; [|done]. cbn [mbind option_bind].
  intros Hb. simpl in Hb. apply bool_decide_eq_true in Hb. eauto.
Qed.

Lemma copyExecutable_ok io fs src dst data fs' :
  readAll io fs src = Ok data → siRename io = None → copyExecutable io fs src dst = (None, fs') →
  fs' = <[dst := SFile data true true]> fs.
Proof.
  intros Hr Hn. unfold copyExecutable. rewrite Hr, Hn.
  destruct (siCreate io); [done|]. destruct (siCopy io); [done|]. destruct (siTempChmod io); [done|]. destruct (siClose io); [done|].
  by intros [= <-].
Qed.

Section facts.
Context `{GoRuntime, GoTool}.

(** ** Executables that are handed out *)

(** What the shim has checked of a file before it hands it out. *)
Record checked (io : shimIO) (fs : files) (path actionID outputID : string) (target : string) (fs' : files) : Prop := {
  ck_action : hasActionID io fs path actionID = true;
  ck_source : ∃ data, readAll io fs path = Ok data ∧ Sum256 data = outputID;
  ck_target : ∃ f, fs' !! target = Some f ∧ sfRegular f = true ∧ Sum256 (sfData f) = outputID ∧ (GOOS ≠ "windows" → sfExec f = true)
}.

Lemma materialize_checked s io fs action res target fs' :
  siRename io = None → materializeExecutable s io fs action res = (Some target, fs') →
  checked io fs (DiskPath res) action (cpOutputID res) target fs'.
Proof using Type.
  intros Hn. unfold materializeExecutable. destruct (_ || _); [done|].
  destruct (hasActionID io fs _ action) eqn:Ha; [|done]. destruct (hashIs io fs _ _) eqn:Hh; [|done]. cbn [negb].
  destruct (hashIs_true _ _ _ _ Hh) as (data & Hd & Hsum). destruct (readAll_file _ _ _ _ Hd) as (f & Hf & Hreg & Hdata).
  destruct (directExecutables s && _) eqn:Hdir.
  { intros [= <- <-]. apply andb_prop in Hdir as [_ Hdir]. split; [done|eauto|]. exists f. split_and!; [done|done|by rewrite Hdata|].
    intros Hw. apply orb_prop in Hdir as [Hdir|Hdir]; [by apply bool_decide_eq_true in Hdir|].
    destruct (statFile io fs (DiskPath res)) as [f'|] eqn:Hst; [|done]. apply statFile_file in Hst. apply andb_prop in Hdir as [_ Hx]. congruence. }
  set (tgt := PathJoin _). destruct (statFile io fs tgt) as [ft|] eqn:Hst; cbv iota.
  - destruct (sfRegular ft && _ && _) eqn:Hc.
    { intros [= <- <-]. apply andb_prop in Hc as [Hc Hx]. apply andb_prop in Hc as [Hr Hht].
      destruct (hashIs_true _ _ _ _ Hht) as (dt & Hdt & Hst'). destruct (readAll_file _ _ _ _ Hdt) as (f' & Hf' & _ & <-).
      apply statFile_file in Hst. split; [done|eauto|]. exists ft. rewrite Hst in Hf'. injection Hf' as <-. by split_and!. }
    destruct (copyExecutable io fs _ tgt) as [[?|] fs1] eqn:Hcp; [done|]. intros [= <- <-].
    rewrite (copyExecutable_ok _ _ _ _ _ _ Hd Hn Hcp). split; [done|eauto|]. eexists. rewrite lookup_insert_eq. by split_and!.
  - destruct (copyExecutable io fs _ tgt) as [[?|] fs1] eqn:Hcp; [done|]. intros [= <- <-].
    rewrite (copyExecutable_ok _ _ _ _ _ _ Hd Hn Hcp). split; [done|eauto|]. eexists. rewrite lookup_insert_eq. by split_and!.
Qed.


(** ** Registrations *)

Lemma registerBegin_checked s io fs reg up s' :
  registerBegin s io fs reg = (inr up, s') →
  misses s !! upPrefix up = Some (crActionID (upRequest up)) ∧ crActionID (upRequest up) ≠ "" ∧ upPrefix up ∉ uploaded s ∧
  s' = s <| uploaded ::= λ u, {[upPrefix up]} ∪ u |> ∧
  ∃ data, readAll io fs (upPath up) = Ok data ∧ crOutputID (upRequest up) = Sum256 data ∧ crBodySize (upRequest up) = strlen data.
Proof using Type.
  unfold registerBegin. destruct (readGoBuildID io fs _) as [b|]; [|done].
  destruct (Split b _) as [|prefix [|? [|? [|? [|? ?]]]]]; try done.
  destruct (misses s !! prefix) as [a|] eqn:Hm; simpl default; [|done].
  destruct (bool_decide (a = "") || _) eqn:Ha; [done|]. apply orb_false_iff in Ha as [Ha _]. apply bool_decide_eq_false in Ha.
  destruct (DecodeString _) as [o|]; [|done]. destruct (strlen o =? 32); [|done]. cbn [negb].
  unfold hashFile. destruct (readAll io fs _) as [data|] eqn:Hr; [|done]. cbn [mbind result_bind].
  destruct (negb (bool_decide (Sum256 data = o)) || _) eqn:Hb; [done|]. apply orb_false_iff in Hb as [Hb Hs]. apply negb_false_iff in Hb, Hs.
  apply bool_decide_eq_true in Hb. apply Z.eqb_eq in Hs. case_bool_decide as Hu; [done|].
  intros [= <- <-]. simpl. split_and!; try done. eauto.
Qed.

(** The shim with the uploads that are under way and that succeeded, and the
    actions whose lookup it answered with a miss. *)
Record shimSys := ShimSys {
  ssShim : cacheShim;
  ssFiles : files;
  ssFlight : list upload;
  ssDone : list upload;
  ssMissed : list string
}.

Definition isMiss (r : result cacheProgResponse) : bool := match r with Ok res => cpMiss res | Err _ => false end.

Inductive sys_step : shimSys → shimSys → Prop :=
  | sys_forward s fs fl dn ms io req sent r s' fs' ev :
      forward s io fs req sent = (r, s', fs', ev) →
      sys_step (ShimSys s fs fl dn ms)
               (ShimSys s' fs' fl dn (if bool_decide (crCommand req = cacheProgGet) && isMiss r then crActionID req :: ms else ms))
  | sys_begin s fs fl dn ms io reg up s' :
      registerBegin s io fs reg = (inr up, s') → sys_step (ShimSys s fs fl dn ms) (ShimSys s' fs (up :: fl) dn ms)
  | sys_over s fs fl dn ms io reg err s' :
      registerBegin s io fs reg = (inl err, s') → sys_step (ShimSys s fs fl dn ms) (ShimSys s' fs fl dn ms)
  | sys_finish s fs fl1 up fl2 dn ms io openErr sent err s' fs' :
      registerFinish s io fs up openErr sent = (err, s', fs') →
      sys_step (ShimSys s fs (fl1 ++ up :: fl2) dn ms)
               (ShimSys s' fs' (fl1 ++ fl2) (match err with None => up :: dn | Some _ => dn end) ms)
  | sys_files s fs fl dn ms fs' : sys_step (ShimSys s fs fl dn ms) (ShimSys s fs' fl dn ms).

Inductive reachable_shim : shimSys → Prop :=
  | shim_start direct commands dir fs : reachable_shim (ShimSys (newCacheShim direct commands dir) fs [] [] [])
  | shim_step s s' : reachable_shim s → sys_step s s' → reachable_shim s'.

Definition prefixes (s : shimSys) : list string := upPrefix <$> ssFlight s ++ ssDone s.

Record shim_ok (s : shimSys) : Prop := {
  so_misses : ∀ p a, misses (ssShim s) !! p = Some a → a ∈ ssMissed s ∧ actionIDPrefix a = p;
  so_uploads : ∀ up, up ∈ ssFlight s ++ ssDone s →
    crActionID (upRequest up) ∈ ssMissed s ∧ actionIDPrefix (crActionID (upRequest up)) = upPrefix up;
  so_nodup : NoDup (prefixes s);
  so_uploaded : ∀ p, p ∈ uploaded (ssShim s) ↔ p ∈ prefixes s
}.

(** What a lookup changes. *)
Lemma forward_state s io fs req sent r s' fs' ev :
  forward s io fs req sent = (r, s', fs', ev) →
  uploaded s' = uploaded s ∧
  (misses s' = misses s ∨ (crCommand req = cacheProgGet ∧ isMiss r = true ∧ misses s' = <[actionIDPrefix (crActionID req) := crActionID req]> (misses s))).
Proof using Type.
  assert (Hmiss : ∀ a, uploaded (recordMiss s a) = uploaded s ∧
    (misses (recordMiss s a) = misses s ∨ misses (recordMiss s a) = <[actionIDPrefix a := a]> (misses s))).
  { intros a. unfold recordMiss. case_bool_decide; simpl; auto. }
  unfold forward. case_bool_decide as Hcmd; simpl negb; cbn [andb].
  - destruct (if negb _ then _ else sent) as [res|e]; [|intros [= <- <- _ _]; auto].
    set (d := if _ && _ then _ else res). destruct (cpMiss d) eqn:Hm.
    { intros [= <- <- _ _]. destruct (Hmiss (crActionID req)) as [-> [?| ?]]; auto. }
    destruct (looksLikeExecutable _ _ _); [|intros [= <- <- _ _]; auto].
    destruct (materializeExecutable s io fs (crActionID req) d) as [[target|] fs1];
      [|intros [= <- <- _ _]; destruct (Hmiss (crActionID req)) as [-> [?| ?]]; auto].
    destruct (statFile io fs1 target) as [f|]; [|intros [= <- <- _ _]; destruct (Hmiss (crActionID req)) as [-> [?| ?]]; auto].
    destruct (sfRegular f); [|intros [= <- <- _ _]; destruct (Hmiss (crActionID req)) as [-> [?| ?]]; auto].
    intros [= _ <- _ _]. simpl. auto.
  - destruct sent; intros [= <- <- _ _]; auto.
Qed.

Lemma forward_missed s io fs req sent r s' fs' ev :
  forward s io fs req sent = (r, s', fs', ev) → crCommand req = cacheProgGet → isMiss r = true → 15 ≤ strlen (crActionID req) →
  misses s' = <[actionIDPrefix (crActionID req) := crActionID req]> (misses s).
Proof using Type.
  intros Hf Hcmd Hr Hlen.
  assert (Hm : misses (recordMiss s (crActionID req)) = <[actionIDPrefix (crActionID req) := crActionID req]> (misses s)).
  { unfold recordMiss, actionIDPrefix. destruct (Z.ltb_spec (strlen (crActionID req)) 15); [lia|].
    destruct (crActionID req) as [|a [|b [|c id]]]; done. }
  revert Hf. unfold forward. rewrite Hcmd, bool_decide_true by done. cbn [negb andb].
  destruct (if negb _ then _ else sent) as [res|e]; [|by intros [= <- _ _ _]].
  set (d := if _ && _ then _ else res). destruct (cpMiss d) eqn:Hd; [by intros [= _ <- _ _]|].
  destruct (looksLikeExecutable _ _ _); [|intros [= <- _ _ _]; simpl in Hr; congruence].
  destruct (materializeExecutable s io fs (crActionID req) d) as [[target|] fs1]; [|by intros [= _ <- _ _]].
  destruct (statFile io fs1 target) as [f|]; [|by intros [= _ <- _ _]]. destruct (sfRegular f); [|by intros [= _ <- _ _]].
  intros [= <- _ _ _]. simpl in Hr. congruence.
Qed.

Lemma registerFinish_state s io fs up openErr sent err s' fs' :
  registerFinish s io fs up openErr sent = (err, s', fs') →
  misses s' = misses s ∧ uploaded s' = (match err with None => uploaded s | Some _ => uploaded s ∖ {[upPrefix up]} end).
Proof using Type.
  unfold registerFinish. destruct openErr; [by intros [= <- <- _]|]. destruct sent as [res|]; [|by intros [= <- <- _]].
  case_bool_decide; [by intros [= <- <- _]|]. destruct (if _ && _ then siChmod io else None); by intros [= <- <- _].
Qed.

Lemma registerBegin_over s io fs reg err s' : registerBegin s io fs reg = (inl err, s') → s' = s.
Proof using Type. unfold registerBegin. repeat case_match; try done; congruence. Qed.

Lemma sys_step_ok s s' : sys_step s s' → shim_ok s → shim_ok s'.
Proof using Type.
  intros Hstep [Hm Hu Hn Hup].
  destruct Hstep as [s fs fl dn ms io req sent r s' fs' ev Hf|s fs fl dn ms io reg up s' Hb|s fs fl dn ms io reg err s' Hb
    |s fs fl1 up fl2 dn ms io openErr sent err s' fs' Hf|s fs fl dn ms fs']; simpl in *.
  - apply forward_state in Hf as [Eu Em]. split; simpl; [| |done|by rewrite Eu].
    + intros p a. destruct Em as [->|(Hg & Hr & ->)].
      * intros Hpa. destruct (Hm p a Hpa). destruct (_ && _); [|done]. split; [by apply list_elem_of_further|done].
      * rewrite (bool_decide_true _ Hg), Hr. simpl. rewrite lookup_insert_Some.
        intros [[<- <-]|[_ Hpa]]; [split; [by apply list_elem_of_here|done]|]. destruct (Hm p a Hpa). split; [by apply list_elem_of_further|done].
    + intros u Hin. destruct (Hu u Hin). destruct (_ && _); [|done]. split; [by apply list_elem_of_further|done].
  - apply registerBegin_checked in Hb as (Hmiss & Hne & Hnew & -> & _). split; simpl; [done| | |].
    + intros u [->|Hin]%elem_of_cons; [by apply Hm|by apply Hu].
    + unfold prefixes in *. simpl. apply NoDup_cons. split; [|done]. by rewrite <- Hup.
    + intros p. unfold prefixes in *. simpl. rewrite elem_of_union, elem_of_singleton, elem_of_cons. by rewrite Hup.
  - apply registerBegin_over in Hb as ->. by split.
  - apply registerFinish_state in Hf as [Em Eu].
    assert (Hperm : fl1 ++ up :: fl2 ≡ₚ up :: fl1 ++ fl2) by (by rewrite Permutation_middle).
    assert (Hpp : upPrefix <$> ((fl1 ++ up :: fl2) ++ dn) ≡ₚ upPrefix up :: (upPrefix <$> (fl1 ++ fl2) ++ dn)).
    { by rewrite Hperm. }
    unfold prefixes in *. simpl in *. rewrite Hpp in Hn.
    assert (Hup' : ∀ p, p ∈ uploaded s ↔ p = upPrefix up ∨ p ∈ upPrefix <$> (fl1 ++ fl2) ++ dn).
    { intros p. by rewrite Hup, Hpp, elem_of_cons. }
    assert (Hsub : ∀ u, u = up ∨ u ∈ (fl1 ++ fl2) ++ dn → u ∈ (fl1 ++ up :: fl2) ++ dn).
    { intros u. rewrite Hperm. simpl. by rewrite elem_of_cons. }
    apply NoDup_cons in Hn as [Hni Hn]. destruct err as [e|]; split; simpl; rewrite ?Em; try done.
    + intros u Hin. apply Hu, Hsub. by right.
    + intros p. rewrite Eu, elem_of_difference, elem_of_singleton, Hup'. split; [tauto|]. intros Hp. split; [by right|]. by intros ->.
    + intros u Hin. apply Hu, Hsub. rewrite <- Permutation_middle, elem_of_cons in Hin. done.
    + unfold prefixes. simpl. rewrite <- Permutation_middle. simpl. apply NoDup_cons. done.
    + intros p. unfold prefixes. simpl. rewrite Eu, <- Permutation_middle. simpl. rewrite elem_of_cons. apply Hup'.
  - by split.
Qed.

Lemma reachable_shim_ok s : reachable_shim s → shim_ok s.
Proof using Type.
  induction 1 as [direct commands dir fs|s s' _ IH Hs]; [|by eapply sys_step_ok].
  split; unfold prefixes; simpl.
  - done.
  - intros up Hin. by apply elem_of_nil in Hin.
  - constructor.
  - intros p. set_solver.
Qed.

(** C29: However lookups and registrations interleave, and whatever the cache program
    answers, the executable of an action is put at most once with success and
    never twice at a time, and only under an action whose lookup was answered
    with a miss, the one whose ID the executable's build ID starts with. *)
Theorem shim_uploads s :
  reachable_shim s →
  NoDup (upPrefix <$> ssFlight s ++ ssDone s) ∧
  ∀ up, up ∈ ssFlight s ++ ssDone s →
    crActionID (upRequest up) ∈ ssMissed s ∧ actionIDPrefix (crActionID (upRequest up)) = upPrefix up.
Proof using Type. intros Hs. destruct (reachable_shim_ok s Hs) as [_ Hu Hn _]. done. Qed.

(** After a lookup that was answered with a miss, registering the executable
    that was linked for it, with its own hash and size, puts that executable
    under exactly the action that was looked up, unless it has been put. *)
Theorem register_after_miss s io fs req sent r s' fs' ev path data b x y z :
  forward s io fs req sent = (r, s', fs', ev) → crCommand req = cacheProgGet → isMiss r = true → 15 ≤ strlen (crActionID req) →
  readAll io fs' path = Ok data → readGoBuildID io fs' path = Ok b → Split b "/"%char = [actionIDPrefix (crActionID req); x; y; z] →
  cacheProgPut ∈ downCan s' → actionIDPrefix (crActionID req) ∉ uploaded s' →
  (registerBegin s' io fs' (ExecutableRegistration path (EncodeToString (Sum256 data)) (strlen data))).1 =
  inr (Upload (actionIDPrefix (crActionID req)) path (CacheRequest 0 cacheProgPut (crActionID req) (Sum256 data) "" (strlen data))).
Proof using Type.
  intros Hf Hcmd Hr Hlen Hdata Hb Hsp Hput Hup. set (a := crActionID req) in *.
  assert (Hmiss : misses s' !! actionIDPrefix a = Some a).
  { rewrite (forward_missed _ _ _ _ _ _ _ _ _ Hf Hcmd Hr Hlen). apply lookup_insert_eq. }
  unfold registerBegin. cbn [erPath erOutputHash erSize]. rewrite Hb, Hsp, Hmiss. simpl default.
  rewrite bool_decide_false by (intros E; rewrite E in Hlen; done). rewrite (bool_decide_true (_ ∈ _)) by done. cbn [negb orb].
  rewrite Decode_Encode, strlen_Sum256. cbn [negb Z.eqb]. simpl (negb (32 =? 32)). cbv iota.
  unfold hashFile. rewrite Hdata. cbn [mbind result_bind]. rewrite bool_decide_true, Z.eqb_refl by done. cbn [negb orb].
  by rewrite bool_decide_false.
Qed.
End facts.

(** ** Witnesses *)

#[local] Existing Instance testRuntime.

Definition exAction : string := "0123456789abcdef".
Definition exPrefix : string := Eval vm_compute in actionIDPrefix exAction.
Definition exExe : string := "MZ executable".

(** A build ID for every file. *)
#[local] Instance exTool : GoTool := λ _, Ok (exPrefix +:+ "/a/b/c" +:+ newline).

Definition exIO : shimIO := ShimIO (λ _, None) (λ _, None) None None None None None "tmp" None.
Definition exShim : cacheShim := newCacheShim false [cacheProgGet; cacheProgPut] "/x".
Definition exFiles : files := {["/cache/o" := SFile exExe true false]}.
Definition exGet : cacheProgRequest := CacheRequest 7 cacheProgGet exAction "" "" 0.
Definition exDown : cacheProgResponse := zeroResponse <| cpOutputID := Sum256 exExe |> <| DiskPath := "/cache/o" |>.
Definition exTarget : string := PathJoin ["/x"; EncodeToString (Sum256 exExe)].

Definition exUp : cacheProgResponse := exDown <| DiskPath := exTarget |>.
Definition exForwarded : cacheShim := (forward exShim exIO exFiles exGet (Ok exDown)).1.1.2.
Definition exCopied : files := <[exTarget := SFile exExe true true]> exFiles.

Lemma exForward : forward exShim exIO exFiles exGet (Ok exDown) = (Ok exUp, exForwarded, exCopied, [CacheLookupEvent exAction true]).
Proof. vm_compute. reflexivity. Qed.


Lemma shim_uploads_witness :
  let s := exShim <| misses := {[exPrefix := exAction]} |> <| uploaded := {[exPrefix]} |> in
  let up := Upload exPrefix "/cache/o" (CacheRequest 0 cacheProgPut exAction (Sum256 exExe) "" 13) in
  reachable_shim (ShimSys s exFiles [up] [] [exAction]) ∧ actionIDPrefix (crActionID (upRequest up)) = upPrefix up.
Proof.
  intros s up. set (s1 := exShim <| misses := {[exPrefix := exAction]} |>).
  assert (Hr : reachable_shim (ShimSys s exFiles [up] [] [exAction])).
  { apply (shim_step (ShimSys s1 exFiles [] [] [exAction])).
    - apply (shim_step (ShimSys exShim exFiles [] [] [])); [constructor|].
      apply (sys_forward exShim exFiles [] [] [] exIO exGet (Ok missResponse) (Ok missResponse) s1 exFiles [CacheLookupEvent exAction false]).
      vm_compute. reflexivity.
    - apply (sys_begin s1 exFiles [] [] [exAction] exIO (ExecutableRegistration "/cache/o" (EncodeToString (Sum256 exExe)) 13)).
      vm_compute. reflexivity. }
  split; [exact Hr|]. apply (proj2 (shim_uploads _ Hr) up). apply list_elem_of_here.
Defined.

Lemma register_after_miss_witness :
  (registerBegin (exShim <| misses := {[exPrefix := exAction]} |>) exIO exFiles (ExecutableRegistration "/cache/o" (EncodeToString (Sum256 exExe)) 13)).1 =
  inr (Upload exPrefix "/cache/o" (CacheRequest 0 cacheProgPut exAction (Sum256 exExe) "" 13)).
Proof.
  apply (register_after_miss exShim exIO exFiles exGet (Ok missResponse) (Ok missResponse) (exShim <| misses := {[exPrefix := exAction]} |>) exFiles
    [CacheLookupEvent exAction false] "/cache/o" exExe (exPrefix +:+ "/a/b/c") "a" "b" "c");
    [vm_compute; reflexivity|reflexivity|reflexivity|discriminate|vm_compute; reflexivity|vm_compute; reflexivity|vm_compute; reflexivity| |].
  - apply list_elem_of_further, list_elem_of_here.
  - apply not_elem_of_empty.
Defined.

(** ** Where the code and its intent differ *)

(** The rename over a stale target fails: the target is handed out though its
    content is another. *)
Theorem forward_stale_target :
  let fs := <[exTarget := SFile "MZ stale" true true]> exFiles in
  let io := ShimIO (λ _, None) (λ _, None) None None None None (Some (EMsg "file in use")) "tmp" None in
  ∃ s' fs', forward exShim io fs exGet (Ok exDown) = (Ok (exDown <| DiskPath := exTarget |>), s', fs', [CacheLookupEvent exAction true]) ∧
  fs' !! exTarget = Some (SFile "MZ stale" true true) ∧ Sum256 "MZ stale" ≠ cpOutputID exDown.
Proof.
  intros fs io. exists (forward exShim io fs exGet (Ok exDown)).1.1.2, (forward exShim io fs exGet (Ok exDown)).1.2.
  split_and!; [vm_compute; reflexivity|vm_compute; reflexivity|vm_compute; discriminate].
Qed.

(** A registration fails, and its reply reports no error. *)
Theorem register_error_lost :
  let s := exShim <| misses := {[exPrefix := exAction]} |> in
  let reg := ExecutableRegistration "/cache/o" (EncodeToString (Sum256 "another")) 13 in
  let sent := λ _ _, Ok exDown in
  (registerExecutable s exIO exFiles reg sent).1.1 = Some (EMsg "captured executable changed before cache upload") ∧
  (handle s exIO exFiles (MRegister (Ok reg)) sent).1.1.1 = RRegister "" ∧ registerTestExecutable (Ok "") = None.
Proof. vm_compute. auto. Qed.
