(* ===== verification/HistoryDaemon.v ===== *)
(** * The history service (cmd/testhistoryd)

    The store on PostgreSQL, with the tables of schema.sql and the effect of
    its statements on them, and the HTTP API in front of it. *)

From Stdlib Require Import Ascii.
From S2P Require Import Prelude GoStrings Utf8 GoFmt Sha256 Quote CappedBuffer HistoryTypes History HistoryStore CacheTypes.

(** ** The tables *)

(** A row of test_history_key; its creation time is not read. *)
Record keyRow := KeyRow {
  krKey : Key;
  krLast : Time
}.

(** A row of test_history_observation; dependencies as the list that its JSON
    stands for, NULL when there is none. *)
Record obsRow := ObsRow {
  rwKeyHash : string;
  rwObservedAt : Time;
  rwOutcome : Outcome;
  rwDuration : Z;
  rwAttempts : Z;
  rwPeak : option Z;
  rwDependencies : option (list Dependency)
}.

(** Primary keys are the scope with the key hash or the observation ID. *)
Record database := Database {
  dbKeys : gmap (string * string) keyRow;
  dbRows : gmap (string * string) obsRow
}.

#[export] Instance eta_database : Eta database := λ d, Database (dbKeys d) (dbRows d).

(** What the database answers to the calls of one operation; the [n]th
    observation of a call has two statements. *)
Record dbIO := DbIO {
  dioBegin : option error;
  dioUpsert : nat → option error;
  dioInsert : nat → option error;
  dioCommit : option error;
  dioQuery : option error;
  dioRows : option error
}.

Definition quietDB : dbIO := DbIO None (λ _, None) (λ _, None) None None None.

(** ** Opening the store *)

Definition schemaVersion : Z := 1.

Fixpoint removeByte (c : ascii) (s : string) : string :=
  match s with
  | EmptyString => ""
  | String a s => if bool_decide (a = c) then removeByte c s else String a (removeByte c s)
  end.

Definition dash : ascii := "-"%char.

(** [parseUUID]; the bytes are copied to an array of sixteen. *)
Definition parseUUID (v : string) : option string :=
  if negb (strlen v =? 36) || existsb (λ i, negb (bool_decide (String.get i v = Some dash))) [8; 13; 18; 23]%nat then None
  else b ← DecodeString (removeByte dash v); Some (takeS 16 (b +:+ concatS (replicate 16 nul))).

Definition newPostgresStore (pool : bool) (scopeID : string) (major : result Z) (schemaErr : option error) (version : result Z)
    : result string :=
  if negb pool then Err (EMsg "nil PostgreSQL pool")
  else
    match parseUUID scopeID with
    | None => Err (EWrap "invalid scope ID: " (EMsg "want UUID"))
    | Some _ =>
        match major with
        | Err e => Err (EWrap "checking PostgreSQL version: " e)
        | Ok major =>
            if negb (major =? 17) then Err (EMsg ("PostgreSQL major version is " +:+ itoa major +:+ "; testhistoryd requires 17"))
            else
              match schemaErr with
              | Some e => Err (EWrap "applying history schema: " e)
              | None =>
                  match version with
                  | Err e => Err (EWrap "reading history schema version: " e)
                  | Ok version =>
                      if negb (version =? schemaVersion) then
                        Err (EMsg ("database schema version is " +:+ itoa version +:+ "; testhistoryd supports " +:+ itoa schemaVersion))
                      else Ok scopeID
                  end
              end
        end
    end.

Section store.
Context `{GoRuntime}.

Definition keyHash (k : Key) : string := Sum256 (keyText k).

(** The text of an outcome that is none of the three. *)
Definition validateObservation (obs : Observation) : option error :=
  if bool_decide (obsID obs = "") || (256 <? strlen (obsID obs)) then Some (EMsg "observation ID must contain 1 to 256 bytes")
  else if bool_decide (kPackage (obsKey obs) = "") || bool_decide (kTest (obsKey obs) = "") ||
          bool_decide (kGOOS (obsKey obs) = "") || bool_decide (kGOARCH (obsKey obs) = "") then
    Some (EMsg "observation key fields must not be empty")
  else if IsZero (ObservedAt obs) then Some (EMsg "observed_at must not be zero")
  else if (obsDuration obs <? 0) || (obsAttempts obs <? 1) || (PeakRSSBytes obs <? 0) then
    Some (EMsg "duration and peak RSS must be non-negative and attempts must be positive")
  else
    match obsOutcome obs with
    | OutcomeOther s => Some (EMsg ("invalid outcome " +:+ Quote s))
    | _ => None
    end.

(** The order of text in the database, and what a timestamptz column gives back
    for a time (it counts microseconds). *)
Context (collate : string → string → Z) (timestamptz : Time → Time) (scopeID : string).

(** ** Record *)

(** INSERT INTO test_history_key ... ON CONFLICT DO UPDATE SET last_observed_at = greatest(...) *)
Definition upsertKey (db : database) (obs : Observation) : database :=
  let pk := (scopeID, keyHash (obsKey obs)) in
  let at_ := timestamptz (ObservedAt obs) in
  match dbKeys db !! pk with
  | None => db <| dbKeys ::= <[pk := KeyRow (obsKey obs) at_]> |>
  | Some r => db <| dbKeys ::= <[pk := KeyRow (krKey r) (Z.max (krLast r) at_)]> |>
  end.

Definition rowOf (obs : Observation) : obsRow :=
  ObsRow (keyHash (obsKey obs)) (timestamptz (ObservedAt obs)) (obsOutcome obs) (obsDuration obs) (obsAttempts obs)
    (if PeakRSSBytes obs =? 0 then None else Some (PeakRSSBytes obs)) (obsDependencies obs).

(** INSERT INTO test_history_observation ... ON CONFLICT DO UPDATE SET
    observation_id = excluded.observation_id RETURNING key_hash: a row that is
    there stays as it is. *)
Definition insertObservation (db : database) (obs : Observation) : string * database :=
  let pk := (scopeID, obsID obs) in
  match dbRows db !! pk with
  | Some r => (rwKeyHash r, db)
  | None => (keyHash (obsKey obs), db <| dbRows ::= <[pk := rowOf obs]> |>)
  end.

(** The loop of [Record] inside the transaction, at the [n]th observation. *)
Fixpoint pgRecordLoop (io : dbIO) (n : nat) (db : database) (observations : list Observation) : result database :=
  match observations with
  | [] => Ok db
  | obs :: observations =>
      match validateObservation obs with
      | Some e => Err e
      | None =>
          match dioUpsert io n with
          | Some e => Err (EWrap "upserting history key: " e)
          | None =>
              let db := upsertKey db obs in
              match dioInsert io n with
              | Some e => Err (EWrap ("inserting observation " +:+ Quote (obsID obs) +:+ ": ") e)
              | None =>
                  let '(existingHash, db) := insertObservation db obs in
                  if negb (bool_decide (existingHash = keyHash (obsKey obs))) then
                    Err (EMsg ("observation ID " +:+ Quote (obsID obs) +:+ " is already associated with another key"))
                  else pgRecordLoop io (S n) db observations
              end
          end
      end
  end.

Definition pgRecord (db : database) (io : dbIO) (observations : list Observation) : option error * database :=
  match observations with
  | [] => (None, db)
  | _ =>
      match dioBegin io with
      | Some e => (Some (EWrap "beginning history transaction: " e), db)
      | None =>
          match pgRecordLoop io 0 db observations with
          | Err e => (Some e, db)
          | Ok db' =>
              match dioCommit io with
              | Some e => (Some (EWrap "committing history: " e), db)
              | None => (None, db')
              end
          end
      end
  end.

(** ** Lookup *)

(** The requested keys, each hash once with the first key that has it. *)
Fixpoint keysByHash (keys : list Key) (seen : list string) : list (string * Key) :=
  match keys with
  | [] => []
  | k :: keys =>
      let h := keyHash k in
      if bool_decide (h ∈ seen) then keysByHash keys seen else (h, k) :: keysByHash keys (h :: seen)
  end.

(** ORDER BY observed_at DESC, observation_id *)
Definition compareRows : (string * obsRow) → (string * obsRow) → Z :=
  lexCmp (revCmp (onCmp (rwObservedAt ∘ snd) cmpZ)) (onCmp fst collate).

(** WHERE scope_id = $2 AND key_hash = requested.key_hash ORDER BY ... LIMIT $3 *)
Definition rowsOf (db : database) (hash : string) : list (string * obsRow) :=
  (λ '(pk, r), (pk.2, r)) <$> filter (λ '(pk, r), pk.1 = scopeID ∧ rwKeyHash r = hash) (map_to_list (dbRows db)).

Definition selectRows (db : database) (hash : string) (limit : Z) : list (string * obsRow) :=
  take (Z.to_nat limit) (sort_by compareRows (rowsOf db hash)).

(** A row as an observation of the requested key. *)
Definition obsOf (key : Key) (r : string * obsRow) : Observation :=
  MkObservation r.1 key (rwObservedAt r.2) (rwOutcome r.2) (rwDuration r.2) (rwAttempts r.2)
    (default 0 (rwPeak r.2)) (rwDependencies r.2).

Definition pgLimit (limit : Z) : Z :=
  let limit := if limit <=? 0 then 32 else limit in
  if 256 <? limit then 256 else limit.

(** [ret] gets an entry when the first row of its key is read. *)
Definition addHistory (db : database) (limit : Z) (ret : gmap string History) (hk : string * Key) : gmap string History :=
  match selectRows db hk.1 limit with
  | [] => ret
  | rows => <[ID hk.2 := MkHistory Version hk.2 (obsOf hk.2 <$> rows)]> ret
  end.

Definition pgLookup (db : database) (io : dbIO) (keys : list Key) (limit : Z) : result (gmap string History) :=
  match keys with
  | [] => Ok ∅
  | _ =>
      match dioQuery io, dioRows io with
      | Some e, _ => Err (EWrap "looking up history: " e)
      | None, Some e => Err (EWrap "reading history: " e)
      | None, None => Ok (foldl (addHistory db (pgLimit limit)) ∅ (keysByHash keys []))
      end
  end.

#[export] Instance postgresStore : HistoryStore database dbIO := {
  storeLookup := pgLookup;
  storeRecord := pgRecord
}.
End store.
