(* ===== verification/HistoryApi.v ===== *)
(** * The HTTP API of the history service (cmd/testhistoryd/server.go), and its
    client's exchange (history.go, [doJSON])

    The API is written against the interface of a store. *)

From S2P Require Import Prelude GoStrings Utf8 GoFmt Sha256 Quote CappedBuffer HistoryTypes History HistoryStore CacheTypes.

Definition LookupPath : string := "/v1/history/lookup".
Definition RecordPath : string := "/v1/history/record".

(** What follows the first JSON value of a body. *)
Inductive trailing := TrailingEOF | TrailingValue | TrailingErr (e : error).

(** A request with what decoding its body as either message gives; the limit of
    16 MB on it is one of the errors. *)
Record httpRequest := HttpRequest {
  hrMethod : string;
  hrPath : string;
  hrAuthorization : string;
  hrLookup : result LookupRequest;
  hrRecord : result RecordRequest;
  hrTrailing : trailing
}.

Inductive apiBody :=
  | NoBody
  | TextBody (s : string)
  | ErrorBody (msg : string)
  | LookupBody (res : LookupResponse).

Record httpResponse := HttpResponse {
  hsStatus : Z;
  hsBody : apiBody
}.

Definition decodeRequest {A} (body : result A) (t : trailing) : result A :=
  match body with
  | Err e => Err (EWrap "invalid JSON request: " e)
  | Ok req =>
      match t with
      | TrailingEOF => Ok req
      | TrailingValue => Err (EMsg "request contains multiple JSON values")
      | TrailingErr e => Err (EWrap "invalid trailing JSON: " e)
      end
  end.

Definition writeAPIError (status : Z) (e : error) : httpResponse := HttpResponse status (ErrorBody (Error e)).

Definition internalError : httpResponse := writeAPIError 500 (EMsg "internal server error").

Section api.
Context `{GoRuntime} {S E : Type} `{!HistoryStore S E}.
Context (validate : Observation → option error).

Definition serveLookup (s : S) (env : E) (r : httpRequest) : httpResponse :=
  match decodeRequest (hrLookup r) (hrTrailing r) with
  | Err e => writeAPIError 400 e
  | Ok req =>
      if negb (lqVersion req =? Version) then writeAPIError 400 (EMsg ("unsupported protocol version " +:+ itoa (lqVersion req)))
      else if 10000 <? Z.of_nat (length (lqKeys req)) then writeAPIError 400 (EMsg "too many lookup keys; maximum is 10000")
      else if (RecentPerKey req <? 0) || (256 <? RecentPerKey req) then
        writeAPIError 400 (EMsg "limit must be between 0 and 256")
      else
        match storeLookup s env (lqKeys req) (RecentPerKey req) with
        | Err _ => internalError
        | Ok histories =>
            HttpResponse 200 (LookupBody (MkLookupResponse Version
              (Some <$> omap (λ key, histories !! ID key) (lqKeys req))))
        end
  end.

(** The first observation that is not valid, from number [i] on. *)
Fixpoint validateAll (i : Z) (observations : list Observation) : option error :=
  match observations with
  | [] => None
  | obs :: observations =>
      match validate obs with
      | Some e => Some (EWrap ("observation " +:+ itoa i +:+ ": ") e)
      | None => validateAll (i + 1) observations
      end
  end.

Definition serveRecord (s : S) (env : E) (r : httpRequest) : httpResponse * S :=
  match decodeRequest (hrRecord r) (hrTrailing r) with
  | Err e => (writeAPIError 400 e, s)
  | Ok req =>
      if negb (rqVersion req =? Version) then (writeAPIError 400 (EMsg ("unsupported protocol version " +:+ itoa (rqVersion req))), s)
      else if 10000 <? Z.of_nat (length (rqObservations req)) then
        (writeAPIError 400 (EMsg "too many observations; maximum is 10000"), s)
      else
        match validateAll 0 (rqObservations req) with
        | Some e => (writeAPIError 400 e, s)
        | None =>
            match storeRecord s env (rqObservations req) with
            | (Some _, s) => (internalError, s)
            | (None, s) => (HttpResponse 204 NoBody, s)
            end
        end
  end.

(** The routes of the mux: a pattern for GET also serves HEAD, and a path that
    is known under another method gets 405. *)
Definition route (s : S) (env : E) (r : httpRequest) : httpResponse * S :=
  if bool_decide (hrPath r = "/healthz") then
    (if bool_decide (hrMethod r ∈ ["GET"; "HEAD"]) then HttpResponse 200 (TextBody ("ok" +:+ newline)) else HttpResponse 405 (TextBody "Method Not Allowed"), s)
  else if bool_decide (hrPath r = LookupPath) then
    (if bool_decide (hrMethod r = "POST") then serveLookup s env r else HttpResponse 405 (TextBody "Method Not Allowed"), s)
  else if bool_decide (hrPath r = RecordPath) then
    (if bool_decide (hrMethod r = "POST") then serveRecord s env r else (HttpResponse 405 (TextBody "Method Not Allowed"), s))
  else (HttpResponse 404 (TextBody "404 page not found"), s).

(** [handler], with [authenticate] in front when there is a token. *)
Definition handler (token : string) (s : S) (env : E) (r : httpRequest) : httpResponse * S :=
  if bool_decide (token = "") || bool_decide (hrPath r = "/healthz") then route s env r
  else
    match CutPrefix (hrAuthorization r) "Bearer " with
    | Some got => if bool_decide (got = token) then route s env r else (HttpResponse 401 (TextBody "unauthorized"), s)
    | None => (HttpResponse 401 (TextBody "unauthorized"), s)
    end.

(** ** The client's exchange *)

(** The error of a response that is not a success. *)
Definition responseError (endpoint : string) (res : httpResponse) : error :=
  EMsg ("history service " +:+ endpoint +:+ ": " +:+ itoa (hsStatus res) +:+ ": " +:+
    match hsBody res with TextBody s | ErrorBody s => s | _ => "" end).

Definition authorization (token : string) : string := if bool_decide (token = "") then "" else "Bearer " +:+ token.

Definition notThis {A} : result A := Err (EMsg "json: unknown field").

(** [doJSON] to the service with a message that its encoding carries unchanged. *)
Definition lookupOverHTTP (clientToken token : string) (s : S) (env : E) (req : LookupRequest) : result LookupResponse :=
  let res := (handler token s env (HttpRequest "POST" LookupPath (authorization clientToken) (Ok req) notThis TrailingEOF)).1 in
  if (hsStatus res <? 200) || (300 <=? hsStatus res) then Err (responseError LookupPath res)
  else match hsBody res with LookupBody l => Ok l | _ => Err (EMsg "EOF") end.

Definition recordOverHTTP (clientToken token : string) (s : S) (env : E) (req : RecordRequest) : option error * S :=
  let '(res, s) := handler token s env (HttpRequest "POST" RecordPath (authorization clientToken) notThis (Ok req) TrailingEOF) in
  (if (hsStatus res <? 200) || (300 <=? hsStatus res) then Some (responseError RecordPath res) else None, s).
End api.
