(* ===== verification/HistoryDaemonFacts.v ===== *)
(** * What the history service guarantees *)

From Stdlib Require Import Ascii.
From S2P Require Import Prelude GoStrings Utf8 GoFmt Sha256 Quote CappedBuffer HistoryTypes History HistoryFacts HistoryStore HistoryStoreFacts CacheTypes HistoryDaemon HistoryApi.

Section facts.
Context `{GoRuntime} (timestamptz : Time → Time) (scopeID : string).

Abbreviation upsertKey := (upsertKey timestamptz scopeID).
Abbreviation insertObservation := (insertObservation timestamptz scopeID).
Abbreviation pgRecordLoop := (pgRecordLoop timestamptz scopeID).
Abbreviation pgRecord := (pgRecord timestamptz scopeID).

(** ** Recording *)

(** The rows of [db] are kept, and last-observed times do not go back. *)
Record grows (db db' : database) : Prop := {
  gr_rows : dbRows db ⊆ dbRows db';
  gr_keys : ∀ pk r, dbKeys db !! pk = Some r → ∃ r', dbKeys db' !! pk = Some r' ∧ krKey r' = krKey r ∧ krLast r ≤ krLast r'
}.

#[local] Instance grows_preorder : PreOrder grows.
Proof using Type.
  split.
  - intros db. split; [done|]. intros pk r Hr. exists r. split_and!; [done|done|lia].
  - intros a b c [H1 H2] [H3 H4]. split; [by etrans|]. intros pk r Hr. destruct (H2 pk r Hr) as (r1 & Hr1 & E1 & L1).
    destruct (H4 pk r1 Hr1) as (r2 & Hr2 & E2 & L2). exists r2. split_and!; [done|congruence|lia].
Qed.

(** An observation is in the database when its row is there, under its key, and
    its key has been seen at its time. *)
Definition recorded (db : database) (obs : Observation) : Prop :=
  (∃ r, dbRows db !! (scopeID, obsID obs) = Some r ∧ rwKeyHash r = keyHash (obsKey obs)) ∧
  (∃ k, dbKeys db !! (scopeID, keyHash (obsKey obs)) = Some k ∧ timestamptz (ObservedAt obs) ≤ krLast k).

Lemma recorded_grows db db' obs : grows db db' → recorded db obs → recorded db' obs.
Proof using Type.
  intros [Hr Hk] [(r & E1 & E2) (k & E3 & E4)]. split.
  - exists r. split; [by eapply lookup_weaken|done].
  - destruct (Hk _ _ E3) as (k' & E & _ & L). exists k'. split; [done|lia].
Qed.

Lemma upsertKey_grows db obs :
  grows db (upsertKey db obs) ∧ dbRows (upsertKey db obs) = dbRows db ∧
  ∃ k, dbKeys (upsertKey db obs) !! (scopeID, keyHash (obsKey obs)) = Some k ∧ timestamptz (ObservedAt obs) ≤ krLast k.
Proof using Type.
  unfold HistoryDaemon.upsertKey. destruct (dbKeys db !! _) as [r|] eqn:E; simpl; split_and!; try done.
  - split; [done|]. intros pk r' Hr'. simpl. destruct (decide (pk = (scopeID, keyHash (obsKey obs)))) as [->|Hne].
    + rewrite lookup_insert_eq. eexists. split_and!; [done|simpl; congruence|]. assert (r' = r) as -> by congruence. simpl. lia.
    + rewrite lookup_insert_ne by done. exists r'. split_and!; [done|done|lia].
  - rewrite lookup_insert_eq. eexists. split; [done|]. simpl. lia.
  - split; [done|]. intros pk r' Hr'. simpl. rewrite lookup_insert_ne by congruence. exists r'. split_and!; [done|done|lia].
  - rewrite lookup_insert_eq. eexists. split; [done|]. simpl. lia.
Qed.

Lemma insert_grows db obs :
  grows db (insertObservation db obs).2 ∧ dbKeys (insertObservation db obs).2 = dbKeys db ∧
  ∃ r, dbRows (insertObservation db obs).2 !! (scopeID, obsID obs) = Some r ∧ (insertObservation db obs).1 = rwKeyHash r ∧
    (dbRows db !! (scopeID, obsID obs) = None → r = rowOf timestamptz obs) ∧
    (∀ pk, pk ≠ (scopeID, obsID obs) → dbRows (insertObservation db obs).2 !! pk = dbRows db !! pk).
Proof using Type.
  unfold HistoryDaemon.insertObservation. destruct (dbRows db !! _) as [r|] eqn:E; simpl; split_and!; try done.
  - exists r. by split_and!.
  - split; simpl; [by apply insert_subseteq|]. intros pk r Hr. exists r. split_and!; [done|done|lia].
  - rewrite lookup_insert_eq. eexists. split_and!; [done|done|done|]. intros pk Hpk. by rewrite lookup_insert_ne.
Qed.

(** What one observation of the loop does. *)
Lemma pgRecordLoop_cons io n db obs l db' :
  pgRecordLoop io n db (obs :: l) = Ok db' →
  validateObservation obs = None ∧
  ∃ db1, grows db db1 ∧ recorded db1 obs ∧ pgRecordLoop io (S n) db1 l = Ok db' ∧
    (dbRows db !! (scopeID, obsID obs) = None → dbRows db1 !! (scopeID, obsID obs) = Some (rowOf timestamptz obs)) ∧
    (∀ pk, pk ≠ (scopeID, obsID obs) → dbRows db1 !! pk = dbRows db !! pk).
Proof using Type.
  simpl. destruct (validateObservation obs); [done|]. destruct (dioUpsert io n); [done|]. destruct (dioInsert io n); [done|].
  destruct (upsertKey_grows db obs) as (G1 & R1 & k & K1 & L1). set (db0 := upsertKey db obs) in *.
  destruct (insert_grows db0 obs) as (G2 & K2 & r & R2 & Hh & Hnew & Hoth).
  destruct (insertObservation db0 obs) as [hash db1]. simpl in *. case_bool_decide as Hc; [|done]. cbn [negb]. intros Hl.
  split; [done|]. exists db1. split_and!; [by etrans| |done| |].
  - split; [exists r; by split; [|congruence]|]. exists k. by rewrite K2.
  - intros Hn. rewrite R1 in Hnew. by rewrite R2, Hnew.
  - intros pk Hpk. by rewrite Hoth, R1.
Qed.

Lemma pgRecordLoop_grows io : ∀ l n db db', pgRecordLoop io n db l = Ok db' → grows db db' ∧ Forall (recorded db') l.
Proof using Type.
  induction l as [|obs l IH]; intros n db db' Hl.
  { injection Hl as <-. by split; [|constructor]. }
  apply pgRecordLoop_cons in Hl as (_ & db1 & G & R & Hl & _ & _). destruct (IH _ _ _ Hl) as [G' F].
  split; [by etrans|]. constructor; [by eapply recorded_grows|done].
Qed.

(** An observation with an ID that is new becomes a row with its values. *)
Lemma pgRecordLoop_fresh io obs : ∀ l n db db',
  pgRecordLoop io n db l = Ok db' → obs ∈ l → NoDup (obsID <$> l) → dbRows db !! (scopeID, obsID obs) = None →
  dbRows db' !! (scopeID, obsID obs) = Some (rowOf timestamptz obs).
Proof using Type.
  induction l as [|o l IH]; intros n db db' Hl Hin Hnd Hnone; [by apply elem_of_nil in Hin|].
  apply pgRecordLoop_cons in Hl as (_ & db1 & _ & _ & Hl & Hrow & Hoth). rewrite fmap_cons, NoDup_cons in Hnd. destruct Hnd as [Hni Hnd].
  apply elem_of_cons in Hin as [->|Hin].
  - destruct (pgRecordLoop_grows io l _ _ _ Hl) as [[Hsub _] _]. eapply lookup_weaken; [|exact Hsub]. by apply Hrow.
  - apply (IH _ _ _ Hl Hin Hnd). rewrite Hoth; [done|]. intros [= E]. apply Hni. rewrite <- E. apply list_elem_of_fmap. by exists obs.
Qed.

(** Recording what is there changes nothing. *)
Lemma pgRecordLoop_recorded n l db :
  Forall (λ obs, validateObservation obs = None) l → Forall (recorded db) l → pgRecordLoop quietDB n db l = Ok db.
Proof using Type.
  intros Hv. revert n. induction Hv as [|obs l Hv _ IH]; intros n Hr; [done|].
  apply Forall_cons in Hr as [[(r & E1 & E2) (k & E3 & E4)] Hr]. simpl. rewrite Hv.
  assert (Hup : upsertKey db obs = db).
  { unfold HistoryDaemon.upsertKey. rewrite E3. destruct db as [ks rs]. simpl in *. unfold set_field. simpl. f_equal.
    apply insert_id. rewrite E3. f_equal. destruct k as [kk kl]. simpl in *. f_equal. lia. }
  rewrite Hup. unfold HistoryDaemon.insertObservation. rewrite E1, bool_decide_true by done. cbn [negb]. by apply IH.
Qed.

Lemma pgRecordLoop_valid io : ∀ l n db db', pgRecordLoop io n db l = Ok db' → Forall (λ obs, validateObservation obs = None) l.
Proof using Type.
  induction l as [|obs l IH]; intros n db db' Hl; [constructor|].
  apply pgRecordLoop_cons in Hl as (Hv & db1 & _ & _ & Hl & _ & _). constructor; [done|by eapply IH].
Qed.

Lemma pgRecord_spec db io l err db' :
  pgRecord db io l = (err, db') →
  match err with
  | Some _ => db' = db
  | None => grows db db' ∧ Forall (recorded db') l ∧ pgRecord db' quietDB l = (None, db')
  end.
Proof using Type.
  unfold HistoryDaemon.pgRecord. destruct l as [|obs l]; [intros [= <- <-]; by split_and!|].
  destruct (dioBegin io); [by intros [= <- <-]|]. destruct (pgRecordLoop io 0 db (obs :: l)) as [db1|] eqn:Hl; [|by intros [= <- <-]].
  destruct (dioCommit io); intros [= <- <-]; [done|]. destruct (pgRecordLoop_grows _ _ _ _ _ Hl) as [G F].
  split_and!; [done|done|]. cbn [dioBegin quietDB]. rewrite (pgRecordLoop_recorded 0 (obs :: l) db1); [done| |done].
  by eapply pgRecordLoop_valid.
Qed.
End facts.

(** ** Looking up *)

Section lookup.
Context `{GoRuntime} (collate : string → string → Z) (scopeID : string).

Abbreviation pgLookup := (pgLookup collate scopeID).

Lemma ID_keyHash k k' : ID k = ID k' ↔ keyHash k = keyHash k'.
Proof using Type. unfold ID, hashString, keyHash. split; [apply EncodeToString_inj|congruence]. Qed.

Lemma keysByHash_spec keys : ∀ seen,
  NoDup (keysByHash keys seen).*1 ∧
  (∀ h k, (h, k) ∈ keysByHash keys seen → h = keyHash k ∧ k ∈ keys ∧ h ∉ seen) ∧
  (∀ k, k ∈ keys → keyHash k ∉ seen → keyHash k ∈ (keysByHash keys seen).*1).
Proof using Type.
  induction keys as [|k keys IH]; intros seen.
  { split_and!; [constructor|intros ? ? Hin; by apply elem_of_nil in Hin|intros ? Hin; by apply elem_of_nil in Hin]. }
  simpl. case_bool_decide as Hs.
  - destruct (IH seen) as (H1 & H2 & H3). split_and!; [done| |].
    + intros h k' Hin. destruct (H2 h k' Hin) as (? & ? & ?). split_and!; [done|by apply elem_of_cons; right|done].
    + intros k' [->|Hin]%elem_of_cons Hn; [done|by apply H3].
  - destruct (IH (keyHash k :: seen)) as (H1 & H2 & H3). split_and!.
    + simpl. apply NoDup_cons. split; [|done]. intros ([h k'] & E & Hin)%list_elem_of_fmap. simpl in E. subst h.
      destruct (H2 _ _ Hin) as (_ & _ & Hn). apply Hn, elem_of_cons. by left.
    + intros h k' [[= -> ->]|Hin]%elem_of_cons; [split_and!; [done|apply elem_of_cons; by left|done]|].
      destruct (H2 h k' Hin) as (? & ? & Hn). split_and!; [done|by apply elem_of_cons; right|]. intros ?. apply Hn, elem_of_cons. by right.
    + intros k' Hin Hn. simpl. apply elem_of_cons. destruct (decide (keyHash k' = keyHash k)) as [->|Hne]; [by left|right].
      apply H3; [|by intros [?|?]%elem_of_cons]. by apply elem_of_cons in Hin as [->|?].
Qed.

(** What the rows of a hash make. *)
Definition historyOf (db : database) (limit : Z) (k : Key) : option History :=
  match selectRows collate scopeID db (keyHash k) limit with
  | [] => None
  | rows => Some (MkHistory Version k (obsOf k <$> rows))
  end.

Lemma addHistory_other db limit ret h k id :
  ID k ≠ id → addHistory collate scopeID db limit ret (h, k) !! id = ret !! id.
Proof using Type. intros Hne. unfold addHistory. simpl. destruct (selectRows _ _ _ _ _); [done|]. by rewrite lookup_insert_ne. Qed.

Lemma foldl_addHistory_other db limit id l : ∀ ret,
  id ∉ ID <$> l.*2 → foldl (addHistory collate scopeID db limit) ret l !! id = ret !! id.
Proof using Type.
  induction l as [|[h k] l IH]; intros ret Hn; [done|]. simpl. rewrite !fmap_cons, not_elem_of_cons in Hn. simpl in Hn.
  rewrite IH by tauto. apply addHistory_other. naive_solver.
Qed.

Lemma foldl_addHistory db limit h k l : ∀ ret,
  (∀ h k, (h, k) ∈ l → h = keyHash k) → NoDup l.*1 → (h, k) ∈ l → ret !! ID k = None →
  foldl (addHistory collate scopeID db limit) ret l !! ID k = historyOf db limit k.
Proof using Type.
  induction l as [|[h' k'] l IH]; intros ret Hh Hnd Hin Hr; [by apply elem_of_nil in Hin|]. simpl.
  rewrite fmap_cons, NoDup_cons in Hnd. destruct Hnd as [Hni Hnd]. simpl in Hni.
  assert (h' = keyHash k') as -> by (apply Hh, elem_of_cons; by left).
  assert (Hin' : ∀ k0, k0 ∈ l.*2 → keyHash k0 ∈ l.*1).
  { intros k0 ([h0 k1] & -> & Hx)%list_elem_of_fmap. apply list_elem_of_fmap. exists (h0, k1). split; [|done].
    symmetry. apply Hh, elem_of_cons. by right. }
  apply elem_of_cons in Hin as [[= -> ->]|Hin].
  - rewrite foldl_addHistory_other.
    + unfold addHistory, historyOf. simpl. destruct (selectRows _ _ _ _ _); [done|]. by rewrite lookup_insert_eq.
    + intros (k0 & E & Hk0)%list_elem_of_fmap. apply Hni. apply ID_keyHash in E. rewrite E. by apply Hin'.
  - apply IH; [intros; apply Hh, elem_of_cons; by right|done|done|]. rewrite addHistory_other; [done|].
    intros E. apply Hni. apply ID_keyHash in E. rewrite E. apply Hin'. apply list_elem_of_fmap. by exists (h, k).
Qed.

Lemma historyOf_key db limit k k' : ID k = ID k' → historyOf db limit k = None ↔ historyOf db limit k' = None.
Proof using Type. intros E. apply ID_keyHash in E. unfold historyOf. rewrite E. by destruct (selectRows _ _ _ _ _). Qed.

Lemma pgLookup_spec db io keys limit found :
  pgLookup db io keys limit = Ok found →
  (∀ id, id ∉ ID <$> keys → found !! id = None) ∧
  (∀ k, k ∈ keys → ∃ k', k' ∈ keys ∧ ID k' = ID k ∧ found !! ID k = historyOf db (pgLimit limit) k').
Proof using Type.
  unfold HistoryDaemon.pgLookup. destruct keys as [|k0 keys0] eqn:Ek.
  { intros [= <-]. split; [done|]. intros k Hk. by apply elem_of_nil in Hk. }
  rewrite <- Ek in *. clear Ek. destruct (dioQuery io); [done|]. destruct (dioRows io); [done|]. intros Hf.
  assert (found = foldl (addHistory collate scopeID db (pgLimit limit)) ∅ (keysByHash keys [])) as -> by congruence. clear Hf.
  destruct (keysByHash_spec keys []) as (H1 & H2 & H3). split.
  - intros id Hid. rewrite foldl_addHistory_other; [done|]. intros (k & -> & Hk)%list_elem_of_fmap. apply Hid.
    apply list_elem_of_fmap. exists k. split; [done|]. apply list_elem_of_fmap in Hk as ([h k1] & -> & Hx). by destruct (H2 _ _ Hx) as (_ & ? & _).
  - intros k Hk. assert (Hin : keyHash k ∈ (keysByHash keys []).*1) by (apply H3; [done|apply not_elem_of_nil]).
    apply list_elem_of_fmap in Hin as ([h k'] & Eh & Hin). simpl in Eh. subst h. destruct (H2 _ _ Hin) as (Eh & Hk' & _).
    exists k'. assert (HID : ID k' = ID k) by (by apply ID_keyHash). split_and!; [done|done|]. rewrite <- HID.
    by apply (foldl_addHistory _ _ (keyHash k)); [intros ? ? Hx; apply (H2 _ _ Hx)| | |].
Qed.

(** The database compares text byte by byte, as Go does. *)
Hypothesis collate_bytes : ∀ a b, collate a b = Compare a b.

Lemma compareRows_obs k r1 r2 : compareRows collate r1 r2 = compareHistoryObservations (obsOf k r1) (obsOf k r2).
Proof using collate_bytes. unfold compareRows, compareHistoryObservations, lexCmp, revCmp, onCmp. simpl. by rewrite collate_bytes. Qed.

#[local] Instance compareRows_good : GoodCmp (compareRows collate).
Proof using collate_bytes.
  set (k := MkKey "" "" "" "" [] []). split; intros; rewrite !(compareRows_obs k) in *; [apply cmp_refl|apply cmp_flip|by eapply cmp_trans].
Qed.

Lemma historyOf_ok db keys limit k h :
  k ∈ keys → historyOf db (pgLimit limit) k = Some h → history_ok keys limit (ID k) h.
Proof using collate_bytes.
  intros Hk. unfold historyOf. destruct (selectRows _ _ _ _ _) as [|r rows] eqn:Hs; [done|]. intros E.
  assert (h = MkHistory Version k (obsOf k <$> selectRows collate scopeID db (keyHash k) (pgLimit limit))) as -> by (rewrite Hs; congruence). clear E Hs r rows.
  assert (Hlen : 0 ≤ pgLimit limit ≤ effectiveLimit limit).
  { unfold pgLimit, effectiveLimit, historyRequestLimit. destruct (Z.leb_spec limit 0); [done|]. destruct (Z.ltb_spec 256 limit); lia. }
  split; simpl; [done|apply list_elem_of_fmap; by exists k|done| | |].
  - apply Forall_fmap, Forall_true. done.
  - unfold selectRows. set (l := sort_by _ _).
    assert (Hss : StronglySorted (cmp_le (compareRows collate)) (take (Z.to_nat (pgLimit limit)) l)).
    { pose proof (sort_by_StronglySorted (compareRows collate) (rowsOf scopeID db (keyHash k))) as Hss. fold l in Hss.
      rewrite <- (take_drop (Z.to_nat (pgLimit limit)) l) in Hss. by apply StronglySorted_app_1_l in Hss. }
    induction Hss as [|x l' _ IH Hx]; simpl; constructor; [done|]. apply Forall_fmap. eapply Forall_impl; [exact Hx|].
    intros y. unfold cmp_le. simpl. by rewrite (compareRows_obs k).
  - rewrite length_fmap. unfold selectRows. rewrite length_take. lia.
Qed.

#[export] Instance postgresStoreLaws (timestamptz : Time → Time) : HistoryStoreLaws database dbIO (HistoryStore0 := postgresStore collate timestamptz scopeID).
Proof using collate_bytes.
  constructor. intros db env keys limit found Hl id h Hid. apply pgLookup_spec in Hl as [Hn Hs].
  destruct (decide (id ∈ ID <$> keys)) as [Hin|Hni]; [|by rewrite (Hn id Hni) in Hid].
  apply list_elem_of_fmap in Hin as (k & -> & Hk). destruct (Hs k Hk) as (k' & Hk' & HID & E). rewrite E in Hid.
  rewrite <- HID. by apply (historyOf_ok db keys limit k').
Qed.
End lookup.
