(* ===== verification/HistoryServiceFacts.v ===== *)
(** * The client of the history service over the service

    The client of history.go and the API of cmd/testhistoryd together, over any
    store that keeps the promises of its interface, and over PostgreSQL. *)

From S2P Require Import Prelude GoStrings Utf8 GoFmt Sha256 Quote CappedBuffer HistoryTypes History HistoryFacts HistoryStore HistoryStoreFacts CacheTypes HistoryDaemon HistoryApi HistoryDaemonFacts.

Section service.
Context `{GoRuntime} {S E : Type} `{!HistoryStore S E} `{!HistoryStoreLaws S E}.
Context (validate : Observation → option error).

(** ** Lookups *)

(** A history that keeps its promises passes the client's checks unchanged. *)
Lemma httpHistories_accepts keys limit : ∀ hs ret,
  0 < limit → Forall (λ h, history_ok keys limit (ID (hKey h)) h) hs →
  httpHistories (ID <$> keys) limit (Some <$> hs) ret = Ok (foldl (λ m h, <[ID (hKey h) := h]> m) ret hs).
Proof using Type.
  induction hs as [|h hs IH]; intros ret Hlim Hok; [done|]. apply Forall_cons in Hok as [[_ Hw Hv Hk Hs Hl] Hok]. simpl.
  rewrite Hv, (bool_decide_true _ Hw). simpl negb. cbn [orb].
  assert (Hfil : filter (λ obs, ID (obsKey obs) ≠ ID (hKey h)) (Observations h) = []).
  { clear -Hk. induction Hk as [|o l Ho _ IH]; [done|]. rewrite filter_cons_False; [done|]. intros Hne. by apply Hne. }
  rewrite Hfil. cbv zeta. rewrite (sort_by_id _ _ Hs). unfold effectiveLimit in Hl. destruct (Z.leb_spec limit 0); [lia|].
  destruct (Z.ltb_spec limit (Z.of_nat (length (Observations h)))); [lia|]. rewrite IH by done. destruct h as [v k o]. simpl in Hv. by subst v.
Qed.

Lemma insert_histories (found : gmap string History) (hs : list History) : ∀ (ret : gmap string History) id,
  (∀ h, h ∈ hs → found !! ID (hKey h) = Some h) →
  foldl (λ m h, <[ID (hKey h) := h]> m) ret hs !! id =
    (if bool_decide (id ∈ (λ h, ID (hKey h)) <$> hs) then found !! id else ret !! id).
Proof using Type.
  induction hs as [|h hs IH]; intros ret id Hf; [done|]. simpl. rewrite IH by (intros; apply Hf, elem_of_cons; by right).
  case_bool_decide as Hin.
  - rewrite bool_decide_true by (apply elem_of_cons; by right). done.
  - destruct (decide (id = ID (hKey h))) as [->|Hne].
    + rewrite lookup_insert_eq, bool_decide_true by (apply elem_of_cons; by left). symmetry. apply Hf, elem_of_cons. by left.
    + rewrite lookup_insert_ne by done. rewrite bool_decide_false; [done|]. by intros [?|?]%elem_of_cons.
Qed.

(** The client's token opens the service. *)
Definition admitted (clientToken token : string) : Prop := token = "" ∨ clientToken = token.

Lemma handler_admitted clientToken token (s : S) (env : E) r :
  admitted clientToken token → hrAuthorization r = authorization clientToken → handler validate token s env r = route validate s env r.
Proof using Type.
  intros Ha Hr. unfold handler. case_bool_decide as Ht; [done|]. cbn [orb]. case_bool_decide; [done|]. rewrite Hr.
  destruct Ha as [?| ->]; [done|]. unfold authorization. rewrite bool_decide_false by done.
  assert (Hc : CutPrefix ("Bearer " +:+ token) "Bearer " = Some token) by (by apply CutPrefix_Some).
  by rewrite Hc, bool_decide_true.
Qed.

Lemma lookup_transparent clientToken token s env keys limit :
  admitted clientToken token → Z.of_nat (length keys) ≤ 10000 → effectiveLimit limit ≤ 256 →
  match storeLookup s env keys (effectiveLimit limit) with
  | Ok found => httpLookup (lookupOverHTTP validate clientToken token s env) keys limit = Ok found
  | Err _ => ∃ e, httpLookup (lookupOverHTTP validate clientToken token s env) keys limit = Err e
  end.
Proof using All.
  intros Ha Hk Hl. set (lim := effectiveLimit limit) in *.
  assert (Hpos : 0 < lim) by (unfold lim, effectiveLimit, historyRequestLimit; destruct (Z.leb_spec limit 0); lia).
  unfold httpLookup, lookupOverHTTP. fold lim. rewrite (handler_admitted clientToken) by done.
  unfold route. cbn [hrPath hrMethod]. rewrite !(bool_decide_true (LookupPath = LookupPath)) by done. simpl (bool_decide (LookupPath = "/healthz")). cbv iota.
  rewrite (bool_decide_true ("POST" = "POST")) by done. cbv iota. cbn [fst]. unfold serveLookup. cbn [hrLookup hrTrailing decodeRequest lqVersion lqKeys RecentPerKey].
  rewrite Z.eqb_refl. cbn [negb]. destruct (Z.ltb_spec 10000 (Z.of_nat (length keys))); [lia|].
  destruct (Z.ltb_spec lim 0); [lia|]. destruct (Z.ltb_spec 256 lim); [lia|]. cbn [orb].
  destruct (storeLookup s env keys lim) as [found|e] eqn:Hs.
  2:{ unfold internalError, writeAPIError. cbn. by eexists. }
  cbn [hsStatus hsBody]. simpl ((200 <? 200) || _). cbv iota. change (300 <=? 200) with false. cbv iota. cbn [lrVersion Histories]. rewrite Z.eqb_refl. cbn [negb].
  pose proof (lookup_ok s env keys lim found Hs) as Hok. set (hs := omap (λ key, found !! ID key) keys).
  assert (Hin : ∀ h, h ∈ hs → found !! ID (hKey h) = Some h).
  { intros h (k & Hkk & Hf)%list_elem_of_omap. pose proof (ho_key _ _ _ _ (Hok _ _ Hf)) as ->. done. }
  rewrite httpHistories_accepts; [|done|].
  - f_equal. apply map_eq. intros id. rewrite (insert_histories found) by done. case_bool_decide as Hid; [done|].
    rewrite lookup_empty. destruct (found !! id) as [h|] eqn:Hf; [|done]. destruct Hid.
    pose proof (Hok _ _ Hf) as [Hkey Hw _ _ _ _]. apply list_elem_of_fmap. exists h. split; [done|].
    apply list_elem_of_fmap in Hw as (k & -> & Hkk). apply list_elem_of_omap. by exists k.
  - apply Forall_forall. intros h Hh. apply Hok, Hin, Hh.
Qed.

(** ** Records *)

Lemma validateAll_None l : ∀ i, validateAll validate i l = None ↔ Forall (λ obs, validate obs = None) l.
Proof using Type.
  induction l as [|obs l IH]; intros i; simpl; [done|]. rewrite Forall_cons. destruct (validate obs); [naive_solver|]. rewrite IH. naive_solver.
Qed.

(** A request to record is refused, or the store has the word. *)
Lemma record_cases clientToken token s env l :
  admitted clientToken token →
  let r := recordOverHTTP validate clientToken token s env (MkRecordRequest Version l) in
  if bool_decide (Z.of_nat (length l) ≤ 10000 ∧ Forall (λ obs, validate obs = None) l) then
    r.2 = (storeRecord s env l).2 ∧ (r.1 = None ↔ (storeRecord s env l).1 = None)
  else r.2 = s ∧ r.1 ≠ None.
Proof using Type.
  intros Ha. cbv zeta. unfold recordOverHTTP. rewrite (handler_admitted clientToken) by done.
  unfold route. cbn [hrPath hrMethod]. simpl (bool_decide (RecordPath = "/healthz")). simpl (bool_decide (RecordPath = LookupPath)). cbv iota.
  rewrite !(bool_decide_true (RecordPath = RecordPath)), (bool_decide_true ("POST" = "POST")) by done. cbv iota.
  unfold serveRecord. cbn [hrRecord hrTrailing decodeRequest rqVersion rqObservations]. rewrite Z.eqb_refl. cbn [negb].
  pose proof (validateAll_None l 0) as Hv. destruct (Z.ltb_spec 10000 (Z.of_nat (length l))).
  { rewrite bool_decide_false by (intros [? _]; lia). by split. }
  destruct (validateAll validate 0 l); [rewrite bool_decide_false by naive_solver; by split|].
  rewrite bool_decide_true by naive_solver. destruct (storeRecord s env l) as [[e|] s']; cbn; split; done.
Qed.

Lemma record_transparent clientToken token s env l :
  admitted clientToken token → Z.of_nat (length l) ≤ 10000 → Forall (λ obs, validate obs = None) l →
  let r := recordOverHTTP validate clientToken token s env (MkRecordRequest Version l) in
  r.2 = (storeRecord s env l).2 ∧ (r.1 = None ↔ (storeRecord s env l).1 = None).
Proof using Type. intros Ha Hk Hv. pose proof (record_cases clientToken token s env l Ha) as Hr. by rewrite bool_decide_true in Hr. Qed.

(** A success means that the store recorded the observations. *)
Lemma record_accepted clientToken token s env l s' :
  admitted clientToken token → recordOverHTTP validate clientToken token s env (MkRecordRequest Version l) = (None, s') →
  storeRecord s env l = (None, s') ∧ Z.of_nat (length l) ≤ 10000 ∧ Forall (λ obs, validate obs = None) l.
Proof using Type.
  intros Ha Hr. pose proof (record_cases clientToken token s env l Ha) as Hc. rewrite Hr in Hc. simpl in Hc.
  case_bool_decide as Hb; [|by destruct Hc]. destruct Hc as [-> Hc]. split; [|done].
  destruct (storeRecord s env l) as [err s1]. simpl in *. by rewrite (proj1 Hc eq_refl).
Qed.


(** C32: With a token, nothing is read from the store or written to it on behalf of a
    request that does not carry the token. *)
Theorem api_authenticated token s env r res s' :
  handler validate token s env r = (res, s') → token ≠ "" → hrAuthorization r ≠ "Bearer " +:+ token →
  s' = s ∧ (hsStatus res = 401 ∨ hrPath r = "/healthz") ∧ ∀ l, hsBody res ≠ LookupBody l.
Proof using Type.
  unfold handler. intros Hh Ht Hr. revert Hh. rewrite bool_decide_false by done. cbn [orb]. case_bool_decide as Hp.
  - unfold route. rewrite (bool_decide_true _ Hp). case_bool_decide; intros [= <- <-]; split_and!; auto.
  - destruct (CutPrefix _ _) as [got|] eqn:Hc; [|intros [= <- <-]; split_and!; auto].
    apply CutPrefix_Some in Hc. rewrite bool_decide_false by congruence. intros [= <- <-]; split_and!; auto.
Qed.
End service.

(** ** The service over PostgreSQL *)

Section postgres.
Context `{GoRuntime} (collate : string → string → Z) (timestamptz : Time → Time) (scopeID : string).

#[local] Existing Instance postgresStore.
#[local] Existing Instance postgresStoreLaws.

Abbreviation store := (postgresStore collate timestamptz scopeID).
Abbreviation lookupOver := (lookupOverHTTP (HistoryStore0 := store) validateObservation).
Abbreviation recordOver := (recordOverHTTP (HistoryStore0 := store) validateObservation).

Lemma rowsOf_elem db id r : (id, r) ∈ rowsOf scopeID db (rwKeyHash r) ↔ dbRows db !! (scopeID, id) = Some r.
Proof using Type.
  unfold rowsOf. rewrite list_elem_of_fmap. split.
  - intros ([[sc id'] r'] & E & Hin). simpl in E. assert (id' = id ∧ r' = r) as [-> ->] by (split; congruence). clear E. apply list_elem_of_filter in Hin as [[Hsc _] Hin]. simpl in Hsc. subst sc. by apply elem_of_map_to_list in Hin.
  - intros Hr. exists ((scopeID, id), r). split; [done|]. apply list_elem_of_filter. split; [done|]. by apply elem_of_map_to_list.
Qed.


(** A request to record that fails leaves the database as it is, for the service
    and for every later request; one that succeeds keeps every row there was, has
    a row under the right key for each of its observations, and may be sent again
    by a client that missed the answer: it succeeds again and changes nothing. *)
Theorem service_record_atomic clientToken token db env l err db' :
  admitted clientToken token → recordOver clientToken token db env (MkRecordRequest Version l) = (err, db') →
  match err with
  | Some _ => db' = db
  | None => grows db db' ∧ Forall (recorded timestamptz scopeID db') l ∧
            recordOver clientToken token db' quietDB (MkRecordRequest Version l) = (None, db')
  end.
Proof using Type.
  intros Ha Hrec. destruct err as [e|].
  - pose proof (record_cases (HistoryStore0 := store) validateObservation clientToken token db env l Ha) as Hr. rewrite Hrec in Hr. simpl in Hr.
    case_bool_decide; destruct Hr as [-> Hr]; [|done]. destruct (pgRecord timestamptz scopeID db env l) as [[e'|] s1] eqn:Hs; [|naive_solver].
    by apply pgRecord_spec in Hs.
  - apply record_accepted in Hrec as (Hs & Hlen & Hval); [|done].
    destruct (pgRecord_spec timestamptz scopeID db env l None db' Hs) as (G & F & Hagain). split_and!; [done|done|].
    destruct (record_transparent (HistoryStore0 := store) validateObservation clientToken token db' quietDB l Ha Hlen Hval) as [E1 E2].
    cbn [storeRecord postgresStore] in E1, E2. rewrite Hagain in E1, E2. simpl in E1, E2.
    destruct (recordOver clientToken token db' quietDB (MkRecordRequest Version l)) as [err s1]. simpl in *. subst s1. f_equal. by apply E2.
Qed.
End postgres.

(** ** Witnesses *)

#[local] Existing Instance testRuntime.

Definition exKey : Key := MkKey "m/p" "TestA" "linux" "amd64" [] [].
Definition exObs : Observation := MkObservation "obs-1" exKey 1234567 OutcomePass 5 1 0 None.
Definition exScope : string := "00000000-0000-0000-0000-000000000001".
Definition exDB : database := Database ∅ ∅.
(** Microseconds *)
Definition exTimestamptz (t : Time) : Time := t / 1000 * 1000.

#[local] Instance exStore : HistoryStore database dbIO := postgresStore Compare exTimestamptz exScope.
#[local] Instance exStoreLaws : HistoryStoreLaws database dbIO := postgresStoreLaws Compare exScope (λ _ _, eq_refl) exTimestamptz.

Definition exDB' : database := (pgRecord exTimestamptz exScope exDB quietDB [exObs]).2.

Lemma exRecord : recordOverHTTP validateObservation "tok" "tok" exDB quietDB (MkRecordRequest Version [exObs]) = (None, exDB').
Proof. vm_compute. reflexivity. Qed.



Lemma service_record_atomic_witness : grows exDB exDB' ∧ Forall (recorded exTimestamptz exScope exDB') [exObs] ∧
  recordOverHTTP validateObservation "tok" "tok" exDB' quietDB (MkRecordRequest Version [exObs]) = (None, exDB').
Proof. apply (service_record_atomic Compare exTimestamptz exScope "tok" "tok" exDB quietDB [exObs] None exDB'); [by right|exact exRecord]. Defined.

Definition exGuess : httpRequest :=
  HttpRequest "POST" LookupPath "Bearer guess" (Ok (MkLookupRequest Version [exKey] 5)) notThis TrailingEOF.

Lemma api_authenticated_witness :
  exDB = exDB ∧ (401 = 401 ∨ hrPath exGuess = "/healthz") ∧ ∀ l, TextBody "unauthorized" ≠ LookupBody l.
Proof.
  apply (api_authenticated validateObservation "tok" exDB quietDB exGuess (HttpResponse 401 (TextBody "unauthorized")) exDB);
    [reflexivity|discriminate|discriminate].
Defined.

(** A scope of dashes passes for a UUID. *)
Theorem parseUUID_dashes : parseUUID "------------------------------------" = Some (concatS (replicate 16 nul)).
Proof. vm_compute. reflexivity. Qed.
