(* ===== verification/Progress.v ===== *)
(** * Progress and estimates (progress.go)

    The snapshot of a run, the simulation that estimates the remaining time, and
    the summary of flaky tests. *)

From Stdlib Require Import Ascii.
From S2P Require Import Prelude GoStrings Flags Path Profile Utf8 Invocation GoFmt Args Sha256 Quote Json HistoryTypes TestCache Server Fleet.

Record progressSnapshot := ProgressSnapshot {
  pPhase : runPhase;
  Elapsed : Duration;
  pBuildOnly : bool;
  PackagesDiscovered : Z;
  PackagesTotal : Z;
  PackagesBuilt : Z;
  PackagesCached : Z;
  PackagesListed : Z;
  PackagesDone : Z;
  TestsTotal : Z;
  TestsDone : Z;
  TestsRunning : Z;
  TestsFlaky : Z;
  TestETA : Duration;
  ETAMedian : Duration;
  ETAUnknown : Z;
  ETAAvailable : bool;
  CacheEnabled : bool;
  CacheChecks : Z;
  CacheHits : Z;
  Helpers : Z
}.

(** ** The estimate of the remaining time *)

(** The helpers whose slots count: connected and without an error. *)
Definition isHelper (w : fleetWorker) : bool :=
  negb (bool_decide (wID w = "leader")) && Connected w && bool_decide (wError w = "").

Definition etaCapacity (f : flags) (workers : list fleetWorker) : Z :=
  foldl (λ c w, if isHelper w then i64 (c + Slots w) else c) (Z.max 1 (jobs f)) workers.

(** The position of the first least element, from the candidate [i] with [x]. *)
Fixpoint argmin (i : nat) (x : Z) (j : nat) (l : list Z) : nat :=
  match l with
  | [] => i
  | y :: l => if y <? x then argmin j y (S j) l else argmin i x (S j) l
  end.

Definition leastSlot (slots : list Z) : nat :=
  match slots with [] => 0%nat | x :: l => argmin 0 x 1 l end.

(** A queued test goes to the slot that is free first. *)
Definition assign (slots : list Z) (d : Duration) : list Z := alter (λ x, i64 (x + d)) (leastSlot slots) slots.

Record etaState := EtaState {
  etSlots : list Z;
  etRunning : nat;
  etUnknown : Z;
  etQueued : list Duration
}.

(** What is left of a test that runs: a tail once it exceeds its estimate. *)
Definition residual (e : testEstimate) (started now : Time) : Duration :=
  let remaining := Z.max 0 (i64 (teDuration e - Sub now started)) in
  if remaining =? 0 then Z.max Second (divT (teDuration e) 2) else remaining.

(** One test of the schedule. *)
Definition etaStep (s : Server) (now : Time) (st : etaState) (id : string) : etaState :=
  match Cut id "000"%char with
  | None => st
  | Some (pkg, test) =>
      match pkgs s !! pkg ≫= λ ps, testsOf ps !! test with
      | None => st
      | Some ts =>
          if done ts then st
          else
            let e := default zeroEstimate (testEstimates s !! id) in
            let unknown := if teKnown e then etUnknown st else etUnknown st + 1 in
            if running ts then
              let r := residual e (started ts) now in
              if (etRunning st <? length (etSlots st))%nat then
                EtaState (<[etRunning st := r]> (etSlots st)) (S (etRunning st)) unknown (etQueued st)
              else EtaState (etSlots st) (etRunning st) unknown (etQueued st ++ [r])
            else EtaState (etSlots st) (etRunning st) unknown (etQueued st ++ [teDuration e])
      end
  end.

Definition maxZ (l : list Z) : Z := match l with [] => 0 | x :: l => foldl Z.max x l end.

Definition etaPhase (p : runPhase) : bool := bool_decide (p ∈ [phaseTesting; phaseDone; phaseFailed]).

Definition etaScan (f : flags) (s : Server) (workers : list fleetWorker) (now : Time) : etaState :=
  foldl (etaStep s now) (EtaState (replicate (Z.to_nat (etaCapacity f workers)) 0) 0 0 []) (testSchedule s).

Definition testETALocked (f : flags) (s : Server) (workers : list fleetWorker) (now : Time) : Duration * Z * bool :=
  if negb (testEstimateReady s) || negb (etaPhase (phase s)) then (0, 0, false)
  else
    let st := etaScan f s workers now in
    (maxZ (foldl assign (etSlots st) (etQueued st)), etUnknown st, true).

(** ** The snapshot *)

Definition countZ {A} (p : A → bool) (l : list A) : Z := Z.of_nat (length (filter (λ x, p x = true) l)).

Definition progressSnapshotOf (f : flags) (s : Server) (workers : list fleetWorker) (now : Time) : progressSnapshot :=
  let ps := filter (λ p, hasTests (glp p) = true) (map_to_list (pkgs s)).*2 in
  let built := filter (λ p, exeHash p ≠ "") ps in
  let tests := filter (λ t, isRunnableTopLevelTest t.1 = true) (ps ≫= λ p, map_to_list (testsOf p)) in
  let '(eta, unknown, available) := testETALocked f s workers now in
  {| pPhase := phase s;
     Elapsed := Round (Sub now (sStart s)) Second;
     pBuildOnly := buildOnly f;
     PackagesDiscovered := Z.of_nat (size (pkgs s));
     PackagesTotal := pkgsWithTests s;
     PackagesBuilt := Z.of_nat (length built);
     PackagesCached := countZ exeCached built;
     PackagesListed := countZ (λ p, bool_decide (is_Some (psTests p))) ps;
     PackagesDone := countZ (λ p, bool_decide (psState p = pkgStateDone)) ps;
     TestsTotal := testsTotal s;
     TestsDone := countZ (λ t, done t.2) tests;
     TestsRunning := countZ (λ t, running t.2) tests;
     TestsFlaky := countZ (λ t, passed t.2 && negb (bool_decide (fails t.2 = []))) tests;
     TestETA := eta;
     ETAMedian := testEstimateBase s;
     ETAUnknown := unknown;
     ETAAvailable := available;
     CacheEnabled := hasTestCache s;
     CacheChecks := cacheChecks s;
     CacheHits := cacheHits s;
     Helpers := countZ isHelper workers |}.

(** ** The line *)

(** [%.1f] of 100 times the quotient of two integers in float64. *)
Class FloatFormat := percent1 : Z → Z → string.

Definition phaseString (p : runPhase) : string :=
  match p with
  | phaseNone => "" | phaseDiscovering => "discovering" | phaseBuilding => "building" | phaseListing => "listing"
  | phaseTesting => "testing" | phaseDone => "done" | phaseFailed => "failed"
  end.

Definition formatEstimate (d : Duration) : string :=
  if d <=? 0 then "0s" else if d <? Second then "<1s" else DurationString (Round d Second).

Section line.
Context `{FloatFormat}.

Definition writeBuildProgress (p : progressSnapshot) : string :=
  itoa (PackagesTotal p) +:+ "/" +:+ itoa (PackagesDiscovered p) +:+ " test pkgs; " +:+
  itoa (PackagesBuilt p) +:+ "/" +:+ itoa (PackagesTotal p) +:+ " built" +:+
  (if PackagesBuilt p =? 0 then " (" +:+ itoa (PackagesCached p) +:+ " cached)"
   else " (" +:+ itoa (PackagesCached p) +:+ " cached, " +:+ percent1 (PackagesCached p) (PackagesBuilt p) +:+ "%)").

Definition testProgress (p : progressSnapshot) : string :=
  itoa (PackagesDone p) +:+ "/" +:+ itoa (PackagesTotal p) +:+ " test pkgs, " +:+
  itoa (TestsDone p) +:+ "/" +:+ itoa (TestsTotal p) +:+ " tests; " +:+ itoa (TestsRunning p) +:+ " running".

Definition cacheProgress (p : progressSnapshot) : string :=
  if negb (CacheEnabled p) then "; cache off"
  else if CacheChecks p =? 0 then "; cache hits 0/0"
  else "; cache hits " +:+ itoa (CacheHits p) +:+ "/" +:+ itoa (CacheChecks p) +:+
       " (" +:+ percent1 (CacheHits p) (CacheChecks p) +:+ "%)".

Definition line (p : progressSnapshot) : string :=
  "gotst: " +:+ phaseString (pPhase p) +:+ ": " +:+
  match pPhase p with
  | phaseDiscovering => itoa (PackagesDiscovered p) +:+ " pkgs matched; " +:+ itoa (PackagesTotal p) +:+ " with tests"
  | phaseBuilding => writeBuildProgress p
  | phaseListing =>
      itoa (PackagesDiscovered p) +:+ " pkgs matched, " +:+ itoa (PackagesTotal p) +:+ " with tests; " +:+
      itoa (PackagesListed p) +:+ "/" +:+ itoa (PackagesTotal p) +:+ " test pkgs listed; " +:+ itoa (TestsTotal p) +:+ " tests found"
  | phaseDone | phaseFailed => if pBuildOnly p then writeBuildProgress p else testProgress p
  | _ => testProgress p
  end +:+
  (if etaPhase (pPhase p) && negb (pBuildOnly p) then
     (if 0 <? TestsFlaky p then "; " +:+ itoa (TestsFlaky p) +:+ " flaky" else "") +:+
     cacheProgress p +:+
     (if ETAAvailable p then
        "; ETA " +:+ formatEstimate (TestETA p) +:+
        (if ETAUnknown p =? 0 then ""
         else " (" +:+ itoa (ETAUnknown p) +:+ " unknown at " +:+ formatEstimate (ETAMedian p) +:+ " median)")
      else "")
   else "") +:+
  "; " +:+ DurationString (Elapsed p) +:+
  (if Helpers p =? 0 then "" else "; " +:+ itoa (Helpers p) +:+ " helpers").
End line.

(** ** Flaky tests *)

Record flakyTestSummary := FlakyTestSummary {
  fkPackage : string;
  fkTest : string;
  fkAttempts : Z;
  fkFailures : Z;
  fkAttrs : gmap string string;
  FailedAttempts : list failInfo
}.

Definition isFlaky (ts : testStatus) : bool := passed ts && negb (bool_decide (fails ts = [])).

Definition compareFlaky : flakyTestSummary → flakyTestSummary → Z :=
  lexCmp (onCmp fkPackage Compare) (onCmp fkTest Compare).

Definition flakyOf (pkg test : string) (ts : testStatus) : flakyTestSummary :=
  FlakyTestSummary pkg test (attempts ts) (Z.of_nat (length (fails ts))) (attrs ts) (fails ts).

Definition flakyTests (s : Server) : list flakyTestSummary :=
  sort_by compareFlaky
    (map_to_list (pkgs s) ≫= λ '(pkg, ps),
       (λ '(test, ts), flakyOf pkg test ts) <$> filter (λ t, isFlaky t.2 = true) (map_to_list (testsOf ps))).

(** [json.Marshal] writes the keys of a map in order. *)
Definition jsonAttrs (attrs : gmap string string) : json :=
  JObject ((λ k, (k, JString (default "" (attrs !! k)))) <$> sort_strings (map_to_list attrs).*1).

Definition jsonFlaky (k : flakyTestSummary) : json :=
  JObject ([("Package", JString (fkPackage k)); ("Test", JString (fkTest k)); ("Attempts", JInt (fkAttempts k));
            ("Failures", JInt (fkFailures k))] ++
           (if bool_decide (fkAttrs k = ∅) then [] else [("Attrs", jsonAttrs (fkAttrs k))])).

(** A nil slice is null. *)
Definition flakyJSON (ks : list flakyTestSummary) : json := match ks with [] => JNull | _ => JArray (jsonFlaky <$> ks) end.

Definition HasSuffixNewline (s : string) : bool :=
  match String.get (String.length s - 1) s with Some c => bool_decide (c = "010"%char) | None => false end.

Definition flakyDiagnostics (k : flakyTestSummary) : string :=
  concatS (imap (λ i failure,
    newline +:+ "[gotst: " +:+ fkPackage k +:+ " " +:+ fkTest k +:+ " failed attempt " +:+ itoa (Z.of_nat i + 1) +:+ "/" +:+
    itoa (fkFailures k) +:+ ", " +:+ DurationString (fiDur failure) +:+ "]" +:+ newline +:+ fiOut failure +:+
    (if HasSuffixNewline (fiOut failure) then "" else newline)) (FailedAttempts k)).

(** What [printFlakySummary] writes. *)
Definition printFlakySummary (f : flags) (s : Server) : string :=
  let flakes := flakyTests s in
  match flakes with
  | [] => ""
  | _ =>
      (if jsonSummary f then newline +:+ "FLAKY TEST DIAGNOSTICS:" +:+ newline +:+ concatS (flakyDiagnostics <$> flakes) else "") +:+
      newline +:+ "FLAKY TESTS (" +:+ itoa (Z.of_nat (length flakes)) +:+ "):" +:+ newline +:+
      concatS ((λ k, "  " +:+ fkPackage k +:+ " " +:+ fkTest k +:+ ": passed after " +:+ itoa (fkAttempts k) +:+
                     " attempts (" +:+ itoa (fkFailures k) +:+ " failed)" +:+ newline) <$> flakes) +:+
      (if jsonSummary f then "gotst flaky tests JSON: " +:+ marshal (flakyJSON flakes) +:+ newline else "")
  end.
