(* ===== verification/ProgressFacts.v ===== *)
(** * What the progress display guarantees *)

From Stdlib Require Import Ascii.
From S2P Require Import Prelude GoStrings Flags Path Profile Utf8 Invocation GoFmt Args Sha256 Quote Json HistoryTypes TestCache Server Fleet Progress.

(** ** The estimate *)

Lemma sumZ_perm a b : a ≡ₚ b → sumZ a = sumZ b.
Proof. induction 1; simpl; lia. Qed.

Lemma sumZ_nonneg l : Forall (λ x, 0 ≤ x) l → 0 ≤ sumZ l.
Proof. induction 1; simpl; lia. Qed.

Lemma sumZ_elem l x : Forall (λ x, 0 ≤ x) l → x ∈ l → x ≤ sumZ l.
Proof.
  induction 1 as [|y l Hy Hl IH]; intros Hx; [by apply elem_of_nil in Hx|]. simpl. pose proof (sumZ_nonneg l Hl).
  apply elem_of_cons in Hx as [->|Hx]; [lia|]. specialize (IH Hx). lia.
Qed.

Lemma sumZ_replicate n x : sumZ (replicate n x) = Z.of_nat n * x.
Proof. induction n; simpl; lia. Qed.

(** A common lower bound times the length is below the sum. *)
Lemma sumZ_lower l m : Forall (λ x, m ≤ x) l → Z.of_nat (length l) * m ≤ sumZ l.
Proof. induction 1; simpl length; simpl sumZ; lia. Qed.

Lemma sumZ_upper l m : Forall (λ x, x ≤ m) l → sumZ l ≤ Z.of_nat (length l) * m.
Proof. induction 1; simpl length; simpl sumZ; lia. Qed.

Lemma foldl_max_spec l : ∀ x, x ≤ foldl Z.max x l ∧ Forall (λ y, y ≤ foldl Z.max x l) l ∧ (foldl Z.max x l = x ∨ foldl Z.max x l ∈ l).
Proof.
  induction l as [|y l IH]; intros x; simpl; [split_and!; [lia|constructor|by left]|].
  destruct (IH (Z.max x y)) as (H1 & H2 & H3). split_and!; [lia|constructor; [lia|done]|].
  destruct H3 as [->|H3]; [|right; apply elem_of_cons; by right].
  destruct (Z.max_spec x y) as [[_ ->]|[_ ->]]; [right; apply elem_of_cons; by left|by left].
Qed.

Lemma maxZ_ge l x : x ∈ l → x ≤ maxZ l.
Proof.
  destruct l as [|y l]; [intros Hx; by apply elem_of_nil in Hx|]. destruct (foldl_max_spec l y) as (H1 & H2 & _). simpl.
  intros [->|Hx]%elem_of_cons; [done|]. rewrite Forall_forall in H2. by apply H2.
Qed.

Lemma maxZ_elem l : l ≠ [] → maxZ l ∈ l.
Proof.
  destruct l as [|y l]; [done|]. intros _. destruct (foldl_max_spec l y) as (_ & _ & [E|H]); simpl; [rewrite E; apply list_elem_of_here|by apply list_elem_of_further].
Qed.

Lemma argmin_spec l : ∀ i x j,
  ∃ m, (argmin i x j l = i ∧ m = x ∨ ∃ n, argmin i x j l = (j + n)%nat ∧ l !! n = Some m) ∧ m ≤ x ∧ Forall (λ y, m ≤ y) l.
Proof.
  induction l as [|y l IH]; intros i x j; simpl; [exists x; split_and!; [by left|lia|constructor]|]. destruct (Z.ltb_spec y x).
  - destruct (IH j y (S j)) as (m & Hm & Hle & Hall). exists m. split_and!; [|lia|constructor; [lia|done]]. right.
    destruct Hm as [[-> ->]|(n & -> & Hn)]; [exists 0%nat; split; [lia|done]|exists (S n); split; [lia|done]].
  - destruct (IH i x (S j)) as (m & Hm & Hle & Hall). exists m. split_and!; [|lia|constructor; [lia|done]].
    destruct Hm as [?|(n & -> & Hn)]; [by left|right]. exists (S n). split; [lia|done].
Qed.

Lemma leastSlot_spec slots : slots ≠ [] → ∃ m, slots !! leastSlot slots = Some m ∧ Forall (λ x, m ≤ x) slots.
Proof.
  destruct slots as [|x l]; [done|]. intros _. simpl. destruct (argmin_spec l 0 x 1) as (m & Hm & Hle & Hall).
  exists m. split; [|by constructor]. destruct Hm as [[-> ->]|(n & -> & Hn)]; done.
Qed.

Lemma sumZ_alter (l : list Z) i x y : l !! i = Some x → sumZ (<[i := y]> l) = sumZ l - x + y.
Proof. revert i. induction l as [|z l IH]; intros [|i]; simpl; [done|done|intros [= ->]; lia|intros E; rewrite (IH i E); lia]. Qed.

(** Giving one queued test to the slot that is free first. *)
Lemma assign_spec slots d :
  slots ≠ [] → Forall (λ x, 0 ≤ x) slots → 0 ≤ d → sumZ slots + d ≤ int64_max →
  ∃ m, assign slots d = <[leastSlot slots := m + d]> slots ∧ slots !! leastSlot slots = Some m ∧ 0 ≤ m ∧
    Z.of_nat (length slots) * m ≤ sumZ slots ∧ sumZ (assign slots d) = sumZ slots + d.
Proof.
  intros Hne Hnn Hd Hsum. destruct (leastSlot_spec slots Hne) as (m & Hm & Hall).
  assert (Hm0 : 0 ≤ m ∧ m ≤ sumZ slots).
  { apply list_elem_of_lookup_2 in Hm. split; [by rewrite Forall_forall in Hnn; apply Hnn|by apply sumZ_elem]. }
  assert (Ea : assign slots d = <[leastSlot slots := m + d]> slots).
  { unfold assign. apply list_eq. intros i. destruct (decide (i = leastSlot slots)) as [->|Hi].
    - rewrite list_lookup_alter_eq, list_lookup_insert_eq, Hm by (by eapply lookup_lt_Some). simpl.
      rewrite i64_id; [done|]. unfold in_int64, int64_min, int64_max in *. lia.
    - by rewrite list_lookup_alter_ne, list_lookup_insert_ne. }
  exists m. split_and!; [done|done|lia|by apply sumZ_lower|]. rewrite Ea, (sumZ_alter _ _ m) by done. lia.
Qed.

Lemma assignAll_spec qs : ∀ slots,
  slots ≠ [] → Forall (λ x, 0 ≤ x) slots → Forall (λ x, 0 ≤ x) qs → sumZ slots + sumZ qs ≤ int64_max →
  let r := foldl assign slots qs in
  length r = length slots ∧ sumZ r = sumZ slots + sumZ qs ∧
  Forall (λ x, ∃ y, y ∈ r ∧ x ≤ y) (slots ++ qs) ∧
  Forall (λ x, x ∈ slots ∨ ∃ q, q ∈ qs ∧ Z.of_nat (length slots) * (x - q) ≤ sumZ slots + sumZ qs) r.
Proof.
  induction qs as [|q qs IH]; intros slots Hne Hnn Hq Hsum; simpl.
  { rewrite app_nil_r. split_and!; [done|lia| |]; apply Forall_forall; intros x Hx; [exists x; split; [done|lia]|by left]. }
  apply Forall_cons in Hq as [Hq0 Hq]. pose proof (sumZ_nonneg qs Hq) as Hqs. simpl in Hsum.
  destruct (assign_spec slots q Hne Hnn Hq0 ltac:(lia)) as (m & Ea & Hm & Hm0 & Hlow & Hs).
  assert (Hlen : length (assign slots q) = length slots) by (rewrite Ea; apply length_insert).
  assert (Hin : m + q ∈ assign slots q).
  { rewrite Ea. apply list_elem_of_insert. by eapply lookup_lt_Some. }
  assert (Hold : ∀ x, x ∈ slots → ∃ y, y ∈ assign slots q ∧ x ≤ y).
  { intros x (i & Hi)%list_elem_of_lookup_1. destruct (decide (i = leastSlot slots)) as [->|Hne'].
    - exists (m + q). split; [done|]. assert (x = m) as -> by congruence. lia.
    - exists x. split; [|lia]. rewrite Ea. apply (list_elem_of_lookup_2 _ i). by rewrite list_lookup_insert_ne. }
  assert (Hnn' : Forall (λ x, 0 ≤ x) (assign slots q)).
  { rewrite Ea. apply Forall_insert; [done|lia]. }
  destruct (IH (assign slots q)) as (H1 & H2 & H3 & H4); [intros E; rewrite E in Hlen; by destruct slots|done|done|lia|].
  rewrite Forall_app, !Forall_forall in H3. rewrite Forall_forall in H4. destruct H3 as [H3a H3b]. split_and!; [congruence|lia| |].
  - apply Forall_forall. intros x [Hx|[->|Hx]%elem_of_cons]%elem_of_app.
    + destruct (Hold x Hx) as (y & Hy & Hxy). destruct (H3a y Hy) as (z & Hz & Hyz). exists z. split; [done|lia].
    + destruct (H3a _ Hin) as (z & Hz & Hyz). exists z. split; [done|lia].
    + by apply H3b.
  - apply Forall_forall. intros x Hx. destruct (H4 x Hx) as [Hx'|(q' & Hq' & Hle)].
    + rewrite Ea in Hx'. apply list_elem_of_lookup_1 in Hx' as (i & Hi). apply list_lookup_insert_Some in Hi as [(_ & <- & _)|(_ & Hi)].
      * right. exists q. split; [apply list_elem_of_here|]. replace (m + q - q) with m by lia. lia.
      * left. by eapply list_elem_of_lookup_2.
    + right. exists q'. split; [by apply list_elem_of_further|]. rewrite Hlen, Hs in Hle. lia.
Qed.

(** ** The tests that are left *)

(** What is left of a test of the schedule that is not done. *)
Definition remainingOf (s : Server) (now : Time) (id : string) : option (bool * Duration) :=
  '(pkg, test) ← Cut id "000"%char;
  ts ← (pkgs s !! pkg ≫= λ ps, testsOf ps !! test);
  if done ts then None
  else
    let e := default zeroEstimate (testEstimates s !! id) in
    Some (running ts, if running ts then residual e (started ts) now else teDuration e).

Definition remainings (s : Server) (now : Time) : list Duration := snd <$> omap (remainingOf s now) (testSchedule s).

Lemma etaStep_remaining s now st id :
  etaStep s now st id =
  match remainingOf s now id with
  | None => st
  | Some (runs, r) =>
      let e := default zeroEstimate (testEstimates s !! id) in
      let unknown := if teKnown e then etUnknown st else etUnknown st + 1 in
      if runs && (etRunning st <? length (etSlots st))%nat then
        EtaState (<[etRunning st := r]> (etSlots st)) (S (etRunning st)) unknown (etQueued st)
      else EtaState (etSlots st) (etRunning st) unknown (etQueued st ++ [r])
  end.
Proof.
  unfold etaStep, remainingOf. destruct (Cut id _) as [[pkg test]|]; [|done]. cbn [mbind option_bind].
  destruct (pkgs s !! pkg) as [ps|]; [|done]. cbn [mbind option_bind]. destruct (testsOf ps !! test) as [ts|]; [|done]. cbn [mbind option_bind].
  destruct (done ts); [done|]. destruct (running ts); [|done]. cbn [andb]. by destruct (_ <? _)%nat.
Qed.

(** Running tests have filled the first slots; the others wait. *)
Record scanned (cap : nat) (st : etaState) (rs : list Duration) : Prop := {
  sn_len : (etRunning st ≤ cap)%nat;
  sn_slots : ∃ occupied, etSlots st = occupied ++ replicate (cap - etRunning st) 0 ∧ length occupied = etRunning st ∧
    occupied ++ etQueued st ≡ₚ rs
}.

Lemma etaStep_scanned cap s now st rs id :
  scanned cap st rs →
  scanned cap (etaStep s now st id) (rs ++ option_list (snd <$> remainingOf s now id)).
Proof.
  intros [Hlen (occ & Hs & Ho & Hp)]. rewrite etaStep_remaining. destruct (remainingOf s now id) as [[runs r]|]; simpl.
  2:{ rewrite app_nil_r. by split; [|exists occ]. }
  assert (Hl : length (etSlots st) = cap) by (rewrite Hs, length_app, length_replicate; lia).
  assert (Hq : occ ++ etQueued st ++ [r] ≡ₚ rs ++ [r]) by (by rewrite app_assoc, Hp).
  destruct runs; simpl; [|split; [done|by exists occ]]. destruct (Nat.ltb_spec (etRunning st) (length (etSlots st))) as [Hlt|]; [|split; [done|by exists occ]].
  split; simpl; [lia|]. exists (occ ++ [r]). split_and!.
  - rewrite Hs. rewrite (insert_app_r_alt occ) by (rewrite Ho; reflexivity). replace (etRunning st - length occ)%nat with 0%nat by lia.
    replace (cap - etRunning st)%nat with (S (cap - S (etRunning st)))%nat by lia. simpl. by rewrite <- app_assoc.
  - rewrite length_app. simpl. lia.
  - rewrite <- Hq. rewrite <- app_assoc. apply Permutation_app_head. simpl. apply Permutation_cons_append.
Qed.

Lemma etaScan_scanned f s workers now :
  scanned (Z.to_nat (etaCapacity f workers)) (etaScan f s workers now) (remainings s now).
Proof.
  unfold etaScan, remainings. set (cap := Z.to_nat _).
  assert (Hgen : ∀ ids st rs, scanned cap st rs → scanned cap (foldl (etaStep s now) st ids) (rs ++ (snd <$> omap (remainingOf s now) ids))).
  { induction ids as [|id ids IH]; intros st rs Hst; simpl; [by rewrite app_nil_r|].
    pose proof (IH _ _ (etaStep_scanned cap s now st rs id Hst)) as H. destruct (remainingOf s now id) as [[]|]; simpl in *.
    - by rewrite <- app_assoc in H.
    - by rewrite app_nil_r in H. }
  apply (Hgen (testSchedule s) _ []). split; simpl; [lia|]. exists []. by rewrite Nat.sub_0_r.
Qed.

(** Estimates are durations of tests. *)
Definition estimates_ok (s : Server) : Prop := ∀ id e, testEstimates s !! id = Some e → 0 ≤ teDuration e.

Lemma remainings_nonneg s now : estimates_ok s → Forall (λ x, 0 ≤ x) (remainings s now).
Proof.
  intros He. apply Forall_forall. intros x ([runs r] & -> & (id & _ & Hr)%list_elem_of_omap)%list_elem_of_fmap. simpl.
  unfold remainingOf in Hr. destruct (Cut id _) as [[pkg test]|]; [|done]. cbn [mbind option_bind] in Hr.
  destruct (pkgs s !! pkg) as [ps|]; [|done]. cbn [mbind option_bind] in Hr. destruct (testsOf ps !! test) as [ts|]; [|done]. cbn [mbind option_bind] in Hr.
  destruct (done ts); [done|]. injection Hr as _ <-.
  assert (0 ≤ teDuration (default zeroEstimate (testEstimates s !! id))) by (destruct (testEstimates s !! id) as [e|] eqn:E; [by eapply He|done]).
  destruct (running ts); [|done]. unfold residual. destruct (Z.eqb_spec (Z.max 0 (i64 (teDuration (default zeroEstimate (testEstimates s !! id)) - Sub now (started ts)))) 0);
    unfold Second; lia.
Qed.


(** ** Flaky tests *)

#[export] Instance compareFlaky_good : GoodCmp compareFlaky.
Proof. unfold compareFlaky. apply _. Qed.

Lemma compareFlaky_eq a b : compareFlaky a b = 0 ↔ fkPackage a = fkPackage b ∧ fkTest a = fkTest b.
Proof.
  unfold compareFlaky, lexCmp, onCmp. destruct (Z.eqb_spec (Compare (fkPackage a) (fkPackage b)) 0) as [E|E].
  - rewrite Compare_eq in E. rewrite Compare_eq. tauto.
  - rewrite Compare_eq in E. split; [|tauto]. intros H. by apply Compare_eq in H.
Qed.

Lemma NoDup_filter_fst {A B} (P : A * B → Prop) `{!∀ x, Decision (P x)} (l : list (A * B)) : NoDup l.*1 → NoDup (filter P l).*1.
Proof. intros Hnd. eapply sublist_NoDup; [exact Hnd|]. apply fmap_sublist, sublist_filter. Qed.

Lemma flaky_nodup s :
  NoDup ((λ k, (fkPackage k, fkTest k)) <$>
    (map_to_list (pkgs s) ≫= λ '(pkg, ps),
       (λ '(test, ts), flakyOf pkg test ts) <$> filter (λ t, isFlaky t.2 = true) (map_to_list (testsOf ps)))).
Proof.
  pose proof (NoDup_fst_map_to_list (pkgs s)) as Hnd. revert Hnd. generalize (map_to_list (pkgs s)).
  induction l as [|[pkg ps] l IH]; intros Hnd; [constructor|]. rewrite fmap_cons, NoDup_cons in Hnd. destruct Hnd as [Hni Hnd]. simpl in Hni.
  cbn [mbind list_bind]. rewrite fmap_app. apply NoDup_app. split_and!.
  - rewrite <- list_fmap_compose.
    assert (Hf : ∀ t : list (string * testStatus), (λ k, (fkPackage k, fkTest k)) ∘ (λ '(test, ts), flakyOf pkg test ts) <$> t = pair pkg <$> t.*1).
    { intros t. rewrite <- list_fmap_compose. apply list_fmap_ext. by intros ? [test ts] _. }
    rewrite Hf. apply NoDup_fmap_2; [intros a b E; by injection E|].
    apply NoDup_filter_fst, NoDup_fst_map_to_list.
  - intros [p t] (k & Ek & Hk)%list_elem_of_fmap (k' & Ek' & Hk')%list_elem_of_fmap.
    apply list_elem_of_fmap in Hk as ([test ts] & -> & _). apply list_elem_of_bind in Hk' as ([pkg' ps'] & Hk' & Hin).
    apply list_elem_of_fmap in Hk' as ([test' ts'] & -> & _). simpl in *. apply Hni. assert (pkg = pkg') as -> by congruence.
    apply list_elem_of_fmap. by exists (pkg', ps').
  - by apply IH.
Qed.

(** The summary lists exactly the tests that passed after failed attempts, each
    once with its counts, in the order of packages and tests. *)
Theorem flakyTests_spec s :
  StronglySorted (λ a b, compareFlaky a b < 0) (flakyTests s) ∧
  ∀ k, k ∈ flakyTests s ↔
    ∃ pkg ps test ts, pkgs s !! pkg = Some ps ∧ testsOf ps !! test = Some ts ∧ passed ts = true ∧ fails ts ≠ [] ∧ k = flakyOf pkg test ts.
Proof.
  unfold flakyTests. set (l := map_to_list (pkgs s) ≫= _).
  assert (Hin : ∀ k, k ∈ l ↔ ∃ pkg ps test ts, pkgs s !! pkg = Some ps ∧ testsOf ps !! test = Some ts ∧ passed ts = true ∧ fails ts ≠ [] ∧ k = flakyOf pkg test ts).
  { intros k. unfold l. rewrite list_elem_of_bind. split.
    - intros ([pkg ps] & Hk & Hps). apply elem_of_map_to_list in Hps. apply list_elem_of_fmap in Hk as ([test ts] & -> & Hts).
      apply list_elem_of_filter in Hts as [Hf Hts]. apply elem_of_map_to_list in Hts. unfold isFlaky in Hf. simpl in Hf.
      apply andb_prop in Hf as [Hp Hf]. apply negb_true_iff, bool_decide_eq_false in Hf. by exists pkg, ps, test, ts.
    - intros (pkg & ps & test & ts & Hps & Hts & Hp & Hf & ->). exists (pkg, ps). split; [|by apply elem_of_map_to_list].
      apply list_elem_of_fmap. exists (test, ts). split; [done|]. apply list_elem_of_filter. split; [|by apply elem_of_map_to_list].
      unfold isFlaky. simpl. by rewrite Hp, bool_decide_false. }
  split; [|intros k; rewrite elem_of_sort_by; apply Hin].
  assert (Hnd : NoDup ((λ k, (fkPackage k, fkTest k)) <$> sort_by compareFlaky l)).
  { rewrite sort_by_perm. unfold l. apply flaky_nodup. }
  pose proof (sort_by_StronglySorted compareFlaky l) as Hss. clear Hin. revert Hnd Hss. generalize (sort_by compareFlaky l). clear l.
  intros l Hnd Hss. induction Hss as [|k l _ IH Hk]; [constructor|]. rewrite fmap_cons, NoDup_cons in Hnd. destruct Hnd as [Hni Hnd].
  constructor; [by apply IH|]. rewrite Forall_forall in Hk. apply Forall_forall. intros k' Hk'. specialize (Hk k' Hk'). unfold cmp_le in Hk.
  assert (compareFlaky k k' ≠ 0); [|lia]. intros E. apply compareFlaky_eq in E as [E1 E2]. apply Hni. apply list_elem_of_fmap.
  exists k'. by rewrite E1, E2.
Qed.

(** ** Witnesses *)

Definition exTests : gmap string testStatus :=
  {["TestA" := zeroTestStatus <| running := true |> <| started := 5 |>; "TestB" := zeroTestStatus]}.
Definition exPkg : packageStatus :=
  PackageStatus (GoListPackage "/m/p" "m/p" "p" ["p_test.go"] [] "/m") pkgStateTesting "ab" 1 false "/m/p" [] (Some exTests) 0 "" 0 0.
Definition exServer : Server :=
  MkServer 0 "" false zeroProfile (TestSelection [] []) false false false false {["m/p" := exPkg]} 1 0 0 0
    ∅ ∅ ∅ "" phaseTesting [] 2 0 0 false 0 0 ∅ false ∅ []
    ["m/p" +:+ nul +:+ "TestA"; "m/p" +:+ nul +:+ "TestB"]
    {["m/p" +:+ nul +:+ "TestA" := TestEstimate (7 * Second) true; "m/p" +:+ nul +:+ "TestB" := TestEstimate (3 * Second) true]}
    Second true [].

Lemma exServer_estimates : estimates_ok exServer.
Proof.
  intros id e He. simpl in He. apply lookup_insert_Some in He as [[_ <-]|[_ He]]; [vm_compute; discriminate|].
  apply lookup_singleton_Some in He as [_ <-]. vm_compute. discriminate.
Qed.

