(* ===== verification/Summary.v ===== *)
(** * The summary of a distributed run (summary.go) *)

From Stdlib Require Import Ascii.
From S2P Require Import Prelude GoStrings Flags Path Profile Utf8 Invocation GoFmt Args Sha256 Quote CappedBuffer HistoryTypes TestCache Server Fleet CacheTypes Progress ProgressFacts.

(** ** Data *)

(** The fraction of a worker's slot time spent on tests: a duration over a span
    and a number of slots, divided in float64.  [None] is the negative value of a
    worker that was not there during the testing phase. *)
Abbreviation busy := (option (Duration * Duration * Z)).

Record workerSummary := WorkerSummary {
  wsID : string;
  wsName : string;
  wsError : string;
  wsSlots : Z;
  wsCompleted : Z;
  wsCached : Z;
  wsFailed : Z;
  wsJoined : Duration; (** since the run started *)
  wsTestTime : Duration;
  wsBusy : busy
}.

Record fleetSummary := FleetSummary {
  sumPhases : list (runPhase * Duration);
  sumWorkers : list workerSummary
}.

(** ** Collecting *)

Definition terminal (p : runPhase) : bool := bool_decide (p = phaseDone ∨ p = phaseFailed).

(** The loop over the phases: their durations, and the start and the end of the
    testing phase. *)
Fixpoint phaseLoop (starts : list (runPhase * Time)) (end_ : Time) (test : Time * Time) : list (runPhase * Duration) * (Time * Time) :=
  match starts with
  | [] => ([], test)
  | (p, at_) :: rest =>
      if terminal p then ([], test)
      else
        let next := match rest with (_, t) :: _ => t | [] => end_ end in
        let test := if bool_decide (p = phaseTesting) then (at_, next) else test in
        let '(ds, test) := phaseLoop rest end_ test in
        ((p, Sub next at_) :: ds, test)
  end.

Definition summaryOf (start : Time) (test : Time * Time) (w : fleetWorker) : workerSummary :=
  let from := if Before (Joined w) test.1 then test.1 else Joined w in
  let to := if negb (IsZero (Left w)) && Before (Left w) test.2 then Left w else test.2 in
  let b := if negb (IsZero test.1) && After to from && (0 <? Slots w) then Some (wDuration w, Sub to from, Slots w) else None in
  WorkerSummary (wID w) (wName w) (wError w) (Slots w) (Completed w) (Cached w) (Failed w) (Sub (Joined w) start) (wDuration w) b.

Definition fleetSummaryLocked (s : Server) (workers : list fleetWorker) (end_ : Time) : fleetSummary :=
  let '(phases, test) := phaseLoop (phaseStarts s) end_ (zeroTime, zeroTime) in
  FleetSummary phases (summaryOf (sStart s) test <$> workers).

(** ** Printing *)

(** [%.0f] of 100 times [d / (span * slots)] in float64. *)
Class BusyFormat := percent0 : Duration → Duration → Z → string.

Definition roundDuration (d : Duration) : Duration := if d <? Second then Round d Millisecond else Round d Second.

Definition phasesString (sum : fleetSummary) : string :=
  Join ((λ p, phaseString p.1 +:+ " " +:+ DurationString (roundDuration p.2)) <$> sumPhases sum) ", ".

(** [strings.ToValidUTF8] with the empty replacement. *)
Definition dropInvalid (s : string) : string := concatS (filter (λ c, invalid_chunk c = false) (chunks s)).*2.

Definition pipe : ascii := "124"%char.

(** [strings.ReplaceAll] of a pipe by an escaped one. *)
Fixpoint escapePipes (s : string) : string :=
  match s with
  | EmptyString => ""
  | String a s => if bool_decide (a = pipe) then String backslash (String pipe (escapePipes s)) else String a (escapePipes s)
  end.

Definition ellipsis : string := String "226"%char (String "128"%char (String "166"%char "")).

Definition markdownCell (s : string) : string :=
  let s := if 200 <? strlen s then dropInvalid (takeS 200 s) +:+ ellipsis else s in
  Join (Fields (escapePipes s)) " ".

Section print.
Context `{BusyFormat}.

Definition busyString (ws : workerSummary) : string :=
  match wsBusy ws with None => "-" | Some (d, span, slots) => percent0 d span slots +:+ "%" end.

(** The cells of a worker, before those of the text are aligned. *)
Definition cells (cell : string → string) (ws : workerSummary) : list string :=
  [wsID ws; cell (wsName ws); itoa (wsSlots ws); DurationString (roundDuration (wsJoined ws)); itoa (wsCompleted ws);
   itoa (wsCached ws); itoa (wsFailed ws); DurationString (roundDuration (wsTestTime ws)); busyString ws; cell (wsError ws)].

Definition textRows (sum : fleetSummary) : list (list string) :=
  ["  WORKER"; "NAME"; "SLOTS"; "JOINED"; "TESTS"; "CACHED"; "FAILED"; "TEST TIME"; "BUSY"; "ERROR"] ::
  ((λ ws, match cells (λ s, s) ws with [] => [] | id :: rest => ("  " +:+ id) :: rest end) <$> sumWorkers sum).

Definition markdownRow (ws : workerSummary) : string :=
  "| " +:+ Join (cells markdownCell ws) " | " +:+ " |" +:+ newline.

Definition writeMarkdown (sum : fleetSummary) : string :=
  "### gotst distributed run" +:+ newline +:+ newline +:+
  "Phases: " +:+ phasesString sum +:+ newline +:+ newline +:+
  "| Worker | Name | Slots | Joined | Tests | Cached | Failed | Test time | Busy | Error |" +:+ newline +:+
  "|---|---|--:|--:|--:|--:|--:|--:|--:|---|" +:+ newline +:+
  concatS (markdownRow <$> sumWorkers sum) +:+ newline.
End print.

(** ** The phases *)

(** The time at which the listed phases end. *)
Fixpoint phasesEnd (starts : list (runPhase * Time)) (end_ : Time) : Time :=
  match starts with
  | [] => end_
  | (p, at_) :: rest => if terminal p then at_ else phasesEnd rest end_
  end.

(** Every duration between the marks of a run is representable. *)
Definition spans_ok (starts : list (runPhase * Time)) (end_ : Time) : Prop :=
  Forall (λ t, Forall (λ u, in_int64 (u - t)) (starts.*2 ++ [end_])) (starts.*2 ++ [end_]).

Lemma phaseLoop_total starts end_ : ∀ test p at_ rest,
  starts = (p, at_) :: rest → terminal p = false → Forall (λ t, Forall (λ u, in_int64 (u - t)) (starts.*2 ++ [end_])) (starts.*2 ++ [end_]) →
  sumZ (phaseLoop starts end_ test).1.*2 = phasesEnd starts end_ - at_.
Proof.
  induction starts as [|[p0 at0] starts IH]; intros test p at_ rest E Hp Hs; [done|]. injection E as -> -> ->. simpl. rewrite Hp.
  assert (Hspan : ∀ next, next ∈ (at_ :: rest.*2) ++ [end_] → Sub next at_ = next - at_).
  { intros next Hn. apply Sub_in_range. rewrite fmap_cons in Hs. simpl in Hs. apply Forall_cons in Hs as [Hs _]. rewrite Forall_forall in Hs. apply Hs. done. }
  destruct rest as [|[p1 at1] rest].
  - simpl. rewrite (Hspan end_) by (apply elem_of_app; right; apply list_elem_of_here). lia.
  - assert (Hin : at1 ∈ (at_ :: ((p1, at1) :: rest).*2) ++ [end_]).
    { apply elem_of_app; left. apply list_elem_of_further. simpl. apply list_elem_of_here. }
    set (test' := if bool_decide _ then _ else test). destruct (terminal p1) eqn:Ht.
    + simpl. rewrite Ht. simpl. rewrite (Hspan at1 Hin). lia.
    + destruct (phaseLoop ((p1, at1) :: rest) end_ test') as [ds test''] eqn:El.
      assert (Hr : sumZ ds.*2 = phasesEnd ((p1, at1) :: rest) end_ - at1).
      { specialize (IH test' p1 at1 rest eq_refl Ht). rewrite El in IH. apply IH. rewrite fmap_cons in Hs. simpl in Hs.
        apply Forall_cons in Hs as [_ Hs]. eapply Forall_impl; [exact Hs|]. intros t Hu. simpl in Hu. by apply Forall_cons in Hu as [_ Hu]. }
      cbn [fst snd]. rewrite fmap_cons. simpl sumZ. rewrite Hr, (Hspan at1 Hin). lia.
Qed.

(** The durations of the phases add up to the time from the first of them to the
    end of the run or to the moment it was given up. *)
Theorem summary_phases_total s workers end_ p at_ rest :
  phaseStarts s = (p, at_) :: rest → terminal p = false → spans_ok (phaseStarts s) end_ →
  sumZ (sumPhases (fleetSummaryLocked s workers end_)).*2 = phasesEnd (phaseStarts s) end_ - at_.
Proof.
  intros E Hp Hs. unfold fleetSummaryLocked. pose proof (phaseLoop_total (phaseStarts s) end_ (zeroTime, zeroTime) p at_ rest E Hp Hs) as Ht.
  by destruct (phaseLoop (phaseStarts s) end_ (zeroTime, zeroTime)).
Qed.

(** ** Cells *)

(** Every pipe of a string follows a backslash; [prev] is whether one precedes
    the string. *)
Fixpoint escapedPipes (prev : bool) (s : string) : bool :=
  match s with
  | EmptyString => true
  | String a s => (negb (bool_decide (a = pipe)) || prev) && escapedPipes (bool_decide (a = backslash)) s
  end.

Fixpoint endsBackslash (prev : bool) (s : string) : bool :=
  match s with EmptyString => prev | String a s => endsBackslash (bool_decide (a = backslash)) s end.

Lemma escapedPipes_append s t : ∀ prev, escapedPipes prev (s +:+ t) = escapedPipes prev s && escapedPipes (endsBackslash prev s) t.
Proof.
  induction s as [|a s IH]; intros prev; [done|]. rewrite append_cons. cbn [escapedPipes endsBackslash]. by rewrite IH, andb_assoc.
Qed.

Lemma endsBackslash_append s t : ∀ prev, endsBackslash prev (s +:+ t) = endsBackslash (endsBackslash prev s) t.
Proof. induction s as [|a s IH]; intros prev; [done|]. rewrite append_cons. cbn [endsBackslash]. apply IH. Qed.

Lemma escapePipes_escaped s : ∀ prev, escapedPipes prev (escapePipes s) = true.
Proof.
  induction s as [|a s IH]; intros prev; [done|]. cbn [escapePipes]. case_bool_decide as Ha.
  - cbn [escapedPipes]. rewrite IH. reflexivity.
  - cbn [escapedPipes]. rewrite IH, bool_decide_false by done. done.
Qed.

(** An ASCII byte is in no chunk but its own. *)
Lemma chunk_ascii s c b : c ∈ chunks s → ContainsByte c.2 b = true → byteZ b < 0x80 → c = (byteZ b, String b "").
Proof.
  induction s as [s IH] using string_length_ind. destruct s as [|a s]; [intros Hc; by apply elem_of_nil in Hc|].
  destruct (chunks_step a s) as (r & w & rest & E & Hs & Hw). destruct (chunks_step_ascii a s) as (r' & w' & rest' & E' & Hs' & Hcase).
  rewrite E in E'. injection E' as <- <- _. rewrite E. intros [->|Hc]%elem_of_cons Hb Hlt; simpl in *.
  - destruct Hcase as [[-> Hr]|Hhigh]; [|by apply Hhigh in Hb; lia]. simpl in Hb. rewrite orb_false_r in Hb.
    apply Ascii.eqb_eq in Hb as ->. by rewrite Hr.
  - apply (IH rest); try done. assert (El : String.length (String a s) = String.length (w +:+ rest)) by (by rewrite Hs).
    rewrite length_append in El. simpl in El. lia.
Qed.

Lemma chunk_nonempty s r : (r, "") ∉ chunks s.
Proof.
  induction s as [s IH] using string_length_ind. destruct s as [|a s]; [apply not_elem_of_nil|].
  destruct (chunks_step a s) as (r' & w & rest & E & Hs & Hw). rewrite E. intros [[= -> <-]|Hc]%elem_of_cons; [simpl in Hw; lia|].
  apply (IH rest); [|done]. assert (El : String.length (String a s) = String.length (w +:+ rest)) by (by rewrite Hs).
  rewrite length_append in El. lia.
Qed.

Lemma endsBackslash_contains s : endsBackslash false s = true → ContainsByte s backslash = true.
Proof.
  assert (Hg : ∀ s prev, endsBackslash prev s = true → prev = true ∨ ContainsByte s backslash = true).
  { clear s. induction s as [|a s IH]; intros prev; [by left|]. cbn [endsBackslash ContainsByte]. intros He. right.
    destruct (IH _ He) as [Ha|Hs]; [|by rewrite Hs, orb_true_r]. apply bool_decide_eq_true in Ha as ->. by rewrite Ascii.eqb_refl. }
  intros He. by destruct (Hg s false He).
Qed.

(** Fields have no ASCII white space, and pipes that follow a backslash keep it. *)
Lemma fieldsOf_spec s cs : ∀ pre word,
  (∀ c, c ∈ cs → c ∈ chunks s) →
  ContainsByte word "010"%char = false → endsBackslash false pre = false → escapedPipes false (pre +:+ word +:+ concatS cs.*2) = true →
  Forall (λ w, ContainsByte w "010"%char = false ∧ escapedPipes false w = true) (fieldsOf cs word).
Proof.
  induction cs as [|[r enc] cs IH]; intros pre word Hin Hw Hpre Hesc.
  - simpl. case_bool_decide; constructor; [|done]. split; [done|]. simpl in Hesc. rewrite append_empty_r, escapedPipes_append, Hpre in Hesc.
    by apply andb_prop in Hesc as [_ Hesc].
  - assert (Hrest : ∀ c, c ∈ cs → c ∈ chunks s) by (intros c Hc; apply Hin; by apply list_elem_of_further).
    pose proof (Hin (r, enc) (list_elem_of_here _ _)) as Hc. rewrite fmap_cons in Hesc. cbn [concatS snd] in Hesc.
    assert (Hnl : isSpace r = false → ContainsByte enc "010"%char = false).
    { intros Hsp. destruct (ContainsByte enc "010"%char) eqn:E; [|done]. apply (chunk_ascii s (r, enc)) in E; [|done|done]. injection E as -> _. done. }
    assert (Hbs : isSpace r = true → endsBackslash false enc = false).
    { intros Hsp. destruct (endsBackslash false enc) eqn:E; [|done]. apply endsBackslash_contains in E.
      apply (chunk_ascii s (r, enc)) in E; [|done|done]. injection E as -> _. done. }
    assert (Hword : escapedPipes false word = true).
    { rewrite escapedPipes_append, Hpre in Hesc. apply andb_prop in Hesc as [_ Hesc]. rewrite escapedPipes_append in Hesc. by apply andb_prop in Hesc as [? _]. }
    simpl. destruct (isSpace r) eqn:Hsp.
    + assert (Hnext : Forall (λ w, ContainsByte w "010"%char = false ∧ escapedPipes false w = true) (fieldsOf cs "")).
      { apply (IH ((pre +:+ word) +:+ enc) ""); [done|done| |].
        - rewrite endsBackslash_append. destruct enc as [|a enc]; [|by apply Hbs].
          apply (chunk_nonempty s) in Hc. done.
        - rewrite append_empty_l, !append_assoc. done. }
      case_bool_decide; [done|]. by constructor.
    + apply (IH pre (word +:+ enc)); [done| |done|by rewrite append_assoc]. rewrite ContainsByte_append, Hw. by apply Hnl.
Qed.

Lemma Join_cell ws :
  Forall (λ w, ContainsByte w "010"%char = false ∧ escapedPipes false w = true) ws →
  ContainsByte (Join ws " ") "010"%char = false ∧ escapedPipes false (Join ws " ") = true.
Proof.
  induction 1 as [|w ws [H1 H2] _ [IH1 IH2]]; [done|]. destruct ws as [|w' ws]; [done|]. rewrite Join_cons by done.
  rewrite !ContainsByte_append, H1, IH1. split; [done|]. rewrite !escapedPipes_append, H2.
  assert (Hsp : ∀ p, endsBackslash p " " = false ∧ escapedPipes p " " = true) by done. apply andb_true_intro. split; [done|].
  apply andb_true_intro. split; [apply Hsp|exact IH2].
Qed.

(** The name or the error of a worker stays in its cell: what is put there has no
    line break, and no pipe that is not escaped. *)
Theorem markdownCell_safe s :
  ContainsByte (markdownCell s) "010"%char = false ∧ escapedPipes false (markdownCell s) = true.
Proof.
  unfold markdownCell. set (t := escapePipes _). apply Join_cell. apply (fieldsOf_spec t _ "" ""); [done|done|done|].
  rewrite !append_empty_l, chunks_concat. apply escapePipes_escaped.
Qed.
