(* ===== verification/Discover.v ===== *)
(** * Discovering and building test packages (gotst.go)

    From the selection of the command line to captured test binaries: the go
    command's answers are decoded values or texts, and every fault it can
    report is an argument. *)

From Stdlib Require Import Ascii.
From S2P Require Import Prelude GoStrings Flags Path Profile Utf8 Invocation GoFmt Args Sha256 Quote CappedBuffer HistoryTypes TestCache Disk ResultCache Server CacheTypes LocalCache CacheShim.

(** ** Commands (util.go) *)

(** [processCmdOutput]: what [fn] makes of the output, and the exit of the
    command with what it wrote to stderr. *)
Definition processCmdOutput {A} (startErr : option error) (a0 : A) (fn : option error * A) (exit : option (error * string))
    : option error * A :=
  match startErr with
  | Some e => (Some e, a0)
  | None =>
      match fn.1, exit with
      | None, Some (werr, stderr) => (Some (EMsg (Error werr +:+ ": " +:+ stderr)), fn.2)
      | err, _ => (err, fn.2)
      end
  end.

(** The error and the combined output of a command.  A go command is run in the
    root directory of the profile, with arguments. *)
Abbreviation goOutput := (option error * string)%type.

Definition tagsArg (s : Server) : string := "--tags=" +:+ Join (Tags (sProfile s)) ",".

(** ** Qualified tests *)

Section discover.
Context `{GoRuntime}.

(** One iteration of [resolveQualifiedTests] with what go list says of the package. *)
Definition resolveQualified (q : qualifiedTest) (out : goOutput) : result qualifiedTest :=
  match out.1 with
  | Some e => Err (EWrapIn ("resolving package " +:+ Quote (packageSpec q) +:+ ": ") e (": " +:+ TrimSpace out.2))
  | None =>
      match Fields out.2 with
      | [path] => Ok (QualifiedTest (packageSpec q) path (qName q))
      | paths => Err (EMsg ("package " +:+ Quote (packageSpec q) +:+ " resolved to " +:+ itoa (Z.of_nat (length paths)) +:+
                            " packages; want exactly one"))
      end
  end.

(** The tests before an error keep what was resolved. *)
Fixpoint resolveLoop (goList : string → goOutput) (done : list qualifiedTest) (todo : list qualifiedTest) (packages : list string)
    : option error * list qualifiedTest * list string :=
  match todo with
  | [] => (None, done, packages)
  | q :: todo =>
      match resolveQualified q (goList (packageSpec q)) with
      | Err e => (Some e, done ++ q :: todo, packages)
      | Ok q =>
          resolveLoop goList (done ++ [q]) todo
            (if bool_decide (packageSpec q ∈ packages) then packages else packages ++ [packageSpec q])
      end
  end.

Definition resolveQualifiedTests (s : Server) (goList : string → list string → goOutput) : option error * Server :=
  let ask spec := goList (Root (sProfile s)) ["list"; "-buildvcs=false"; tagsArg s; "-f={{.ImportPath}}"; spec] in
  let '(err, qs, packages) := resolveLoop ask [] (qualified (sTests s)) (Packages (sProfile s)) in
  (err, s <| sTests := (sTests s) <| qualified := qs |> |> <| sProfile := (sProfile s) <| Packages := packages |> |>).

End discover.

(** ** Packages *)

(** Standard error is kept apart here. *)
Definition resolveExcludedPackages (s : Server) (goRun : string → list string → goOutput * string) : result (list string) :=
  match ExcludePackages (sProfile s) with
  | [] => Ok []
  | patterns =>
      match goRun (Root (sProfile s)) (["list"; "-buildvcs=false"; tagsArg s; "-f={{.ImportPath}}"] ++ patterns) with
      | ((Some e, _), stderr) => Err (EWrapIn "resolving excluded packages: " e (": " +:+ stderr))
      | ((None, out), _) => Ok (Fields out)
      end
  end.

(** [os.ReadDir] with whether an entry is a directory, and [os.ReadFile]. *)
Record sourceTree := SourceTree {
  stDir : string → result (list (string * bool));
  stFile : string → result string
}.

Definition HasSuffix (s suffix : string) : bool :=
  let n := String.length suffix in
  (n <=? String.length s)%nat && String.eqb (String.substring (String.length s - n) n s) suffix.

(** A test file of the package that cannot be read, or that mentions a name. *)
Definition mentions (tree : sourceTree) (dir : string) (names : list string) (entry : string * bool) : bool :=
  if entry.2 || negb (HasSuffix entry.1 "_test.go") then false
  else
    match stFile tree (PathJoin [dir; entry.1]) with
    | Err _ => true
    | Ok data => existsb (Contains data) names
    end.

Definition packageMayContainSelectedTest (s : Server) (tree : sourceTree) (p : goListPackage) : bool :=
  if negb (active (sTests s)) then true
  else
    match packageTests (sTests s) (ImportPath p) with
    | _ :: _ => true
    | [] =>
        match unqualified (sTests s) with
        | [] => false
        | names =>
            match stDir tree (glDir p) with
            | Err _ => true
            | Ok entries => existsb (mentions tree (glDir p) names) entries
            end
        end
    end.

(** The packages that are decoded, each with the time it is, and how the decoding
    ends. *)
Definition decodePackages (s : Server) (tree : sourceTree) (excluded : list string) (decoded : list (goListPackage * Time))
    (last : option error) : option error * Server :=
  (EWrap "decoding package: " <$> last,
   foldl (λ s p, if negb (bool_decide (ImportPath p.1 ∈ excluded)) && packageMayContainSelectedTest s tree p.1
                 then addPackage s p.1 p.2 else s) s decoded).

Record listOutput := ListOutput {
  loStart : option error;
  loDecoded : list (goListPackage * Time);
  loLast : option error;
  loExit : option (error * string)
}.

Definition listArgs (s : Server) : list string := ["list"; "-buildvcs=false"; tagsArg s; "--json"] ++ Packages (sProfile s).

Definition learnPackagesWithTests (s : Server) (tree : sourceTree) (goRun : string → list string → goOutput * string)
    (goListJSON : string → list string → listOutput) : option error * Server :=
  match resolveExcludedPackages s goRun with
  | Err e => (Some e, s)
  | Ok excluded =>
      let out := goListJSON (Root (sProfile s)) (listArgs s) in
      processCmdOutput (loStart out) s (decodePackages s tree excluded (loDecoded out) (loLast out)) (loExit out)
  end.

Definition packagesWithTests (s : Server) : list string :=
  sort_strings (filter (λ p, hasTests (glp p.2) = true) (map_to_list (pkgs s))).*1.

(** ** What a build tells *)

Definition learnBuildDependencyCount (s : Server) (names : list string) (goList : string → list string → goOutput) : option error * Server :=
  let out := goList (Root (sProfile s)) (["list"; "-buildvcs=false"; "-deps"; "-test"; tagsArg s; "-f={{.ImportPath}}"] ++ names) in
  match out.1 with
  | Some e => (Some (EWrapIn "go list -deps -test: " e (": " +:+ TrimSpace out.2)), s)
  | None => (None, s <| buildDepsTotal := Z.of_nat (size (list_to_set (Fields out.2) : gset string)) |>)
  end.

(** [recordToolExec], with the file it writes: its directory, its name and its
    content. *)
Definition recordToolExec (s : Server) (ev : toolExecEvent) : Server * option (string * string) :=
  if negb (bool_decide (teTool ev = "compile")) || bool_decide (teImportPath ev = "") then (s, None)
  else
    let s := if bool_decide (teImportPath ev ∈ buildDepFresh s) then s
             else s <| buildDepFresh ::= λ h, {[teImportPath ev]} ∪ h |> <| buildDepsFresh ::= Z.succ |> in
    let prefix := CutBefore (teBuildID ev) "/"%char in
    if bool_decide (prefix = "") then (s, None)
    else
      (s <| buildActionToPkg ::= <[prefix := teImportPath ev]> |>,
       Some (PathJoin [buildActionMapDir s; takeS 2 prefix; prefix], teImportPath ev +:+ newline)).

(** [recordCacheLookup]; [read] is [os.ReadFile] of the map on disk. *)
Definition recordCacheLookup (s : Server) (ev : cacheLookupEvent) (read : string → result string) : Server :=
  if negb (clHit ev) then s
  else
    let prefix := actionIDPrefix (clActionID ev) in
    if bool_decide (prefix = "") then s
    else
      let known := default "" (buildActionToPkg s !! prefix) in
      let pkg := if bool_decide (known = "") then
                   match read (PathJoin [buildActionMapDir s; takeS 2 prefix; prefix]) with
                   | Err _ => ""
                   | Ok data => TrimSpace data
                   end
                 else known in
      if bool_decide (pkg = "") then s
      else if bool_decide (pkg ∈ buildDepCached s) || bool_decide (pkg ∈ buildDepFresh s) then s
      else s <| buildDepCached ::= λ h, {[pkg]} ∪ h |> <| buildDepsCached ::= Z.succ |>.

(** ** Events of go test *)

Record BuildEvent := MkBuildEvent {
  beImportPath : string;
  beAction : string;
  beOutput : string
}.

(** Time, Test and Elapsed are not read. *)
Record TestEvent := MkTestEvent {
  evAction : string;
  evPackage : string;
  evOutput : string;
  FailedBuild : string
}.

Record ExecSnarf := MkExecSnarf {
  esWorkingDir : string;
  esExeHash : string;
  esArgs : list string
}.

(** [json.Unmarshal] into the types of the events. *)
Class EventCodec := {
  decodeAction : string → result string;
  decodeBuildEvent : string → result BuildEvent;
  decodeTestEvent : string → result TestEvent;
  decodeSnarf : string → result ExecSnarf
}.

Definition newlineChar : ascii := "010"%char.

Section build.
Context `{GoRuntime, EventCodec}.

Definition parseTestOrBuildEvent (line : string) : result (BuildEvent + TestEvent) :=
  match decodeAction line with
  | Err e => Err (EWrap "unmarshal action: " e)
  | Ok action =>
      if bool_decide (action = "") then Err (EMsg "empty action in event")
      else if bool_decide (action ∈ ["build-output"; "build-fail"]) then
        match decodeBuildEvent line with Ok ev => Ok (inl ev) | Err e => Err (EWrap "unmarshal build event: " e) end
      else
        match decodeTestEvent line with Ok ev => Ok (inr ev) | Err e => Err (EWrap "unmarshal test event: " e) end
  end.

Fixpoint findIn (lines : list string) : option (result ExecSnarf) :=
  match lines with
  | [] => None
  | line :: lines =>
      match CutPrefix line "ExecSnarf:" with
      | None => findIn lines
      | Some jsonText => Some (decodeSnarf jsonText)
      end
  end.

Definition findExecSnarf (output : string) : option (result ExecSnarf) := findIn (Split output newlineChar).

(** [addTestBinary]; [None] is a fatal error.  [stat] is the size of the captured
    binary. *)
Definition addTestBinary (s : Server) (name : string) (es : ExecSnarf) (cached : bool) (stat : string → result Z) (now : Time)
    : option Server :=
  match pkgs s !! name with
  | None => Some s
  | Some ps =>
      match stat (PathJoin [cacheDir s; esExeHash es]) with
      | Err _ => None
      | Ok size =>
          if bool_decide (esWorkingDir es = glDir (glp ps)) then
            Some (putPkg s name (PackageStatus (glp ps) pkgStateBuilt (esExeHash es) size cached (esWorkingDir es) (esArgs es)
                                   (psTests ps) (numFails ps) (runErr ps) (runIn ps) now))
          else None
      end
  end.

Record buildState := BuildState {
  bsServer : Server;
  bsTestOut : outputMap;
  bsBuildOut : outputMap;
  bsErrs : list error
}.

#[export] Instance eta_buildState : Eta buildState := λ b, BuildState (bsServer b) (bsTestOut b) (bsBuildOut b) (bsErrs b).

Section events.
Context (wasCached : string → bool) (stat : string → result Z) (now : Time).

Definition addError (b : buildState) (e : error) : buildState := b <| bsErrs ::= λ l, l ++ [e] |>.

Definition buildEvent (b : buildState) (ev : BuildEvent + TestEvent) : option buildState :=
  match ev with
  | inl ev => Some (if bool_decide (beAction ev = "build-output") then b <| bsBuildOut := outAdd (bsBuildOut b) (beImportPath ev) (beOutput ev) |> else b)
  | inr ev =>
      if bool_decide (evAction ev = "fail") then
        Some (if bool_decide (FailedBuild ev = "") then b
              else addError b (EMsg ("failed to compile tests for " +:+ Quote (evPackage ev) +:+ "; failure building " +:+ Quote (FailedBuild ev) +:+ ":" +:+
                                     newline +:+ newline +:+ outGet (bsBuildOut b) (FailedBuild ev) +:+ newline)))
      else if bool_decide (evAction ev = "output") then Some (b <| bsTestOut := outAdd (bsTestOut b) (evPackage ev) (evOutput ev) |>)
      else if bool_decide (evAction ev = "pass") then
        match findExecSnarf (outGet (bsTestOut b) (evPackage ev)) with
        | None => Some (addError b (EMsg ("test package " +:+ Quote (evPackage ev) +:+ " built but test wrapper did not emit ExecSnarf line; wrapper output:" +:+ newline +:+ outGet (bsTestOut b) (evPackage ev))))
        | Some (Err e) => Some (addError b (EWrap ("unmarshal ExecSnarf JSON from package " +:+ Quote (evPackage ev) +:+ ": ") e))
        | Some (Ok es) =>
            s ← addTestBinary (bsServer b) (evPackage ev) es (wasCached (esExeHash es)) stat now;
            Some (b <| bsServer := s |>)
        end
      else Some b
  end.

(** The scan of the output; an event that does not parse ends it. *)
Fixpoint buildLoop (b : buildState) (lines : list string) : option (option error * buildState) :=
  match lines with
  | [] => Some (None, b)
  | line :: lines =>
      match parseTestOrBuildEvent line with
      | Err e => Some (Some (EWrap "parsing event: " e), b)
      | Ok ev => b ← buildEvent b ev; buildLoop b lines
      end
  end.

(** What go test prints, and how it ends. *)
Record buildOutput := BuildOutput {
  boStart : option error;
  boLines : list string;
  boScanErr : option error;
  boExit : option (error * string)
}.

(** What a build needs of the system. *)
Record buildTools := BuildTools {
  btSelf : result string;                                (** [os.Executable] *)
  btEnviron : list string;                               (** [os.Environ] *)
  btCacheProg : string;                                  (** [os.Getenv("GOCACHEPROG")] *)
  btCacheRoot : string;                                  (** [mustCacheRoot] *)
  btGoCache : string → result string;                    (** the output of go env GOCACHE *)
  btDeps : string → list string → goOutput;
  btShim : string → list string → result string;         (** [startRunCacheShim], with the endpoint *)
  btTest : string → list string → list string → buildOutput; (** directory, arguments and environment *)
  btShimClose : option error
}.

Definition toolExecArg : string := "-gotst-toolexec".
Definition cacheShimArg : string := "-gotst-cache-shim".
Definition localCacheProgArg : string := "-gotst-local-cache-prog".
Definition cacheShimSocketEnv : string := "GOTST_CACHE_SHIM_SOCKET".
Definition localCacheDirEnv : string := "GOTST_LOCAL_BUILD_CACHE".
Definition stockGoCacheDirEnv : string := "GOTST_STOCK_GO_CACHE".

(** [goBuildCacheDir] (localcache.go). *)
Definition goBuildCacheDir (out : result string) : result string :=
  match out with
  | Err e => Err e
  | Ok text =>
      let dir := TrimSpace text in
      if bool_decide (dir = "off") then Ok ""
      else if negb (IsAbs dir) then Err (EMsg ("go env GOCACHE returned non-absolute path " +:+ Quote dir)) else Ok dir
  end.

(** The arguments of go test. *)
Definition buildArgs (f : flags) (s : Server) (selfExe : string) (names : list string) : list string :=
  ["test"; "-count=1"; "-p=" +:+ itoa (jobs f); "--trimpath"; tagsArg s; "--json"; "--exec=" +:+ selfExe;
   "--toolexec=" +:+ quoteCacheProgArg selfExe +:+ " " +:+ toolExecArg] ++
  (if Race (sProfile s) then ["--race"] else []) ++ names.

(** The shim of the cache program of the user, or of the local build cache. *)
Definition startShim (tools : buildTools) (s : Server) (selfExe : string) : result string :=
  if negb (bool_decide (btCacheProg tools = "")) then
    match btShim tools (btCacheProg tools) [] with
    | Err e => Err (EWrap "starting GOCACHEPROG shim: " e)
    | Ok endpoint => Ok endpoint
    end
  else
    match goBuildCacheDir (btGoCache tools (Root (sProfile s))) with
    | Err e => Err (EWrap "locating Go build cache: " e)
    | Ok stockCache =>
        match btShim tools (quoteCacheProgArg selfExe +:+ " " +:+ localCacheProgArg)
                [localCacheDirEnv +:+ "=" +:+ PathJoin [btCacheRoot tools; "build-cache"; "v1"];
                 stockGoCacheDirEnv +:+ "=" +:+ stockCache] with
        | Err e => Err (EWrap "starting local build cache: " e)
        | Ok endpoint => Ok endpoint
        end
    end.

Definition buildEnviron (tools : buildTools) (s : Server) (selfExe endpoint : string) : list string :=
  envWithout (envWithout (btEnviron tools) ["GOTST_EXEC_DEST"] ++ ["GOTST_EXEC_DEST=" +:+ cacheDir s]) ["GOCACHEPROG"; cacheShimSocketEnv] ++
  ["GOCACHEPROG=" +:+ quoteCacheProgArg selfExe +:+ " " +:+ cacheShimArg; cacheShimSocketEnv +:+ "=" +:+ endpoint].

(** [buildAllTestBinaries]; [None] is a fatal error.  The callbacks of the shim
    ([recordToolExec], [recordCacheLookup]) run beside it and touch only the
    counters of the build's dependencies. *)
Definition buildAllTestBinaries (f : flags) (s : Server) (tools : buildTools) : option (option error * Server) :=
  match btSelf tools with
  | Err e => Some (Some (EWrap "getting self executable path: " e), s)
  | Ok selfExe =>
      match packagesWithTests s with
      | [] => Some (None, s)
      | names =>
          let s := (learnBuildDependencyCount s names (btDeps tools)).2 in
          match startShim tools s selfExe with
          | Err e => Some (Some e, s)
          | Ok endpoint =>
              let out := btTest tools (Root (sProfile s)) (buildArgs f s selfExe names) (buildEnviron tools s selfExe endpoint) in
              '(err, b) ← buildLoop (BuildState s (OutputMap (Z.shiftl 1 20) ∅) (OutputMap (maxOutput f) ∅) []) (boLines out);
              let fnErr := match err with
                           | Some e => Some e
                           | None => match boScanErr out with Some e => Some e | None => Join_errors (bsErrs b) end
                           end in
              let '(err, s) := processCmdOutput (boStart out) s (fnErr, bsServer b) (boExit out) in
              Some (Join_errors (option_list err ++ option_list (btShimClose tools)), s)
          end
      end
  end.
End events.
End build.

(** ** Listing *)

(** What listing a binary meets: no slot before the run is canceled, or what the
    binary prints. *)
Abbreviation listing := (option goOutput).

Section list.
Context `{GoRuntime}.

(** [listTestsInBinary]; the inner [None] is no error, and the outer one an
    unknown package. *)
Definition listTestsInBinary (s : Server) (name : string) (out : listing) (now : Time) : option (option error * Server) :=
  match out with
  | None => Some (Some ECanceled, s)
  | Some (Some e, text) =>
      Some (Some (EWrapIn ("listing tests in " +:+ Quote name +:+ ": ") e (newline +:+ "output:" +:+ newline +:+ text)), s)
  | Some (None, text) => s ← setPackageTests s name (Fields text) now; Some (None, s)
  end.

(** The answers of the binaries, in the order in which they arrive. *)
Fixpoint listLoop (answer : capturedTestBinary → listing * Time) (s : Server) (errs : list error) (bins : list capturedTestBinary)
    : option (list error * Server) :=
  match bins with
  | [] => Some (errs, s)
  | b :: bins =>
      '(err, s) ← listTestsInBinary s (pkg b) (answer b).1 (answer b).2;
      listLoop answer s (errs ++ option_list err) bins
  end.

(** What is reported of the names that were not found. *)
Definition missingError (names : list string) : option error :=
  match names with [] => None | _ => Some (EMsg ("requested test(s) not found: " +:+ Join names ", ")) end.

(** [arrival] is the order in which the goroutines, one for each binary, are done. *)
Definition listAllTests (s : Server) (arrival : list capturedTestBinary → list capturedTestBinary)
    (answer : capturedTestBinary → listing * Time) : option (option error * Server) :=
  match capturedTestBinaries s with
  | [] => Some (missingError (validateSelectedTests s), s)
  | bins =>
      '(errs, s) ← listLoop answer s [] (arrival bins);
      Some (match Join_errors errs with Some e => Some e | None => missingError (validateSelectedTests s) end, s)
  end.
End list.
