(* ===== verification/Run.v ===== *)
(** * A run (gotst.go, [Run])

    Discovery, build, listing and testing, one after the other.  The run here is
    one without helpers, and the last phase is the pool of Pool.v. *)

From Stdlib Require Import Ascii.
From S2P Require Import Prelude GoStrings Flags Path Profile Utf8 Invocation GoFmt Args Sha256 Quote CappedBuffer HistoryTypes TestCache Server History Pool CacheTypes Discover.

(** What the environment answers to the phases before the tests. *)
Record runEnv := RunEnv {
  reGoList : string → list string → goOutput;             (** combined output *)
  reExcluding : string → list string → goOutput * string; (** output and standard error *)
  reTree : sourceTree;
  rePackages : string → list string → listOutput;
  reBuild : buildTools;
  reCached : string → bool;                     (** [shim.executableWasCached] *)
  reStat : string → result Z;
  reArrival : list capturedTestBinary → list capturedTestBinary; (** the order in which listings are done *)
  reListing : capturedTestBinary → listing * Time;
  reNow : nat → Time
}.

Section run.
Context `{GoRuntime, EventCodec} (f : flags).

(** [Run] up to the testing phase: an error, or the state in which it enters it;
    [None] is a fatal error. *)
Definition beforeTests (s : Server) (env : runEnv) : option (option error * Server) :=
  let s := setPhase s phaseDiscovering (reNow env 0) in
  match resolveQualifiedTests s (reGoList env) with
  | (Some e, s) => Some (Some (EWrap "resolving test packages: " e), s)
  | (None, s) =>
      match learnPackagesWithTests s (reTree env) (reExcluding env) (rePackages env) with
      | (Some e, s) => Some (Some (EWrap "learnPackagesWithTests: " e), s)
      | (None, s) =>
          let s := setPhase s phaseBuilding (reNow env 1) in
          '(err, s) ← buildAllTestBinaries (reCached env) (reStat env) (reNow env 2) f s (reBuild env);
          match err with
          | Some e => Some (Some (EWrap "buildAllTestBinaries: " e), s)
          | None =>
              if buildOnly f then Some (None, s)
              else
                let s := setPhase s phaseListing (reNow env 3) in
                '(err, s) ← listAllTests s (reArrival env) (reListing env);
                match err with
                | Some e => Some (Some (EWrap "listAllTests: " e), s)
                | None => Some (None, setPhase s phaseTesting (reNow env 4))
                end
          end
      end
  end.

(** [retErr] sets the last phase. *)
Definition finishRun (s : Server) (err : option error) (now : Time) : Server :=
  setPhase s (match err with None => phaseDone | Some _ => phaseFailed end) now.

(** ** What a phase keeps *)

(** A package with tests, and one whose binary was captured. *)
Definition has (s : Server) (name : string) : Prop := ∃ ps, pkgs s !! name = Some ps ∧ hasTests (glp ps) = true.
Definition captured (s : Server) (name : string) : Prop := ∃ ps, pkgs s !! name = Some ps ∧ exeHash ps ≠ "".

(** The test was listed in the package. *)
Definition listed (s : Server) (name test : string) : Prop := ∃ ps, pkgs s !! name = Some ps ∧ is_Some (testsOf ps !! test).

(** Nothing has been run. *)
Record package_fresh (ps : packageStatus) : Prop := {
  pf_ok : package_ok ps;
  pf_fails : numFails ps = 0;
  pf_state : psState ps ≠ pkgStateDone;
  pf_tests : map_Forall (λ _ ts, done ts = false ∧ running ts = false) (testsOf ps)
}.

Definition fresh (s : Server) : Prop := map_Forall (λ _, package_fresh) (pkgs s).

Lemma fresh_ok s : fresh s → server_ok s.
Proof using Type. intros Hf name ps Hps. apply (Hf name ps Hps). Qed.

Lemma package_fresh_new p now : package_fresh (PackageStatus p pkgStateDiscovered "" 0 false "" [] None 0 "" 0 now).
Proof using Type. split; [split; simpl; [apply map_Forall_empty|done|done]|done|done|apply map_Forall_empty]. Qed.

(** What was asked for. *)
Definition asked (s : Server) : testSelection * runProfile := (sTests s, sProfile s).

(** Whether the run goes on. *)
Definition going (s : Server) : bool * bool := (canceled s, failFastTriggered s).

Lemma addPackage_pkgs s p now :
  pkgs (addPackage s p now) = <[ImportPath p := PackageStatus p pkgStateDiscovered "" 0 false "" [] None 0 "" 0 now]> (pkgs s) ∧
  asked (addPackage s p now) = asked s ∧ going (addPackage s p now) = going s.
Proof using Type. unfold addPackage. by destruct (hasTests p). Qed.

Lemma may_asked s s' tree p : asked s' = asked s → packageMayContainSelectedTest s' tree p = packageMayContainSelectedTest s tree p.
Proof using Type. intros [= E _]. unfold packageMayContainSelectedTest. by rewrite E. Qed.

(** Every decoded package that is not excluded and may have a selected test is
    known afterwards. *)
Lemma decodePackages_spec tree (excluded : list string) decoded : ∀ s,
  fresh s → NoDup (ImportPath <$> decoded.*1) →
  let s' := foldl (λ s p, if negb (bool_decide (ImportPath p.1 ∈ excluded)) && packageMayContainSelectedTest s tree p.1
                          then addPackage s p.1 p.2 else s) s decoded in
  fresh s' ∧ asked s' = asked s ∧ going s' = going s ∧ (∀ name, name ∉ ImportPath <$> decoded.*1 → pkgs s' !! name = pkgs s !! name) ∧
  (∀ p now, (p, now) ∈ decoded → ImportPath p ∉ excluded → packageMayContainSelectedTest s tree p = true → hasTests p = true → has s' (ImportPath p)).
Proof using Type.
  induction decoded as [|[p now] decoded IH]; intros s Hs Hnd; simpl.
  { split_and!; [done..|]. intros p now Hin. by apply elem_of_nil in Hin. }
  rewrite !fmap_cons, NoDup_cons in Hnd. destruct Hnd as [Hni Hnd]. simpl in Hni.
  set (s1 := if negb _ && _ then _ else s). destruct (addPackage_pkgs s p now) as (Hp & Ha & Hg).
  assert (H1 : fresh s1 ∧ asked s1 = asked s ∧ going s1 = going s ∧ (∀ name, name ≠ ImportPath p → pkgs s1 !! name = pkgs s !! name) ∧
    (ImportPath p ∉ excluded → packageMayContainSelectedTest s tree p = true → hasTests p = true → has s1 (ImportPath p))).
  { unfold s1. destruct (negb _ && _) eqn:E.
    - split_and!; [unfold fresh; rewrite Hp; by apply map_Forall_insert_2; [apply package_fresh_new|]|done|done| |].
      + intros name Hne. by rewrite Hp, lookup_insert_ne.
      + intros _ _ Ht. eexists. rewrite Hp, lookup_insert_eq. done.
    - split_and!; [done..|]. intros Hn Hm. rewrite bool_decide_false in E by done. cbn [negb andb] in E. congruence. }
  destruct H1 as (H1 & H2 & Hg1 & H3 & H4). destruct (IH s1 H1 Hnd) as (I1 & I2 & Ig & I3 & I4). split_and!; [done|congruence|congruence| |].
  - intros name Hn. apply not_elem_of_cons in Hn as [Hn1 Hn2]. by rewrite I3, H3.
  - intros q now' [[= -> ->]|Hin]%elem_of_cons Hn Hm Ht.
    + destruct (H4 Hn Hm Ht) as (ps & Hps & Hpt). exists ps. by rewrite I3.
    + apply (I4 q now'); [done|done|by rewrite (may_asked s)|done].
Qed.

(** What go list prints of the packages that the resolved profile names. *)
Definition discovered (s : Server) (env : runEnv) : listOutput := rePackages env (Root (sProfile s)) (listArgs s).

Lemma learn_spec s env s' excluded :
  fresh s → NoDup (ImportPath <$> (loDecoded (discovered s env)).*1) → resolveExcludedPackages s (reExcluding env) = Ok excluded →
  learnPackagesWithTests s (reTree env) (reExcluding env) (rePackages env) = (None, s') →
  fresh s' ∧ asked s' = asked s ∧ going s' = going s ∧
  (∀ p now, (p, now) ∈ loDecoded (discovered s env) → ImportPath p ∉ excluded →
     packageMayContainSelectedTest s (reTree env) p = true → hasTests p = true → has s' (ImportPath p)).
Proof using Type.
  intros Hs Hnd He. unfold learnPackagesWithTests. rewrite He. fold (discovered s env). set (out := discovered s env) in *.
  unfold processCmdOutput, decodePackages. cbn [fst snd].
  destruct (decodePackages_spec (reTree env) excluded (loDecoded out) s Hs Hnd) as (D1 & D2 & D3 & _ & D4).
  destruct (loStart out); [done|]. destruct (loLast out); [done|]. cbn [fmap option_fmap option_map].
  destruct (loExit out) as [[]|]; [done|]. intros E. assert (s' = foldl _ s (loDecoded out)) as -> by (symmetry; by injection E).
  by split_and!.
Qed.

(** ** The build *)

(** What the build keeps: the packages, and their tests. *)
Record build_keeps (s s' : Server) : Prop := {
  bk_fresh : fresh s → fresh s';
  bk_asked : asked s' = asked s;
  bk_going : going s' = going s;
  bk_has : ∀ name, has s name → has s' name;
  bk_captured : ∀ name, captured s name → captured s' name
}.

#[local] Instance build_keeps_preorder : PreOrder build_keeps.
Proof using Type.
  split; [intros s; by split|]. intros a b c [A1 A2 A3 A4 A5] [B1 B2 B3 B4 B5]. split; [auto|congruence|congruence|auto|auto].
Qed.

(** A package is replaced by one with the same description and a binary. *)
Lemma put_keeps s name ps ps' :
  pkgs s !! name = Some ps → glp ps' = glp ps → (exeHash ps ≠ "" → exeHash ps' ≠ "") → (package_fresh ps → package_fresh ps') →
  ∀ s', pkgs s' = <[name := ps']> (pkgs s) → asked s' = asked s → going s' = going s → build_keeps s s'.
Proof using Type.
  intros Hps Hg Hh Hf s' Hp Ha Hgo. split; [|done|done| |].
  - intros Hs. unfold fresh. rewrite Hp. apply map_Forall_insert_2; [|done]. apply Hf, (Hs name ps Hps).
  - intros n (q & Hq & Hx). unfold has. rewrite Hp. destruct (decide (n = name)) as [->|Hne].
    + rewrite lookup_insert_eq. exists ps'. split; [done|]. rewrite Hg. congruence.
    + rewrite lookup_insert_ne by done. by exists q.
  - intros n (q & Hq & Hx). unfold captured. rewrite Hp. destruct (decide (n = name)) as [->|Hne].
    + rewrite lookup_insert_eq. exists ps'. split; [done|]. apply Hh. congruence.
    + rewrite lookup_insert_ne by done. by exists q.
Qed.

(** The wrapper prints the hash of the binary. *)
Hypothesis snarf_hash : ∀ text es, decodeSnarf text = Ok es → esExeHash es ≠ "".

Lemma addTestBinary_spec s name es cached stat now s' :
  esExeHash es ≠ "" → addTestBinary s name es cached stat now = Some s' → build_keeps s s' ∧ (has s name → captured s' name).
Proof using Type.
  intros Hh. unfold addTestBinary. destruct (pkgs s !! name) as [ps|] eqn:Hps.
  2:{ intros [= <-]. split; [done|]. intros (ps & Hx & _). congruence. }
  destruct (stat _) as [size|]; [|done]. case_bool_decide; [|done]. intros E.
  set (ps' := PackageStatus _ _ _ _ _ _ _ _ _ _ _ _) in E. assert (s' = putPkg s name ps') as -> by congruence. clear E.
  assert (Hp : pkgs (putPkg s name ps') = <[name := ps']> (pkgs s)) by done. split.
  - apply (put_keeps s name ps ps'); try done. intros [[P1 P2 P3] P4 P5 P6]. split; [split; [exact P1|exact P2|done]|exact P4|done|exact P6].
  - intros _. exists ps'. rewrite Hp, lookup_insert_eq. by split.
Qed.

Lemma findExecSnarf_hash output es : findExecSnarf output = Some (Ok es) → esExeHash es ≠ "".
Proof using snarf_hash.
  unfold findExecSnarf. induction (Split output newlineChar) as [|line lines IH]; [done|]. cbn [findIn].
  destruct (CutPrefix line "ExecSnarf:") as [text|]; [|exact IH]. intros E. eapply (snarf_hash text). congruence.
Qed.

Context (wasCached : string → bool) (stat : string → result Z) (now : Time).

(** The package of a pass event whose output had a record. *)
Definition passes (line name : string) : Prop :=
  ∃ ev, parseTestOrBuildEvent line = Ok (inr ev) ∧ evAction ev = "pass" ∧ evPackage ev = name.

Lemma buildEvent_spec b ev b' :
  buildEvent wasCached stat now b ev = Some b' →
  build_keeps (bsServer b) (bsServer b') ∧ (∃ more, bsErrs b' = bsErrs b ++ more) ∧
  (∀ tev, ev = inr tev → evAction tev = "pass" → has (bsServer b) (evPackage tev) → bsErrs b' = bsErrs b → captured (bsServer b') (evPackage tev)).
Proof using snarf_hash.
  assert (Hsame : ∀ c c' : buildState, bsServer c = bsServer c' → build_keeps (bsServer c) (bsServer c')) by (by intros c c' ->).
  destruct ev as [ev|ev]; simpl.
  { intros [= <-]. destruct (bool_decide _); split_and!; try done; exists []; by rewrite app_nil_r. }
  case_bool_decide as H1.
  { intros [= <-]. destruct (bool_decide _); split_and!; try done; try (by exists []; rewrite app_nil_r); try (by eexists);
      intros tev [= ->] Hp; congruence. }
  case_bool_decide as H2.
  { intros [= <-]. split_and!; [done|by exists []; rewrite app_nil_r|]. intros tev [= ->] Hp. congruence. }
  case_bool_decide as H3.
  2:{ intros [= <-]. split_and!; [done|by exists []; rewrite app_nil_r|]. intros tev [= ->] Hp. congruence. }
  destruct (findExecSnarf _) as [[es|e]|] eqn:Hf.
  - destruct (addTestBinary _ _ _ _ _ _) as [s1|] eqn:Ha; [|done]. cbn [mbind option_bind]. intros [= <-]. simpl.
    apply addTestBinary_spec in Ha as [K C]; [|by eapply findExecSnarf_hash]. split_and!; [done|by exists []; rewrite app_nil_r|].
    intros tev [= ->] _ Hh _. by apply C.
  - intros [= <-]. split_and!; [done|by eexists|]. intros tev _ _ _ E. simpl in E. apply (f_equal length) in E. rewrite length_app in E. simpl in E. lia.
  - intros [= <-]. split_and!; [done|by eexists|]. intros tev _ _ _ E. simpl in E. apply (f_equal length) in E. rewrite length_app in E. simpl in E. lia.
Qed.

Lemma buildLoop_spec lines : ∀ b b',
  buildLoop wasCached stat now b lines = Some (None, b') →
  build_keeps (bsServer b) (bsServer b') ∧ (∃ more, bsErrs b' = bsErrs b ++ more) ∧
  (bsErrs b' = [] → ∀ line name, line ∈ lines → passes line name → has (bsServer b) name → captured (bsServer b') name).
Proof using snarf_hash.
  induction lines as [|line lines IH]; intros b b'; simpl.
  { intros [= <-]. split_and!; [done|by exists []; rewrite app_nil_r|]. intros _ line name Hin. by apply elem_of_nil in Hin. }
  destruct (parseTestOrBuildEvent line) as [ev|] eqn:Hp; [|done].
  destruct (buildEvent wasCached stat now b ev) as [b1|] eqn:He; [|done]. cbn [mbind option_bind]. intros Hl.
  destruct (buildEvent_spec _ _ _ He) as (K1 & [m1 E1] & C1). destruct (IH _ _ Hl) as (K2 & [m2 E2] & C2).
  split_and!; [by etrans|exists (m1 ++ m2); by rewrite E2, E1, app_assoc|]. intros Hnil l name [->|Hin]%elem_of_cons Hpass Hh.
  - destruct Hpass as (tev & Hp' & Ha & <-). rewrite Hp in Hp'. injection Hp' as ->. apply (bk_captured _ _ K2).
    apply (C1 tev); [done|done|done|]. rewrite E2, E1 in Hnil. apply app_nil in Hnil as [Hnil _]. apply app_nil in Hnil as [Hb ->]. by rewrite E1, app_nil_r.
  - apply (C2 Hnil l); [done|done|]. by apply (bk_has _ _ K1).
Qed.

End run.

(** ** The listing *)

Section listing.
Context `{GoRuntime}.

#[local] Existing Instance build_keeps_preorder.

Lemma foldl_insert_status {A} (v : A) (l : list string) t : ∀ m : gmap string A,
  is_Some (foldl (λ m t, <[t := v]> m) m l !! t) ↔ t ∈ l ∨ is_Some (m !! t).
Proof using Type.
  induction l as [|x l IH]; intros m; simpl; [rewrite elem_of_nil; tauto|]. rewrite IH, elem_of_cons, lookup_insert_is_Some'. naive_solver.
Qed.

Lemma foldl_insert_zero (l : list string) (v : testStatus) : ∀ m : gmap string testStatus,
  map_Forall (λ _ ts, ts = v) m → map_Forall (λ _ ts, ts = v) (foldl (λ m t, <[t := v]> m) m l).
Proof using Type. induction l as [|x l IH]; intros m Hm; simpl; [done|]. apply IH. by apply map_Forall_insert_2. Qed.

Lemma map_count_none (m : gmap string testStatus) P : map_Forall (λ _ ts, P ts = false) m → map_count P m = 0.
Proof using Type.
  intros Hm. induction m as [|k x m Hk IH] using map_ind; [apply map_count_empty|].
  rewrite map_count_insert_new by done. apply map_Forall_insert in Hm as [-> Hm]; [|done]. rewrite IH by done. done.
Qed.

Lemma setPackageTests_spec s name tests now' s' :
  setPackageTests s name tests now' = Some s' →
  build_keeps s s' ∧ (∀ t, t ∈ tests → wants (sTests s) name t = true → listed s' name t) ∧
  (∀ n t, n ≠ name → listed s n t → listed s' n t).
Proof using Type.
  unfold setPackageTests. destruct (pkgs s !! name) as [ps|] eqn:Hps; [|done]. cbn [mbind option_bind].
  set (m := foldl _ ∅ _). set (n := Z.of_nat _). intros E. set (ps' := ps <| psTests := Some m |> <| psChanged := now' |>) in E.
  assert (Hp : pkgs s' = <[name := ps']> (pkgs s) ∧ asked s' = asked s ∧ going s' = going s) by (by injection E as <-). clear E. destruct Hp as (Hp & Ha & Hg).
  assert (Hzero : map_Forall (λ _ ts, ts = zeroTestStatus <| tsChanged := now' |>) m) by apply foldl_insert_zero, map_Forall_empty.
  split_and!.
  - apply (put_keeps s name ps ps'); try done. intros [[P1 P2 P3] P4 P5 P6]. split; [split|done|done|].
    + intros t ts Hts. rewrite (Hzero t ts Hts). by split.
    + transitivity 0; [exact P4|]. symmetry. apply (map_count_none m). intros t ts Hts. by rewrite (Hzero t ts Hts).
    + done.
    + intros t ts Hts. by rewrite (Hzero t ts Hts).
  - intros t Ht Hw. exists ps'. rewrite Hp, lookup_insert_eq. split; [done|]. apply foldl_insert_status. left. by apply list_elem_of_filter.
  - intros n' t Hne (q & Hq & Ht). exists q. by rewrite Hp, lookup_insert_ne.
Qed.

(** What a binary prints, if it is asked. *)
Definition answered (answer : capturedTestBinary → listing * Time) (b : capturedTestBinary) : string :=
  default "" (snd <$> (answer b).1).

Lemma listLoop_spec answer bins : ∀ s errs s' errs',
  listLoop answer s errs bins = Some (errs', s') →
  build_keeps s s' ∧ (∃ more, errs' = errs ++ more) ∧
  (∀ n t, n ∉ pkg <$> bins → listed s n t → listed s' n t) ∧
  (errs' = [] → NoDup (pkg <$> bins) → ∀ b t, b ∈ bins → t ∈ Fields (answered answer b) → wants (sTests s) (pkg b) t = true → listed s' (pkg b) t).
Proof using Type.
  induction bins as [|b bins IH]; intros s errs s' errs'; cbn [listLoop].
  { intros [= <- <-]. split_and!; [done|by exists []; rewrite app_nil_r|done|]. intros _ _ b t Hin. by apply elem_of_nil in Hin. }
  destruct (listTestsInBinary s (pkg b) _ _) as [[err s1]|] eqn:Hl; [|done]. cbn [mbind option_bind]. intros Hrest.
  destruct (IH _ _ _ _ Hrest) as (K2 & [m2 E2] & F2 & L2).
  assert (H1 : build_keeps s s1 ∧ (∀ n t, n ≠ pkg b → listed s n t → listed s1 n t) ∧
    (err = None → ∀ t, t ∈ Fields (answered answer b) → wants (sTests s) (pkg b) t = true → listed s1 (pkg b) t)).
  { unfold listTestsInBinary, answered in *. destruct (answer b).1 as [[[e|] text]|]; cbn [fmap option_fmap option_map default] in *; [by injection Hl as <- <-| |by injection Hl as <- <-].
    destruct (setPackageTests s (pkg b) _ _) as [s2|] eqn:Hsp; [|done]. cbn [mbind option_bind] in Hl.
    assert (err = None ∧ s2 = s1) as [-> ->] by (split; congruence). destruct (setPackageTests_spec _ _ _ _ _ Hsp) as (A & B & C). by split_and!. }
  destruct H1 as (K1 & F1 & L1). split_and!; [by etrans|exists (option_list err ++ m2); by rewrite E2, app_assoc| |].
  - intros n t Hn Ht. rewrite fmap_cons in Hn. apply not_elem_of_cons in Hn as [Hn1 Hn2]. by apply F2, F1.
  - intros Hnil Hnd b' t Hin Ht Hw. rewrite fmap_cons, NoDup_cons in Hnd. destruct Hnd as [Hni Hnd].
    apply elem_of_cons in Hin as [->|Hin].
    + apply F2; [done|]. apply L1; [|done|done]. rewrite E2 in Hnil. apply app_nil in Hnil as [Hnil _]. apply app_nil in Hnil as [_ Herr]. by destruct err.
    + apply (L2 Hnil Hnd); [done|done|]. pose proof (bk_asked _ _ K1) as [= -> _]. done.
Qed.
End listing.

(** ** The phases together *)

Section phases.
Context `{GoRuntime, EventCodec} (f : flags).
Hypothesis snarf_hash : ∀ text es, decodeSnarf text = Ok es → esExeHash es ≠ "".

#[local] Existing Instance build_keeps_preorder.

Lemma setPhase_keeps s p now : build_keeps s (setPhase s p now).
Proof using Type. by split. Qed.

Lemma packagesWithTests_has s name : has s name → name ∈ packagesWithTests s.
Proof using Type.
  intros (ps & Hps & Ht). unfold packagesWithTests. apply elem_of_sort_by.
  apply list_elem_of_fmap. exists (name, ps). split; [done|]. apply list_elem_of_filter. split; [done|]. by apply elem_of_map_to_list.
Qed.

Lemma learnBuildDependencyCount_keeps s names goList : build_keeps s (learnBuildDependencyCount s names goList).2.
Proof using Type. unfold learnBuildDependencyCount. by destruct (goList _ _) as [[e|] text]. Qed.

(** A package that go test was asked to test passed. *)
Definition builds (tools : buildTools) (name : string) : Prop :=
  ∀ dir args environ, name ∈ args → ∃ line, line ∈ boLines (btTest tools dir args environ) ∧ passes line name.

Lemma build_spec cached stat now s tools s' :
  buildAllTestBinaries cached stat now f s tools = Some (None, s') →
  build_keeps s s' ∧ (∀ name, builds tools name → has s name → captured s' name).
Proof using snarf_hash.
  unfold buildAllTestBinaries. destruct (btSelf tools) as [selfExe|]; [|intros E; congruence].
  pose proof (packagesWithTests_has s) as Hhas. destruct (packagesWithTests s) as [|p ps].
  { intros E. assert (s' = s) as -> by congruence. split; [done|]. intros name _ Hh. by apply Hhas, elem_of_nil in Hh. }
  pose proof (learnBuildDependencyCount_keeps s (p :: ps) (btDeps tools)) as Ks. set (s0 := (learnBuildDependencyCount _ _ _).2) in *.
  destruct (startShim tools s0 selfExe) as [endpoint|]; [|intros E; congruence]. set (out := btTest tools _ _ _).
  destruct (buildLoop _ _ _ _ _) as [[err b]|] eqn:Hl; [|done]. cbn [mbind option_bind]. unfold processCmdOutput. cbn [fst snd].
  set (fnErr := match err with Some e => Some e | None => _ end).
  destruct (boStart out) as [e|]; [cbn; intros E; congruence|]. destruct fnErr as [e|] eqn:Hfn; [cbn; intros E; congruence|].
  unfold fnErr in Hfn. destruct err; [done|]. destruct (boScanErr out); [done|]. apply Join_errors_None in Hfn.
  destruct (boExit out) as [[]|]; [cbn; intros E; congruence|]. intros E. assert (s' = bsServer b) as -> by congruence.
  destruct (buildLoop_spec snarf_hash _ _ _ _ _ _ Hl) as (K & _ & C). split; [by etrans|]. intros name Hb Hh.
  destruct (Hb (Root (sProfile s0)) (buildArgs f s0 selfExe (p :: ps)) (buildEnviron tools s0 selfExe endpoint)) as (line & Hin & Hp).
  { unfold buildArgs. rewrite !elem_of_app. right. right. by apply Hhas. }
  apply (C Hfn line); [done|done|]. by apply Ks.
Qed.

Lemma listAll_spec s arrival answer s' :
  (∀ l, arrival l ≡ₚ l) → listAllTests s arrival answer = Some (None, s') →
  build_keeps s s' ∧
  (∀ b t, b ∈ capturedTestBinaries s → t ∈ Fields (answered answer b) → wants (sTests s) (pkg b) t = true → listed s' (pkg b) t).
Proof using Type.
  intros Ha. unfold listAllTests. destruct (capturedTestBinaries s) as [|c cs] eqn:Hb.
  { intros E. assert (s' = s) as -> by congruence. split; [done|]. intros b t Hin. by apply elem_of_nil in Hin. }
  rewrite <- Hb. destruct (listLoop _ _ _ _) as [[errs s1]|] eqn:Hl; [|done]. cbn [mbind option_bind].
  destruct (Join_errors errs) eqn:Hj; [intros E; congruence|]. intros E. assert (s' = s1) as -> by congruence.
  apply Join_errors_None in Hj. destruct (listLoop_spec _ _ _ _ _ _ Hl) as (K & _ & _ & L). split; [done|].
  intros b t Hin. apply L; [done|rewrite Ha; apply NoDup_capturedTestBinaries|by rewrite Ha].
Qed.

Lemma resolveQualifiedTests_pkgs s goList err s' : resolveQualifiedTests s goList = (err, s') → pkgs s' = pkgs s ∧ going s' = going s.
Proof using Type. unfold resolveQualifiedTests. destruct (resolveLoop _ _ _ _) as [[? ?] ?]. by intros [= _ <-]. Qed.

Lemma resolveExcluded_asked s s' goList : asked s' = asked s → resolveExcludedPackages s' goList = resolveExcludedPackages s goList.
Proof using Type. intros [= _ E]. unfold resolveExcludedPackages, tagsArg. by rewrite E. Qed.

Lemma discovered_asked s s' env : asked s' = asked s → discovered s' env = discovered s env.
Proof using Type. intros [= _ E]. unfold discovered, listArgs, tagsArg. by rewrite E. Qed.

(** What the go command and the environment are relied on for: [go list] names a
    package once, and every goroutine that lists a binary sends its answer. *)
Record env_ok (env : runEnv) : Prop := {
  eo_packages : ∀ dir args, NoDup (ImportPath <$> (loDecoded (rePackages env dir args)).*1);
  eo_arrival : ∀ l, reArrival env l ≡ₚ l
}.

(** The test was asked for: its package is among those that go list prints, is not
    excluded and has tests, the build of its binary passed, and its binary lists
    the test. *)
Record asked_for (s : Server) (env : runEnv) (p : goListPackage) (t : string) : Prop := {
  af_package : p ∈ (loDecoded (discovered s env)).*1;
  af_hasTests : hasTests p = true;
  af_excluded : ∃ excluded, resolveExcludedPackages s (reExcluding env) = Ok excluded ∧ ImportPath p ∉ excluded;
  af_may : packageMayContainSelectedTest s (reTree env) p = true;
  af_built : builds (reBuild env) (ImportPath p);
  af_lists : ∀ b, pkg b = ImportPath p → t ∈ Fields (answered (reListing env) b);
  af_wants : wants (sTests s) (ImportPath p) t = true;
  af_runnable : isRunnableTopLevelTest t = true
}.

(** The phases one by one. *)
Lemma beforeTests_phases s env s1 :
  pkgs s = ∅ → env_ok env → buildOnly f = false → beforeTests f s env = Some (None, s1) →
  ∃ sa sb sc sd excluded, fresh sa ∧ going sa = going s ∧ resolveExcludedPackages sa (reExcluding env) = Ok excluded ∧
    learnPackagesWithTests sa (reTree env) (reExcluding env) (rePackages env) = (None, sb) ∧
    buildAllTestBinaries (reCached env) (reStat env) (reNow env 2) f (setPhase sb phaseBuilding (reNow env 1)) (reBuild env) = Some (None, sc) ∧
    listAllTests (setPhase sc phaseListing (reNow env 3)) (reArrival env) (reListing env) = Some (None, sd) ∧
    s1 = setPhase sd phaseTesting (reNow env 4).
Proof using Type.
  intros Hs _ Hbo. unfold beforeTests.
  destruct (resolveQualifiedTests _ _) as [[e|] sa] eqn:Ha; [intros E; congruence|]. apply resolveQualifiedTests_pkgs in Ha as [Ha Hga].
  assert (Hfa : fresh sa) by (unfold fresh; rewrite Ha; cbn; rewrite Hs; apply map_Forall_empty).
  destruct (learnPackagesWithTests _ _ _ _) as [[e|] sb] eqn:Hb; [intros E; congruence|].
  destruct (buildAllTestBinaries _ _ _ _ _ _) as [[[e|] sc]|] eqn:Hc; [intros E; cbn in E; congruence| |done]. cbn [mbind option_bind]. rewrite Hbo.
  destruct (listAllTests _ _ _) as [[[e|] sd]|] eqn:Hd; [intros E; cbn in E; congruence| |done]. cbn [mbind option_bind].
  intros E. destruct (resolveExcludedPackages sa (reExcluding env)) as [ex|] eqn:Hex.
  2:{ unfold learnPackagesWithTests in Hb. rewrite Hex in Hb. congruence. }
  exists sa, sb, sc, sd, ex. split_and!; [done|exact Hga|done|done|done|done|congruence].
Qed.

(** Nothing has been run or canceled when the phase of testing starts. *)
Lemma beforeTests_fresh s env s1 :
  pkgs s = ∅ → env_ok env → buildOnly f = false → beforeTests f s env = Some (None, s1) → fresh s1 ∧ going s1 = going s.
Proof using snarf_hash.
  intros Hs Henv Hbo Hrun. destruct (beforeTests_phases s env s1 Hs Henv Hbo Hrun) as (sa & sb & sc & sd & ex & Hfa & Hga & Hex & Hb & [Kc _]%build_spec & Hd & ->).
  apply listAll_spec in Hd as [Kd _]; [|apply Henv]. destruct (learn_spec sa env sb ex Hfa (eo_packages _ Henv _ _) Hex Hb) as (Fb & _ & Gb & _).
  split; [change (fresh sd); apply Kd; change (fresh sc); apply Kc; exact Fb|]. change (going sd = going s). rewrite (bk_going _ _ Kd). change (going sc = going s).
  rewrite (bk_going _ _ Kc). change (going sb = going s). congruence.
Qed.

Lemma beforeTests_spec s env s1 p t :
  pkgs s = ∅ → env_ok env → buildOnly f = false → beforeTests f s env = Some (None, s1) → asked_for s1 env p t →
  fresh s1 ∧ captured s1 (ImportPath p) ∧ listed s1 (ImportPath p) t.
Proof using snarf_hash.
  intros Hs Henv Hbo Hrun [A1 A2 (excluded & A3 & A3') A4 A5 A6 A7 A8]. destruct (beforeTests_fresh s env s1 Hs Henv Hbo Hrun) as [Hfresh _].
  destruct (beforeTests_phases s env s1 Hs Henv Hbo Hrun) as (sa & sb & sc & sd & ex & Hfa & _ & Hex & Hb & [Kc Cc]%build_spec & Hd & ->).
  apply listAll_spec in Hd as [Kd Ld]; [|apply Henv]. pose proof (eo_packages _ Henv) as Hnd.
  assert (Kbc : build_keeps sb sc) by (etrans; [apply setPhase_keeps|exact Kc]).
  assert (Kcd : build_keeps sc sd) by (etrans; [apply setPhase_keeps|exact Kd]).
  assert (Kbd : build_keeps sb sd) by (by etrans).
  change (resolveExcludedPackages sd (reExcluding env) = Ok excluded) in A3.
  change (packageMayContainSelectedTest sd (reTree env) p = true) in A4. change (wants (sTests sd) (ImportPath p) t = true) in A7.
  destruct (learn_spec sa env sb ex Hfa (Hnd _ _) Hex Hb) as (_ & Ab & _ & Pb).
  assert (Had : asked sd = asked sa) by (rewrite <- Ab; apply Kbd).
  rewrite (resolveExcluded_asked sa) in A3 by done. assert (ex = excluded) as -> by congruence. rewrite (may_asked sa) in A4 by done.
  assert (Hdis : discovered sd env = discovered sa env) by (by apply discovered_asked).
  change (p ∈ (loDecoded (discovered sd env)).*1) in A1. rewrite Hdis in A1. apply list_elem_of_fmap in A1 as ([p' tm] & -> & A1). cbn [fst] in *. specialize (Pb _ _ A1 A3' A4 A2).
  specialize (Cc _ A5 Pb). split_and!.
  - done.
  - change (captured sd (ImportPath p')). by apply Kcd.
  - change (listed sd (ImportPath p') t). destruct Cc as (ps & Hps & Hh). set (sl := setPhase sc phaseListing (reNow env 3)) in *.
    assert (Hw : sTests sl = sTests sd) by (pose proof (bk_asked _ _ Kcd) as [= -> _]; done).
    apply (Ld (binaryOf sl (ImportPath p') ps) t); [|by apply A6|by rewrite Hw].
    apply elem_of_capturedTestBinaries. by exists ps.
Qed.

Lemma prepareTasks_spec s lookup now s2 tasks p t :
  fresh s → captured s p → listed s p t → isRunnableTopLevelTest t = true →
  prepareTasks f s lookup now = Some (s2, Some tasks) → (p, t) ∈ taskKey <$> tasks.
Proof using Type.
  intros Hf (ps & Hps & Hh) (ps' & Hps' & Ht) Hr. assert (ps' = ps) as -> by congruence. unfold prepareTasks.
  destruct (capturedTestBinaries s) as [|b bs]; [intros E; congruence|].
  destruct (allTestTasks_spec s now (fresh_ok s Hf)) as (s' & l & -> & _ & _ & Hl & _). cbn [mbind option_bind]. intros E.
  assert (tasks = orderTestTasksByHistory f (loadHistory f s' l lookup) l) as -> by congruence.
  assert (Hp : orderTestTasksByHistory f (loadHistory f s' l lookup) l ≡ₚ l) by apply sort_by_perm.
  rewrite Hp. apply Hl. by exists ps.
Qed.

Lemma allTestTasks_going s now s' tasks : allTestTasks s now = Some (s', tasks) → going s' = going s.
Proof using Type.
  unfold allTestTasks. generalize (capturedTestBinaries s) (@nil testTask). intros bins l. revert s l. induction bins as [|b bins IH]; intros s l; cbn [foldl mbind option_bind].
  - by intros [= <- _].
  - destruct (binTasks (s, l) b now) as [[s1 l1]|] eqn:E; [|intros Hn; exfalso; clear -Hn; by induction bins as [|c bins IH]; [|apply IH]].
    intros Hr%IH. rewrite Hr. unfold binTasks in E. destruct (pkgs s !! pkg b); [|done]. cbn [mbind option_bind] in E. by destruct (runnableTests _); injection E as <- _.
Qed.

Lemma prepareTasks_going s lookup now s2 tasks : prepareTasks f s lookup now = Some (s2, tasks) → going s2 = going s.
Proof using Type.
  unfold prepareTasks. destruct (capturedTestBinaries s) as [|b bs]; [by intros [= <- _]|]. destruct (allTestTasks s now) as [[s' l]|] eqn:E; [|done]. cbn [mbind option_bind].
  apply allTestTasks_going in E. intros Hx. rewrite <- E. set (sl := loadHistory f s' l lookup) in Hx.
  assert (s2 = prepareTestEstimates f sl (orderTestTasksByHistory f sl l)) as -> by congruence. change (going sl = going s'). unfold sl, loadHistory.
  destruct (_ || _); [done|]. destruct (historyLoaded _); [done|]. by destruct (lookup _).
Qed.

(** A pool without an error has returned every test that was listed, without an error. *)
Lemma pool_returned s1 lookup now s2 tasks pl p t :
  fresh s1 → going s1 = (false, false) → captured s1 p → listed s1 p t → isRunnableTopLevelTest t = true → 1 ≤ jobs f →
  prepareTasks f s1 lookup now = Some (s2, Some tasks) → reached f s2 tasks pl → finished pl → poolResult pl = None →
  ∃ task, taskKey task = (p, t) ∧ (task, None) ∈ plReturned pl.
Proof using Type.
  intros Hf Hg Hc Hl Hrun Hj Hprep Hr Hfin Hres. assert (Hg2 : going s2 = (false, false)) by (rewrite (prepareTasks_going _ _ _ _ _ Hprep); congruence). injection Hg2 as Hca Hff.
  assert (Hin : (p, t) ∈ taskKey <$> tasks) by (by eapply prepareTasks_spec). apply list_elem_of_fmap in Hin as (task & Hk & Hin). exists task. split; [done|].
  destruct (pool_success f s2 tasks pl Hca Hff Hj Hr Hfin Hres) as [Hp Hall]. rewrite <- Hp in Hin.
  apply list_elem_of_fmap in Hin as ([task' err] & -> & Hin). pose proof (Hall _ _ Hin) as ->. exact Hin.
Qed.

(** With a test that was asked for there is a binary to run. *)
Lemma prepareTasks_some s lookup now s2 tasks p : captured s p → prepareTasks f s lookup now = Some (s2, tasks) → is_Some tasks.
Proof using Type.
  intros (ps & Hps & Hh) Hp. unfold prepareTasks in Hp. assert (Hc : binaryOf s p ps ∈ capturedTestBinaries s) by (apply elem_of_capturedTestBinaries; by exists ps).
  destruct (capturedTestBinaries s) as [|b bs]; [by apply not_elem_of_nil in Hc|]. destruct (allTestTasks s now) as [[s' l]|]; [|done]. cbn [mbind option_bind] in Hp.
  assert (tasks = Some (orderTestTasksByHistory f (loadHistory f s' l lookup) l)) as -> by congruence. by eexists.
Qed.

End phases.

(** ** A small run *)

#[local] Existing Instance testRuntime.

(** Two lines: the record of the wrapper, and the end of the build. *)
#[local] Instance exampleCodec : EventCodec := {|
  decodeAction := λ line, Ok line;
  decodeBuildEvent := λ _, Err (EMsg "not a build event");
  decodeTestEvent := λ line, Ok (MkTestEvent line "ex/p" ("ExecSnarf:{}" +:+ newline) "");
  decodeSnarf := λ _, Ok (MkExecSnarf "/src/p" "abcd" [])
|}.

Lemma exampleCodec_hash text es : decodeSnarf text = Ok es → esExeHash es ≠ "".
Proof. by intros [= <-]. Qed.

Definition emptyServer : Server := exampleServer <| pkgs := ∅ |>.
Definition exGoPackage : goListPackage := GoListPackage "/src/p" "ex/p" "p" ["p_test.go"] [] "/src".

Definition exTools : buildTools := BuildTools (Ok "/bin/gotst") [] "" "/cache" (λ _, Ok "/go/cache") (λ _ _, (None, "ex/p"))
  (λ _ _, Ok "/tmp/cache.sock") (λ _ _ _, BuildOutput None ["output"; "pass"] None None) None.

Definition exEnv : runEnv := RunEnv (λ _ _, (None, "")) (λ _ _, ((None, ""), "")) (SourceTree (λ _, Ok []) (λ _, Ok ""))
  (λ _ _, ListOutput None [(exGoPackage, 1)] None None) exTools
  (λ _, false) (λ _, Ok 9) (λ l, l) (λ _, (Some (None, "TestA ExampleB BenchmarkC"), 4)) (λ n, Z.of_nat n).

Definition exListed : Server := default emptyServer (snd <$> beforeTests exampleFlags emptyServer exEnv).
Definition exPrepared : Server * option (list testTask) :=
  default (emptyServer, None) (prepareTasks exampleFlags exListed (λ _, Ok ∅) 9).
Definition exTasks : list testTask := default [] (exPrepared.2).
Definition exEvents : list event := [ETake; EReturn 0 None; ESend 0; ECount; ETake; EReturn 0 None; ESend 0; ECount].
Definition exDone : pool :=
  default (startPool emptyServer []) (runEvents exampleFlags (workers exampleFlags exTasks) (startPool exPrepared.1 exTasks) exEvents).

Example exTasks_are : (taskKey <$> exTasks) = [("ex/p", "ExampleB"); ("ex/p", "TestA")].
Proof. vm_compute. reflexivity. Qed.

Lemma exEnv_ok : env_ok exEnv.
Proof. split; [intros; apply NoDup_singleton|done]. Qed.

Lemma exAsked : asked_for exListed exEnv exGoPackage "TestA".
Proof.
  split; try (vm_compute; reflexivity).
  - apply list_elem_of_here.
  - exists []. split; [vm_compute; reflexivity|apply not_elem_of_nil].
  - intros dir args environ _. exists "pass". split; [apply list_elem_of_further, list_elem_of_here|]. eexists. split; [reflexivity|split; reflexivity].
  - intros b _. vm_compute. apply list_elem_of_here.
Qed.

