(* ===== verification/Utf8Facts.v ===== *)
(** * Encoding and decoding runes

    A list of runes survives its encoding as UTF-8: what [ofRunes] writes is what
    [runes] reads, and every rune that is read can be written. *)

From Stdlib Require Import Ascii.
From S2P Require Import Prelude GoStrings GoFmt Utf8.

(** ** Bits as arithmetic *)

Lemma lor_low c x k : 0 ≤ k → 0 ≤ x < 2 ^ k → c mod 2 ^ k = 0 → Z.lor c x = c + x.
Proof.
  intros Hk Hx Hc. symmetry. apply Z.add_nocarry_lor. rewrite <- (Z.mod_small x (2 ^ k)) by done. rewrite <- Z.land_ones by done.
  rewrite Z.land_comm, <- Z.land_assoc, (Z.land_comm _ c), Z.land_ones, Hc by done. apply Z.land_0_r.
Qed.

Lemma lor_shift a x k : 0 ≤ k → 0 ≤ x < 2 ^ k → Z.lor (Z.shiftl a k) x = a * 2 ^ k + x.
Proof.
  intros Hk Hx. rewrite (lor_low _ x k), Z.shiftl_mul_pow2 by (rewrite ?Z.shiftl_mul_pow2, ?Z.mod_mul by lia; lia). done.
Qed.

Lemma land_3F x : Z.land x 0x3F = x mod 64.
Proof. apply (Z.land_ones x 6). lia. Qed.
Lemma land_1F x : Z.land x 0x1F = x mod 32.
Proof. apply (Z.land_ones x 5). lia. Qed.
Lemma land_0F x : Z.land x 0x0F = x mod 16.
Proof. apply (Z.land_ones x 4). lia. Qed.
Lemma land_07 x : Z.land x 0x07 = x mod 8.
Proof. apply (Z.land_ones x 3). lia. Qed.

Ltac zarith := Z.div_mod_to_equations; lia.

(** The value of two, three and four bytes. *)
Definition rune2 (b0 b1 : Z) : Z := (b0 mod 32) * 64 + b1 mod 64.
Definition rune3 (b0 b1 b2 : Z) : Z := (b0 mod 16) * 4096 + (b1 mod 64) * 64 + b2 mod 64.
Definition rune4 (b0 b1 b2 b3 : Z) : Z := (b0 mod 8) * 262144 + (b1 mod 64) * 4096 + (b2 mod 64) * 64 + b3 mod 64.

Lemma rune2_eq b0 b1 : Z.lor (Z.shiftl (Z.land b0 0x1F) 6) (Z.land b1 0x3F) = rune2 b0 b1.
Proof. rewrite land_1F, land_3F, lor_shift; [done|lia|]. change (2 ^ 6) with 64. zarith. Qed.

Lemma rune3_eq b0 b1 b2 :
  Z.lor (Z.shiftl (Z.land b0 0x0F) 12) (Z.lor (Z.shiftl (Z.land b1 0x3F) 6) (Z.land b2 0x3F)) = rune3 b0 b1 b2.
Proof.
  rewrite land_0F, !land_3F. rewrite (lor_shift _ (b2 mod 64) 6) by (change (2 ^ 6) with 64; zarith).
  rewrite lor_shift by (change (2 ^ 6) with 64; change (2 ^ 12) with 4096; zarith).
  unfold rune3. change (2 ^ 6) with 64. change (2 ^ 12) with 4096. lia.
Qed.

Lemma rune4_eq b0 b1 b2 b3 :
  Z.lor (Z.shiftl (Z.land b0 0x07) 18) (Z.lor (Z.shiftl (Z.land b1 0x3F) 12) (Z.lor (Z.shiftl (Z.land b2 0x3F) 6) (Z.land b3 0x3F))) =
  rune4 b0 b1 b2 b3.
Proof.
  rewrite land_07, !land_3F. rewrite (lor_shift _ (b3 mod 64) 6) by (change (2 ^ 6) with 64; zarith).
  rewrite (lor_shift _ _ 12) by (change (2 ^ 6) with 64; change (2 ^ 12) with 4096; zarith).
  rewrite lor_shift by (change (2 ^ 6) with 64; change (2 ^ 12) with 4096; change (2 ^ 18) with 262144; zarith).
  unfold rune4. change (2 ^ 6) with 64. change (2 ^ 12) with 4096. change (2 ^ 18) with 262144. lia.
Qed.

(** ** Reading gives valid runes *)

Lemma andb_leb a b c : (a <=? b) && (b <=? c) = true ↔ a ≤ b ≤ c.
Proof. rewrite andb_true_iff, !Z.leb_le. done. Qed.

Ltac bounds := repeat match goal with
  | H : _ && _ = true |- _ => apply andb_prop in H as [? ?]
  | H : second_ok _ _ = true |- _ => unfold second_ok, isCont in H
  | H : isCont _ = true |- _ => unfold isCont in H
  | H : (if ?x =? ?y then _ else _) = true |- _ => destruct (Z.eqb_spec x y)
  | H : (_ <=? _) = true |- _ => apply Z.leb_le in H
  end.

(** What the announced length says of the first byte. *)
Lemma enc_len_spec b :
  match enc_len b with
  | 0%nat => True
  | 1%nat => b < 0x80
  | 2%nat => 0xC2 ≤ b ≤ 0xDF
  | 3%nat => 0xE0 ≤ b ≤ 0xEF
  | 4%nat => 0xF0 ≤ b ≤ 0xF4
  | _ => False
  end.
Proof.
  unfold enc_len. destruct (Z.ltb_spec b 0x80); [done|].
  destruct ((0xC2 <=? b) && _) eqn:E2; [by apply andb_leb|]. destruct ((0xE0 <=? b) && _) eqn:E3; [by apply andb_leb|].
  destruct ((0xF0 <=? b) && _) eqn:E4; [by apply andb_leb|]. done.
Qed.

Lemma validRune_iff r : validRune r = true ↔ 0 ≤ r < 0xD800 ∨ 0xDFFF < r ≤ 0x10FFFF.
Proof. unfold validRune. rewrite orb_true_iff, !andb_true_iff, !Z.leb_le, !Z.ltb_lt. done. Qed.

(** The first rune, and the rest of the string. *)
Lemma chunks_first a s : ∃ r w rest,
  chunks (String a s) = (r, w) :: chunks rest ∧ (String.length rest < String.length (String a s))%nat ∧ validRune r = true.
Proof.
  cbn [chunks]. pose proof (enc_len_spec (byteZ a)) as Hl. pose proof (byteZ_range a) as Ha.
  assert (He : validRune RuneError = true) by done.
  assert (Hbad : ∃ r w rest, (RuneError, String a "") :: chunks s = (r, w) :: chunks rest ∧
    (String.length rest < String.length (String a s))%nat ∧ validRune r = true).
  { eexists _, _, _. split; [reflexivity|]. split; [simpl; lia|done]. }
  destruct (enc_len (byteZ a)) as [|[|[|[|[|n]]]]]; [exact Hbad| | | | |done].
  - eexists _, _, _. split; [reflexivity|]. split; [simpl; lia|]. apply validRune_iff. lia.
  - destruct s as [|a1 s2]; [exact Hbad|]. destruct (second_ok _ _) eqn:H1; [|exact Hbad].
    eexists _, _, _. split; [reflexivity|]. split; [simpl; lia|]. apply validRune_iff. rewrite rune2_eq. unfold rune2. zarith.
  - destruct s as [|a1 [|a2 s3]]; [exact Hbad..|]. destruct (second_ok _ _ && _) eqn:H1; [|exact Hbad].
    eexists _, _, _. split; [reflexivity|]. split; [simpl; lia|]. apply validRune_iff. rewrite rune3_eq. unfold rune3. bounds; zarith.
  - destruct s as [|a1 [|a2 [|a3 s4]]]; [exact Hbad..|]. destruct (second_ok _ _ && _ && _) eqn:H1; [|exact Hbad].
    eexists _, _, _. split; [reflexivity|]. split; [simpl; lia|]. apply validRune_iff. rewrite rune4_eq. unfold rune4. bounds; zarith.
Qed.

Lemma runes_valid s : Forall (λ r, validRune r = true) (runes s).
Proof.
  unfold runes. induction s as [s IH] using string_length_ind. destruct s as [|a s]; [constructor|].
  destruct (chunks_first a s) as (r & w & rest & -> & Hlen & Hr). rewrite fmap_cons. constructor; [done|]. by apply IH.
Qed.

(** ** Writing and reading *)

Lemma shiftr_div r k : 0 ≤ k → Z.shiftr r k = r / 2 ^ k.
Proof. apply Z.shiftr_div_pow2. Qed.

Lemma second_ok_iff b0 b1 : second_ok b0 b1 = true ↔
  0x80 ≤ b1 ≤ 0xBF ∧ (b0 = 0xE0 → 0xA0 ≤ b1) ∧ (b0 = 0xED → b1 ≤ 0x9F) ∧ (b0 = 0xF0 → 0x90 ≤ b1) ∧ (b0 = 0xF4 → b1 ≤ 0x8F).
Proof. unfold second_ok, isCont. destruct (Z.eqb_spec b0 0xE0), (Z.eqb_spec b0 0xED), (Z.eqb_spec b0 0xF0), (Z.eqb_spec b0 0xF4); rewrite andb_leb; lia. Qed.

Lemma isCont_iff b : isCont b = true ↔ 0x80 ≤ b ≤ 0xBF.
Proof. apply andb_leb. Qed.

(** The last byte of an encoding, and its first ones. *)
Lemma cont_byte r : Z.lor 0x80 (Z.land r 0x3F) = 0x80 + r mod 64.
Proof. rewrite land_3F. apply (lor_low _ _ 6); [lia| |done]. change (2 ^ 6) with 64. zarith. Qed.

Lemma enc_len_2 b : 0xC2 ≤ b ≤ 0xDF → enc_len b = 2%nat.
Proof.
  intros Hb. unfold enc_len. destruct (Z.ltb_spec b 0x80); [lia|]. by rewrite (proj2 (andb_leb _ _ _)) by lia.
Qed.
Lemma enc_len_3 b : 0xE0 ≤ b ≤ 0xEF → enc_len b = 3%nat.
Proof.
  intros Hb. unfold enc_len. destruct (Z.ltb_spec b 0x80); [lia|]. destruct ((0xC2 <=? b) && _) eqn:E; [apply andb_leb in E; lia|].
  by rewrite (proj2 (andb_leb _ _ _)) by lia.
Qed.
Lemma enc_len_4 b : 0xF0 ≤ b ≤ 0xF4 → enc_len b = 4%nat.
Proof.
  intros Hb. unfold enc_len. destruct (Z.ltb_spec b 0x80); [lia|]. destruct ((0xC2 <=? b) && _) eqn:E; [apply andb_leb in E; lia|].
  destruct ((0xE0 <=? b) && _) eqn:E'; [apply andb_leb in E'; lia|]. by rewrite (proj2 (andb_leb _ _ _)) by lia.
Qed.

Ltac open_bytes := unfold bytes; cbn [foldr]; rewrite ?append_cons, ?append_empty_l; cbn [chunks].

Lemma chunks_2 b0 b1 s : 0xC2 ≤ b0 ≤ 0xDF → 0x80 ≤ b1 ≤ 0xBF →
  chunks (bytes [b0; b1] +:+ s) = (rune2 b0 b1, bytes [b0; b1]) :: chunks s.
Proof.
  intros H0 H1. open_bytes. rewrite !byteZ_ofByteZ, enc_len_2 by lia. rewrite (proj2 (second_ok_iff _ _)) by lia. by rewrite rune2_eq.
Qed.

Lemma chunks_3 b0 b1 b2 s : 0xE0 ≤ b0 ≤ 0xEF → second_ok b0 b1 = true → 0x80 ≤ b2 ≤ 0xBF →
  chunks (bytes [b0; b1; b2] +:+ s) = (rune3 b0 b1 b2, bytes [b0; b1; b2]) :: chunks s.
Proof.
  intros H0 H1 H2. pose proof (proj1 (second_ok_iff _ _) H1). open_bytes.
  rewrite !byteZ_ofByteZ, enc_len_3, H1, (proj2 (isCont_iff _)) by lia. cbn [andb]. by rewrite rune3_eq.
Qed.

Lemma chunks_4 b0 b1 b2 b3 s : 0xF0 ≤ b0 ≤ 0xF4 → second_ok b0 b1 = true → 0x80 ≤ b2 ≤ 0xBF → 0x80 ≤ b3 ≤ 0xBF →
  chunks (bytes [b0; b1; b2; b3] +:+ s) = (rune4 b0 b1 b2 b3, bytes [b0; b1; b2; b3]) :: chunks s.
Proof.
  intros H0 H1 H2 H3. pose proof (proj1 (second_ok_iff _ _) H1). open_bytes.
  rewrite !byteZ_ofByteZ, enc_len_4, H1, !(proj2 (isCont_iff _)) by lia. cbn [andb]. by rewrite rune4_eq.
Qed.

Lemma chunks_encodeRune r s : validRune r = true → chunks (encodeRune r +:+ s) = (r, encodeRune r) :: chunks s.
Proof.
  intros Hr. unfold encodeRune. rewrite Hr. apply validRune_iff in Hr. unfold encodeValid.
  destruct (Z.ltb_spec r 0x80).
  { unfold bytes. cbn [foldr]. rewrite append_cons, append_empty_l, chunks_ascii_cons by (rewrite byteZ_ofByteZ; lia). by rewrite byteZ_ofByteZ by lia. }
  rewrite !cont_byte, !shiftr_div by lia. change (2 ^ 6) with 64. change (2 ^ 12) with 4096. change (2 ^ 18) with 262144.
  destruct (Z.ltb_spec r 0x800).
  { rewrite (lor_low 0xC0 _ 5) by (change (2 ^ 5) with 32; first [done|zarith]). rewrite chunks_2 by zarith. unfold rune2. do 2 f_equal. zarith. }
  destruct (Z.ltb_spec r 0x10000).
  { rewrite (lor_low 0xE0 _ 4) by (change (2 ^ 4) with 16; first [done|zarith]). rewrite chunks_3; [|zarith|apply second_ok_iff; zarith|zarith].
    unfold rune3. do 2 f_equal. zarith. }
  rewrite (lor_low 0xF0 _ 3) by (change (2 ^ 3) with 8; first [done|zarith]). rewrite chunks_4; [|zarith|apply second_ok_iff; zarith|zarith..].
  unfold rune4. do 2 f_equal. zarith.
Qed.

Lemma chunks_ofRunes rs : Forall (λ r, validRune r = true) rs → chunks (ofRunes rs) = (λ r, (r, encodeRune r)) <$> rs.
Proof.
  unfold ofRunes. induction 1 as [|r rs Hr Hrs IH]; [done|]. rewrite !fmap_cons. cbn [concatS]. by rewrite chunks_encodeRune, IH.
Qed.

(** Runes survive their encoding. *)
Lemma runes_ofRunes rs : Forall (λ r, validRune r = true) rs → runes (ofRunes rs) = rs.
Proof. intros Hrs. unfold runes. rewrite chunks_ofRunes by done. rewrite <- list_fmap_compose. apply list_fmap_id. Qed.

(** What is written is valid. *)
Lemma encodeRune_long r : 0x80 ≤ r → (2 ≤ String.length (encodeRune r))%nat.
Proof.
  intros Hr. unfold encodeRune. assert (H : 0x80 ≤ (if validRune r then r else RuneError)) by (destruct (validRune r); unfold RuneError; lia).
  revert H. generalize (if validRune r then r else RuneError). clear r Hr. intros r Hr. unfold encodeValid.
  destruct (Z.ltb_spec r 0x80); [lia|]. destruct (_ <? _); [simpl; lia|]. destruct (_ <? _); simpl; lia.
Qed.

Lemma ValidString_ofRunes rs : Forall (λ r, validRune r = true) rs → ValidString (ofRunes rs) = true.
Proof.
  intros Hrs. unfold ValidString. rewrite chunks_ofRunes by done. apply forallb_forall. intros c Hc.
  apply list_elem_of_In, list_elem_of_fmap in Hc as (r & -> & _). unfold invalid_chunk. cbn [fst snd].
  destruct (Z.eqb_spec r RuneError) as [->|]; [|done]. done.
Qed.

(** ** Valid strings *)

(** A valid string is read before what follows it. *)
Lemma chunks_app_valid a : ∀ b, ValidString a = true → chunks (a +:+ b) = chunks a ++ chunks b.
Proof.
  induction a as [a IH] using string_length_ind. intros b Hv. destruct a as [|x a]; [done|].
  assert (Hcons : ∀ c rest, chunks (String x a) = c :: chunks rest → (String.length rest < String.length (String x a))%nat →
    chunks (String x a +:+ b) = c :: chunks (rest +:+ b) → chunks (String x a +:+ b) = chunks (String x a) ++ chunks b).
  { intros c rest E Hl E'. rewrite E', E, IH; [done|done|]. unfold ValidString in *. rewrite E in Hv. by apply andb_prop in Hv as [_ ?]. }
  assert (Hbad : chunks (String x a) = (RuneError, String x "") :: chunks a → False).
  { intros E. unfold ValidString in Hv. rewrite E in Hv. done. }
  revert Hcons Hbad. rewrite append_cons. cbn [chunks]. destruct (enc_len (byteZ x)) as [|[|[|[|[|n]]]]]; intros Hcons Hbad.
  - by destruct Hbad.
  - eapply Hcons; [reflexivity|simpl; lia|reflexivity].
  - destruct a as [|a1 a2]; [by destruct Hbad|]. rewrite append_cons in *. destruct (second_ok _ _); [|by destruct Hbad].
    eapply Hcons; [reflexivity|simpl; lia|reflexivity].
  - destruct a as [|a1 [|a2 a3]]; [by destruct Hbad..|]. rewrite !append_cons in *. destruct (second_ok _ _ && _); [|by destruct Hbad].
    eapply Hcons; [reflexivity|simpl; lia|reflexivity].
  - destruct a as [|a1 [|a2 [|a3 a4]]]; [by destruct Hbad..|]. rewrite !append_cons in *. destruct (second_ok _ _ && _ && _); [|by destruct Hbad].
    eapply Hcons; [reflexivity|simpl; lia|reflexivity].
  - by destruct Hbad.
Qed.

Lemma ValidString_append a b : ValidString a = true → ValidString b = true → ValidString (a +:+ b) = true.
Proof. intros Ha Hb. unfold ValidString in *. rewrite chunks_app_valid by done. rewrite forallb_app. by rewrite Ha, Hb. Qed.

Lemma ValidString_concatS l : Forall (λ w, ValidString w = true) l → ValidString (concatS l) = true.
Proof. induction 1; [done|]. cbn [concatS]. by apply ValidString_append. Qed.

(** A rune that was read from its encoding is read from it again. *)
Lemma chunk_self s c : c ∈ chunks s → invalid_chunk c = false → chunks c.2 = [c].
Proof.
  induction s as [s IH] using string_length_ind. destruct s as [|x s]; [intros Hc; by apply elem_of_nil in Hc|].
  assert (Hrest : ∀ c0 rest, (String.length rest < String.length (String x s))%nat → (invalid_chunk c0 = false → chunks c0.2 = [c0]) →
    c ∈ c0 :: chunks rest → invalid_chunk c = false → chunks c.2 = [c]).
  { intros c0 rest Hl H0 [->|Hc]%elem_of_cons; [done|]. by apply (IH rest). }
  assert (Hbad : c ∈ (RuneError, String x "") :: chunks s → invalid_chunk c = false → chunks c.2 = [c]).
  { apply Hrest; [simpl; lia|done]. }
  cbn [chunks]. destruct (enc_len (byteZ x)) as [|[|[|[|[|n]]]]] eqn:El; try exact Hbad.
  - apply Hrest; [simpl; lia|]. intros _. cbn [snd chunks]. by rewrite El.
  - destruct s as [|a1 s]; [exact Hbad|]. destruct (second_ok _ _) eqn:H1; [|exact Hbad].
    apply Hrest; [simpl; lia|]. intros _. cbn [snd chunks]. by rewrite El, H1.
  - destruct s as [|a1 [|a2 s]]; [exact Hbad..|]. destruct (second_ok _ _ && _) eqn:H1; [|exact Hbad].
    apply Hrest; [simpl; lia|]. intros _. cbn [snd chunks]. by rewrite El, H1.
  - destruct s as [|a1 [|a2 [|a3 s]]]; [exact Hbad..|]. destruct (second_ok _ _ && _ && _) eqn:H1; [|exact Hbad].
    apply Hrest; [simpl; lia|]. intros _. cbn [snd chunks]. by rewrite El, H1.
Qed.

Lemma ValidString_chunk s c : c ∈ chunks s → invalid_chunk c = false → ValidString c.2 = true.
Proof. intros Hc Hv. unfold ValidString. rewrite (chunk_self s) by done. simpl. by rewrite Hv. Qed.

(** ** Numbers *)

Lemma ValidString_cons_ascii a s : byteZ a < 0x80 → ValidString s = true → ValidString (String a s) = true.
Proof.
  intros Ha Hs. unfold ValidString. rewrite chunks_ascii_cons by done. simpl. unfold invalid_chunk. cbn [fst snd].
  destruct (Z.eqb_spec (byteZ a) RuneError) as [E|_]; [|done]. unfold RuneError in E. lia.
Qed.

Lemma pretty_N_char_ascii d : byteZ (pretty_N_char d) < 0x80.
Proof. unfold pretty_N_char. destruct d as [|p]; [done|]. do 4 (destruct p as [p|p|]; try done). Qed.

Lemma ValidString_pretty_N_go x : ∀ s, ValidString s = true → ValidString (pretty_N_go x s) = true.
Proof.
  induction (N.lt_wf_0 x) as [x _ IH]. intros s Hs. destruct (decide (0 < x)%N) as [Hx|Hx].
  - rewrite pretty_N_go_step by done. apply IH; [by apply N.div_lt|]. apply ValidString_cons_ascii; [|done].
    apply pretty_N_char_ascii.
  - assert (x = 0)%N as -> by lia. by rewrite pretty_N_go_0.
Qed.

Lemma ValidString_pretty_N (x : N) : ValidString (pretty x) = true.
Proof. change (ValidString (if decide (x = 0)%N then "0" else pretty_N_go x "") = true). destruct (decide _); [done|]. by apply ValidString_pretty_N_go. Qed.

Lemma ValidString_itoa z : ValidString (itoa z) = true.
Proof.
  unfold itoa, pretty, pretty_Z. destruct z as [|p|p]; [done|apply ValidString_pretty_N|]. apply ValidString_append; [done|apply ValidString_pretty_N].
Qed.

Create HintDb utf8.
#[export] Hint Resolve ValidString_append ValidString_itoa : utf8.

Lemma ValidString_fmtFrac v prec print acc : ValidString acc = true → ValidString (fmtFrac v prec print acc).1 = true.
Proof.
  revert v print acc. induction prec as [|prec IH]; intros v print acc Ha; cbn [fmtFrac].
  - destruct print; [by apply ValidString_append|done].
  - apply IH. destruct (print || _); [apply ValidString_append; [apply ValidString_itoa|done]|done].
Qed.

Lemma ValidString_Duration d : ValidString (DurationString d) = true.
Proof.
  unfold DurationString. set (body := if Z.abs d =? 0 then _ else _). assert (Hb : ValidString body = true).
  { unfold body. clear body. assert (Hf : ∀ v n, ValidString (fmtFrac v n false "").1 = true) by (intros; by apply ValidString_fmtFrac).
    destruct (_ =? 0); [done|]. destruct (_ <? _); [by auto with utf8|]. destruct (_ <? _).
    { specialize (Hf (Z.abs d) 3%nat). destruct (fmtFrac _ _ _ _). simpl in Hf. auto 10 with utf8. }
    destruct (_ <? _).
    { specialize (Hf (Z.abs d) 6%nat). destruct (fmtFrac _ _ _ _). simpl in Hf. auto 10 with utf8. }
    specialize (Hf (Z.abs d) 9%nat). destruct (fmtFrac _ _ _ _) as [fr v]. simpl in Hf.
    destruct (_ =? 0); [auto 10 with utf8|]. destruct (_ =? 0); auto 20 with utf8. }
  destruct (d <? 0); [by apply ValidString_append|done].
Qed.
