(* ===== verification/Live.v ===== *)
(** * The live status page (web.go, live.js)

    The server sends the page to each browser as a sequence of patches over a
    websocket; the browser keeps the text and applies them.  When the run is over
    the last patch is marked final and the browser acknowledges it. *)

From S2P Require Import Prelude GoStrings Utf8 Utf8Facts.

(** ** Patches *)

Record htmlPatch := HtmlPatch {
  Seq : Z;
  Prefix : Z;
  Suffix : Z;
  Insert : string;
  Final : bool
}.

(** How many elements two lists have in common at their start. *)
Fixpoint commonPrefix (a b : list Z) : nat :=
  match a, b with
  | x :: a, y :: b => if x =? y then S (commonPrefix a b) else 0
  | _, _ => 0
  end.

(** [makeHTMLPatch]: the second loop compares from the ends, and stops at the
    common prefix. *)
Definition makeHTMLPatch (oldHTML newHTML : string) : htmlPatch :=
  let oldRunes := runes oldHTML in
  let newRunes := runes newHTML in
  let prefix := commonPrefix oldRunes newRunes in
  let suffix := commonPrefix (reverse (drop prefix oldRunes)) (reverse (drop prefix newRunes)) in
  HtmlPatch 0 (Z.of_nat prefix) (Z.of_nat suffix) (ofRunes (take (length newRunes - suffix - prefix) (drop prefix newRunes))) false.

(** [Array.prototype.slice] of JavaScript: a negative position counts from the
    end. *)
Definition jsPos (n : nat) (i : Z) : nat := Z.to_nat (if i <? 0 then Z.max 0 (Z.of_nat n + i) else i).
Definition sliceTo {A} (l : list A) (i : Z) : list A := take (jsPos (length l) i) l.
Definition sliceFrom {A} (l : list A) (i : Z) : list A := drop (jsPos (length l) i) l.

(** [applyPatch] of live.js on the text the browser keeps, as its code points; the
    strings of a patch arrive as they are. *)
Definition applyPatch (currentHTML : list Z) (patch : htmlPatch) : list Z :=
  sliceTo currentHTML (Prefix patch) ++ runes (Insert patch) ++
  (if Suffix patch =? 0 then [] else sliceFrom currentHTML (Z.of_nat (length currentHTML) - Suffix patch)).

(** ** One connection *)

Definition liveUpdateInterval : Duration := 500 * Millisecond.

(** [liveClient.run] sends patches, then waits for the acknowledgement of the
    final one, and returns with or without an error. *)
Inductive livePhase := Streaming | AwaitingAck | Returned (ok : bool).

Record live := Live {
  lastHTML : string;
  seq : Z;
  lastPush : Time;
  lvPhase : livePhase;
  toBrowser : list htmlPatch; (** the websocket, in order *)
  currentHTML : list Z;       (** of the browser *)
  toServer : list Z;          (** acknowledgements *)
  acks : option Z             (** the channel [acks], which holds one *)
}.

#[export] Instance eta_live : Eta live := λ l,
  Live (lastHTML l) (seq l) (lastPush l) (lvPhase l) (toBrowser l) (currentHTML l) (toServer l) (acks l).

Definition newLive : live := Live "" 0 zeroTime Streaming [] [] [] None.

(** The closure [push] up to its wait for an acknowledgement, at time [now];
    [written] is the time after the write.  [None] while it has to wait. *)
Definition push (l : live) (html : string) (final : bool) (now written : Time) : option live :=
  if bool_decide (html = lastHTML l) && negb final then Some l
  else if negb (IsZero (lastPush l)) && (0 <? liveUpdateInterval - Sub now (lastPush l)) then None
  else
    let n := (seq l + 1) mod 2 ^ 64 in
    let patch := makeHTMLPatch (lastHTML l) html in
    Some (Live html n written (if final then AwaitingAck else Streaming)
            (toBrowser l ++ [HtmlPatch n (Prefix patch) (Suffix patch) (Insert patch) final])
            (currentHTML l) (toServer l) (acks l)).

Inductive liveEvent :=
  | LPush (html : string) (now written : Time)  (** the first page, or a tick *)
  | LFinal (html : string) (now written : Time) (** a command of [flushFinalLiveStatus] *)
  | LReceive                                    (** the browser gets a message *)
  | LReadAck                                    (** an iteration of [readAcks] *)
  | LTakeAck                                    (** [push] takes from the channel *)
  | LFail.                                      (** the context is done, or an error *)

Section live.
(** The value of a sequence number as a number of JavaScript. *)
Context (jsNumber : Z → Z).

Definition liveStep (l : live) (ev : liveEvent) : option live :=
  match ev, lvPhase l with
  | LPush html now written, Streaming => push l html false now written
  | LFinal html now written, Streaming => push l html true now written
  | LReceive, _ =>
      match toBrowser l with
      | [] => None
      | patch :: rest =>
          Some (l <| toBrowser := rest |> <| currentHTML := applyPatch (currentHTML l) patch |>
                  <| toServer ::= λ q, if Final patch then q ++ [jsNumber (Seq patch)] else q |>)
      end
  | LReadAck, _ =>
      match toServer l with
      | [] => None
      | ack :: rest =>
          Some (l <| toServer := rest |>
                  <| acks ::= λ c, match c with None => if ack =? 0 then None else Some ack | Some _ => c end |>)
      end
  | LTakeAck, AwaitingAck =>
      match acks l with
      | None => None
      | Some ack => Some (l <| acks := None |> <| lvPhase := if ack =? seq l then Returned true else AwaitingAck |>)
      end
  | LFail, Streaming | LFail, AwaitingAck => Some (l <| lvPhase := Returned false |>)
  | _, _ => None
  end.

Inductive live_reachable : live → Prop :=
  | live_new : live_reachable newLive
  | live_step l ev l' : live_reachable l → liveStep l ev = Some l' → live_reachable l'.

(** ** A patch turns the old page into the new one *)

Lemma commonPrefix_spec a b : take (commonPrefix a b) a = take (commonPrefix a b) b.
Proof using Type. revert b. induction a as [|x a IH]; intros [|y b]; simpl; try done. destruct (Z.eqb_spec x y) as [->|]; [|done]. simpl. by rewrite IH. Qed.

Lemma commonPrefix_le a b : (commonPrefix a b ≤ length a ∧ commonPrefix a b ≤ length b)%nat.
Proof using Type.
  revert b. induction a as [|x a IH]; intros [|y b]; simpl; try lia. destruct (x =? y); simpl; [|lia]. specialize (IH b). lia.
Qed.

Lemma drop_reverse_take {A} (l : list A) n : drop (length l - n) l = reverse (take n (reverse l)).
Proof using Type. rewrite take_reverse, reverse_involutive. done. Qed.

(** The common suffix. *)
Lemma commonSuffix_spec (a b : list Z) :
  let n := commonPrefix (reverse a) (reverse b) in drop (length a - n) a = drop (length b - n) b.
Proof using Type. simpl. rewrite !drop_reverse_take. f_equal. apply commonPrefix_spec. Qed.

Lemma applyPatch_nat (cur : list Z) n p s ins final : (p + s ≤ length cur)%nat →
  applyPatch cur (HtmlPatch n (Z.of_nat p) (Z.of_nat s) ins final) = take p cur ++ runes ins ++ drop (length cur - s) cur.
Proof using Type.
  intros Hle. unfold applyPatch, sliceTo, sliceFrom, jsPos. cbn [Prefix Suffix Insert]. do 2 f_equal.
  - f_equal. destruct (Z.ltb_spec (Z.of_nat p) 0); [lia|]. by rewrite Nat2Z.id.
  - f_equal. destruct (Z.eqb_spec (Z.of_nat s) 0).
    + assert (s = 0)%nat as -> by lia. by rewrite Nat.sub_0_r, drop_all.
    + f_equal. destruct (Z.ltb_spec (Z.of_nat (length cur) - Z.of_nat s) 0); lia.
Qed.

Lemma patch_apply oldHTML newHTML n final :
  let p := makeHTMLPatch oldHTML newHTML in
  applyPatch (runes oldHTML) (HtmlPatch n (Prefix p) (Suffix p) (Insert p) final) = runes newHTML.
Proof using Type.
  unfold makeHTMLPatch. cbn [Prefix Suffix Insert]. pose proof (runes_valid newHTML) as Hv.
  set (a := runes oldHTML) in *. set (b := runes newHTML) in *. set (p := commonPrefix a b).
  pose proof (commonPrefix_le a b) as [Hpa Hpb]. fold p in Hpa, Hpb.
  set (s := commonPrefix (reverse (drop p a)) (reverse (drop p b))).
  pose proof (commonPrefix_le (reverse (drop p a)) (reverse (drop p b))) as [Hsa Hsb]. fold s in Hsa, Hsb.
  rewrite length_reverse, length_drop in Hsa, Hsb.
  rewrite applyPatch_nat by lia. rewrite runes_ofRunes by (by apply Forall_take, Forall_drop).
  pose proof (commonSuffix_spec (drop p a) (drop p b)) as Hs. simpl in Hs. fold s in Hs. rewrite !drop_drop, !length_drop in Hs.
  replace (length a - s)%nat with (p + (length a - p - s))%nat by lia. rewrite Hs.
  assert (Hp : take p a = take p b) by apply commonPrefix_spec. rewrite Hp.
  etransitivity; [|exact (take_drop p b)]. f_equal. etransitivity; [|exact (take_drop (length b - s - p) (drop p b))]. f_equal.
  rewrite drop_drop. f_equal. lia.
Qed.

(** ** The browser follows *)

(** Where the final patch is, or its acknowledgement. *)
Inductive final_at (l : live) : Prop :=
  | at_patch init last : toBrowser l = init ++ [last] → Forall (λ p, Final p = false) init → Final last = true → Seq last = seq l →
      toServer l = [] → acks l = None → final_at l
  | at_ack : toBrowser l = [] → toServer l = [jsNumber (seq l)] → acks l = None → final_at l
  | at_channel : toBrowser l = [] → toServer l = [] → acks l = Some (jsNumber (seq l)) → final_at l
  | at_lost : toBrowser l = [] → toServer l = [] → acks l = None → jsNumber (seq l) = 0 ∨ jsNumber (seq l) ≠ seq l → final_at l.

Record live_ok (l : live) : Prop := {
  lo_doc : foldl applyPatch (currentHTML l) (toBrowser l) = runes (lastHTML l);
  lo_phase : match lvPhase l with
             | Streaming => Forall (λ p, Final p = false) (toBrowser l) ∧ toServer l = [] ∧ acks l = None
             | AwaitingAck => final_at l
             | Returned true => toBrowser l = []
             | Returned false => True
             end
}.

Lemma push_ok l html final now written l' :
  live_ok l → lvPhase l = Streaming → push l html final now written = Some l' → live_ok l'.
Proof using Type.
  intros [Hd Hp] Hs. rewrite Hs in Hp. destruct Hp as (Hf & Ht & Ha). unfold push.
  destruct (bool_decide _ && negb final); [intros [= <-]; split; [done|by rewrite Hs]|]. destruct (negb _ && _); [done|]. intros [= <-].
  split; cbn -[makeHTMLPatch Z.pow].
  - rewrite foldl_app. cbn [foldl]. rewrite Hd. apply patch_apply.
  - destruct final; [|by split_and!; [apply Forall_app; split; [|repeat constructor]| |]].
    by eapply at_patch with (init := toBrowser l).
Qed.

Lemma receive_ok l patch rest :
  live_ok l → toBrowser l = patch :: rest →
  live_ok (l <| toBrowser := rest |> <| currentHTML := applyPatch (currentHTML l) patch |>
             <| toServer ::= λ q, if Final patch then q ++ [jsNumber (Seq patch)] else q |>).
Proof using Type.
  intros [Hd Hp] Hb. rewrite Hb in Hd. split; [exact Hd|]. cbn [lvPhase toBrowser toServer acks].
  change (match lvPhase l with
    | Streaming => Forall (λ p, Final p = false) rest ∧ (if Final patch then toServer l ++ [jsNumber (Seq patch)] else toServer l) = [] ∧ acks l = None
    | AwaitingAck => final_at (l <| toBrowser := rest |> <| currentHTML := applyPatch (currentHTML l) patch |>
                        <| toServer ::= λ q, if Final patch then q ++ [jsNumber (Seq patch)] else q |>)
    | Returned true => rest = [] | Returned false => True end).
  destruct (lvPhase l) as [| |[]].
  - destruct Hp as (Hf & Ht & Ha). rewrite Hb in Hf. apply Forall_cons in Hf as [-> Hf]. done.
  - destruct Hp as [init last E Hf Hl Hn Ht Ha|E _ _|E _ _|E _ _ _]; [|congruence..]. rewrite Hb in E. destruct init as [|q init].
    + injection E as -> ->. apply at_ack; cbn; [done| |done]. rewrite Hl, Ht, Hn. done.
    + injection E as -> ->. apply Forall_cons in Hf as [Hq Hf]. eapply at_patch; cbn; try done. by rewrite Hq.
  - congruence.
  - done.
Qed.

Lemma liveStep_ok l ev l' : live_ok l → liveStep l ev = Some l' → live_ok l'.
Proof using Type.
  intros Hok. destruct ev as [html now written|html now written| | | |]; unfold liveStep.
  - destruct (lvPhase l) eqn:Hp; try done. by apply push_ok.
  - destruct (lvPhase l) eqn:Hp; try done. by apply push_ok.
  - destruct (toBrowser l) as [|patch rest] eqn:Hb; [done|]. intros [= <-]. by apply receive_ok.
  - destruct (toServer l) as [|ack rest] eqn:Ht; [done|]. intros [= <-]. destruct Hok as [Hd Hp]. split; [exact Hd|]. cbn [lvPhase].
    change (lvPhase (_ <| acks ::= _ |>)) with (lvPhase l). destruct (lvPhase l) as [| |[]]; [|clear Hd|exact Hp|done].
    + destruct Hp as (_ & E & _). congruence.
    + destruct Hp as [init last E Hf Hl Hn Ht' Ha|E E' Ha|E E' Ha|E E' Ha _]; [congruence| |congruence..].
      rewrite Ht in E'. injection E' as -> ->. destruct (Z.eqb_spec (jsNumber (seq l)) 0) as [Hz|Hz].
      * apply at_lost; cbn; try done; [|by left]. rewrite Ha. destruct (Z.eqb_spec (jsNumber (seq l)) 0); [done|lia].
      * apply at_channel; cbn; try done. rewrite Ha. destruct (Z.eqb_spec (jsNumber (seq l)) 0); [lia|done].
  - destruct (lvPhase l) eqn:Hph; try done. destruct (acks l) as [ack|] eqn:Ha; [|done]. intros [= <-]. destruct Hok as [Hd Hp]. rewrite Hph in Hp.
    destruct Hp as [init last E Hf Hl Hn Ht' Ha'|E E' Ha'|E E' Ha'|E E' Ha' _]; [congruence..| |congruence].
    assert (ack = jsNumber (seq l)) as -> by congruence. split; [exact Hd|]. cbn. destruct (Z.eqb_spec (jsNumber (seq l)) (seq l)); [done|].
    apply at_lost; cbn; try done. by right.
  - destruct Hok as [Hd Hp]. destruct (lvPhase l); try done; intros [= <-]; split; try exact Hd; done.
Qed.

Lemma live_reachable_ok l : live_reachable l → live_ok l.
Proof using Type. induction 1; [by split|by eapply liveStep_ok]. Qed.

(** C24: The browser follows the server: whatever was pushed and received, in whatever
    order, what the browser shows once the messages on their way are applied is
    the page the server pushed last, rune for rune; and when [run] returns after
    the final page without an error, the browser shows that page already. *)
Theorem live_follows l :
  live_reachable l →
  foldl applyPatch (currentHTML l) (toBrowser l) = runes (lastHTML l) ∧
  (toBrowser l = [] ∨ lvPhase l = Returned true → currentHTML l = runes (lastHTML l)).
Proof using Type.
  intros [Hd Hp]%live_reachable_ok. split; [done|]. intros [Hb|Hr]; [by rewrite Hb in Hd|]. rewrite Hr in Hp. by rewrite Hp in Hd.
Qed.

(** What is still on its way. *)
Definition inFlight (l : live) : nat :=
  3 * length (toBrowser l) + 2 * length (toServer l) + (if acks l then 1 else 0).

Definition handshake (ev : liveEvent) : bool := match ev with LReceive | LReadAck | LTakeAck => true | _ => false end.

(** Whatever is done next of what brings messages on their way, the condition is
    met after finitely many steps. *)
Inductive inevitably (P : live → Prop) (l : live) : Prop :=
  | inevitably_now : P l → inevitably P l
  | inevitably_step : (∃ ev l', handshake ev = true ∧ liveStep l ev = Some l') →
      (∀ ev l', handshake ev = true → liveStep l ev = Some l' → inevitably P l') → inevitably P l.

(** A step of the handshake: something is nearer, and nothing else changes. *)
Lemma handshake_step l ev l' :
  lvPhase l = AwaitingAck → handshake ev = true → liveStep l ev = Some l' →
  (inFlight l' < inFlight l)%nat ∧ seq l' = seq l ∧ lastHTML l' = lastHTML l ∧ (lvPhase l' = AwaitingAck ∨ lvPhase l' = Returned true).
Proof using Type.
  unfold inFlight. intros Hph Hh. destruct ev as [html now written|html now written| | | |]; try done; unfold liveStep; rewrite ?Hph.
  - destruct (toBrowser l) as [|patch rest] eqn:Hb; [done|]. intros [= <-]. cbn. rewrite Hph. split_and!; try done; [|by left].
    destruct (Final patch); rewrite ?length_app; cbn; lia.
  - destruct (toServer l) as [|ack rest] eqn:Ht; [done|]. intros [= <-]. cbn. rewrite Hph. split_and!; try done; [|by left].
    destruct (acks l), (ack =? 0); cbn; lia.
  - destruct (acks l) as [ack|] eqn:Ha; [|done]. intros [= <-]. cbn. split_and!; try done; [lia|]. destruct (ack =? seq l); [by right|by left].
Qed.

Lemma handshake_progress l :
  (∀ n, 0 ≤ n ≤ 2 ^ 53 → jsNumber n = n) → live_reachable l → lvPhase l = AwaitingAck → 0 < seq l ≤ 2 ^ 53 →
  ∃ ev l', handshake ev = true ∧ liveStep l ev = Some l'.
Proof using Type.
  intros Hjs [Hd Hp]%live_reachable_ok Hph Hseq. rewrite Hph in Hp. destruct Hp as [init last E Hf Hl Hn Ht Ha|E Et Ha|E Et Ha|E Et Ha [Hz|Hz]].
  - exists LReceive. unfold liveStep. rewrite E. destruct init; by eexists.
  - exists LReadAck. unfold liveStep. rewrite Et. by eexists.
  - exists LTakeAck. unfold liveStep. rewrite Hph, Ha. by eexists.
  - rewrite Hjs in Hz by lia. lia.
  - rewrite Hjs in Hz by lia. lia.
Qed.

(** C25: The final page arrives: as long as the connection works, the push of the final
    page does not wait for ever.  Whatever is delivered first, [run] returns
    without an error after finitely many steps, and the browser shows the page.
    Sequence numbers are exact in the browser up to 2^53. *)
Theorem live_final_delivered l :
  (∀ n, 0 ≤ n ≤ 2 ^ 53 → jsNumber n = n) → live_reachable l → lvPhase l = AwaitingAck → 0 < seq l ≤ 2 ^ 53 →
  inevitably (λ l', lvPhase l' = Returned true ∧ currentHTML l' = runes (lastHTML l)) l.
Proof using Type.
  intros Hjs. remember (inFlight l) as n eqn:En. revert l En. induction n as [n IH] using lt_wf_ind. intros l -> Hr Hph Hseq.
  apply inevitably_step; [by apply handshake_progress|]. intros ev l' Hh Hs.
  destruct (handshake_step _ _ _ Hph Hh Hs) as (Hlt & Eseq & Ehtml & Hph'). assert (Hr' : live_reachable l') by (by eapply live_step).
  rewrite <- Ehtml. destruct Hph' as [Ha|Ha].
  - apply (IH (inFlight l') Hlt l' eq_refl Hr' Ha). by rewrite Eseq.
  - apply inevitably_now. split; [done|]. apply live_reachable_ok in Hr' as [Hd Hp]. rewrite Ha in Hp. by rewrite Hp in Hd.
Qed.
End live.

(** ** An example: two pages and the end *)

Definition liveEvents (l : live) (evs : list liveEvent) : option live :=
  foldl (λ l ev, l ≫= λ l, liveStep (λ n, n) l ev) (Some l) evs.

Lemma liveEvents_reachable evs : ∀ l l', live_reachable (λ n, n) l → liveEvents l evs = Some l' → live_reachable (λ n, n) l'.
Proof.
  unfold liveEvents. induction evs as [|ev evs IH]; intros l l' Hl; simpl; [by intros [= <-]|].
  destruct (liveStep _ l ev) as [l1|] eqn:E; [|intros Hx; exfalso; clear -Hx; by induction evs]. apply IH. by eapply live_step.
Qed.

Definition exPages : list liveEvent := [LPush "<p>1/3</p>" 1000 1001; LReceive; LFinal "<p>3/3</p>" 600000000 600000001].
Definition exLive : live := default newLive (liveEvents newLive exPages).

Example exLive_done :
  (λ l, (lvPhase l, ofRunes (currentHTML l))) <$> liveEvents exLive [LReceive; LReadAck; LTakeAck] = Some (Returned true, "<p>3/3</p>").
Proof. vm_compute. reflexivity. Qed.

Lemma live_follows_witness : foldl applyPatch (currentHTML exLive) (toBrowser exLive) = runes (lastHTML exLive).
Proof.
  refine (proj1 (live_follows (λ n, n) exLive _)). apply (liveEvents_reachable exPages newLive); [constructor|vm_compute; reflexivity].
Defined.

Lemma live_final_delivered_witness :
  inevitably (λ n, n) (λ l', lvPhase l' = Returned true ∧ currentHTML l' = runes (lastHTML exLive)) exLive.
Proof.
  refine (live_final_delivered (λ n, n) exLive (λ n _, eq_refl) _ _ _).
  - apply (liveEvents_reachable exPages newLive); [constructor|vm_compute; reflexivity].
  - vm_compute. reflexivity.
  - vm_compute. split; [reflexivity|discriminate].
Defined.
