(* ===== verification/Web.v ===== *)
(** * The status page (web.go)

    The data of the status page, computed from the state of a run: the counters,
    the packages, the failures with their output, and the slowest tests.  The
    template that renders it is not modelled.  Go visits the tests of a package
    in no fixed order, which is an argument here. *)

From Stdlib Require Import Ascii.
From S2P Require Import Prelude GoStrings Flags Path Profile Utf8 Invocation GoFmt Args Sha256 Quote Json CappedBuffer HistoryTypes TestCache Server Fleet Progress.

(** ** Texts *)

Definition formatAge (now changed : Time) : string :=
  if IsZero changed || After changed now then "0s ago" else DurationString (Truncate (Sub now changed) Second) +:+ " ago".

(** [%.1f] of a quotient of two integers in float64. *)
Class QuotientFormat := fixed1 : Z → Z → string.

(** The loop of [formatByteSize]: it runs at most three times. *)
Fixpoint scale (fuel : nat) (value div : Z) (exp : nat) : Z * nat :=
  match fuel with
  | O => (div, exp)
  | S fuel => if 1024 <=? value then scale fuel (divT value 1024) (div * 1024) (S exp) else (div, exp)
  end.

Definition formatByteSize `{QuotientFormat} (n : Z) : string :=
  if n <? 1024 then itoa n +:+ " B"
  else
    let '(div, exp) := scale 3 (divT n 1024) 1024 0 in
    fixed1 n div +:+ " " +:+ nth exp ["K"; "M"; "G"; "T"] "" +:+ "iB".

(** [strings.ToValidUTF8(s, replacement)]: a run of invalid bytes is replaced
    once. *)
Fixpoint replaceInvalid (replacement : string) (cs : list (Z * string)) (invalid : bool) : string :=
  match cs with
  | [] => ""
  | c :: cs =>
      if invalid_chunk c then (if invalid then "" else replacement) +:+ replaceInvalid replacement cs true
      else c.2 +:+ replaceInvalid replacement cs false
  end.

Definition ToValidUTF8 (s replacement : string) : string := replaceInvalid replacement (chunks s) false.

(** U+FFFD *)
Definition replacementS : string := encodeRune RuneError.

(** ** The output of failures *)

Definition webFailureOutputLimit : Z := Z.shiftl 500 10.

Definition marker : string := newline +:+ "[output truncated at 500 KiB]" +:+ newline.

(** The loop that cuts bytes until the text is valid. *)
Fixpoint trimValid (n : nat) (s : string) : string :=
  match n with
  | O => ""
  | S n => if ValidString s then s else trimValid n (takeS (String.length s - 1) s)
  end.

(** The first [n] bytes, cut to a valid text. *)
Definition cutValid (n : Z) (s : string) : string :=
  let piece := takeS (Z.to_nat (Z.min n (strlen s))) s in trimValid (String.length piece) piece.

Definition segmentOf (i : Z) (failure : failInfo) : string :=
  "--- failed attempt " +:+ itoa i +:+ " (" +:+ DurationString (fiDur failure) +:+ ") ---" +:+ newline +:+
  ToValidUTF8 (fiOut failure) replacementS.

(** The loop of [boundedFailureOutput] with what is written so far. *)
Fixpoint boundedLoop (i : Z) (b : string) (failures : list failInfo) : string :=
  match failures with
  | [] => b
  | failure :: failures =>
      let segment := segmentOf i failure in
      if strlen b + strlen segment <=? webFailureOutputLimit then
        boundedLoop (i + 1) (b +:+ segment +:+ (if HasSuffixNewline segment then "" else newline)) failures
      else
        let remaining := webFailureOutputLimit - strlen b - strlen marker in
        let b := if 0 <? remaining then b +:+ cutValid remaining segment else b in
        let result := if webFailureOutputLimit - strlen marker <? strlen b
                      then cutValid (webFailureOutputLimit - strlen marker) b else b in
        result +:+ marker
  end.

Definition boundedFailureOutput (failures : list failInfo) : string := boundedLoop 1 "" failures.

(** ** The page *)

Record packageData := PackageData {
  pdImportPath : string;
  NumTestsKnown : bool;
  NumTests : Z;
  NumTestsDone : Z;
  pdStatus : string;
  pdPassed : bool;
  pdFailed : bool;
  LastChanged : string;
  LastChangedUnix : Z
}.

Record testIssueData := TestIssueData {
  tiID : string;
  tiName : string;
  tiStatus : string;
  tiFlaky : bool;
  tiOutput : string;
  tiAttempts : Z
}.

Record slowTestData := SlowTestData {
  stName : string;
  stDuration : Duration;
  stCached : bool
}.

Definition newTestIssue (pkg test : string) (ts : testStatus) (flaky : bool) (id : nat) : testIssueData :=
  TestIssueData ("test-issue-" +:+ itoa (Z.of_nat id)) (pkg +:+ "." +:+ test) (if flaky then "FLAKY" else "FAILED") flaky
    (boundedFailureOutput (fails ts)) (attempts ts).

Definition testDuration (ts : testStatus) : Duration :=
  if passed ts then passedIn ts else foldl (λ total failure, i64 (total + fiDur failure)) 0 (fails ts).

(** What the loops over packages and tests add up. *)
Record tally := Tally {
  dLinked : Z;
  dLinkFresh : Z;
  dLinkCache : Z;
  dPkgsDone : Z;
  dPkgsTestCache : Z;
  dPkgsTestFresh : Z;
  dDone : Z;
  dPassed : Z;
  dCached : Z;
  dFresh : Z;
  dFailed : Z;
  dFlaky : Z;
  dRunning : Z;
  dPackages : list packageData;
  dIssues : list testIssueData;
  dSlowest : list slowTestData
}.

#[export] Instance eta_tally : Eta tally := λ d,
  Tally (dLinked d) (dLinkFresh d) (dLinkCache d) (dPkgsDone d) (dPkgsTestCache d) (dPkgsTestFresh d) (dDone d) (dPassed d)
    (dCached d) (dFresh d) (dFailed d) (dFlaky d) (dRunning d) (dPackages d) (dIssues d) (dSlowest d).

Definition zeroTally : tally := Tally 0 0 0 0 0 0 0 0 0 0 0 0 0 [] [] [].

(** The variables of the loop over the tests of a package. *)
Record testLoop := TestLoop {
  tlTally : tally;
  tlNum : Z;
  tlDone : Z;
  tlAllCached : bool;
  tlHasRunnable : bool
}.

#[export] Instance eta_testLoop : Eta testLoop := λ t,
  TestLoop (tlTally t) (tlNum t) (tlDone t) (tlAllCached t) (tlHasRunnable t).

(** A test that is done. *)
Definition doneTest (importPath : string) (d : tally) (name : string) (ts : testStatus) : tally :=
  let d := d <| dDone ::= Z.succ |>
             <| dSlowest ::= λ l, l ++ [SlowTestData (importPath +:+ "." +:+ name) (testDuration ts) (cached ts)] |> in
  let d := if cached ts then d <| dCached ::= Z.succ |> else d <| dFresh ::= Z.succ |> in
  if passed ts then
    let d := d <| dPassed ::= Z.succ |> in
    if bool_decide (fails ts = []) then d
    else d <| dFlaky ::= Z.succ |> <| dIssues ::= λ l, l ++ [newTestIssue importPath name ts true (length l)] |>
  else d <| dFailed ::= Z.succ |> <| dIssues ::= λ l, l ++ [newTestIssue importPath name ts false (length l)] |>.

Definition testRow (importPath : string) (t : testLoop) (entry : string * testStatus) : testLoop :=
  let '(name, ts) := entry in
  if negb (isRunnableTopLevelTest name) then t
  else
    let d := tlTally t in
    let d := if running ts then d <| dRunning ::= Z.succ |> else d in
    if done ts then
      TestLoop (doneTest importPath d name ts) (tlNum t + 1) (tlDone t + 1) (tlAllCached t && cached ts) true
    else TestLoop d (tlNum t + 1) (tlDone t) false true.

Definition packageState (ps : packageStatus) : string * bool * bool :=
  match psState ps with
  | pkgStateDiscovered => ("waiting to link", false, false)
  | pkgStateBuilt => (if psTests ps then "queued" else "linked", false, false)
  | pkgStateTesting => ("testing", false, false)
  | pkgStateDone => if 0 <? numFails ps then ("FAILED in " +:+ DurationString (runIn ps), false, true)
                    else ("PASSED in " +:+ DurationString (runIn ps), true, false)
  end.

Section page.
Context (order : gmap string testStatus → list (string * testStatus)).

Definition packageRow (now : Time) (d : tally) (entry : string * packageStatus) : tally :=
  let '(importPath, ps) := entry in
  if negb (hasTests (glp ps)) then d
  else
    let d := if bool_decide (exeHash ps = "") then d
             else let d := d <| dLinked ::= Z.succ |> in
                  if exeCached ps then d <| dLinkCache ::= Z.succ |> else d <| dLinkFresh ::= Z.succ |> in
    let '(status, pass, fail) := packageState ps in
    let isDone := bool_decide (psState ps = pkgStateDone) in
    let d := if isDone then d <| dPkgsDone ::= Z.succ |> else d in
    let t := match psTests ps with
             | None => TestLoop d 0 0 true false
             | Some tests => foldl (testRow importPath) (TestLoop d 0 0 true false) (order tests)
             end in
    let d := tlTally t in
    let d := if bool_decide (is_Some (psTests ps)) && isDone && tlHasRunnable t
             then if tlAllCached t then d <| dPkgsTestCache ::= Z.succ |> else d <| dPkgsTestFresh ::= Z.succ |>
             else d in
    let status := if bool_decide (psState ps = pkgStateTesting)
                  then "testing; " +:+ itoa (tlDone t) +:+ "/" +:+ itoa (tlNum t) else status in
    d <| dPackages ::= λ l, l ++ [PackageData importPath (bool_decide (is_Some (psTests ps))) (tlNum t) (tlDone t) status pass fail
                                    (formatAge now (psChanged ps)) (psChanged ps)] |>.

(** The packages in the order of their import paths. *)
Definition sortedPackages (s : Server) : list (string * packageStatus) :=
  sort_by (λ a b, Compare a.1 b.1) (map_to_list (pkgs s)).

Definition tallyOf (s : Server) (now : Time) : tally := foldl (packageRow now) zeroTally (sortedPackages s).
End page.

Record statusData := StatusData {
  StartedAt : string;
  StartedAgo : string;
  sdPhase : runPhase;
  ExitStatus : string;
  ExitClass : string;
  sdPackagesTotal : Z;
  sdTally : tally; (** the fields that are counted, and the three lists *)
  PackagesRemaining : Z;
  LinksRemaining : Z;
  BinarySize : string;
  sdTestsTotal : Z;
  TestCacheDisabled : bool;
  TestsRemaining : Z;
  sdBuildDepsTotal : Z;
  sdBuildDepsFresh : Z;
  sdBuildDepsCached : Z;
  BuildDepsObserved : Z;
  BuildDepsRemain : Z;
  sdTestETA : string;
  sdETAMedian : string;
  sdETAUnknown : Z;
  sdETAAvailable : bool;
  Workers : list workerData
}.

Definition compareIssues (a b : testIssueData) : Z := Compare (tiName a) (tiName b).
Definition compareSlow : slowTestData → slowTestData → Z :=
  lexCmp (λ a b, cmpZ (stDuration b) (stDuration a)) (λ a b, Compare (stName a) (stName b)).

Definition exitStatus (p : runPhase) : string * string :=
  match p with
  | phaseDone => ("success", "passed")
  | phaseFailed => ("failure", "failed")
  | _ => ("not exited", "")
  end.

(** The bytes of the captured binaries. *)
Definition binaryBytes (s : Server) : Z :=
  foldl (λ n ps, if hasTests (glp ps) && negb (bool_decide (exeHash ps = "")) then i64 (n + exeSize ps) else n) 0 (map_to_list (pkgs s)).*2.

(** [statusData] of a run, with or without a fleet; [formatTime] is RFC 3339 in
    the local time zone. *)
Definition statusDataOf `{QuotientFormat} (f : flags) (order : gmap string testStatus → list (string * testStatus)) (formatTime : Time → string)
    (s : Server) (fl : option fleet) (now : Time) : statusData :=
  let '(eta, unknown, available) := testETALocked f s (default [] (workers <$> fl)) now in
  let d := tallyOf order s now in
  {| StartedAt := formatTime (sStart s);
     StartedAgo := formatAge now (sStart s);
     sdPhase := phase s;
     ExitStatus := (exitStatus (phase s)).1;
     ExitClass := (exitStatus (phase s)).2;
     sdPackagesTotal := pkgsWithTests s;
     sdTally := d <| dIssues ::= sort_by compareIssues |> <| dSlowest ::= λ l, take 50 (sort_by compareSlow l) |>;
     PackagesRemaining := Z.max 0 (pkgsWithTests s - dPkgsDone d);
     LinksRemaining := Z.max 0 (pkgsWithTests s - dLinked d);
     BinarySize := formatByteSize (binaryBytes s);
     sdTestsTotal := testsTotal s;
     TestCacheDisabled := testCountSet f;
     TestsRemaining := Z.max 0 (testsTotal s - dDone d - dRunning d);
     sdBuildDepsTotal := buildDepsTotal s;
     sdBuildDepsFresh := buildDepsFresh s;
     sdBuildDepsCached := buildDepsCached s;
     BuildDepsObserved := buildDepsFresh s + buildDepsCached s;
     BuildDepsRemain := Z.max 0 (buildDepsTotal s - buildDepsFresh s - buildDepsCached s);
     sdTestETA := formatEstimate eta;
     sdETAMedian := formatEstimate (testEstimateBase s);
     sdETAUnknown := unknown;
     sdETAAvailable := available;
     Workers := default [] ((λ fl, workerDataLocked fl now) <$> fl) |}.

(** ** Requests *)

Inductive response := RespHTML (html : string) | RespScript | RespUpgrade | RespError (code : Z) (text : string).

(** [ServeHTTP]; [render] is the template on the data. *)
Definition ServeHTTP (render : result string) (path : string) : response :=
  if bool_decide (path = "/") then
    match render with
    | Err e => RespError 500 ("executing template: " +:+ Error e)
    | Ok html => RespHTML html
    end
  else if bool_decide (path = "/live.js") then RespScript
  else if bool_decide (path = "/live-ws") then RespUpgrade
  else RespError 404 "404 page not found".
