(* ===== verification/WebFacts.v ===== *)
(** * Facts about the status page

    The page and the progress line count the same things, and the output shown
    for a failure is bounded and valid text. *)

From Stdlib Require Import Ascii.
From S2P Require Import Prelude GoStrings Flags Path Profile Utf8 Utf8Facts Invocation GoFmt Args Sha256 Quote Json CappedBuffer HistoryTypes TestCache Server Fleet Progress Web.

(** ** The output of failures *)

Definition is_prefix (a b : string) : Prop := ∃ rest, b = a +:+ rest.

Lemma is_prefix_refl a : is_prefix a a.
Proof. exists "". by rewrite append_empty_r. Qed.

Lemma is_prefix_trans a b c : is_prefix a b → is_prefix b c → is_prefix a c.
Proof. intros [r ->] [q ->]. exists (r +:+ q). by rewrite append_assoc. Qed.

Lemma is_prefix_app p a b : is_prefix a b → is_prefix (p +:+ a) (p +:+ b).
Proof. intros [r ->]. exists r. by rewrite append_assoc. Qed.

Lemma is_prefix_append a b c : is_prefix a b → is_prefix a (b +:+ c).
Proof. intros [r ->]. exists (r +:+ c). by rewrite append_assoc. Qed.

Lemma takeS_prefix n s : is_prefix (takeS n s) s.
Proof.
  revert n. induction s as [|a s IH]; intros [|n]; cbn [takeS]; [apply is_prefix_refl| |by eexists|]. { exists "". done. }
  destruct (IH n) as [r E]. exists r. rewrite append_cons. congruence.
Qed.

Lemma trimValid_spec n s : ValidString (trimValid n s) = true ∧ is_prefix (trimValid n s) s.
Proof.
  revert s. induction n as [|n IH]; intros s; cbn [trimValid]; [split; [done|by exists s]|].
  destruct (ValidString s) eqn:E; [split; [done|apply is_prefix_refl]|]. destruct (IH (takeS (String.length s - 1) s)) as [Hv Hp]. split; [done|].
  eapply is_prefix_trans; [exact Hp|apply takeS_prefix].
Qed.

Lemma is_prefix_len a b : is_prefix a b → strlen a ≤ strlen b.
Proof. intros [r ->]. rewrite strlen_append. pose proof (strlen_nonneg r). lia. Qed.

Lemma cutValid_spec n s : 0 ≤ n → ValidString (cutValid n s) = true ∧ is_prefix (cutValid n s) s ∧ strlen (cutValid n s) ≤ n.
Proof.
  intros Hn. unfold cutValid. set (piece := takeS _ s). destruct (trimValid_spec (String.length piece) piece) as [Hv Hp]. split_and!; [done| |].
  - eapply is_prefix_trans; [exact Hp|apply takeS_prefix].
  - apply is_prefix_len in Hp. etrans; [exact Hp|]. unfold piece, strlen. rewrite length_takeS. unfold strlen. lia.
Qed.

Lemma replaceInvalid_valid s r cs : ValidString r = true → (∀ c, c ∈ cs → c ∈ chunks s) → ∀ b, ValidString (replaceInvalid r cs b) = true.
Proof.
  intros Hr. induction cs as [|c cs IH]; intros Hin b; cbn [replaceInvalid]; [done|].
  assert (Hin' : ∀ c, c ∈ cs → c ∈ chunks s) by (intros; by apply Hin, list_elem_of_further).
  destruct (invalid_chunk c) eqn:E; [apply ValidString_append; [by destruct b|by apply IH]|].
  apply ValidString_append; [|by apply IH]. eapply ValidString_chunk; [|done]. apply Hin, list_elem_of_here.
Qed.

Lemma segmentOf_valid i failure : ValidString (segmentOf i failure) = true.
Proof.
  unfold segmentOf, ToValidUTF8. assert (Hd := ValidString_Duration (fiDur failure)).
  assert (Hr : ValidString (replaceInvalid replacementS (chunks (fiOut failure)) false) = true) by (by eapply replaceInvalid_valid).
  auto 20 with utf8.
Qed.

(** All of the output, an attempt after the other. *)
Fixpoint allOutput (i : Z) (failures : list failInfo) : string :=
  match failures with
  | [] => ""
  | failure :: failures =>
      let segment := segmentOf i failure in segment +:+ (if HasSuffixNewline segment then "" else newline) +:+ allOutput (i + 1) failures
  end.

Lemma boundedLoop_spec failures : ∀ i b,
  ValidString b = true → strlen b ≤ webFailureOutputLimit + 1 →
  let r := boundedLoop i b failures in
  ValidString r = true ∧
  ((r = b +:+ allOutput i failures ∧ strlen r ≤ webFailureOutputLimit + 1) ∨
   (∃ p, r = p +:+ marker ∧ is_prefix p (b +:+ allOutput i failures) ∧ strlen r ≤ webFailureOutputLimit)).
Proof.
  induction failures as [|failure failures IH]; intros i b Hb Hl; cbn [boundedLoop allOutput].
  { split; [done|]. left. by rewrite append_empty_r. }
  pose proof (segmentOf_valid i failure) as Hs. set (segment := segmentOf i failure) in *.
  assert (Hn : ValidString (if HasSuffixNewline segment then "" else newline) = true) by (by destruct (HasSuffixNewline segment)).
  assert (Hnl : strlen (if HasSuffixNewline segment then "" else newline) ≤ 1) by (by destruct (HasSuffixNewline segment)).
  set (nl := if HasSuffixNewline segment then "" else newline) in *.
  destruct (Z.leb_spec (strlen b + strlen segment) webFailureOutputLimit) as [Hfit|Hover].
  - destruct (IH (i + 1) (b +:+ segment +:+ nl)) as [IH1 IH2]; [auto with utf8|rewrite !strlen_append; lia|]. rewrite !append_assoc in IH2.
    split; [done|]. exact IH2.
  - set (keep := webFailureOutputLimit - strlen marker).
    assert (Hkeep : 0 ≤ keep) by (unfold keep; vm_compute; discriminate).
    set (b' := if 0 <? _ then b +:+ cutValid _ segment else b).
    assert (Hb' : ValidString b' = true ∧ is_prefix b' (b +:+ segment +:+ nl +:+ allOutput (i + 1) failures)).
    { unfold b'. destruct (Z.ltb_spec 0 (webFailureOutputLimit - strlen b - strlen marker)) as [Hr|Hr].
      - destruct (cutValid_spec (webFailureOutputLimit - strlen b - strlen marker) segment) as (C1 & C2 & _); [lia|]. split; [auto with utf8|].
        apply is_prefix_app, is_prefix_append, C2.
      - split; [done|]. by eexists. }
    destruct Hb' as [Hv' Hp']. set (result := if keep <? strlen b' then cutValid keep b' else b').
    assert (Hres : ValidString result = true ∧ is_prefix result b' ∧ strlen result ≤ keep).
    { unfold result. destruct (Z.ltb_spec keep (strlen b')); [by apply cutValid_spec|]. split_and!; [done|apply is_prefix_refl|lia]. }
    destruct Hres as (R1 & R2 & R3). split; [by apply ValidString_append|]. right. exists result. split_and!; [done|by eapply is_prefix_trans|].
    rewrite strlen_append. unfold keep in R3. lia.
Qed.

(** The output shown for a failed test is valid text and bounded: it is all of the
    output of the attempts, in at most one byte more than the limit, or the
    beginning of it with the mark that says so, within the limit. *)
Theorem boundedFailureOutput_spec failures :
  let r := boundedFailureOutput failures in
  ValidString r = true ∧
  ((r = allOutput 1 failures ∧ strlen r ≤ webFailureOutputLimit + 1) ∨
   (∃ p, r = p +:+ marker ∧ is_prefix p (allOutput 1 failures) ∧ strlen r ≤ webFailureOutputLimit)).
Proof. apply (boundedLoop_spec failures 1 ""); [done|]. vm_compute. discriminate. Qed.

(** The limit is exceeded by the newline after an attempt that just fits. *)
Lemma boundedFailureOutput_over failure :
  strlen (segmentOf 1 failure) = webFailureOutputLimit → HasSuffixNewline (segmentOf 1 failure) = false →
  strlen (boundedFailureOutput [failure]) = webFailureOutputLimit + 1.
Proof.
  intros Hl Hn. unfold boundedFailureOutput. cbn [boundedLoop]. rewrite Hl, Hn, append_empty_l.
  change (strlen "" + webFailureOutputLimit <=? webFailureOutputLimit) with true. cbv iota. rewrite strlen_append, Hl. done.
Qed.

(** ** The counters *)

Lemma countZ_cons {A} (p : A → bool) x l : countZ p (x :: l) = (if p x then 1 else 0) + countZ p l.
Proof. unfold countZ. rewrite filter_cons. destruct (p x); [rewrite decide_True by done; simpl; lia|by rewrite decide_False]. Qed.

Lemma countZ_app {A} (p : A → bool) l k : countZ p (l ++ k) = countZ p l + countZ p k.
Proof. unfold countZ. rewrite filter_app, length_app. lia. Qed.

Lemma countZ_perm {A} (p : A → bool) l k : l ≡ₚ k → countZ p l = countZ p k.
Proof. intros H. unfold countZ. by rewrite H. Qed.

Lemma countZ_ext {A} (p q : A → bool) l : (∀ x, x ∈ l → p x = q x) → countZ p l = countZ q l.
Proof.
  induction l as [|x l IH]; intros H; [done|]. rewrite !countZ_cons, (H x), IH; [done| |apply list_elem_of_here].
  intros y Hy. by apply H, list_elem_of_further.
Qed.

(** The tests that are counted. *)
Definition runnable (l : list (string * testStatus)) : list (string * testStatus) :=
  filter (λ t, isRunnableTopLevelTest t.1 = true) l.

Lemma runnable_cons t l : runnable (t :: l) = if isRunnableTopLevelTest t.1 then t :: runnable l else runnable l.
Proof. unfold runnable. rewrite filter_cons. destruct (isRunnableTopLevelTest t.1); [by rewrite decide_True|by rewrite decide_False]. Qed.

(** What the tests of a list add to the counters. *)
Record counted (d d' : tally) (tests : list (string * testStatus)) : Prop := {
  ct_done : dDone d' = dDone d + countZ (λ t, done t.2) tests;
  ct_passed : dPassed d' = dPassed d + countZ (λ t, done t.2 && passed t.2) tests;
  ct_failed : dFailed d' = dFailed d + countZ (λ t, done t.2 && negb (passed t.2)) tests;
  ct_cached : dCached d' = dCached d + countZ (λ t, done t.2 && cached t.2) tests;
  ct_fresh : dFresh d' = dFresh d + countZ (λ t, done t.2 && negb (cached t.2)) tests;
  ct_flaky : dFlaky d' = dFlaky d + countZ (λ t, done t.2 && (passed t.2 && negb (bool_decide (fails t.2 = [])))) tests;
  ct_running : dRunning d' = dRunning d + countZ (λ t, running t.2) tests;
  ct_issues : Z.of_nat (length (dIssues d')) - dFailed d' - dFlaky d' = Z.of_nat (length (dIssues d)) - dFailed d - dFlaky d;
  ct_slowest : Z.of_nat (length (dSlowest d')) - dDone d' = Z.of_nat (length (dSlowest d)) - dDone d
}.

(** The counters of packages. *)
Definition links (d : tally) : list Z := [dLinked d; dLinkFresh d; dLinkCache d; dPkgsDone d].

Lemma counted_refl d : counted d d [].
Proof. split; rewrite ?Z.add_0_r; done. Qed.

Lemma counted_trans d1 d2 d3 l k : counted d1 d2 l → counted d2 d3 k → counted d1 d3 (l ++ k).
Proof.
  intros [A1 A2 A3 A4 A5 A6 A7 A8 A9] [B1 B2 B3 B4 B5 B6 B7 B8 B9].
  split; rewrite ?countZ_app; try lia; congruence.
Qed.

Lemma counted_perm d d' l k : l ≡ₚ k → counted d d' l → counted d d' k.
Proof. intros H [A1 A2 A3 A4 A5 A6 A7 A8 A9]. split; rewrite <- ?(countZ_perm _ _ _ H); done. Qed.

Lemma testRow_counted path t entry : counted (tlTally t) (tlTally (testRow path t entry)) (runnable [entry]).
Proof.
  destruct entry as [name ts]. rewrite runnable_cons. cbn [fst testRow]. destruct (isRunnableTopLevelTest name); cbn [negb]; [|apply counted_refl].
  change (runnable []) with (@nil (string * testStatus)). destruct (done ts) eqn:Hd; cbn [tlTally]; unfold doneTest.
  - split; rewrite ?countZ_cons; cbn [snd fst]; change (countZ _ []) with 0; rewrite ?Hd;
      destruct (running ts), (cached ts), (passed ts), (bool_decide (fails ts = [])); cbn; rewrite ?length_app; cbn; try lia; done.
  - split; rewrite ?countZ_cons; cbn [snd fst]; change (countZ _ []) with 0; rewrite ?Hd; destruct (running ts); cbn; try lia; done.
Qed.

Lemma testRow_links path t entry : links (tlTally (testRow path t entry)) = links (tlTally t).
Proof.
  destruct entry as [name ts]. cbn [testRow]. destruct (isRunnableTopLevelTest name); cbn [negb]; [|done]. unfold doneTest.
  destruct (done ts), (running ts), (cached ts), (passed ts), (bool_decide (fails ts = [])); done.
Qed.

Lemma testRows_counted path l : ∀ t, let d' := tlTally (foldl (testRow path) t l) in
  counted (tlTally t) d' (runnable l) ∧ links d' = links (tlTally t).
Proof.
  induction l as [|entry l IH]; intros t; [split; [apply counted_refl|done]|]. cbn [foldl]. destruct (IH (testRow path t entry)) as [IH1 IH2]. split.
  - change (entry :: l) with ([entry] ++ l). unfold runnable. rewrite filter_app. eapply counted_trans; [apply testRow_counted|exact IH1].
  - rewrite IH2. apply testRow_links.
Qed.

(** Only counters of packages change. *)
Lemma counted_same d d' : dDone d' = dDone d → dPassed d' = dPassed d → dFailed d' = dFailed d → dCached d' = dCached d → dFresh d' = dFresh d →
  dFlaky d' = dFlaky d → dRunning d' = dRunning d → dIssues d' = dIssues d → dSlowest d' = dSlowest d → counted d d' [].
Proof. intros E1 E2 E3 E4 E5 E6 E7 E8 E9. split; change (countZ _ []) with 0; rewrite ?E1, ?E2, ?E3, ?E4, ?E5, ?E6, ?E7, ?E8, ?E9; lia. Qed.

(** What the packages of a list add. *)
Definition isBuilt (ps : packageStatus) : bool := negb (bool_decide (exeHash ps = "")).
Definition testsIn (l : list packageStatus) : list (string * testStatus) := runnable (l ≫= λ p, map_to_list (testsOf p)).

Record page_counted (d d' : tally) (l : list packageStatus) : Prop := {
  pc_tests : counted d d' (testsIn l);
  pc_linked : dLinked d' = dLinked d + countZ isBuilt l;
  pc_cache : dLinkCache d' = dLinkCache d + countZ (λ p, isBuilt p && exeCached p) l;
  pc_fresh : dLinkFresh d' = dLinkFresh d + countZ (λ p, isBuilt p && negb (exeCached p)) l;
  pc_done : dPkgsDone d' = dPkgsDone d + countZ (λ p, bool_decide (psState p = pkgStateDone)) l
}.

Lemma page_refl d : page_counted d d [].
Proof. split; [apply counted_refl|change (countZ _ []) with 0; lia..]. Qed.

Lemma page_trans d1 d2 d3 l k : page_counted d1 d2 l → page_counted d2 d3 k → page_counted d1 d3 (l ++ k).
Proof.
  intros [A1 A2 A3 A4 A5] [B1 B2 B3 B4 B5]. split; rewrite ?countZ_app; [|lia..]. unfold testsIn, runnable. rewrite bind_app, filter_app. by eapply counted_trans.
Qed.

Section page.
Context (order : gmap string testStatus → list (string * testStatus)) (order_perm : ∀ m, order m ≡ₚ map_to_list m) (now : Time).

(** The packages that are shown. *)
Definition shown (l : list (string * packageStatus)) : list packageStatus := filter (λ p, hasTests (glp p) = true) l.*2.

Lemma packageRow_counted d entry : page_counted d (packageRow order now d entry) (shown [entry]).
Proof using order_perm.
  destruct entry as [path ps]. unfold shown. cbn [fmap list_fmap snd packageRow]. rewrite filter_cons. destruct (hasTests (glp ps)); cbn [negb].
  2:{ rewrite decide_False by done. apply page_refl. }
  rewrite decide_True by done. rewrite filter_nil. set (d1 := if bool_decide (exeHash ps = "") then d else _).
  destruct (packageState ps) as [[status pass] fail]. set (d2 := if bool_decide (psState ps = pkgStateDone) then _ else d1).
  set (t := match psTests ps with None => _ | Some _ => _ end).
  assert (Ht : counted d2 (tlTally t) (runnable (map_to_list (testsOf ps))) ∧ links (tlTally t) = links d2).
  { unfold t, testsOf. destruct (psTests ps) as [tests|]; cbn [default].
    - destruct (testRows_counted path (order tests) (TestLoop d2 0 0 true false)) as [H1 H2]. split; [|done].
      eapply counted_perm; [|exact H1]. unfold runnable. by rewrite order_perm.
    - rewrite map_to_list_empty. split; [apply counted_refl|done]. }
  destruct Ht as [Ht Hl]. set (d3 := if _ && _ && tlHasRunnable t then _ else tlTally t).
  assert (H12 : counted d d2 []).
  { unfold d2, d1, isBuilt. destruct (bool_decide (exeHash ps = "")), (exeCached ps), (bool_decide (psState ps = pkgStateDone)); by apply counted_same. }
  assert (H3 : counted (tlTally t) d3 [] ∧ links d3 = links (tlTally t)).
  { unfold d3. destruct (_ && _ && _); [|split; [apply counted_refl|done]]. destruct (tlAllCached t); (split; [by apply counted_same|done]). }
  destruct H3 as [H3 Hl3]. rewrite Hl in Hl3. split.
  - unfold testsIn. cbn [mbind list_bind]. rewrite app_nil_r. eapply counted_trans with (l := []); [exact H12|]. rewrite <- (app_nil_r (runnable _)).
    eapply counted_trans; [exact Ht|]. eapply counted_trans with (l := []) (k := []); [exact H3|]. by apply counted_same.
  - injection Hl3 as E _ _ _. rewrite countZ_cons. change (countZ _ []) with 0. transitivity (dLinked d3); [done|]. rewrite E. unfold d2, d1, isBuilt.
    destruct (bool_decide (exeHash ps = "")), (exeCached ps), (bool_decide (psState ps = pkgStateDone)); cbn; lia.
  - injection Hl3 as _ _ E _. rewrite countZ_cons. change (countZ _ []) with 0. transitivity (dLinkCache d3); [done|]. rewrite E. unfold d2, d1, isBuilt.
    destruct (bool_decide (exeHash ps = "")), (exeCached ps), (bool_decide (psState ps = pkgStateDone)); cbn; lia.
  - injection Hl3 as _ E _ _. rewrite countZ_cons. change (countZ _ []) with 0. transitivity (dLinkFresh d3); [done|]. rewrite E. unfold d2, d1, isBuilt.
    destruct (bool_decide (exeHash ps = "")), (exeCached ps), (bool_decide (psState ps = pkgStateDone)); cbn; lia.
  - injection Hl3 as _ _ _ E. rewrite countZ_cons. change (countZ _ []) with 0. transitivity (dPkgsDone d3); [done|]. rewrite E. unfold d2, d1, isBuilt.
    destruct (bool_decide (exeHash ps = "")), (exeCached ps), (bool_decide (psState ps = pkgStateDone)); cbn; lia.
Qed.

Lemma packageRows_counted l : ∀ d, page_counted d (foldl (packageRow order now) d l) (shown l).
Proof using order_perm.
  induction l as [|entry l IH]; intros d; [apply page_refl|]. cbn [foldl]. change (entry :: l) with ([entry] ++ l). unfold shown. rewrite fmap_app, filter_app.
  eapply page_trans; [apply packageRow_counted|apply IH].
Qed.
End page.

(** Two ways to count. *)
Lemma countZ_split {A} (p q : A → bool) l : countZ p l = countZ (λ x, p x && q x) l + countZ (λ x, p x && negb (q x)) l.
Proof. induction l as [|x l IH]; [done|]. rewrite !countZ_cons, IH. destruct (p x), (q x); simpl; lia. Qed.

Lemma countZ_filter {A} (P : A → Prop) `{!∀ x, Decision (P x)} (p q : A → bool) l :
  (∀ x, bool_decide (P x) = p x) → countZ q (filter P l) = countZ (λ x, p x && q x) l.
Proof.
  intros HP. induction l as [|x l IH]; [done|]. rewrite filter_cons, countZ_cons, <- HP, <- IH. case_decide; case_bool_decide; try done. by rewrite countZ_cons.
Qed.

Lemma length_filter_countZ {A} (P : A → Prop) `{!∀ x, Decision (P x)} (p : A → bool) l :
  (∀ x, bool_decide (P x) = p x) → Z.of_nat (length (filter P l)) = countZ p l.
Proof.
  intros HP. induction l as [|x l IH]; [done|]. rewrite filter_cons, countZ_cons, <- HP, <- IH. case_decide; case_bool_decide; try done. simpl length. lia.
Qed.

(** The packages on the page are those of the line. *)
Lemma shown_perm s : shown (sortedPackages s) ≡ₚ filter (λ p, hasTests (glp p) = true) (map_to_list (pkgs s)).*2.
Proof. unfold shown, sortedPackages. by rewrite sort_by_perm. Qed.

Lemma page_counted_perm d d' l k : l ≡ₚ k → page_counted d d' l → page_counted d d' k.
Proof.
  intros Hp [A1 A2 A3 A4 A5]. split; rewrite <- ?(countZ_perm _ _ _ Hp); try done. eapply counted_perm; [|exact A1]. unfold testsIn, runnable. by rewrite Hp.
Qed.

(** C37: The page and the progress line agree: in whatever order Go visits the tests,
    the counters of the page are those of the line, with the same estimate of the
    time that is left; and the counters of the page fit together.  The tests that
    are done passed or failed, and were cached or fresh; a package that is linked
    was linked or came from the cache; and there is an issue for every test that
    failed or was flaky. *)
Theorem status_agrees `{QuotientFormat} f order formatTime s fl now :
  (∀ m, order m ≡ₚ map_to_list m) → server_ok s →
  let page := statusDataOf f order formatTime s fl now in
  let d := sdTally page in
  let line := progressSnapshotOf f s (default [] (workers <$> fl)) now in
  (dLinked d, dLinkCache d, dPkgsDone d) = (PackagesBuilt line, PackagesCached line, PackagesDone line) ∧
  (dDone d, dRunning d, dFlaky d) = (TestsDone line, TestsRunning line, TestsFlaky line) ∧
  (sdPackagesTotal page, sdTestsTotal page, sdPhase page) = (PackagesTotal line, TestsTotal line, pPhase line) ∧
  (sdTestETA page, sdETAMedian page, sdETAUnknown page, sdETAAvailable page) =
    (formatEstimate (TestETA line), formatEstimate (ETAMedian line), ETAUnknown line, ETAAvailable line) ∧
  dDone d = dPassed d + dFailed d ∧ dDone d = dCached d + dFresh d ∧ dLinked d = dLinkFresh d + dLinkCache d ∧
  Z.of_nat (length (dIssues d)) = dFailed d + dFlaky d.
Proof.
  intros Hord Hok. unfold statusDataOf, progressSnapshotOf. destruct (testETALocked _ _ _ _) as [[eta unknown] available]. cbn -[tallyOf sort_by].
  set (L := filter (λ p, hasTests (glp p) = true) (map_to_list (pkgs s)).*2).
  pose proof (page_counted_perm _ _ _ _ (shown_perm s) (packageRows_counted order Hord now (sortedPackages s) zeroTally)) as Hc. fold L in Hc.
  change (foldl _ _ _) with (tallyOf order s now) in Hc. set (d := tallyOf order s now) in *.
  destruct Hc as [[A1 A2 A3 A4 A5 A6 A7 A8 A9] B1 B2 B3 B4]. cbn in *. unfold testsIn, runnable in *.
  set (T := filter _ (L ≫= _)) in *. assert (Hbuilt : ∀ x : packageStatus, bool_decide (exeHash x ≠ "") = isBuilt x) by (intros x; apply bool_decide_not).
  rewrite (length_filter_countZ _ isBuilt) by done. rewrite (countZ_filter _ isBuilt) by done.
  assert (Hflaky : countZ (λ t : string * testStatus, done t.2 && (passed t.2 && negb (bool_decide (fails t.2 = [])))) T =
    countZ (λ t, passed t.2 && negb (bool_decide (fails t.2 = []))) T).
  { apply countZ_ext. intros [name ts] Hin. apply list_elem_of_filter in Hin as [_ Hin]. apply list_elem_of_bind in Hin as (ps & Hts & Hps).
    apply elem_of_map_to_list in Hts. apply list_elem_of_filter in Hps as [_ Hps]. apply list_elem_of_fmap in Hps as ([path ps'] & -> & Hps).
    apply elem_of_map_to_list in Hps. destruct (po_tests _ (Hok path ps' Hps) name ts Hts) as [_ Hpd]. cbn [snd]. destruct (passed ts); [by rewrite Hpd|by rewrite andb_false_r]. }
  pose proof (countZ_split (λ t : string * testStatus, done t.2) (λ t, passed t.2) T). pose proof (countZ_split (λ t : string * testStatus, done t.2) (λ t, cached t.2) T).
  pose proof (countZ_split isBuilt exeCached L). rewrite length_sort_by. cbn beta in *.
  rewrite Z.add_0_l in A1, A6, A7, B1, B2, B4.
  split_and!; try done; [by rewrite B1, B2, B4|by rewrite A1, A7, A6, Hflaky|lia..].
Qed.

(** ** An example *)

#[local] Instance exampleQuotient : QuotientFormat := λ n d, itoa (divT n d).

Lemma status_agrees_witness :
  let page := statusDataOf exampleFlags map_to_list itoa exampleServer None 9 in
  dDone (sdTally page) = dPassed (sdTally page) + dFailed (sdTally page).
Proof.
  intros page. refine (proj1 (proj2 (proj2 (proj2 (proj2 (status_agrees exampleFlags map_to_list itoa exampleServer None 9 _ exampleServer_ok)))))).
  intros m. reflexivity.
Defined.

(** Two failed tests. *)
Definition failedStatus : testStatus := exampleStatus <| done := true |> <| fails := [FailInfo 5 "boom"] |>.
Definition failedServer : Server :=
  exampleServer <| pkgs := {["ex/p" := examplePackage <| psTests := Some {["TestA" := failedStatus; "TestB" := failedStatus]} |> <| numFails := 2 |>]} |>.

Definition issueIDs (order : gmap string testStatus → list (string * testStatus)) : list (string * string) :=
  (λ i, (tiName i, tiID i)) <$> dIssues (sdTally (statusDataOf exampleFlags order itoa failedServer None 9)).

(** The identifier of an issue is its position in the order in which Go happens to
    visit the tests, so that the same state has more than one page. *)
Example issue_ids_vary :
  issueIDs map_to_list ≠ issueIDs (λ m, reverse (map_to_list m)) ∧
  (issueIDs map_to_list).*1 = (issueIDs (λ m, reverse (map_to_list m))).*1.
Proof. split; [|vm_compute; reflexivity]. vm_compute. discriminate. Qed.
