(* ===== verification/Capture.v ===== *)
(** * The wrappers and the directories of a run (gotst.go, toolexec.go, cache.go, util.go)

    gotst calls itself through the go command: as the wrapper that captures a test
    binary instead of running it, and as the wrapper around the tools of a build.
    The directories of earlier runs are removed when a run starts. *)

From Stdlib Require Import Ascii.
From S2P Require Import Prelude GoStrings Flags Path Profile Utf8 Invocation GoFmt Args Sha256 Quote CappedBuffer HistoryTypes TestCache Disk ResultCache Server CacheTypes LocalCache CacheShim Discover.

(** ** The captured test binary *)

(** What the wrapper meets, besides files: its arguments, where it runs, and what
    the shim answers. *)
Record captureIO := CaptureIO {
  ciDest : result bool;                   (** [os.Stat] of the directory: whether it is one *)
  ciArgs : list string;                   (** [os.Args] *)
  ciPwd : result string;
  ciSocket : string;
  ciVerified : result verifiedExecutable; (** the answer of the shim for the binary *)
  ciLink : option error;                  (** [os.Link], where the target is free *)
  ciSeek : option error;
  ciFiles : shimIO
}.

(** The copy through a temporary file, which stays when a later step fails;
    [Some] is a fatal error. *)
Definition copyCapture (io : captureIO) (fs : files) (dir binPath target : string) : option string * files :=
  let fio := ciFiles io in
  match siCreate fio with
  | Some e => (Some ("creating temp file in capture dir: " +:+ Error e), fs)
  | None =>
      let temp := PathJoin [dir; siTemp fio] in
      let fs1 := <[temp := SFile "" true false]> fs in
      match readAll fio fs binPath with
      | Err e => (Some ("opening test binary for copy: " +:+ Error e), fs1)
      | Ok data =>
          match ciSeek io, siCopy fio, siClose fio with
          | Some e, _, _ => (Some ("seeking to beginning of test binary: " +:+ Error e), fs1)
          | None, Some e, _ => (Some ("copying test binary to capture dir: " +:+ Error e), fs1)
          | None, None, closing =>
              let fs2 := <[temp := SFile data true false]> fs in
              match closing, siTempChmod fio, siRename fio with
              | Some e, _, _ => (Some ("closing copied test binary: " +:+ Error e), fs2)
              | None, Some e, _ => (Some ("chmod +x copied test binary: " +:+ Error e), fs2)
              | None, None, Some e => (Some ("renaming copied test binary to final name: " +:+ Error e), <[temp := SFile data true true]> fs)
              | None, None, None => (None, <[target := SFile data true true]> (delete temp (<[temp := SFile data true true]> fs)))
              end
          end
      end
  end.

(** [os.Link]: a target that exists is an error, and the new name has the same
    content. *)
Definition linkOrCopy (io : captureIO) (fs : files) (dir binPath target : string) : option string * files :=
  match ciLink io, fs !! target, fs !! binPath with
  | None, None, Some f => (None, <[target := f]> fs)
  | _, _, _ => copyCapture io fs dir binPath target
  end.

(** [storeTestExecBinary]: a fatal error, or the record it prints and what it asks
    the shim to register.  Reading the binary and hashing it is one step. *)
Definition storeTestExecBinary `{GoRuntime} (io : captureIO) (fs : files) (dir : string)
    : (string + ExecSnarf * option executableRegistration) * files :=
  match ciDest io with
  | Err e => (inl ("invalid capture directory: " +:+ Error e), fs)
  | Ok false => (inl ("capture path " +:+ Quote dir +:+ " is not a directory"), fs)
  | Ok true =>
      match ciArgs io with
      | _ :: binPath :: args =>
          match ciPwd io with
          | Err e => (inl ("getting working directory: " +:+ Error e), fs)
          | Ok pwd =>
              let verified := if bool_decide (ciSocket io = "") then None else lookupVerifiedTestExecutable (ciVerified io) in
              match (match verified with
                     | Some (hash, _) => Ok hash
                     | None => '(sum, _) ← hashFile (ciFiles io) fs binPath; Ok (EncodeToString sum)
                     end) with
              | Err e => (inl ("opening test binary: " +:+ Error e), fs)
              | Ok exeHash =>
                  let target := PathJoin [dir; exeHash] in
                  match linkOrCopy io fs dir binPath target with
                  | (Some msg, fs) => (inl msg, fs)
                  | (None, fs) =>
                      let es := MkExecSnarf pwd exeHash args in
                      match verified, statFile (ciFiles io) fs target with
                      | Some (_, size), Ok f =>
                          if strlen (sfData f) =? size then (inr (es, None), fs) else (inl "captured verified executable changed size", fs)
                      | Some _, Err e => (inl ("captured verified executable changed size: " +:+ Error e), fs)
                      | None, st =>
                          if bool_decide (ciSocket io = "") then (inr (es, None), fs)
                          else match st with
                               | Err e => (inl ("statting captured test binary: " +:+ Error e), fs)
                               | Ok f => (inr (es, Some (ExecutableRegistration target exeHash (strlen (sfData f)))), fs)
                               end
                      end
                  end
              end
          end
      | _ => (inl "missing argument(s); need path to test binary and its args", fs)
      end
  end.

(** ** The tools of a build *)

Definition TrimSuffix (s suffix : string) : string :=
  if HasSuffix s suffix then String.substring 0 (String.length s - String.length suffix) s else s.

(** How a tool ends. *)
Inductive toolEnd := ToolOk | ToolExit (code : Z) | ToolErr (e : error).

(** [runToolExec] after the tool has run: the event it reports, and how the
    wrapper ends. *)
Definition runToolExec (osArgs : list string) (importPath : string) (run : string → list string → toolEnd)
    : option toolExecEvent * toolEnd :=
  match osArgs with
  | _ :: _ :: tool :: args =>
      let toolName := TrimSuffix (Base tool) ".exe" in
      let isCompile := bool_decide (toolName = "compile") && negb (bool_decide ("-V=full" ∈ args)) in
      let ev := ToolExecEvent importPath toolName (flagValue args "-buildid") in
      match run tool args with
      | ToolOk => (if isCompile then Some ev else None, ToolOk)
      | r => (None, r)
      end
  | _ => (None, ToolErr (EMsg "toolexec wrapper missing tool argument"))
  end.

(** ** The directories of runs *)

(** The longest prefix of decimal digits, and the rest: [\d+] of the pattern. *)
Fixpoint spanDigits (s : string) : string * string :=
  match s with
  | String a s' =>
      if (48 <=? byteZ a) && (byteZ a <=? 57) then let '(ds, rest) := spanDigits s' in (String a ds, rest) else ("", s)
  | EmptyString => ("", "")
  end.

(** The two groups of the pattern [^pid(\d+)-t(\d+)$]. *)
Definition matchRunDir (name : string) : option (string * string) :=
  rest ← CutPrefix name "pid";
  let '(pid, rest) := spanDigits rest in
  rest ← CutPrefix rest "-t";
  let '(t, rest) := spanDigits rest in
  if bool_decide (pid = "") || bool_decide (t = "") || negb (bool_decide (rest = "")) then None else Some (pid, t).

(** One entry of [cleanOldCaches]: whether it is removed. *)
Definition removesRunDir (running : Z → bool) (name : string) (isDir : bool) : bool :=
  isDir &&
  match matchRunDir name with
  | None => false
  | Some (pid, t) =>
      match ParseInt pid, ParseInt t with
      | Some pid, Some _ => negb (running pid)
      | _, _ => false
      end
  end.

(** The entries that are removed; [None] is a fatal error. *)
Definition cleanOldCaches (running : Z → bool) (cacheRoot : string) (entries : result (list (string * bool))) : option (list string) :=
  if bool_decide (cacheRoot = "") then Some []
  else
    match entries with
    | Err _ => None
    | Ok entries => Some ((λ e, PathJoin [cacheRoot; e.1]) <$> filter (λ e, removesRunDir running e.1 e.2 = true) entries)
    end.

(** The name of the directory of a run, by its process and the time. *)
Definition runDirName (pid t : Z) : string := "pid" +:+ itoa pid +:+ "-t" +:+ itoa t.

(** [mustCacheRoot]; [None] is a fatal error. *)
Definition mustCacheRoot (cacheRootFlag : string) (absOf userCacheDir : result string) (mkdirAll : string → option error) : option string :=
  let root := if bool_decide (cacheRootFlag = "")
              then match userCacheDir with Ok ucd => Some (PathJoin [ucd; "gotst"]) | Err _ => None end
              else match absOf with Ok s => Some s | Err _ => None end in
  root ≫= λ s, match mkdirAll s with None => Some s | Some _ => None end.

(** [mustNewCacheDir]: what is removed, and the new directory. *)
Definition mustNewCacheDir (root : option string) (running : Z → bool) (readDir : string → result (list (string * bool)))
    (pid now : Z) (mkdir : string → option error) : option (list string * string) :=
  root ← root;
  removed ← cleanOldCaches running root (readDir root);
  let dir := PathJoin [root; runDirName pid now] in
  match mkdir dir with None => Some (removed, dir) | Some _ => None end.

(** ** The go command *)

Inductive rootResult := RootFound (dir : string) | RootNone | RootErr (e : error).

(** The loop of [goModuleRoot] from directory [pwd] upwards. *)
Fixpoint moduleRootFrom (exists_ : string → bool) (fuel : nat) (pwd : string) : option rootResult :=
  match fuel with
  | O => None
  | S fuel =>
      if exists_ (PathJoin [pwd; "go.mod"]) then Some (RootFound pwd)
      else if bool_decide (pwd = "/") then Some RootNone
      else moduleRootFrom exists_ fuel (Dir pwd)
  end.

Definition goModuleRoot (exists_ : string → bool) (getwd : result string) : option rootResult :=
  match getwd with
  | Err e => Some (RootErr e)
  | Ok pwd => moduleRootFrom exists_ (S (length (elems pwd))) pwd
  end.

(** The candidates of [findGo] in order. *)
Definition goCandidates (root : rootResult) (home : string) (inPath : option string) : list string :=
  (match root with
   | RootFound mod_ =>
       if HasSuffix mod_ "/src" then [PathJoin [mod_; ".."; "bin"; "go"]]
       else if HasSuffix mod_ "/src/cmd" then [PathJoin [mod_; ".."; ".."; "bin"; "go"]]
       else [PathJoin [mod_; "tool"; "go"]]
   | _ => []
   end) ++
  [PathJoin [home; "sdk"; "go"; "bin"; "go"]; "/usr/local/go/bin/go"; "/usr/local/bin/go"; "/usr/bin/go"] ++ option_list inPath.

Definition findGo (exists_ : string → bool) (getwd : result string) (home : string) (inPath : option string) : option (option string) :=
  root ← goModuleRoot exists_ getwd;
  Some (head (filter (λ c, exists_ c = true) (goCandidates root home inPath))).
