(* ===== verification/CaptureFacts.v ===== *)
(** * Facts about the wrappers and the directories of a run *)

From Stdlib Require Import Ascii.
From S2P Require Import Prelude GoStrings Flags Path Profile Utf8 Utf8Facts Invocation GoFmt Args Sha256 Quote CappedBuffer HistoryTypes TestCache Disk ResultCache Server CacheTypes LocalCache CacheShim Discover Capture.

(** ** The captured binary *)

Lemma readAll_data io fs path data : readAll io fs path = Ok data → ∃ f, fs !! path = Some f ∧ sfData f = data.
Proof. unfold readAll. destruct (siOpen io path); [done|]. destruct (fs !! path) as [f|]; [|done]. destruct (sfRegular f); [|done]. intros [= <-]. by exists f. Qed.

Lemma linkOrCopy_ok io fs dir binPath target fs' :
  linkOrCopy io fs dir binPath target = (None, fs') →
  ∃ f g, fs !! binPath = Some f ∧ fs' !! target = Some g ∧ sfData g = sfData f.
Proof.
  assert (Hcopy : copyCapture io fs dir binPath target = (None, fs') →
    ∃ f g, fs !! binPath = Some f ∧ fs' !! target = Some g ∧ sfData g = sfData f).
  { unfold copyCapture. destruct (siCreate _); [done|]. destruct (readAll _ fs binPath) as [data|] eqn:Hr; [|done].
    destruct (ciSeek io); [done|]. destruct (siCopy _); [done|]. destruct (siClose _); [done|]. destruct (siTempChmod _); [done|].
    destruct (siRename _); [done|]. intros E. assert (fs' = <[target := SFile data true true]> (delete (PathJoin [dir; siTemp (ciFiles io)])
      (<[PathJoin [dir; siTemp (ciFiles io)] := SFile data true true]> fs))) as -> by congruence.
    apply readAll_data in Hr as (f & Hf & <-). exists f, (SFile (sfData f) true true). split_and!; [done|apply lookup_insert_eq|done]. }
  unfold linkOrCopy. destruct (ciLink io); [exact Hcopy|]. destruct (fs !! target); [exact Hcopy|]. destruct (fs !! binPath) as [f|] eqn:Hf; [|exact Hcopy].
  intros E. assert (fs' = <[target := f]> fs) as -> by congruence. exists f, f. split_and!; [done|apply lookup_insert_eq|done].
Qed.

(** What the shim has verified of the binary is its hash. *)
Definition answer_sound (io : captureIO) (fs : files) : Prop :=
  ∀ v f exe binPath args, ciVerified io = Ok v → ciArgs io = exe :: binPath :: args → fs !! binPath = Some f →
    validCacheHex (veOutputHash v) = true → veOutputHash v = EncodeToString (Sum256 (sfData f)).


(** ** Decimal numbers *)

Definition isDigit (a : ascii) : bool := (48 <=? byteZ a) && (byteZ a <=? 57).

Lemma pretty_N_char_digit d : (d < 10)%N → isDigit (pretty_N_char d) = true ∧ byteZ (pretty_N_char d) = 48 + Z.of_N d.
Proof. intros Hd. destruct d as [|p]; [done|]. do 4 (destruct p as [p|p|]; try done); lia. Qed.

Lemma digits_pretty_N_go x : ∀ s, digits (pretty_N_go x s) 0 = digits s (Z.of_N x).
Proof.
  induction (N.lt_wf_0 x) as [x _ IH]. intros s. destruct (decide (0 < x)%N) as [Hx|Hx].
  - rewrite pretty_N_go_step, IH by (first [done|by apply N.div_lt]). cbn [digits].
    assert (Hm : (x `mod` 10 < 10)%N) by (by apply N.mod_lt). destruct (pretty_N_char_digit _ Hm) as [Hd Hb]. unfold isDigit in Hd. rewrite Hd, Hb.
    f_equal. rewrite N2Z.inj_div, N2Z.inj_mod. pose proof (Z.div_mod (Z.of_N x) 10). lia.
  - assert (x = 0)%N as -> by lia. by rewrite pretty_N_go_0.
Qed.

(** The digits of a number stop where they stop. *)
Lemma spanDigits_app s : ∀ rest, (match rest with String a _ => isDigit a = false | "" => True end) →
  forallb isDigit (String.list_ascii_of_string s) = true → spanDigits (s +:+ rest) = (s, rest).
Proof.
  induction s as [|a s IH]; intros rest Hr Hs.
  - rewrite append_empty_l. destruct rest as [|b rest]; [done|]. cbn [spanDigits]. unfold isDigit in Hr. by rewrite Hr.
  - cbn [String.list_ascii_of_string forallb] in Hs. apply andb_prop in Hs as [Ha Hs]. rewrite append_cons. cbn [spanDigits]. unfold isDigit in Ha. by rewrite Ha, IH.
Qed.

Lemma spanDigits_spec s : let '(ds, rest) := spanDigits s in s = ds +:+ rest ∧ forallb isDigit (String.list_ascii_of_string ds) = true.
Proof.
  induction s as [|a s IH]; [done|]. cbn [spanDigits]. destruct (_ && _) eqn:E; [|done]. destruct (spanDigits s) as [ds rest]. destruct IH as [-> IH].
  rewrite append_cons. split; [done|]. cbn [String.list_ascii_of_string forallb]. unfold isDigit at 1. by rewrite E.
Qed.

Lemma pretty_N_go_digits x : ∀ s, forallb isDigit (String.list_ascii_of_string s) = true →
  forallb isDigit (String.list_ascii_of_string (pretty_N_go x s)) = true ∧ (s ≠ "" ∨ (0 < x)%N → pretty_N_go x s ≠ "").
Proof.
  induction (N.lt_wf_0 x) as [x _ IH]. intros s Hs. destruct (decide (0 < x)%N) as [Hx|Hx].
  - rewrite pretty_N_go_step by done. destruct (IH (x `div` 10)%N) with (s := String (pretty_N_char (x `mod` 10)) s) as [I1 I2]; [by apply N.div_lt| |].
    + cbn. rewrite Hs. destruct (pretty_N_char_digit (x `mod` 10)) as [-> _]; [by apply N.mod_lt|done].
    + split; [done|]. intros _. apply I2. by left.
  - assert (x = 0)%N as -> by lia. rewrite pretty_N_go_0. split; [done|]. intros [?|?]; [done|lia].
Qed.

Lemma itoa_digits n : 0 ≤ n → forallb isDigit (String.list_ascii_of_string (itoa n)) = true ∧ itoa n ≠ "" ∧ digits (itoa n) 0 = Some n.
Proof.
  intros Hn. destruct n as [|p|p]; [done| |lia].
  change (itoa (Zpos p)) with (if decide (Npos p = 0)%N then "0" else pretty_N_go (Npos p) ""). rewrite decide_False by done.
  destruct (pretty_N_go_digits (Npos p) "" eq_refl) as [H1 H2]. split_and!; [done|apply H2; right; lia|]. by rewrite digits_pretty_N_go.
Qed.

Lemma ParseInt_digits s n : forallb isDigit (String.list_ascii_of_string s) = true → s ≠ "" → digits s 0 = Some n → 0 ≤ n < 2 ^ 63 → ParseInt s = Some n.
Proof.
  intros Hd Hne Hn Hb. destruct s as [|a s]; [done|]. cbn [String.list_ascii_of_string forallb] in Hd. apply andb_prop in Hd as [Ha _].
  assert (Hsplit : (match String a s with String "+" r => (false, r) | String "-" r => (true, r) | _ => (false, String a s) end) = (false, String a s)).
  { destruct a as [[] [] [] [] [] [] [] []]; try done; exfalso; revert Ha; vm_compute; discriminate. }
  unfold ParseInt. rewrite Hsplit, bool_decide_false by done. rewrite Hn. cbn [mbind option_bind].
  destruct (Z.leb_spec (- 2 ^ 63) n); [|lia]. destruct (Z.ltb_spec n (2 ^ 63)); [done|lia].
Qed.

(** ** Directories of runs *)

Lemma CutPrefix_append p s : CutPrefix (p +:+ s) p = Some s.
Proof. apply CutPrefix_Some. done. Qed.

Lemma matchRunDir_runDirName pid t : 0 ≤ pid → 0 ≤ t → matchRunDir (runDirName pid t) = Some (itoa pid, itoa t).
Proof.
  intros Hp Ht. destruct (itoa_digits pid Hp) as (P1 & P2 & _). destruct (itoa_digits t Ht) as (T1 & T2 & _). unfold matchRunDir, runDirName.
  rewrite CutPrefix_append. cbn [mbind option_bind]. rewrite spanDigits_app by done. rewrite CutPrefix_append. cbn [mbind option_bind].
  rewrite <- (append_empty_r (itoa t)) at 1. rewrite spanDigits_app by done. by rewrite !bool_decide_false by done.
Qed.

(** Whether the directory of a run is removed depends on its process alone. *)
Lemma removesRunDir_own running pid t isDir :
  0 ≤ pid < 2 ^ 63 → 0 ≤ t < 2 ^ 63 → removesRunDir running (runDirName pid t) isDir = isDir && negb (running pid).
Proof.
  intros Hp Ht. unfold removesRunDir. rewrite matchRunDir_runDirName by lia.
  destruct (itoa_digits pid) as (P1 & P2 & P3); [lia|]. destruct (itoa_digits t) as (T1 & T2 & T3); [lia|].
  by rewrite (ParseInt_digits _ pid), (ParseInt_digits _ t).
Qed.

Lemma matchRunDir_Some name pid t : matchRunDir name = Some (pid, t) → name = "pid" +:+ pid +:+ "-t" +:+ t.
Proof.
  unfold matchRunDir. destruct (CutPrefix name "pid") as [r1|] eqn:E1; [|done]. cbn [mbind option_bind]. pose proof (spanDigits_spec r1) as S1.
  destruct (spanDigits r1) as [p r2]. destruct S1 as [-> _]. destruct (CutPrefix r2 "-t") as [r3|] eqn:E2; [|done]. cbn [mbind option_bind].
  pose proof (spanDigits_spec r3) as S3. destruct (spanDigits r3) as [q r4]. destruct S3 as [-> _].
  destruct (bool_decide (p = "") || bool_decide (q = "") || negb (bool_decide (r4 = ""))) eqn:E; [done|]. intros [= <- <-].
  apply orb_false_elim in E as [_ E]. apply negb_false_iff, bool_decide_eq_true in E as ->.
  apply CutPrefix_Some in E1 as ->. apply CutPrefix_Some in E2 as ->. by rewrite append_empty_r.
Qed.

(** Starting a run removes the directories of runs whose process is gone and
    nothing else: whatever is removed is a directory with the name of a run whose
    process does not run; and of a run whose process runs nothing is removed, while
    the directories of the others all are. *)
Theorem cleanOldCaches_spec running root entries removed :
  root ≠ "" → cleanOldCaches running root (Ok entries) = Some removed →
  (∀ path, path ∈ removed → ∃ name pid t n, path = PathJoin [root; name] ∧ (name, true) ∈ entries ∧
     name = "pid" +:+ pid +:+ "-t" +:+ t ∧ ParseInt pid = Some n ∧ running n = false) ∧
  (∀ pid t, 0 ≤ pid < 2 ^ 63 → 0 ≤ t < 2 ^ 63 → (runDirName pid t, true) ∈ entries →
     if running pid then ∀ isDir, removesRunDir running (runDirName pid t) isDir = false
     else PathJoin [root; runDirName pid t] ∈ removed).
Proof.
  intros Hr. unfold cleanOldCaches. rewrite bool_decide_false by done. intros [= <-]. split.
  - intros path ([name isDir] & -> & Hin)%list_elem_of_fmap. apply list_elem_of_filter in Hin as [Hrm Hin]. cbn [fst snd] in *. unfold removesRunDir in Hrm.
    apply andb_prop in Hrm as [Hd Hrm]. destruct isDir; [|done]. destruct (matchRunDir name) as [[pid t]|] eqn:Hm; [|done].
    destruct (ParseInt pid) as [n|] eqn:Hp; [|done]. destruct (ParseInt t); [|done]. apply negb_true_iff in Hrm.
    exists name, pid, t, n. split_and!; try done. by apply matchRunDir_Some.
  - intros pid t Hp Ht Hin. destruct (running pid) eqn:Hrun.
    + intros isDir. rewrite removesRunDir_own, Hrun by done. apply andb_false_r.
    + apply list_elem_of_fmap. exists (runDirName pid t, true). split; [done|]. apply list_elem_of_filter. split; [|done]. cbn [fst snd].
      by rewrite removesRunDir_own, Hrun.
Qed.

(** ** The module root *)

Definition modAt (es : list string) (k : nat) : string := PathJoin [abs (take k es); "go.mod"].

(** The nearest directory with a go.mod, from the working directory up. *)
Definition nearest_module (exists_ : string → bool) (es : list string) (r : rootResult) : Prop :=
  match r with
  | RootFound dir => ∃ k, (k ≤ length es)%nat ∧ dir = abs (take k es) ∧ exists_ (modAt es k) = true ∧
      ∀ j, (k < j ≤ length es)%nat → exists_ (modAt es j) = false
  | RootNone => ∀ j, (j ≤ length es)%nat → exists_ (modAt es j) = false
  | RootErr _ => False
  end.

Lemma abs_cons_root es e : Forall normal_elem es → normal_elem e → abs (es ++ [e]) ≠ "/".
Proof.
  intros Hes He Heq. change "/" with (abs []) in Heq. apply abs_inj in Heq; [by destruct es|apply Forall_app; split; [done|by constructor]|constructor].
Qed.

Lemma moduleRootFrom_nearest exists_ es k :
  Forall normal_elem es → (k ≤ length es)%nat → (∀ j, (k < j ≤ length es)%nat → exists_ (modAt es j) = false) →
  ∃ r, moduleRootFrom exists_ (S k) (abs (take k es)) = Some r ∧ nearest_module exists_ es r.
Proof.
  intros Hes. induction k as [|k IH]; intros Hk Hbelow.
  all: cbn [moduleRootFrom]; change (PathJoin [abs (take ?m es); "go.mod"]) with (modAt es m).
  - destruct (exists_ (modAt es 0)) eqn:E; [eexists; split; [done|]; by exists 0%nat|]. rewrite bool_decide_true by done. eexists. split; [done|].
    intros j Hj. destruct (decide (j = 0)%nat) as [->|]; [done|]. apply Hbelow. lia.
  - destruct (exists_ (modAt es (S k))) eqn:E; [eexists; split; [done|]; by exists (S k)|].
    destruct (lookup_lt_is_Some_2 es k) as [e He]; [lia|]. assert (Hn : normal_elem e) by (by eapply Forall_lookup_1).
    rewrite (take_S_r _ _ _ He). assert (Ht : Forall normal_elem (take k es)) by (by apply Forall_take).
    rewrite bool_decide_false by (by apply abs_cons_root). rewrite Dir_abs_snoc by done. apply IH; [lia|].
    intros j Hj. destruct (decide (j = S k)) as [->|]; [done|]. apply Hbelow. lia.
Qed.

(** The search for the module root ends on every absolute path, with the nearest
    directory that has a go.mod, and [findGo] chooses the first candidate that
    exists. *)
Theorem findGo_spec exists_ es home inPath :
  Forall normal_elem es →
  ∃ root, goModuleRoot exists_ (Ok (abs es)) = Some root ∧ nearest_module exists_ es root ∧
    ∃ choice, findGo exists_ (Ok (abs es)) home inPath = Some choice ∧
      match choice with
      | Some go => ∃ before after, goCandidates root home inPath = before ++ go :: after ∧ exists_ go = true ∧ Forall (λ c, exists_ c = false) before
      | None => Forall (λ c, exists_ c = false) (goCandidates root home inPath)
      end.
Proof.
  intros Hes. assert (Hroot : ∃ root, goModuleRoot exists_ (Ok (abs es)) = Some root ∧ nearest_module exists_ es root).
  { unfold goModuleRoot. rewrite elems_abs by done. pose proof (moduleRootFrom_nearest exists_ es (length es) Hes) as Hm. rewrite firstn_all in Hm. apply Hm; lia. }
  destruct Hroot as (root & Hr & Hn). exists root. split_and!; [done|done|]. unfold findGo. rewrite Hr. cbn [mbind option_bind]. eexists. split; [done|].
  induction (goCandidates root home inPath) as [|c cs IH]; [constructor|]. rewrite filter_cons. destruct (exists_ c) eqn:Ec.
  - rewrite decide_True by done. exists [], cs. by split_and!.
  - rewrite decide_False by done. destruct (head _) as [go|]; [|by constructor]. destruct IH as (before & after & -> & Hgo & Hb).
    exists (c :: before), after. split_and!; [done|done|by constructor].
Qed.

(** Where no path upwards is the root, the search does not end. *)
Lemma goModuleRoot_relative exists_ fuel : (∀ path, exists_ path = false) → moduleRootFrom exists_ fuel "." = None.
Proof. intros He. induction fuel as [|fuel IH]; [done|]. cbn [moduleRootFrom]. rewrite He. exact IH. Qed.

(** ** Examples *)

#[local] Existing Instance testRuntime.

Definition exCaptureFiles : files := {["/tmp/p.test" := SFile "binary" true true]}.
Definition exCapture : captureIO := CaptureIO (Ok true) ["gotst"; "/tmp/p.test"; "-test.v"] (Ok "/src/p") "" (Err ECanceled) None None
  (ShimIO (λ _, None) (λ _, None) None None None None None "tmp" None).

Definition exHash : string := EncodeToString (Sum256 "binary").
Definition exSnarf : ExecSnarf := MkExecSnarf "/src/p" exHash ["-test.v"].
Definition exStored : files := <[PathJoin ["/cache"; exHash] := SFile "binary" true true]> exCaptureFiles.

Lemma exStores : storeTestExecBinary exCapture exCaptureFiles "/cache" = (inr (exSnarf, None), exStored).
Proof. vm_compute. reflexivity. Qed.

Lemma exAnswer : answer_sound exCapture exCaptureFiles.
Proof. intros v f exe b a H. discriminate H. Qed.


Definition exEntries : list (string * bool) := [("pid7-t100", true); ("pid8-t200", true); ("results", true); ("pid9-t3", false)].

Lemma cleanOldCaches_spec_witness : PathJoin ["/cache"; "pid7-t100"] ∈ ["/cache/pid7-t100"].
Proof.
  refine (proj2 (cleanOldCaches_spec (Z.eqb 8) "/cache" exEntries ["/cache/pid7-t100"] _ _) 7 100 _ _ _).
  - discriminate.
  - vm_compute. reflexivity.
  - split; [discriminate|reflexivity].
  - split; [discriminate|reflexivity].
  - apply list_elem_of_here.
Defined.

Lemma findGo_spec_witness : ∃ root, goModuleRoot (String.eqb "/repo/go.mod") (Ok (abs ["repo"; "pkg"])) = Some root ∧ nearest_module (String.eqb "/repo/go.mod") ["repo"; "pkg"] root.
Proof.
  assert (Hes : Forall normal_elem ["repo"; "pkg"]) by (repeat constructor; discriminate).
  destruct (findGo_spec (String.eqb "/repo/go.mod") ["repo"; "pkg"] "/home/u" None Hes) as (root & H1 & H2 & _). exists root. exact (conj H1 H2).
Defined.
