(* ===== verification/Listen.v ===== *)
(** * Listeners of the status page (web.go, tailcatstatus.go)

    The page is served on the configured address and, next to it, on the addresses
    that a local Tailscale daemon has; or through connections that tailcat hands
    over one at a time. *)

From Stdlib Require Import Ascii.
From S2P Require Import Prelude GoStrings GoFmt Utf8 CappedBuffer Discover Capture.

(** ** Addresses (package net/netip) *)

Inductive Addr := AInvalid | A4 (z : Z) | A6 (z : Z) (zone : string).

#[export] Instance Addr_eq_dec : EqDecision Addr.
Proof. solve_decision. Defined.

Definition IsValid (ip : Addr) : bool := negb (bool_decide (ip = AInvalid)).
Definition Is4 (ip : Addr) : bool := match ip with A4 _ => true | _ => false end.

(** An IPv4 address in IPv6 form, 0:0:0:0:0:ffff:a.b.c.d, becomes the IPv4 address. *)
Definition Unmap (ip : Addr) : Addr :=
  match ip with
  | A6 z _ => if Z.shiftr z 32 =? 0xffff then A4 (z mod 2 ^ 32) else ip
  | _ => ip
  end.

Definition IsUnspecified (ip : Addr) : bool := bool_decide (ip = A4 0 ∨ ip = A6 0 "").

(** The value of bytes, the first one most significant. *)
Definition bigEndian (s : string) : Z := foldl (λ n a, 256 * n + byteZ a) 0 (String.list_ascii_of_string s).

Definition AddrFromSlice (b : string) : option Addr :=
  if strlen b =? 4 then Some (A4 (bigEndian b)) else if strlen b =? 16 then Some (A6 (bigEndian b) "") else None.

(** ** The listeners *)

(** [ln.Addr()]: the bytes of the IP, empty for nil, and the port; [None] for an
    address that is not of TCP. *)
Record listener := Listener {
  lnName : string; (** the address it was asked to listen on *)
  lnAddr : option (string * Z)
}.

Definition listenerCoversIP (addrIP : string) (ip : Addr) : bool :=
  match AddrFromSlice addrIP with
  | None => false
  | Some bound =>
      let bound := Unmap bound in
      let ip := Unmap ip in
      if IsUnspecified bound then Bool.eqb (Is4 bound) (Is4 ip) else bool_decide (bound = ip)
  end.

(** What [StatusWithoutPeers] answers. *)
Record ipnStatus := IpnStatus {
  BackendState : string;
  SelfDNSName : option string; (** [None]: no [Self] *)
  TailscaleIPs : list Addr
}.

Definition JoinHostPort (host port : string) : string :=
  if ContainsByte host ":"%char then "[" +:+ host +:+ "]:" +:+ port else host +:+ ":" +:+ port.

Section listeners.
(** [ip.String()], and [net.Listen]. *)
Context (ipString : Addr → string) (listen : string → result listener).

(** The variables of the loop over addresses. *)
Record listenLoop := ListenLoop {
  llListeners : list listener;
  llBound : bool;
  llSeen : list Addr
}.

Definition listenStep (addrIP : string) (port : Z) (st : listenLoop) (ip : Addr) : listenLoop :=
  let ip := Unmap ip in
  if negb (IsValid ip) || bool_decide (ip ∈ llSeen st) then st
  else
    let seen := llSeen st ++ [ip] in
    if listenerCoversIP addrIP ip then ListenLoop (llListeners st) true seen
    else
      match listen (JoinHostPort (ipString ip) (itoa port)) with
      | Err _ => ListenLoop (llListeners st) (llBound st) seen
      | Ok ln => ListenLoop (llListeners st ++ [ln]) true seen
      end.

Definition startStatusListeners (addr : string) (status : result (option ipnStatus)) : result (list listener * string) :=
  match listen addr with
  | Err e => Err e
  | Ok primary =>
      match status with
      | Ok (Some st) =>
          match bool_decide (BackendState st = "Running"), SelfDNSName st, lnAddr primary with
          | true, Some self, Some (addrIP, port) =>
              let r := foldl (listenStep addrIP port) (ListenLoop [primary] false []) (TailscaleIPs st) in
              let dnsName := TrimSuffix self "." in
              if negb (llBound r) || bool_decide (dnsName = "") then Ok (llListeners r, "")
              else Ok (llListeners r, "http://" +:+ JoinHostPort dnsName (itoa port))
          | _, _, _ => Ok ([primary], "")
          end
      | _ => Ok ([primary], "")
      end
  end.

(** ** Where the page is served *)

(** A Tailscale address at which the page is served: the first listener covers it,
    or there is one for it. *)
Definition served (addrIP : string) (port : Z) (ips : list Addr) (lns : list listener) : Prop :=
  ∃ ip, ip ∈ ips ∧ IsValid (Unmap ip) = true ∧
    (listenerCoversIP addrIP (Unmap ip) = true ∨ ∃ ln, ln ∈ lns ∧ listen (JoinHostPort (ipString (Unmap ip)) (itoa port)) = Ok ln).

(** One listener for each of a list of addresses. *)
Inductive listened (port : Z) : list Addr → list listener → Prop :=
  | listened_nil : listened port [] []
  | listened_snoc ips lns ip ln : listened port ips lns → listen (JoinHostPort (ipString ip) (itoa port)) = Ok ln →
      listened port (ips ++ [ip]) (lns ++ [ln]).

Record listen_ok (addrIP : string) (port : Z) (primary : listener) (all : list Addr) (st : listenLoop) : Prop := {
  lk_seen : NoDup (llSeen st);
  lk_valid : ∀ ip, ip ∈ llSeen st → IsValid ip = true ∧ ∃ ip', ip' ∈ all ∧ ip = Unmap ip';
  lk_more : ∃ ips lns, llListeners st = primary :: lns ∧ listened port ips lns ∧ NoDup ips ∧
    (∀ ip, ip ∈ ips → ip ∈ llSeen st ∧ listenerCoversIP addrIP ip = false);
  lk_bound : llBound st = true → served addrIP port all (llListeners st)
}.

Lemma listenStep_ok addrIP port primary all st ip :
  ip ∈ all → listen_ok addrIP port primary all st → listen_ok addrIP port primary all (listenStep addrIP port st ip).
Proof using Type.
  intros Hin [H1 H2 (ips & lns & H3 & H4 & H5 & H6) H7]. unfold listenStep. destruct (negb (IsValid (Unmap ip)) || _) eqn:E.
  { split; try done. by exists ips, lns. }
  apply orb_false_elim in E as [Hv Hn]. apply negb_false_iff in Hv. apply bool_decide_eq_false in Hn.
  assert (Hseen : NoDup (llSeen st ++ [Unmap ip])) by (by apply NoDup_snoc).
  assert (Hval : ∀ ip0, ip0 ∈ llSeen st ++ [Unmap ip] → IsValid ip0 = true ∧ ∃ ip', ip' ∈ all ∧ ip0 = Unmap ip').
  { intros ip0 [Hi| ->]%elem_of_snoc; [by apply H2|]. split; [done|by exists ip]. }
  assert (Hold : ∀ ip0, ip0 ∈ ips → ip0 ∈ llSeen st ++ [Unmap ip] ∧ listenerCoversIP addrIP ip0 = false).
  { intros ip0 Hi. destruct (H6 ip0 Hi) as [? ?]. split; [|done]. apply elem_of_snoc. by left. }
  destruct (listenerCoversIP addrIP (Unmap ip)) eqn:Hc; [|destruct (listen _) as [ln|] eqn:Hl]; (split; cbn [llSeen llListeners llBound]; [done|done| |]).
  - by exists ips, lns.
  - intros _. exists ip. split_and!; [done|done|by left].
  - exists (ips ++ [Unmap ip]), (lns ++ [ln]). rewrite H3. split_and!; [done|by constructor| |].
    + apply NoDup_snoc; [done|]. intros Hi. by destruct (H6 _ Hi).
    + intros ip0 [Hi| ->]%elem_of_snoc; [by apply Hold|]. split; [apply elem_of_snoc; by right|done].
  - intros _. exists ip. split_and!; [done|done|]. right. exists ln. split; [apply elem_of_snoc; by right|done].
  - by exists ips, lns.
  - intros Hb. destruct (H7 Hb) as (ip0 & I1 & I2 & I3). by exists ip0.
Qed.

Lemma listenLoop_ok addrIP port primary all l : ∀ st,
  (∀ ip, ip ∈ l → ip ∈ all) → listen_ok addrIP port primary all st → listen_ok addrIP port primary all (foldl (listenStep addrIP port) st l).
Proof using Type.
  induction l as [|ip l IH]; intros st Hl Hok; [done|]. cbn [foldl]. apply IH; [intros; by apply Hl, list_elem_of_further|].
  apply listenStep_ok; [apply Hl, list_elem_of_here|done].
Qed.

(** The page is served on the configured address first; any other listener is for
    a valid Tailscale address that the first one does not cover, one for each; and
    the address of the page that is announced is one at which it is served: a
    Tailscale address is covered or listened on. *)
Theorem statusListeners_spec addr status lns url :
  startStatusListeners addr status = Ok (lns, url) →
  ∃ primary rest, lns = primary :: rest ∧ listen addr = Ok primary ∧
    (rest ≠ [] ∨ url ≠ "" →
     ∃ st addrIP port ips, status = Ok (Some st) ∧ lnAddr primary = Some (addrIP, port) ∧ listened port ips rest ∧ NoDup ips ∧
       (∀ ip, ip ∈ ips → IsValid ip = true ∧ listenerCoversIP addrIP ip = false ∧ ∃ ip', ip' ∈ TailscaleIPs st ∧ ip = Unmap ip') ∧
       (url ≠ "" → served addrIP port (TailscaleIPs st) lns)).
Proof using Type.
  unfold startStatusListeners. destruct (listen addr) as [primary|] eqn:Hp; [|done].
  assert (Hplain : Ok ([primary], "") = Ok (lns, url) → ∃ p rest, lns = p :: rest ∧ Ok primary = Ok p ∧ (rest ≠ [] ∨ url ≠ "" → False)).
  { intros [= <- <-]. exists primary, []. split_and!; try done. by intros [?|?]. }
  assert (Hno : (∃ p rest, lns = p :: rest ∧ Ok primary = Ok p ∧ (rest ≠ [] ∨ url ≠ "" → False)) → ∃ p rest, lns = p :: rest ∧ Ok primary = Ok p ∧
    (rest ≠ [] ∨ url ≠ "" → ∃ st addrIP port ips, status = Ok (Some st) ∧ lnAddr p = Some (addrIP, port) ∧ listened port ips rest ∧ NoDup ips ∧
       (∀ ip, ip ∈ ips → IsValid ip = true ∧ listenerCoversIP addrIP ip = false ∧ ∃ ip', ip' ∈ TailscaleIPs st ∧ ip = Unmap ip') ∧
       (url ≠ "" → served addrIP port (TailscaleIPs st) lns))).
  { intros (p & rest & E1 & E2 & E3). exists p, rest. split_and!; [done|done|]. intros Hx. by destruct (E3 Hx). }
  destruct status as [[st|]|]; [|intros E; by apply Hno, Hplain..].
  destruct (bool_decide _); [|intros E; by apply Hno, Hplain]. destruct (SelfDNSName st) as [self|]; [|intros E; by apply Hno, Hplain].
  destruct (lnAddr primary) as [[addrIP port]|] eqn:Haddr; [|intros E; by apply Hno, Hplain].
  set (r := foldl _ _ _). assert (Hok : listen_ok addrIP port primary (TailscaleIPs st) r).
  { apply listenLoop_ok; [done|]. split; cbn; [constructor|intros ip Hi; by apply elem_of_nil in Hi| |done].
    exists [], []. split_and!; [done|constructor|constructor|intros ip Hi; by apply elem_of_nil in Hi]. }
  destruct Hok as [H1 H2 (ips & more & H3 & H4 & H5 & H6) H7]. intros Hres. exists primary, more.
  assert (Hlns : lns = llListeners r ∧ (url ≠ "" → llBound r = true)).
  { destruct (llBound r), (bool_decide (TrimSuffix self "." = "")); cbn [negb orb] in Hres; split; congruence. }
  destruct Hlns as [-> Hurl]. split_and!; [done|done|]. intros _. exists st, addrIP, port, ips. split_and!; try done.
  - intros ip Hi. destruct (H6 ip Hi) as [Hs Hc]. destruct (H2 ip Hs) as [Hv Hx]. by split_and!.
  - intros Hu. by apply H7, Hurl.
Qed.
End listeners.

(** ** Connections handed over by tailcat *)

(** [connListener]: goroutines that wait in [deliver] and in [Accept], whether the
    channel [closed] is closed, and what became of the connections. *)
Record connListener := ConnListener {
  clWaiting : list nat;
  clAccepting : nat;
  clClosed : bool;
  clAccepted : list nat;
  clDropped : list nat; (** closed by [deliver] *)
  clErrors : nat        (** calls of [Accept] that returned [net.ErrClosed] *)
}.

Definition newConnListener : connListener := ConnListener [] 0 false [] [] 0.

Inductive connEvent :=
  | CDeliver (c : nat)   (** tailcat calls [deliver] *)
  | CAccept              (** [http.Serve] calls [Accept] *)
  | CHandOver (i : nat)  (** the [i]-th waiting connection meets an [Accept] *)
  | CClose               (** [Close] *)
  | CDrop (i : nat)      (** [deliver] sees that the listener is closed *)
  | CAcceptClosed.       (** [Accept] sees it *)

Definition connStep (l : connListener) (ev : connEvent) : option connListener :=
  match ev with
  | CDeliver c => Some (ConnListener (clWaiting l ++ [c]) (clAccepting l) (clClosed l) (clAccepted l) (clDropped l) (clErrors l))
  | CAccept => Some (ConnListener (clWaiting l) (S (clAccepting l)) (clClosed l) (clAccepted l) (clDropped l) (clErrors l))
  | CHandOver i =>
      match clWaiting l !! i, clAccepting l with
      | Some c, S n => Some (ConnListener (delete i (clWaiting l)) n (clClosed l) (clAccepted l ++ [c]) (clDropped l) (clErrors l))
      | _, _ => None
      end
  | CClose => Some (ConnListener (clWaiting l) (clAccepting l) true (clAccepted l) (clDropped l) (clErrors l))
  | CDrop i =>
      match clWaiting l !! i, clClosed l with
      | Some c, true => Some (ConnListener (delete i (clWaiting l)) (clAccepting l) true (clAccepted l) (clDropped l ++ [c]) (clErrors l))
      | _, _ => None
      end
  | CAcceptClosed =>
      match clAccepting l, clClosed l with
      | S n, true => Some (ConnListener (clWaiting l) n true (clAccepted l) (clDropped l) (S (clErrors l)))
      | _, _ => None
      end
  end.

(** The listener after a sequence of events, with the connections delivered. *)
Inductive conn_reachable : list nat → connListener → Prop :=
  | conn_new : conn_reachable [] newConnListener
  | conn_step cs l ev l' : conn_reachable cs l → connStep l ev = Some l' →
      conn_reachable (match ev with CDeliver c => cs ++ [c] | _ => cs end) l'.

(** The goroutines that are blocked once nothing more is delivered. *)
Definition blocked (l : connListener) : nat := length (clWaiting l) + clAccepting l.

Definition leaves (ev : connEvent) : bool := match ev with CHandOver _ | CDrop _ | CAcceptClosed => true | _ => false end.

(** Every connection that tailcat delivers is accepted, closed or still waits, and
    only one of them; none is closed before the listener is; and once it is
    closed, no goroutine stays blocked: as long as one waits in [deliver] or
    [Accept] it can go on, and each that goes on is one less. *)
Theorem connListener_accounted cs l :
  conn_reachable cs l →
  clWaiting l ++ clAccepted l ++ clDropped l ≡ₚ cs ∧ (clDropped l ≠ [] → clClosed l = true) ∧
  (clClosed l = true → blocked l ≠ 0%nat → ∃ ev l', leaves ev = true ∧ connStep l ev = Some l') ∧
  (∀ ev l', leaves ev = true → connStep l ev = Some l' → (blocked l' < blocked l)%nat).
Proof.
  intros Hr. assert (Hdel : ∀ (w : list nat) i c, w !! i = Some c → w ≡ₚ c :: delete i w).
  { intros w i c Hi. rewrite <- (take_drop_middle w i c Hi) at 1. rewrite delete_take_drop. by rewrite Permutation_middle. }
  split_and!.
  - induction Hr as [|cs l ev l' Hr IH Hs]; [done|]. destruct ev as [c| |i| |i|]; cbn [connStep] in Hs.
    + injection Hs as <-. cbn. rewrite <- IH. solve_Permutation.
    + by injection Hs as <-.
    + destruct (clWaiting l !! i) as [c|] eqn:Hi; [|done]. destruct (clAccepting l); [done|]. injection Hs as <-. cbn.
      rewrite (Hdel _ _ _ Hi) in IH. rewrite <- IH. solve_Permutation.
    + by injection Hs as <-.
    + destruct (clWaiting l !! i) as [c|] eqn:Hi; [|done]. destruct (clClosed l); [|done]. injection Hs as <-. cbn.
      rewrite (Hdel _ _ _ Hi) in IH. rewrite <- IH. solve_Permutation.
    + destruct (clAccepting l); [done|]. destruct (clClosed l); [|done]. by injection Hs as <-.
  - induction Hr as [|cs l ev l' Hr IH Hs]; [done|]. destruct ev as [c| |i| |i|]; cbn [connStep] in Hs; repeat case_match; simplify_eq/=; auto.
  - intros Hc Hb. unfold blocked in Hb. destruct (clWaiting l) as [|c w] eqn:Hw.
    + exists CAcceptClosed. cbn [connStep]. rewrite Hc. destruct (clAccepting l); [done|by eexists].
    + exists (CDrop 0). cbn [connStep]. rewrite Hc, Hw. by eexists.
  - unfold blocked. intros ev l' Hl Hs. destruct ev as [c| |i| |i|]; cbn [connStep leaves] in *; try done; repeat case_match; simplify_eq/=; try lia.
    all: rewrite length_delete by (by eexists); assert (i < length (clWaiting l))%nat by (by eapply lookup_lt_Some); lia.
Qed.

(** ** Examples *)

Definition exListen (name : string) : result listener := Ok (Listener name (Some (String "127" (String "000" (String "000" (String "001" ""))), 8080)))%char.
Definition exStatus : ipnStatus := IpnStatus "Running" (Some "host.ts.net.") [A4 0x64646464; A6 0xffff64646464 ""; AInvalid].
Definition exAddrString (ip : Addr) : string := if bool_decide (ip = A4 0x64646464) then "100.100.100.100" else "?".

Example exStart : startStatusListeners exAddrString exListen "localhost:8080" (Ok (Some exStatus)) =
  Ok ([Listener "localhost:8080" (Some (String "127" (String "000" (String "000" (String "001" ""))), 8080))%char;
       Listener "100.100.100.100:8080" (Some (String "127" (String "000" (String "000" (String "001" ""))), 8080))%char], "http://host.ts.net:8080").
Proof. vm_compute. reflexivity. Qed.

Lemma statusListeners_spec_witness : ∃ primary, exListen "localhost:8080" = Ok primary.
Proof.
  destruct (statusListeners_spec exAddrString exListen "localhost:8080" (Ok (Some exStatus)) _ _ exStart) as (primary & rest & _ & H & _).
  exists primary. exact H.
Defined.

Lemma connListener_accounted_witness : [2; 1]%nat ≡ₚ [1; 2]%nat.
Proof.
  refine (proj1 (connListener_accounted [1; 2]%nat (ConnListener [2]%nat 0 false [1]%nat [] 0) _)).
  apply (conn_step [1; 2]%nat (ConnListener [1; 2]%nat 1 false [] [] 0) (CHandOver 0)); [|reflexivity].
  apply (conn_step [1; 2]%nat (ConnListener [1; 2]%nat 0 false [] [] 0) CAccept); [|reflexivity].
  apply (conn_step [1]%nat (ConnListener [1]%nat 0 false [] [] 0) (CDeliver 2)); [|reflexivity].
  apply (conn_step [] newConnListener (CDeliver 1)); [constructor|reflexivity].
Defined.
