(* ===== verification/ShimSession.v ===== *)
(** * The cache shim at work (cacheprog.go)

    A session with cmd/go: requests are read one after the other and answered by
    goroutines of their own, in any order. *)

From Stdlib Require Import Ascii.
From S2P Require Import Prelude GoStrings Flags Path Profile Utf8 Invocation GoFmt Args Sha256 Quote CappedBuffer HistoryTypes TestCache Disk ResultCache Server CacheTypes LocalCache CacheClient CacheShim Discover.

(** ** A session with cmd/go *)

Inductive sessionPhase :=
  | SReading                            (** decodes the next request *)
  | SDraining (closeID : option Z)      (** in [requests.Wait] *)
  | SReturned (err : option error).

Record session := Session {
  snShim : cacheShim;
  snFiles : files;
  snInput : list (cacheProgRequest * result string); (** what is still to be decoded, with the bodies *)
  snLast : option error;                             (** after that: the end of the input, or an error *)
  snRunning : list cacheProgRequest;                 (** the goroutines *)
  snOut : list cacheProgResponse;
  snPhase : sessionPhase
}.

(** The commands that the shim declares. *)
Definition shimCommands (s : cacheShim) : list string :=
  [cacheProgGet] ++ (if bool_decide (cacheProgPut ∈ downCan s) then [cacheProgPut] else []) ++ [cacheProgClose].

Definition shimHello (s : cacheShim) : cacheProgResponse := zeroResponse <| KnownCommands := shimCommands s |>.

(** [serveCmdGo] up to its loop, when the first write succeeds. *)
Definition startSession (s : cacheShim) (fs : files) (inputs : list (cacheProgRequest * result string)) (last : option error) : session :=
  Session s fs inputs last [] [shimHello s] SReading.

Inductive sessionEvent :=
  | VRead                                                     (** an iteration of the loop *)
  | VFinish (i : nat) (io : shimIO) (sent : result cacheProgResponse) (** a goroutine, with what the cache program answers *)
  | VDrained.                                                 (** [requests.Wait] returns *)

Section session.
Context `{GoRuntime, GoTool}.

Definition sessionRead (n : session) : session :=
  let with_ input running phase := Session (snShim n) (snFiles n) input (snLast n) running (snOut n) phase in
  match snInput n with
  | [] => with_ [] (snRunning n) (match snLast n with None => SDraining None | Some e => SReturned (Some e) end)
  | (req, body) :: rest =>
      let req := normalizeRequest req in
      match readBody req body with
      | Err e => with_ rest (snRunning n) (SReturned (Some e))
      | Ok _ =>
          if bool_decide (crCommand req = cacheProgClose) then with_ rest (snRunning n) (SDraining (Some (crID req)))
          else with_ rest (snRunning n ++ [req]) SReading
      end
  end.

Definition sessionStep (n : session) (ev : sessionEvent) : option session :=
  match ev with
  | VRead => match snPhase n with SReading => Some (sessionRead n) | _ => None end
  | VFinish i io sent =>
      match snRunning n !! i with
      | None => None
      | Some req =>
          let '(r, s, fs, _) := forward (snShim n) io (snFiles n) req sent in
          Some (Session s fs (snInput n) (snLast n) (delete i (snRunning n)) (snOut n ++ [cmdGoResponse req r]) (snPhase n))
      end
  | VDrained =>
      match snPhase n, snRunning n with
      | SDraining closeID, [] =>
          Some (Session (snShim n) (snFiles n) (snInput n) (snLast n) []
                  (snOut n ++ option_list ((λ id, zeroResponse <| cpID := id |>) <$> closeID)) (SReturned None))
      | _, _ => None
      end
  end.

Inductive session_reachable (n0 : session) : session → Prop :=
  | session_start : session_reachable n0 n0
  | session_step n ev n' : session_reachable n0 n → sessionStep n ev = Some n' → session_reachable n0 n'.

(** ** Every request is answered once *)

Lemma cmdGoResponse_id req r : cpID (cmdGoResponse req r) = crID req.
Proof using Type. by destruct r. Qed.

(** Where the session is in its input: the IDs of the requests it started and of
    those it will start are those that the whole input starts, with the same
    ending. *)
Definition remaining (n : session) : list Z * result (option Z) :=
  match snPhase n with
  | SReading => let '(l, e) := acceptRequests (snInput n) (snLast n) in (crID <$> l.*1, e)
  | SDraining c => ([], Ok c)
  | SReturned (Some e) => ([], Err e)
  | SReturned None => ([], Ok None)
  end.

(** The answer to the close request, once it was given. *)
Definition closed (n0 n : session) : list Z :=
  match snPhase n, (remaining n0).2 with SReturned None, Ok c => option_list c | _, _ => [] end.

Record session_ok (n0 n : session) : Prop := {
  so_ids : ∃ started, (cpID <$> snOut n) ++ (crID <$> snRunning n) ≡ₚ 0 :: started ++ closed n0 n ∧ started ++ (remaining n).1 = (remaining n0).1;
  so_end : snPhase n ≠ SReturned None → (remaining n).2 = (remaining n0).2;
  so_done : snPhase n = SReturned None → snRunning n = [] ∧ ∃ c out, (remaining n0).2 = Ok c ∧ snOut n = out ++ option_list ((λ id, zeroResponse <| cpID := id |>) <$> c)
}.

Lemma closed_open n0 n : snPhase n ≠ SReturned None → closed n0 n = [].
Proof using Type. unfold closed. destruct (snPhase n) as [| |[]]; try done. Qed.

Lemma sessionRead_ok n0 n : snPhase n = SReading → session_ok n0 n → session_ok n0 (sessionRead n).
Proof using Type.
  intros Hph [(started & Hp & Hst) He _]. specialize (He ltac:(by rewrite Hph)). rewrite (closed_open n0 n) in Hp by (by rewrite Hph).
  unfold remaining in Hst at 1, He at 1. rewrite Hph in Hst, He. unfold sessionRead. destruct (snInput n) as [|[req body] rest].
  - cbn [acceptRequests] in *. destruct (snLast n) as [e|]; cbn in *; (split; cbn; [exists started; by split_and!|done|done]).
  - cbn [acceptRequests] in *. destruct (readBody _ body) as [b|e].
    2:{ cbn in *. split; cbn; [exists started; by split_and!|done|done]. }
    destruct (bool_decide _).
    { cbn in *. split; cbn; [exists started; by split_and!|done|done]. }
    destruct (acceptRequests rest (snLast n)) as [l e] eqn:Ha. cbn in *. split; cbn [snPhase]; [|by cbn; rewrite Ha|done].
    exists (started ++ [crID (normalizeRequest req)]). cbn. rewrite Ha. cbn. rewrite fmap_app, <- Hst. split; [|by rewrite <- app_assoc].
    cbn. rewrite app_assoc, Hp. solve_Permutation.
Qed.

Lemma finish_ok n0 n i req s fs r :
  snRunning n !! i = Some req → session_ok n0 n →
  session_ok n0 (Session s fs (snInput n) (snLast n) (delete i (snRunning n)) (snOut n ++ [cmdGoResponse req r]) (snPhase n)).
Proof using Type.
  intros Hi [(started & Hp & Hst) He Hd].
  assert (Hne : snPhase n ≠ SReturned None) by (intros Hx; destruct (Hd Hx) as [Hr _]; rewrite Hr in Hi; by rewrite lookup_nil in Hi).
  split; [|exact He|by intros Hx].
  exists started. split; [|exact Hst]. change (closed n0 _) with (closed n0 n). rewrite <- Hp. cbn. rewrite fmap_app. cbn. rewrite cmdGoResponse_id.
  rewrite <- (take_drop_middle _ _ _ Hi) at 2. rewrite delete_take_drop, !fmap_app, fmap_cons. solve_Permutation.
Qed.

Lemma sessionStep_ok n0 n ev n' : session_ok n0 n → sessionStep n ev = Some n' → session_ok n0 n'.
Proof using Type.
  intros Hok. destruct ev as [|i io sent|]; cbn [sessionStep].
  - destruct (snPhase n) eqn:Hph; try done. intros [= <-]. by apply sessionRead_ok.
  - destruct (snRunning n !! i) as [req|] eqn:Hi; [|done]. destruct (forward _ _ _ _ _) as [[[r s] fs] evs]. intros [= <-]. by apply finish_ok.
  - destruct (snPhase n) as [|c|] eqn:Hph; try done. destruct (snRunning n) eqn:Hr; [|done]. intros [= <-].
    destruct Hok as [(started & Hp & Hst) He _]. specialize (He ltac:(by rewrite Hph)). rewrite (closed_open n0 n) in Hp by (by rewrite Hph).
    unfold remaining in Hst at 1, He at 1. rewrite Hph in Hst, He. cbn in Hst, He. split; cbn [snPhase snRunning snOut]; [|done|].
    + exists started. split; [|exact Hst]. unfold closed. cbn [snPhase]. rewrite <- He. rewrite Hr in Hp. cbn in Hp. rewrite app_nil_r in *.
      rewrite fmap_app. destruct c; cbn; rewrite ?app_nil_r, Hp; solve_Permutation.
    + intros _. split; [done|]. exists c, (snOut n). by split.
Qed.

Lemma session_reachable_ok n0 n : snPhase n0 = SReading → snRunning n0 = [] → cpID <$> snOut n0 = [0] → session_reachable n0 n → session_ok n0 n.
Proof using Type.
  intros Hph Hr Ho. induction 1; [|by eapply sessionStep_ok]. split; [|done|by rewrite Hph].
  exists []. rewrite closed_open by (by rewrite Hph). rewrite Hr, Ho. done.
Qed.

(** What is left to do. *)
Definition sessionLeft (n : session) : nat :=
  2 * length (snInput n) + length (snRunning n) + match snPhase n with SReading => 2 | SDraining _ => 1 | SReturned _ => 0 end.

(** C38: A session with cmd/go answers every request once.  Whatever order its
    goroutines end in: after the declaration of commands, when the session
    returns without an error, exactly the requests that the input started have
    been answered, each with its ID, and a close request last of all.  The
    session cannot get stuck, and it ends: every step leaves less to do. *)
Theorem session_answers s fs inputs last n :
  let '(started, ending) := acceptRequests inputs last in
  session_reachable (startSession s fs inputs last) n →
  (snPhase n = SReturned None → ∃ c, ending = Ok c ∧ snRunning n = [] ∧
     cpID <$> snOut n ≡ₚ 0 :: (crID <$> started.*1) ++ option_list c ∧
     ∃ out, snOut n = out ++ option_list ((λ id, zeroResponse <| cpID := id |>) <$> c)) ∧
  (∀ e, snPhase n = SReturned (Some e) → ending = Err e) ∧
  ((∃ err, snPhase n = SReturned err) ∨ ∃ ev n', sessionStep n ev = Some n') ∧
  (∀ ev n', sessionStep n ev = Some n' → (sessionLeft n' < sessionLeft n)%nat).
Proof using Type.
  destruct (acceptRequests inputs last) as [started ending] eqn:Ha. intros Hr.
  apply session_reachable_ok in Hr as [(st & Hp & Hst) He Hd]; [|done|done|done]. set (n0 := startSession s fs inputs last) in *.
  assert (Hrem : remaining n0 = (crID <$> started.*1, ending)) by (unfold remaining, n0; cbn; by rewrite Ha). clearbody n0.
  rewrite Hrem in Hst, He, Hd. cbn [fst snd] in Hst, He, Hd. split_and!.
  - intros Hph. destruct (Hd Hph) as (Hrun & c & out & Hc & Hout). exists c. split_and!; [done|done| |by exists out].
    unfold remaining in Hst. rewrite Hph in Hst. cbn in Hst. rewrite app_nil_r in Hst. unfold closed in Hp. rewrite Hph, Hrem in Hp. cbn in Hp. rewrite Hc, Hrun in Hp.
    cbn in Hp. rewrite app_nil_r in Hp. by rewrite Hp, Hst.
  - intros e Hph. rewrite <- He by (by rewrite Hph). unfold remaining. by rewrite Hph.
  - destruct (snPhase n) as [|c|err] eqn:Hph; [right; exists VRead; cbn; rewrite Hph; by eexists| |left; by eexists]. right.
    destruct (snRunning n) as [|req rest] eqn:Hrun.
    + exists VDrained. cbn. rewrite Hph, Hrun. by eexists.
    + exists (VFinish 0 (ShimIO (λ _, None) (λ _, None) None None None None None "" None) (Err ECanceled)). cbn [sessionStep]. rewrite Hrun. cbn [lookup list_lookup].
      destruct (forward _ _ _ _ _) as [[[r s'] fs'] evs]. by eexists.
  - unfold sessionLeft. intros ev n' Hs. destruct ev as [|i io sent|]; cbn [sessionStep] in Hs.
    + destruct (snPhase n) eqn:Hph; try done. injection Hs as <-. unfold sessionRead. destruct (snInput n) as [|[req body] rest]; cbn.
      * destruct (snLast n); cbn; lia.
      * destruct (readBody _ _); cbn; [|lia]. destruct (bool_decide _); cbn; rewrite ?length_app; cbn; lia.
    + destruct (snRunning n !! i) as [req|] eqn:Hi; [|done]. destruct (forward _ _ _ _ _) as [[[r s'] fs'] evs]. injection Hs as <-. cbn.
      rewrite length_delete by (by eexists). assert (i < length (snRunning n))%nat by (by eapply lookup_lt_Some). lia.
    + destruct (snPhase n) as [|c|] eqn:Hph; try done. destruct (snRunning n); [|done]. injection Hs as <-. cbn. lia.
Qed.
End session.

(** ** An example: a lookup and the close request *)

#[local] Existing Instance testRuntime.
#[local] Instance exampleGoTool : GoTool := λ _, Err (EMsg "no build ID").

Definition exShimState : cacheShim := newCacheShim true [cacheProgGet] "/x".
Definition exInputs : list (cacheProgRequest * result string) :=
  [(CacheRequest 7 cacheProgGet "action" "" "" 0, Ok ""); (CacheRequest 8 cacheProgClose "" "" "" 0, Ok "")].
Definition exShimIO : shimIO := ShimIO (λ _, None) (λ _, None) None None None None None "" None.

Definition sessionEvents (n : session) (evs : list sessionEvent) : option session :=
  foldl (λ n ev, n ≫= λ n, sessionStep n ev) (Some n) evs.

Lemma sessionEvents_reachable n0 evs : ∀ n n', session_reachable n0 n → sessionEvents n evs = Some n' → session_reachable n0 n'.
Proof.
  unfold sessionEvents. induction evs as [|ev evs IH]; intros n n' Hn; simpl; [by intros [= <-]|].
  destruct (sessionStep n ev) as [n1|] eqn:E; [|intros Hx; exfalso; clear -Hx; by induction evs]. apply IH. by eapply session_step.
Qed.

Definition exSessionEvents : list sessionEvent := [VRead; VRead; VFinish 0 exShimIO (Ok missResponse); VDrained].
Definition exSession : session :=
  default (startSession exShimState ∅ exInputs None) (sessionEvents (startSession exShimState ∅ exInputs None) exSessionEvents).

Example exSession_ids : cpID <$> snOut exSession = [0; 7; 8].
Proof. vm_compute. reflexivity. Qed.

Lemma exSession_reachable : session_reachable (startSession exShimState ∅ exInputs None) exSession.
Proof.
  apply (sessionEvents_reachable _ exSessionEvents (startSession exShimState ∅ exInputs None)); [constructor|vm_compute; reflexivity].
Qed.

Lemma session_answers_witness : ∃ c, Ok (Some 8) = Ok c ∧ snRunning exSession = [] ∧ cpID <$> snOut exSession ≡ₚ [0; 7] ++ option_list c.
Proof.
  destruct (proj1 (session_answers exShimState ∅ exInputs None exSession exSession_reachable) ltac:(vm_compute; reflexivity)) as (c & H1 & H2 & H3 & _).
  exists c. exact (conj H1 (conj H2 H3)).
Defined.
