(* ===== verification/ShimLife.v ===== *)
(** * Starting and closing the cache shim (cacheprog.go)

    What the shim holds of the system while it works: the process of the cache
    program, a listener and a temporary directory.  Starting it can fail at every
    call; what was acquired before is given back. *)

From Stdlib Require Import Ascii.
From S2P Require Import Prelude GoStrings Flags Path Profile Utf8 Invocation GoFmt Args Sha256 Quote CappedBuffer HistoryTypes TestCache Disk ResultCache Server CacheTypes LocalCache CacheClient CacheShim Discover ShimSession.

(** ** Endpoints *)

Inductive network := Unix | TCP.

(** What [dialCacheEndpoint] dials. *)
Definition dialCacheEndpoint (endpoint : string) : network * string :=
  match CutPrefix endpoint "tcp:" with
  | Some address => (TCP, address)
  | None => (Unix, endpoint)
  end.

(** ** The cache program *)

(** The environment of the cache program. *)
Definition cacheProgEnv (environ extra : list string) : list string :=
  envWithout environ ["GOCACHEPROG"; cacheShimSocketEnv; localCacheDirEnv; stockGoCacheDirEnv] ++ extra.

(** What the system answers when the program is started, and what it declares. *)
Record procFaults := ProcFaults {
  pfPipe : option error;
  pfStart : option error;
  pfHello : result cacheProgResponse
}.

(** [startCacheProgClient], and whether the process runs afterwards: when its
    declaration is not accepted, it is waited for. *)
Definition startProgram (command : string) (pf : procFaults) : result cacheProgClient * bool :=
  match splitQuoted command with
  | Some (Some []) => (Err (EMsg "empty GOCACHEPROG"), false)
  | Some (Some _) =>
      match pfPipe pf, pfStart pf with
      | Some e, _ | None, Some e => (Err e, false)
      | None, None =>
          match startCacheProgClient (pfHello pf) with
          | Err e => (Err e, false)
          | Ok c => (Ok c, true)
          end
      end
  | _ => (Err (EWrap "parsing GOCACHEPROG: " (EMsg "unterminated string")), false)
  end.

(** [cacheProgClient.close]: the answer to the close request, if the program knows
    it, and how the process ends. *)
Definition closeProgram (can : list string) (sendErr waitErr : option error) : option error :=
  let retErr := if bool_decide (cacheProgClose ∈ can) then sendErr else None in
  match retErr with Some e => Some e | None => waitErr end.

(** ** The shim *)

(** What is held: the process, the listener with its address, and a directory. *)
Record resources := Resources {
  rsProcess : bool;
  rsListener : option (network * string);
  rsDir : option string
}.

Definition nothing : resources := Resources false None None.

Record shimHandle := ShimHandle {
  shState : cacheShim;
  shEndpoint : string;
  shSocket : string;
  shSocketDir : string
}.

(** What the system answers to the calls that start a shim. *)
Record shimFaults := ShimFaults {
  sfProc : procFaults;
  sfTempDir : result string;  (** [os.MkdirTemp] *)
  sfListen : result string;   (** [net.Listen], with the address it got *)
  sfMkdir : option error
}.

Definition startCacheShim (command socket : string) (direct : bool) (ff : shimFaults) : result shimHandle * resources :=
  match startProgram command (sfProc ff) with
  | (Err e, running) => (Err e, Resources running None None)
  | (Ok c, _) =>
      match sfListen ff with
      | Err e => (Err e, nothing) (** [downstream.close] *)
      | Ok _ =>
          match sfMkdir ff with
          | Some e => (Err e, nothing)
          | None => (Ok (ShimHandle (newCacheShim direct (can c) (PathJoin [Dir socket; "cache-executables"])) socket socket ""),
                     Resources true (Some (Unix, socket)) None)
          end
      end
  end.

Definition startRunCacheShim (windows : bool) (command : string) (direct : bool) (ff : shimFaults) : result shimHandle * resources :=
  if windows then
    match startProgram command (sfProc ff) with
    | (Err e, running) => (Err e, Resources running None None)
    | (Ok c, _) =>
        match sfListen ff with
        | Err e => (Err e, nothing)
        | Ok addr =>
            match sfTempDir ff with
            | Err e => (Err e, nothing)
            | Ok dir => (Ok (ShimHandle (newCacheShim direct (can c) dir) ("tcp:" +:+ addr) "" dir), Resources true (Some (TCP, addr)) (Some dir))
            end
        end
    end
  else
    match sfTempDir ff with
    | Err e => (Err e, nothing)
    | Ok dir =>
        match startCacheShim command (PathJoin [dir; "cache.sock"]) direct ff with
        | (Err e, rs) => (Err e, rs) (** [os.RemoveAll] of the directory *)
        | (Ok h, rs) => (Ok (ShimHandle (shState h) (shEndpoint h) (shSocket h) dir), Resources (rsProcess rs) (rsListener rs) (Some dir))
        end
    end.

(** [cacheShim.close], after the connections have ended: its error, and what is
    still held. *)
Definition closeShim (h : shimHandle) (rs : resources) (sendErr waitErr : option error) : option error * resources :=
  (closeProgram (downCan (shState h)) sendErr waitErr,
   Resources false None (if bool_decide (shSocketDir h = "") then rsDir rs else match rsDir rs with Some d => if bool_decide (d = shSocketDir h) then None else Some d | None => None end)).

(** ** Nothing is leaked *)

Lemma PathJoin_rooted dir name : HasPrefix dir "/" = true → name ≠ "" → HasPrefix (PathJoin [dir; name]) "/" = true.
Proof.
  intros Hd Hn. assert (Hne : dir ≠ "") by (by intros ->). unfold PathJoin. rewrite !filter_cons_True by done. rewrite filter_nil.
  apply HasPrefix_true in Hd as [r ->]. unfold Clean.
  assert (IsAbs (Join ["/" +:+ r; name] slashS) = true) as -> by (apply HasPrefix_true; cbn [Join]; rewrite append_assoc; by eexists).
  cbn [of_elems]. apply HasPrefix_append.
Qed.


(** ** An example *)

Definition exFaults : shimFaults :=
  ShimFaults (ProcFaults None None (Ok (zeroResponse <| KnownCommands := [cacheProgGet] |>))) (Ok "/tmp/s") (Ok "") None.

Lemma exFaults_rooted dir : sfTempDir exFaults = Ok dir → HasPrefix dir "/" = true.
Proof. intros [= <-]. reflexivity. Qed.

