(* ===== verification/CommandLine.v ===== *)
(** * The command line (gotst.go: the flag variables and [flag.Parse])

    Every flag variable of the program with its default, and package flag's
    parsing of the arguments as [main] uses it: flags up to the first argument
    that is none, or up to [--].  [strconv.ParseInt] and [time.ParseDuration]
    are parameters; a failed parse ends the process with the usage text. *)

From Stdlib Require Import Ascii.
From S2P Require Import Prelude GoStrings GoFmt Flags.

(** The flag variables; [Flags.flags] has those that a run works with. *)
Record commandLine := CommandLine {
  clFlags : flags;
  flagListen : string;
  configFile : string;
  extraSleep : Duration;
  clTags : string;
  raceFlag : bool;
  clCacheRoot : string;
  helperName : string
}.

#[export] Instance eta_commandLine : Eta commandLine := λ c,
  CommandLine (clFlags c) (flagListen c) (configFile c) (extraSleep c) (clTags c) (raceFlag c) (clCacheRoot c) (helperName c).

(** The defaults, where the machine has [numCPU] processors. *)
Definition defaultCommandLine (numCPU : Z) : commandLine :=
  CommandLine (defaultFlags numCPU) "127.0.0.1:5525" "" 0 "" false "" "".

(** ** The declared flags *)

(** What setting a flag does, by the type of its variable. *)
Inductive flagVar :=
  | BoolVar (set : bool → commandLine → commandLine)
  | IntVar (set : Z → commandLine → commandLine)
  | DurationVar (set : Duration → commandLine → commandLine)
  | StringVar (set : string → commandLine → commandLine).

Definition onFlags (g : flags → flags) (c : commandLine) : commandLine := c <| clFlags ::= g |>.

Definition formal : list (string * flagVar) := [
  ("listen", StringVar (λ v c, c <| flagListen := v |>));
  ("config", StringVar (λ v c, c <| configFile := v |>));
  ("extra-sleep", DurationVar (λ v c, c <| extraSleep := v |>));
  ("tags", StringVar (λ v c, c <| clTags := v |>));
  ("race", BoolVar (λ v c, c <| raceFlag := v |>));
  ("vlog", BoolVar (λ v, onFlags (λ f, f <| verbose := v |>)));
  ("j", IntVar (λ v, onFlags (λ f, f <| jobs := v |>)));
  ("max-output", IntVar (λ v, onFlags (λ f, f <| maxOutput := v |>)));
  ("cache", BoolVar (λ v, onFlags (λ f, f <| useCache := v |>)));
  ("cache-dir", StringVar (λ v c, c <| clCacheRoot := v |>));
  ("progress", DurationVar (λ v, onFlags (λ f, f <| progressEvery := v |>)));
  ("failfast", BoolVar (λ v, onFlags (λ f, f <| failFast := v |>)));
  ("count", IntVar (λ v, onFlags (λ f, f <| testCount := v |>)));
  ("max-retries", IntVar (λ v, onFlags (λ f, f <| maxRetries := v |>)));
  ("build-only", BoolVar (λ v, onFlags (λ f, f <| buildOnly := v |>)));
  ("debug-uncached", BoolVar (λ v, onFlags (λ f, f <| debugUncached := v |>)));
  ("json-summary", BoolVar (λ v, onFlags (λ f, f <| jsonSummary := v |>)));
  ("history", StringVar (λ v, onFlags (λ f, f <| historyConfig := v |>)));
  ("dist", BoolVar (λ v, onFlags (λ f, f <| distributed := v |>)));
  ("dist-key", StringVar (λ v, onFlags (λ f, f <| distKey := v |>)));
  ("helper", StringVar (λ v, onFlags (λ f, f <| helperAddr := v |>)));
  ("helper-name", StringVar (λ v c, c <| helperName := v |>))
].

Definition lookupFlag (name : string) : option flagVar :=
  snd <$> find (λ nv, bool_decide (nv.1 = name)) formal.

(** [strconv.ParseBool]. *)
Definition ParseBool (s : string) : option bool :=
  if bool_decide (s ∈ ["1"; "t"; "T"; "TRUE"; "true"; "True"]) then Some true
  else if bool_decide (s ∈ ["0"; "f"; "F"; "FALSE"; "false"; "False"]) then Some false
  else None.

(** ** Parsing *)

Inductive flagToken :=
  | NotFlag
  | Terminator
  | BadSyntax
  | Token (name : string) (value : option string).

(** How the next argument reads: whether it is a flag, and its name and value. *)
Definition tokenOf (s : string) : flagToken :=
  match s with
  | String "-" (String c rest) =>
      if Ascii.eqb c "-" && bool_decide (rest = "") then Terminator
      else
        let name := if Ascii.eqb c "-" then rest else String c rest in
        if bool_decide (name = "") || HasPrefix name "-" || HasPrefix name "=" then BadSyntax
        else match Cut name "="%char with
             | Some (name, value) => Token name (Some value)
             | None => Token name None
             end
  | _ => NotFlag
  end.

Inductive flagError :=
  | ErrHelp
  | ErrSyntax (arg : string)
  | ErrUndefined (name : string)
  | ErrNeedsArgument (name : string)
  | ErrInvalidValue (name value : string).

(** The variables, the names that were set ([flag.Visit]), and the arguments left. *)
Record parseState := ParseState {
  psLine : commandLine;
  psActual : gset string
}.

Section parse.
Variable ParseInt : string → option Z.
Variable ParseDuration : string → option Duration.

(** [Value.Set]. *)
Definition setVar (v : flagVar) (value : string) : option (commandLine → commandLine) :=
  match v with
  | BoolVar set => set <$> ParseBool value
  | IntVar set => set <$> ParseInt value
  | DurationVar set => set <$> ParseDuration value
  | StringVar set => Some (set value)
  end.

Definition setFlag (st : parseState) (name : string) (v : flagVar) (value : string) : flagError + parseState :=
  match setVar v value with
  | None => inl (ErrInvalidValue name value)
  | Some set => inr (ParseState (set (psLine st)) ({[ name ]} ∪ psActual st))
  end.

(** [flag.Parse]: the loop over [parseOne]. *)
Fixpoint parseFlags (st : parseState) (args : list string) : flagError + parseState * list string :=
  match args with
  | [] => inr (st, [])
  | s :: rest =>
      match tokenOf s with
      | NotFlag => inr (st, args)
      | Terminator => inr (st, rest)
      | BadSyntax => inl (ErrSyntax s)
      | Token name value =>
          match lookupFlag name with
          | None => inl (if bool_decide (name = "help") || bool_decide (name = "h") then ErrHelp else ErrUndefined name)
          | Some v =>
              match (match v with BoolVar _ => Some (default "true" value) | _ => value end) with
              | Some value =>
                  match setFlag st name v value with
                  | inl e => inl e
                  | inr st => parseFlags st rest
                  end
              | None =>
                  match rest with
                  | [] => inl (ErrNeedsArgument name)
                  | value :: rest =>
                      match setFlag st name v value with
                      | inl e => inl e
                      | inr st => parseFlags st rest
                      end
                  end
              end
          end
      end
  end.

(** The flags of the process, as [main] has them after [flag.Parse] and
    [flag.Visit], and [flag.Args]. *)
Definition parseCommandLine (numCPU : Z) (args : list string) : flagError + commandLine * list string :=
  match parseFlags (ParseState (defaultCommandLine numCPU) ∅) args with
  | inl e => inl e
  | inr (st, rest) =>
      inr (onFlags (λ f, f <| testCountSet := bool_decide ("count" ∈ psActual st) |>) (psLine st), rest)
  end.

(** ** Facts *)

Lemma lookupFlag_name name v :
  lookupFlag name = Some v → name ≠ "" ∧ HasPrefix name "-" = false ∧ ContainsByte name "="%char = false.
Proof using Type.
  unfold lookupFlag. destruct (find _ formal) as [[n w]|] eqn:E; [|done]. intros [= ->].
  apply find_some in E as [Hin Hn%bool_decide_eq_true]. simpl in Hn. subst n.
  assert (Hall : forallb (λ nv : string * flagVar, negb (bool_decide (nv.1 = "")) && negb (HasPrefix nv.1 "-") && negb (ContainsByte nv.1 "="%char)) formal = true)
    by reflexivity.
  rewrite forallb_forall in Hall. specialize (Hall _ Hin). simpl in Hall.
  apply andb_prop in Hall as [[H1%negb_true_iff H2%negb_true_iff]%andb_prop H3%negb_true_iff]. by apply bool_decide_eq_false in H1.
Qed.

Lemma HasPrefix_head c d s : HasPrefix (String c s) (String d "") = Ascii.eqb d c.
Proof using Type. unfold HasPrefix. cbn [CutPrefix]. by destruct (Ascii.eqb d c). Qed.

Lemma not_eqb (c d : ascii) : c ≠ d → Ascii.eqb c d = false.
Proof using Type. by destruct (Ascii.eqb_spec c d). Qed.

(** A flag of the program and its value in one argument. *)
Lemma tokenOf_assign name v value : lookupFlag name = Some v → tokenOf ("-" +:+ name +:+ "=" +:+ value) = Token name (Some value).
Proof using Type.
  intros (Hne & Hd & He)%lookupFlag_name. destruct name as [|c name]; [done|].
  rewrite HasPrefix_head in Hd. destruct (Ascii.eqb_spec "-" c) as [|Hc]; [done|].
  cbn [ContainsByte] in He. destruct (Ascii.eqb_spec c "=") as [|Hq]; [done|]. cbn [orb] in He.
  assert (Hcut : Cut (String c name +:+ "=" +:+ value) "="%char = Some (String c name, value)).
  { apply Cut_Some. split; [done|]. cbn [ContainsByte]. by rewrite not_eqb. }
  rewrite !append_cons, append_empty_l. cbn [tokenOf].
  rewrite (not_eqb c "-") by done. cbn [andb]. rewrite !HasPrefix_head, !not_eqb, bool_decide_eq_false_2 by done. cbn [orb].
  match goal with |- context [Cut ?x _] => change x with (String c name +:+ "=" +:+ value) end. by rewrite Hcut.
Qed.
(** The arguments that set flags one after the other. *)
Definition assignments (settings : list (string * string)) : list string :=
  (λ nv, "-" +:+ nv.1 +:+ "=" +:+ nv.2) <$> settings.

(** What the settings make of the variables. *)
Fixpoint applySettings (st : parseState) (settings : list (string * string)) : option parseState :=
  match settings with
  | [] => Some st
  | (name, value) :: settings =>
      match lookupFlag name with
      | None => None
      | Some v => match setFlag st name v value with inl _ => None | inr st => applySettings st settings end
      end
  end.

(** settings written as arguments are read back: flags with their values, in
    any order and number, then [--] and the arguments, give the variables set in
    that order and the arguments as they were, whatever they look like. *)
Theorem parseFlags_roundtrip settings args : ∀ st st',
  applySettings st settings = Some st' → parseFlags st (assignments settings ++ "--" :: args) = inr (st', args).
Proof using Type.
  induction settings as [|[name value] settings IH]; intros st st'; [by intros [= ->]|].
  cbn [applySettings]. destruct (lookupFlag name) as [v|] eqn:Hv; [|done]. destruct (setFlag st name v value) as [e|st1] eqn:Hs; [done|].
  intros H%IH. unfold assignments. rewrite fmap_cons. cbn [app parseFlags fst snd]. rewrite (tokenOf_assign name v value) by done. rewrite Hv.
  assert (match v with BoolVar _ => Some (default "true" (Some value)) | _ => Some value end = Some value) as -> by (by destruct v).
  by rewrite Hs.
Qed.
End parse.

Lemma parseFlags_roundtrip_witness :
  let parse := parseFlags (λ s, if bool_decide (s = "7") then Some 7 else None) (λ _, None) in
  ∃ st, parse (ParseState (defaultCommandLine 8) ∅) ["-count=7"; "-race=true"; "-history="; "--"; "-race"] = inr (st, ["-race"]) ∧
    testCount (clFlags (psLine st)) = 7 ∧ raceFlag (psLine st) = true ∧ historyConfig (clFlags (psLine st)) = "".
Proof.
  intros parse. eexists. split; [|split_and!].
  - apply (parseFlags_roundtrip (λ s, if bool_decide (s = "7") then Some 7 else None) (λ _, None)
      [("count", "7"); ("race", "true"); ("history", "")] ["-race"]). reflexivity.
  - reflexivity.
  - reflexivity.
  - reflexivity.
Defined.
