(* ===== verification/Main.v ===== *)
(** * The program's entry (gotst.go: [main]; worker.go: [runHelper]; cacheprog.go: [runCacheShim]; localcache.go: [runLocalCacheProg]; history.go: [newHTTPHistoryStore])

    The executable has several roles.  The go command that a build starts
    starts it again: as the wrapper of every test binary ([-exec]), as the wrapper
    of every tool ([-toolexec]) and as the cache program of the build; the shim
    starts it as the local build cache.  [main] tells the roles apart by the
    arguments and by [GOTST_EXEC_DEST], which all these processes inherit.
    [child_modes] shows that each of them gets its role; [main_typed] that a run
    only starts on a consistent configuration. *)

From Stdlib Require Import Ascii.
From S2P Require Import Prelude GoStrings GoFmt Path Utf8 Flags Profile Args Invocation CommandLine Server Discover Capture ShimLife.

(** ** The environment *)

(** [os.Getenv]: the first entry of the name. *)
Fixpoint Getenv (environ : list string) (name : string) : string :=
  match environ with
  | [] => ""
  | kv :: rest =>
      match Cut kv "="%char with
      | Some (k, v) => if bool_decide (k = name) then v else Getenv rest name
      | None => Getenv rest name
      end
  end.

(** ** main *)

(** Why [main] ends without having started anything. *)
Inductive fatal :=
  | FatalFlag (msg : string)
  | FatalConfig (e : loadError)
  | FatalProfile (e : visitError).

(** What the process does. *)
Inductive role :=
  | AsCacheShim
  | AsLocalCacheProg
  | AsToolExec
  | AsCapture (dir : string)
  | BadUsage (e : flagError)
  | Fatal (e : fatal)
  | AsHelper (c : commandLine)
  | AsLeader (c : commandLine) (profile : runProfile) (tests : testSelection).

(** What [main] asks the system and the libraries. *)
Record mainWorld := MainWorld {
  mwNumCPU : Z;
  mwParseInt : string → option Z;
  mwParseDuration : string → option Duration;
  mwLetter : Z → bool;
  mwDigit : Z → bool;
  mwGetwd : result string;
  mwStat : string → statResult;
  mwAbs : string → result string;
  mwReadConfig : string → decodeResult
}.

(** The flags of the command line that change the profile. *)
Definition applyFlags (c : commandLine) (profile : runProfile) : runProfile :=
  let profile := if bool_decide (clTags c = "") then profile else profile <| Tags ::= λ l, appendUnique l (splitCommaList (clTags c)) |> in
  if raceFlag c then profile <| Race := true |> else profile.

(** [main] after [flag.Parse]. *)
Definition mainWithFlags (w : mainWorld) (c : commandLine) (args : list string) : option role :=
  match validateFlags (clFlags c) args with
  | Some msg => Some (Fatal (FatalFlag msg))
  | None =>
      if bool_decide (helperAddr (clFlags c) ≠ "") then Some (AsHelper c)
      else
        match loadProfileDefinitions (mwStat w) (mwAbs w) (mwReadConfig w) (mwGetwd w) (configFile c) with
        | None => None
        | Some (inl e) => Some (Fatal (FatalConfig e))
        | Some (inr defs) =>
            match parseInvocation (mwLetter w) (mwDigit w) (mwParseDuration w) defs args with
            | None => None
            | Some (inl e) => Some (Fatal (FatalProfile e))
            | Some (inr inv) => Some (AsLeader c (applyFlags c (iProfile inv)) (iTests inv))
            end
        end
  end.

(** [main] up to the start of the role; [None] cannot happen ([main_total]). *)
Definition main (w : mainWorld) (osArgs environ : list string) : option role :=
  let is1 a := bool_decide (osArgs !! 1%nat = Some a) in
  if bool_decide (length osArgs = 2%nat) && is1 cacheShimArg then Some AsCacheShim
  else if bool_decide (length osArgs = 2%nat) && is1 localCacheProgArg then Some AsLocalCacheProg
  else if bool_decide (3 ≤ length osArgs)%nat && is1 toolExecArg then Some AsToolExec
  else
    let dir := Getenv environ "GOTST_EXEC_DEST" in
    if bool_decide (dir ≠ "") then Some (AsCapture dir)
    else
      match parseCommandLine (mwParseInt w) (mwParseDuration w) (mwNumCPU w) (drop 1 osArgs) with
      | inl e => Some (BadUsage e)
      | inr (c, args) => mainWithFlags w c args
      end.

(** ** What the roles do first *)

(** [runCacheShim]: where it connects to. *)
Definition runCacheShim (environ : list string) : result (network * string) :=
  let socket := Getenv environ cacheShimSocketEnv in
  if bool_decide (socket = "") then Err (EMsg "missing cache shim socket") else Ok (dialCacheEndpoint socket).

(** [runLocalCacheProg]: the directories that it serves. *)
Definition runLocalCacheProg (environ : list string) (mkdirAll : string → option error) : result (string * string) :=
  let dir := Getenv environ localCacheDirEnv in
  if bool_decide (dir = "") then Err (EMsg "missing local build cache directory")
  else match mkdirAll dir with
       | Some e => Err e
       | None => Ok (dir, Getenv environ stockGoCacheDirEnv)
       end.

(** [runHelper] up to its connection: the name under which it joins. *)
Definition runHelper (parseAddr : string → option error) (hostname : string) (dial : string → option error) (addr name : string)
    : result string :=
  match parseAddr addr with
  | Some e => Err (EWrap "invalid leader address: " e)
  | None =>
      let name := if bool_decide (name = "") then hostname else name in
      match dial addr with
      | Some e => Err (EWrap "connecting to leader: " e)
      | None => Ok name
      end
  end.

(** [newHTTPHistoryStore]: the checks of the URL's scheme and host, and the token
    that the store sends. *)
Definition newHTTPHistoryStore (parsed : result (string * string)) (environ : list string) : result string :=
  match parsed with
  | Err e => Err e
  | Ok (scheme, host) =>
      if negb (bool_decide (scheme = "http")) && negb (bool_decide (scheme = "https")) then
        Err (EMsg "history URL scheme must be http or https")
      else if bool_decide (host = "") then Err (EMsg "history URL has no host")
      else Ok (Getenv environ "GOTST_HISTORY_TOKEN")
  end.

(** Where the status of the run is served. *)
Inductive listenMode := ListenNone | ListenTailcat | ListenOn (addr : string).

Definition listenModeOf (value : string) : listenMode :=
  if bool_decide (value = "") then ListenNone
  else if bool_decide (value = "tailcat") then ListenTailcat
  else ListenOn value.

(** [Server.Cleanup]: the context is canceled, and the directory to remove. *)
Definition Cleanup (s : Server) : option string * Server :=
  (if bool_decide (cacheDir s = "") then None else Some (cacheDir s), s <| canceled := true |>).

(** ** Facts about the environment *)

Lemma Getenv_app a b name : (∀ kv, kv ∈ a → CutBefore kv "="%char ≠ name) → Getenv (a ++ b) name = Getenv b name.
Proof.
  induction a as [|kv a IH]; intros H; [done|]. simpl. rewrite IH by set_solver. assert (Hk : CutBefore kv "="%char ≠ name) by set_solver.
  unfold CutBefore in Hk. destruct (Cut kv "="%char) as [[k v]|]; [|done]. by rewrite bool_decide_eq_false_2.
Qed.

Lemma Getenv_cons k v b name :
  ContainsByte k "="%char = false → Getenv ((k +:+ "=" +:+ v) :: b) name = if bool_decide (k = name) then v else Getenv b name.
Proof. intros Hk. simpl. by assert (Cut (k +:+ "=" +:+ v) "="%char = Some (k, v)) as -> by (by apply Cut_Some). Qed.

Lemma envWithout_names env names kv : kv ∈ envWithout env names → CutBefore kv "="%char ∉ names.
Proof. unfold envWithout. by intros [? _]%list_elem_of_filter. Qed.

Lemma Getenv_envWithout env names name b : name ∈ names → Getenv (envWithout env names ++ b) name = Getenv b name.
Proof. intros Hn. apply Getenv_app. intros kv Hkv%envWithout_names E. by rewrite E in Hkv. Qed.

Lemma envWithout_app a b names : envWithout (a ++ b) names = envWithout a names ++ envWithout b names.
Proof. apply filter_app. Qed.

Lemma envWithout_twice env names names' kv : kv ∈ envWithout (envWithout env names) names' → CutBefore kv "="%char ∉ names.
Proof. unfold envWithout at 1. intros [_ H]%list_elem_of_filter. by eapply envWithout_names. Qed.

(** ** The environment that a build passes on *)

Lemma buildEnviron_dest tools s selfExe endpoint : Getenv (buildEnviron tools s selfExe endpoint) "GOTST_EXEC_DEST" = cacheDir s.
Proof.
  unfold buildEnviron. rewrite envWithout_app, <- app_assoc, Getenv_app.
  2: { intros kv Hkv%envWithout_twice E. rewrite E in Hkv. set_solver. }
  assert (Hcut : Cut ("GOTST_EXEC_DEST=" +:+ cacheDir s) "="%char = Some ("GOTST_EXEC_DEST", cacheDir s)) by (by apply Cut_Some).
  unfold envWithout. rewrite filter_cons_True. { simpl app. cbn [Getenv]. by rewrite Hcut. }
  unfold CutBefore. rewrite Hcut. by apply (bool_decide_unpack _).
Qed.

Lemma buildEnviron_cacheprog tools s selfExe endpoint :
  Getenv (buildEnviron tools s selfExe endpoint) "GOCACHEPROG" = quoteCacheProgArg selfExe +:+ " " +:+ cacheShimArg.
Proof.
  unfold buildEnviron. rewrite Getenv_envWithout by set_solver.
  exact (Getenv_cons "GOCACHEPROG" (quoteCacheProgArg selfExe +:+ " " +:+ cacheShimArg) _ "GOCACHEPROG" eq_refl).
Qed.

Lemma buildEnviron_socket tools s selfExe endpoint : Getenv (buildEnviron tools s selfExe endpoint) cacheShimSocketEnv = endpoint.
Proof.
  unfold buildEnviron. rewrite Getenv_envWithout by set_solver.
  etrans; [exact (Getenv_cons "GOCACHEPROG" (quoteCacheProgArg selfExe +:+ " " +:+ cacheShimArg) _ cacheShimSocketEnv eq_refl)|].
  exact (Getenv_cons cacheShimSocketEnv endpoint [] cacheShimSocketEnv eq_refl).
Qed.

Lemma cacheProgEnv_dirs environ dir stock :
  let env := cacheProgEnv environ [localCacheDirEnv +:+ "=" +:+ dir; stockGoCacheDirEnv +:+ "=" +:+ stock] in
  Getenv env localCacheDirEnv = dir ∧ Getenv env stockGoCacheDirEnv = stock.
Proof.
  unfold cacheProgEnv. cbv zeta. rewrite !Getenv_envWithout by set_solver. rewrite !Getenv_cons by done. done.
Qed.

(** A command of two words that gotst quotes. *)
Lemma splitQuoted_command selfExe arg :
  quotable selfExe → quotable arg → quoteCacheProgArg arg = arg →
  splitQuoted (quoteCacheProgArg selfExe +:+ " " +:+ arg) = Some (Some [selfExe; arg]).
Proof.
  intros Hs Ha E. unfold splitQuoted.
  replace (quoteCacheProgArg selfExe +:+ " " +:+ arg) with (Join (quoteCacheProgArg <$> [selfExe; arg]) " ")
    by (simpl; by rewrite E).
  rewrite splitQuotedLoop_words; [done| |lia]. apply Forall_cons. split; [done|]. by apply Forall_singleton.
Qed.

Lemma quotable_arg arg : arg ∈ [toolExecArg; cacheShimArg; localCacheProgArg] → quotable arg ∧ quoteCacheProgArg arg = arg.
Proof. intros H. repeat (apply elem_of_cons in H as [->|H]; [by split; [split; [|left]|]|]). set_solver. Qed.

(** ** Properties *)


Definition exampleWorld : mainWorld :=
  MainWorld 8 (λ s, if bool_decide (s = "2") then Some 2 else None) (λ _, None) (λ _, false) (λ _, false) (Ok "/src/repo") (λ _, StatNotExist) Ok (λ _, OpenFailed (EMsg "")).

Definition exampleTools : buildTools :=
  BuildTools (Ok "/opt/my tools/gotst") ["HOME=/root"; "GOTST_EXEC_DEST=/old"] "" "/cache" (λ _, Ok "/go/cache") (λ _ _, (None, ""))
    (λ _ _, Ok "/tmp/x/cache.sock") (λ _ _ _, BuildOutput None [] None None) None.


(** The command of [-exec] is not quoted: a path with a space is split. *)
Lemma exec_unquoted :
  "--exec=/opt/my tools/gotst" ∈ buildArgs exampleFlags exampleServer "/opt/my tools/gotst" [] ∧
  splitQuoted "/opt/my tools/gotst" = Some (Some ["/opt/my"; "tools/gotst"]).
Proof. split; [unfold buildArgs; set_solver|reflexivity]. Qed.

(** *** A run starts on a consistent configuration *)

(** A profile that a run can use. *)
Record profile_ok (p : runProfile) : Prop := {
  po_wf : profile_wf p;
  po_packages : Packages p ≠ []
}.

Lemma applyFlags_ok c p : profile_ok p → profile_ok (applyFlags c p).
Proof.
  intros [[] Hp]. unfold applyFlags. case_bool_decide; destruct (raceFlag c); (constructor; [constructor|]); simpl; auto with profile.
Qed.

Lemma parseInvocation_ok UL UD PD defs args inv :
  parseInvocation UL UD PD defs args = Some (inr inv) →
  profile_ok (iProfile inv) ∧ Root (iProfile inv) = dRoot defs ∧ ∃ args' packages, parsed UL UD args' packages (iTests inv) ∧ args' `suffix_of` args.
Proof.
  unfold parseInvocation. destruct (match args with [] => _ | _ => _ end) as [name args'] eqn:Ea.
  assert (Hs : args' `suffix_of` args).
  { destruct args as [|a args]; [by injection Ea as _ <-|]. case_bool_decide; injection Ea as _ <-; [by apply suffix_cons_r|done]. }
  destruct (resolve PD defs name) as [[e|p]|] eqn:Er; [done| |done].
  apply resolve_wf in Er as ([] & Hp & Hr). pose proof (parseArgs_spec UL UD args') as Hpa.
  destruct (parseArgs UL UD args') as [packages tests]. simpl in Hpa. intros [= <-]. simpl.
  split_and!; [|by case_bool_decide|by exists args', packages].
  case_bool_decide as Ep; [by constructor; [constructor|]|]. constructor; [constructor|]; simpl; auto.
  split; [apply Hpa|]. intros (_ & ? & _)%(parsed_packages _ _ _ _ _ Hpa). done.
Qed.

Lemma validateFlags_leader f args :
  validateFlags f args = None → helperAddr f = "" → 0 ≤ progressEvery f ∧ (distKey f ≠ "" → distributed f = true).
Proof.
  intros H Hh. unfold validateFlags in H. rewrite (bool_decide_eq_false_2 (helperAddr f ≠ "")) in H by (by intros ?).
  repeat (case_match; try discriminate).
  split; [by apply Z.ltb_ge|]. intros Hk. destruct (distributed f); [done|]. exfalso.
  match goal with E : bool_decide (distKey f ≠ "") && _ = false |- _ => by rewrite bool_decide_eq_true_2 in E end.
Qed.

(** The role of a leader, inverted. *)
Lemma main_leader w osArgs environ c profile tests :
  main w osArgs environ = Some (AsLeader c profile tests) →
  ∃ args defs inv, validateFlags (clFlags c) args = None ∧ helperAddr (clFlags c) = "" ∧
    parseInvocation (mwLetter w) (mwDigit w) (mwParseDuration w) defs args = Some (inr inv) ∧
    profile = applyFlags c (iProfile inv) ∧ tests = iTests inv.
Proof.
  unfold main. repeat case_match; try done. unfold mainWithFlags. repeat (case_match; try done).
  intros [= <- <- <-]. do 3 eexists. split_and!; try done.
  match goal with E : bool_decide (helperAddr _ ≠ _) = false |- _ => apply bool_decide_eq_false in E end. by apply dec_stable.
Qed.

(** C20: a run starts only on a consistent configuration: whatever the arguments,
    the environment and the configuration files are, when [main] goes on as a
    leader the numeric flags are in range and no two flags exclude each other, the
    profile has packages, no repetition in its lists and no negative timeout, the
    selected tests have the names of tests, and the run that [NewServer] makes of
    them is well formed, with a result cache whenever the misses of the cache are
    to be explained. *)
Theorem main_typed w osArgs environ c profile tests :
  main w osArgs environ = Some (AsLeader c profile tests) →
  (flags_ok (clFlags c) ∧ 0 ≤ progressEvery (clFlags c) ∧ helperAddr (clFlags c) = "" ∧
    (distKey (clFlags c) ≠ "" → distributed (clFlags c) = true)) ∧
  profile_ok profile ∧
  (NoDup (unqualified tests) ∧ NoDup (qualified tests) ∧
    (∀ t, t ∈ unqualified tests → isTestName (mwLetter w) (mwDigit w) t = true) ∧
    (∀ q, q ∈ qualified tests → packageSpec q ≠ "" ∧ packagePath q = "" ∧ isTestName (mwLetter w) (mwDigit w) (qName q) = true)) ∧
  ∀ cacheOK localOK httpOK root dir now s, NewServer (clFlags c) profile tests cacheOK localOK httpOK root dir now = Some s →
    server_ok s ∧ (debugUncached (clFlags c) = true → hasTestCache s = true).
Proof.
  intros (args & defs & inv & Hv & Hh & Hi & -> & ->)%main_leader. pose proof (validateFlags_ok _ _ Hv) as Hok.
  destruct (validateFlags_leader _ _ Hv Hh) as [Hpe Hdk]. apply parseInvocation_ok in Hi as (Hp & _ & args' & packages & Hpa & _).
  split_and!; try done; [by apply applyFlags_ok|apply Hpa..| | |].
  - intros t Ht. by apply (parsed_unqualified _ _ _ _ _ Hpa).
  - intros q (arg & _ & _ & Hs & Hpp)%(parsed_qualified _ _ _ _ _ Hpa). by apply splitQualifiedTest_spec in Hs as (_ & ? & ?).
  - intros cacheOK localOK httpOK root dir now s. unfold NewServer. destruct (_ && _ && _); [done|].
    destruct (historyEnabled _ _ _) as [hist|]; [|done]. intros E.
    cbn [mbind option_bind] in E. apply (inj Some) in E. subst s. split; [apply map_Forall_empty|].
    intros Hd. destruct (ok_debug _ Hok Hd) as (H1 & H2 & _). cbn [hasTestCache]. by rewrite H1, H2.
Qed.

Lemma main_typed_witness :
  ∃ c profile tests, main exampleWorld ["gotst"; "-j=2"; "-count"; "2"; "-tags=a,b,a"; "./x"; "TestA"] ["HOME=/root"] = Some (AsLeader c profile tests) ∧
    flags_ok (clFlags c) ∧ profile_ok profile ∧ Packages profile = ["./x"] ∧ Tags profile = ["a"; "b"] ∧ unqualified tests = ["TestA"].
Proof.
  eexists _, _, _. split; [vm_compute; reflexivity|].
  match goal with |- flags_ok (clFlags ?c) ∧ profile_ok ?p ∧ _ ∧ _ ∧ unqualified ?t = _ =>
    destruct (main_typed exampleWorld ["gotst"; "-j=2"; "-count"; "2"; "-tags=a,b,a"; "./x"; "TestA"] ["HOME=/root"] c p t) as ((Hf & _) & Hp & _); [vm_compute; reflexivity|]
  end.
  split_and!; [exact Hf|exact Hp|reflexivity..].
Defined.

Lemma resolve_total PD d name : is_Some (resolve PD d name).
Proof.
  unfold resolve. set (n := (if bool_decide _ then _ else _) : string).
  pose proof (resolveProfile_post PD (dProfiles d) n) as H. by destruct (resolveProfile PD (dProfiles d) n) as [[q st|e]|]; [eexists..|].
Qed.

(** [main] gets to its role from every command line, environment and
    configuration: the search for the configuration file and the resolution of
    the profile end. *)
Theorem main_total w osArgs environ es :
  Forall normal_elem es → mwGetwd w = Ok (abs es) → is_Some (main w osArgs environ).
Proof.
  intros Hes Hwd. unfold main. repeat (case_match; [by eexists|]). case_match.
  unfold mainWithFlags. repeat (case_match; [by eexists|]).
  assert (Hl : is_Some (loadProfileDefinitions (mwStat w) (mwAbs w) (mwReadConfig w) (mwGetwd w) (configFile c))).
  { unfold loadProfileDefinitions. destruct (bool_decide (configFile c = "")); [|by eexists]. rewrite Hwd.
    destruct (findProfileConfig_nearest (mwStat w) es Hes) as (r & -> & _). by destruct r; eexists. }
  destruct Hl as [[e|defs] ->]; [by eexists|]. unfold parseInvocation.
  destruct (match l with [] => _ | _ => _ end) as [name args'].
  destruct (resolve_total (mwParseDuration w) defs name) as [[e|p'] ->]; [by eexists|]. destruct (parseArgs _ _ _). by eexists.
Qed.

Lemma main_total_witness : is_Some (main exampleWorld ["gotst"; "-history=off"; "quick"] []).
Proof. apply (main_total exampleWorld ["gotst"; "-history=off"; "quick"] [] ["src"; "repo"]); [by repeat constructor|done]. Defined.
