(* ===== verification/Closing.v ===== *)
(** * Goroutines around a run (gotst.go: [Run]'s deferred steps, [awaitExecSem]; progress.go: [startProgressReporter]; web.go: [serveLiveWS], [flushFinalLiveStatus])

    Three small protocols between goroutines, each as a step function on its
    state: the reporter of progress lines and the deferred steps of [Run]; the
    semaphore that bounds the processes; the delivery of the last status page to
    the pages that are open. *)

From S2P Require Import Prelude GoStrings GoFmt Flags Utf8 Quote Args Server Fleet Progress Run.

(** ** The end of a run *)

(** The goroutine of [startProgressReporter]: in its select, between the snapshot
    and the print, or returned. *)
Inductive reporter := RIdle | RLine (text : string) | RGone.

Definition startProgressReporter (f : flags) : reporter := if progressEvery f =? 0 then RGone else RIdle.

(** Where [Run] is: in its phases, then in the steps of its deferred function. *)
Inductive runPc :=
  | Working | Stopping | Shutdown | SetPhase | FlushLive | Snapshot | PrintLine (text : string) | Reports | Ended.

#[export] Instance runPc_dec : EqDecision runPc.
Proof. solve_decision. Defined.

Record closing := Closing {
  cgServer : Server;
  cgReturned : option error;  (** [retErr] *)
  cgPc : runPc;
  cgReporter : reporter;
  cgDone : bool;              (** the channel [done] is closed *)
  cgOut : list string         (** the progress lines on standard output *)
}.

#[export] Instance eta_closing : Eta closing := λ c,
  Closing (cgServer c) (cgReturned c) (cgPc c) (cgReporter c) (cgDone c) (cgOut c).

Inductive closeEvent :=
  | XWork (s : Server)                                (** the run, or a connection of a helper beside it *)
  | XReturn (err : option error)                      (** its return: [close(done)] *)
  | XTick (workers : list fleetWorker) (now : Time)   (** the ticker: a snapshot *)
  | XTickPrint                                        (** the reporter prints it *)
  | XReporterEnds                                     (** the reporter sees [done] *)
  | XStopped                                          (** [<-finished] *)
  | XShutdown                                         (** [fleet.shutdown] returns *)
  | XPhase (now : Time)
  | XFlushed                                          (** [flushFinalLiveStatus] returns *)
  | XSnapshot (workers : list fleetWorker) (now : Time)
  | XPrint                                            (** [printProgress] *)
  | XReports.                                         (** the summaries and the history *)

Section closing.
Context `{FloatFormat} (f : flags).

Definition startClosing (s : Server) : closing := Closing s None Working (startProgressReporter f) false [].

Definition closeStep (c : closing) (ev : closeEvent) : option closing :=
  match ev, cgPc c with
  | XWork s, pc => if bool_decide (pc = Working) || bool_decide (phase s = phase (cgServer c)) then Some (c <| cgServer := s |>) else None
  | XReturn err, Working => Some (c <| cgReturned := err |> <| cgPc := Stopping |> <| cgDone := true |>)
  | XTick workers now, _ =>
      match cgReporter c with
      | RIdle => Some (c <| cgReporter := RLine (line (progressSnapshotOf f (cgServer c) workers now)) |>)
      | _ => None
      end
  | XTickPrint, _ =>
      match cgReporter c with
      | RLine text => Some (c <| cgReporter := RIdle |> <| cgOut ::= λ l, l ++ [text] |>)
      | _ => None
      end
  | XReporterEnds, _ =>
      match cgReporter c with
      | RIdle => if cgDone c then Some (c <| cgReporter := RGone |>) else None
      | _ => None
      end
  | XStopped, Stopping => match cgReporter c with RGone => Some (c <| cgPc := Shutdown |>) | _ => None end
  | XShutdown, Shutdown => Some (c <| cgPc := SetPhase |>)
  | XPhase now, SetPhase => Some (c <| cgServer := finishRun (cgServer c) (cgReturned c) now |> <| cgPc := FlushLive |>)
  | XFlushed, FlushLive => Some (c <| cgPc := Snapshot |>)
  | XSnapshot workers now, Snapshot =>
      Some (c <| cgPc := PrintLine (line (progressSnapshotOf f (cgServer c) workers now)) |>)
  | XPrint, PrintLine text => Some (c <| cgPc := Reports |> <| cgOut ::= λ l, l ++ [text] |>)
  | XReports, Reports => Some (c <| cgPc := Ended |>)
  | _, _ => None
  end.

Inductive close_reachable (s : Server) : closing → Prop :=
  | close_init : close_reachable s (startClosing s)
  | close_step c ev c' : close_reachable s c → closeStep c ev = Some c' → close_reachable s c'.

Definition last_phase (c : closing) (p : runPhase) : Prop := p = match cgReturned c with None => phaseDone | Some _ => phaseFailed end.

(** The line of the closed run. *)
Definition final_line (c : closing) (text : string) : Prop :=
  ∃ s workers now, text = line (progressSnapshotOf f s workers now) ∧ last_phase c (phase s).

(** After [stopProgress] the reporter is gone, and from the last phase on the
    server has it. *)
Definition closing_ok (c : closing) : Prop :=
  match cgPc c with
  | Working => cgDone c = false
  | Stopping => cgDone c = true
  | Shutdown | SetPhase => cgReporter c = RGone
  | FlushLive | Snapshot => cgReporter c = RGone ∧ last_phase c (phase (cgServer c))
  | PrintLine text => cgReporter c = RGone ∧ final_line c text
  | Reports | Ended => cgReporter c = RGone ∧ ∃ text, last (cgOut c) = Some text ∧ final_line c text
  end ∧ (progressEvery f = 0 → cgReporter c = RGone ∧ length (cgOut c) = match cgPc c with Reports | Ended => 1 | _ => 0 end%nat).

Lemma closing_ok_init s : closing_ok (startClosing s).
Proof using Type. split; [done|]. simpl. intros Hz. unfold startProgressReporter. by rewrite Hz. Qed.

Lemma closing_ok_step c ev c' : closing_ok c → closeStep c ev = Some c' → closing_ok c'.
Proof using Type.
  destruct c as [s ret pc rp dn out]. unfold closing_ok, final_line, last_phase. intros [H1 H2] Hs.
  destruct ev as [s'| | | | | | | | | | |], pc; cbn in H1, H2, Hs; try done;
    try (destruct (bool_decide_reflect (phase s' = phase s)) as [Hp|]; cbn in Hs);
    try (destruct rp; try done); try (destruct dn; try done); try discriminate;
    injection Hs as <-; cbn; try (destruct H1 as [? ?]; discriminate); try discriminate;
    (split; [|intros Hz; specialize (H2 Hz) as [? ?]; try discriminate; rewrite ?length_app; simpl; auto with lia]); try done.
  all: destruct H1 as [_ H1]; split; [done|]; rewrite ?last_snoc; first [congruence|by eauto 6].
Qed.

Lemma close_reachable_ok s c : close_reachable s c → closing_ok c.
Proof using Type. induction 1; [apply closing_ok_init|by eapply closing_ok_step]. Qed.

(** every run that ends has printed the line of its last phase, and printed it
    last: once [stopProgress] has returned the reporter prints nothing more,
    whatever the ticker did; with [-progress=0] it is the only line; and from the
    moment the work returns, some goroutine can go on until the run has ended. *)
Theorem run_closes s c :
  close_reachable s c →
  (cgPc c = Ended → ∃ ticks text, cgOut c = ticks ++ [text] ∧ final_line c text ∧ (progressEvery f = 0 → ticks = [])) ∧
  (cgPc c ≠ Working → cgPc c ≠ Ended → ∃ ev c', closeStep c ev = Some c' ∧ match ev with XWork _ | XTick _ _ => False | _ => True end).
Proof using Type.
  intros [Hok Hz]%close_reachable_ok. split.
  - intros E. rewrite E in Hok, Hz. destruct Hok as (_ & text & (ticks & Ht)%last_Some & Hf). rewrite Ht in *. exists ticks, text. split_and!; try done.
    intros Hp. destruct (Hz Hp) as [_ Hl]. rewrite length_app in Hl. simpl in Hl. apply nil_length_inv. lia.
  - intros Hw He. destruct c as [s' ret pc rp dn out]. cbn in *. destruct pc; try done.
    + subst dn. destruct rp; [exists XReporterEnds|exists XTickPrint|exists XStopped]; eexists; done.
    + by exists XShutdown; eexists.
    + by exists (XPhase 0); eexists.
    + by exists XFlushed; eexists.
    + by exists (XSnapshot [] 0); eexists.
    + by exists XPrint; eexists.
    + by exists XReports; eexists.
Qed.
End closing.

(** ** The semaphore of the processes *)

(** A goroutine that runs a process: it waits for a slot of [execSem], runs, and
    has returned, with the process run or with the error of the context. *)
Inductive slotUser := SWaiting | SRunning | SReturned (ran : bool).

Record semaphore := Semaphore {
  smHeld : nat;             (** the values in the channel *)
  smCanceled : bool;
  smUsers : list slotUser
}.

Inductive semEvent :=
  | SAcquire (i : nat)      (** [awaitExecSem] sends to the channel *)
  | SGiveUp (i : nat)       (** [awaitExecSem] sees that the context is done *)
  | SRelease (i : nat)      (** [releaseExecSem] *)
  | SCancel.

Section semaphore.
Context (f : flags).

Definition semStep (m : semaphore) (ev : semEvent) : option semaphore :=
  match ev with
  | SAcquire i =>
      match smUsers m !! i with
      | Some SWaiting =>
          if Z.of_nat (smHeld m) <? jobs f then Some (Semaphore (S (smHeld m)) (smCanceled m) (<[i := SRunning]> (smUsers m))) else None
      | _ => None
      end
  | SGiveUp i =>
      match smUsers m !! i with
      | Some SWaiting => if smCanceled m then Some (Semaphore (smHeld m) (smCanceled m) (<[i := SReturned false]> (smUsers m))) else None
      | _ => None
      end
  | SRelease i =>
      match smUsers m !! i, smHeld m with
      | Some SRunning, S held => Some (Semaphore held (smCanceled m) (<[i := SReturned true]> (smUsers m)))
      | _, _ => None
      end
  | SCancel => if smCanceled m then None else Some (Semaphore (smHeld m) true (smUsers m))
  end.

Inductive sem_reachable (n : nat) : semaphore → Prop :=
  | sem_init : sem_reachable n (Semaphore 0 false (replicate n SWaiting))
  | sem_step m ev m' : sem_reachable n m → semStep m ev = Some m' → sem_reachable n m'.

Definition isRunning (u : slotUser) : bool := match u with SRunning => true | _ => false end.

(** The processes that run. *)
Definition runningNow (m : semaphore) : nat := length (filter (λ u, isRunning u = true) (smUsers m)).

(** What is left to do. *)
Definition userLeft (u : slotUser) : nat := match u with SWaiting => 2 | SRunning => 1 | SReturned _ => 0 end.
Definition semLeft (m : semaphore) : nat := sum_list_with userLeft (smUsers m) + (if smCanceled m then 0 else 1).

Lemma filter_insert_length {A} (P : A → bool) (l : list A) i x y :
  l !! i = Some x →
  (length (filter (λ u, P u = true) (<[i := y]> l)) + (if P x then 1 else 0) = length (filter (λ u, P u = true) l) + (if P y then 1 else 0))%nat.
Proof using Type.
  revert i. induction l as [|z l IH]; intros [|i] Hi; try done; simpl in Hi |- *.
  - injection Hi as ->. rewrite !filter_cons. destruct (P x), (P y); simpl; repeat case_decide; try done; simpl; lia.
  - specialize (IH i Hi). rewrite !filter_cons. case_decide; simpl; lia.
Qed.

(** [releaseExecSem] never blocks, and the channel's capacity holds. *)
Definition sem_ok (m : semaphore) : Prop := smHeld m = runningNow m ∧ Z.of_nat (smHeld m) ≤ jobs f.

Lemma sem_ok_step m ev m' : sem_ok m → semStep m ev = Some m' → sem_ok m' ∧ (semLeft m' < semLeft m)%nat.
Proof using Type.
  destruct m as [held canceled users]. unfold sem_ok, runningNow, semLeft. cbn. intros [Hh Hj] Hs.
  destruct ev as [i|i|i|]; cbn in Hs.
  - destruct (users !! i) as [[]|] eqn:Hu; try done. destruct (Z.ltb_spec (Z.of_nat held) (jobs f)); [|done]. injection Hs as <-. cbn.
    pose proof (filter_insert_length isRunning users i _ SRunning Hu). pose proof (sum_list_with_insert userLeft users i _ SRunning Hu). simpl in *. lia.
  - destruct (users !! i) as [[]|] eqn:Hu; try done. destruct canceled; [|done]. injection Hs as <-. cbn.
    pose proof (filter_insert_length isRunning users i _ (SReturned false) Hu). pose proof (sum_list_with_insert userLeft users i _ (SReturned false) Hu). simpl in *. lia.
  - destruct (users !! i) as [[]|] eqn:Hu; try done. destruct held as [|held]; [done|]. injection Hs as <-. cbn.
    pose proof (filter_insert_length isRunning users i _ (SReturned true) Hu). pose proof (sum_list_with_insert userLeft users i _ (SReturned true) Hu). simpl in *. lia.
  - destruct canceled; [done|]. injection Hs as <-. cbn. lia.
Qed.

Lemma sem_reachable_ok n m : 0 ≤ jobs f → sem_reachable n m → sem_ok m.
Proof using Type.
  intros Hj. induction 1 as [|m ev m' _ IH Hs]; [|by eapply sem_ok_step].
  split; [|cbn; lia]. unfold runningNow. cbn. induction n as [|n IH]; [done|]. by rewrite replicate_S, filter_cons.
Qed.

Lemma runningNow_pos m i : smUsers m !! i = Some SRunning → (0 < runningNow m)%nat.
Proof using Type.
  unfold runningNow. intros H%list_elem_of_lookup_2. assert (Hf : SRunning ∈ filter (λ u, isRunning u = true) (smUsers m)) by (by apply list_elem_of_filter).
  destruct (filter _ _); [by apply elem_of_nil in Hf|simpl; lia].
Qed.

(** at most [-j] processes run at a time; a goroutine gets its slot, runs and
    returns: every step brings the end nearer, and as long as one has not returned
    some step is possible, so that nobody waits for ever, whether the context is
    canceled or not. *)
Theorem execSem_bounds n m :
  flags_ok f → sem_reachable n m →
  Z.of_nat (runningNow m) ≤ jobs f ∧ (∀ ev m', semStep m ev = Some m' → (semLeft m' < semLeft m)%nat) ∧
  ((∀ i u, smUsers m !! i = Some u → ∃ ran, u = SReturned ran) ∨ ∃ i ev m', (ev = SAcquire i ∨ ev = SRelease i) ∧ semStep m ev = Some m').
Proof using Type.
  intros Hf Hr. pose proof (ok_jobs _ Hf) as Hj. apply sem_reachable_ok in Hr as Hok; [|lia]. destruct Hok as [Hh Hle]. split_and!; [lia| |].
  { intros ev m'. by apply sem_ok_step. }
  destruct (decide (Exists (λ u, isRunning u = true) (smUsers m))) as [(u & (i & Hi)%list_elem_of_lookup & Hu)%Exists_exists|Hnone].
  { destruct u; try done. right. exists i, (SRelease i). pose proof (runningNow_pos _ _ Hi). cbn. rewrite Hi.
    destruct (smHeld m) as [|held] eqn:E; [lia|]. eexists. by split; [right|]. }
  apply not_Exists_Forall in Hnone; [|apply _]. rewrite Forall_lookup in Hnone.
  assert (Hz : smHeld m = 0%nat).
  { rewrite Hh. unfold runningNow. destruct (filter _ _) as [|u l] eqn:E; [done|]. assert (Hin : u ∈ filter (λ u, isRunning u = true) (smUsers m)) by (rewrite E; left).
    apply list_elem_of_filter in Hin as [Hu (i & Hi)%list_elem_of_lookup]. by destruct (Hnone i u Hi). }
  destruct (decide (Exists (λ u, userLeft u = 2%nat) (smUsers m))) as [(u & (i & Hi)%list_elem_of_lookup & Hu)%Exists_exists|Hret].
  { destruct u; try done. right. exists i, (SAcquire i). cbn. rewrite Hi, Hz. destruct (Z.ltb_spec (Z.of_nat 0) (jobs f)); [|lia]. eexists. by split; [left|]. }
  left. apply not_Exists_Forall in Hret; [|apply _]. rewrite Forall_lookup in Hret. intros i u Hi.
  specialize (Hnone i u Hi). specialize (Hret i u Hi). destruct u; [by destruct Hret|by destruct Hnone|by eexists].
Qed.
End semaphore.

(** ** The last status page *)

(** [serveLiveWS] registers the connection while [run] runs. *)
Definition liveJoin (webLive : gset nat) (c : nat) : gset nat := {[ c ]} ∪ webLive.
Definition liveLeave (webLive : gset nat) (c : nat) : gset nat := webLive ∖ {[ c ]}.

(** What matters of [liveClient.run]: in its select, pushing the final page, with
    the result of the push in the channel of the command, or returned
    ([close(c.done)]). *)
Inductive clientState := Selecting | Pushing | Pushed | Closed.

(** The goroutine of [flushFinalLiveStatus] for one client: in its first select,
    in its second, or returned. *)
Inductive waiter := WSend | WResult | WReturned.

Record delivery := Delivery {
  dlClient : clientState;
  dlResult : option bool;      (** the channel of the command: whether [push] succeeded *)
  dlWaiter : waiter
}.

Record flushing := Flushing {
  fsDeadline : bool;           (** two seconds have passed *)
  fsAll : list delivery
}.

(** The goroutines started; [None] when it returns at once. *)
Definition flushFinalLiveStatus (webLive : gset nat) (html : result string) : option flushing :=
  match elements webLive, html with
  | [], _ | _, Err _ => None
  | clients, Ok _ => Some (Flushing false ((λ _, Delivery Selecting None WSend) <$> clients))
  end.

Inductive flushEvent :=
  | FDeadline
  | FAccept (i : nat)            (** [c.cmd <- cmd] *)
  | FClientEnds (i : nat)        (** [run] returns for another reason *)
  | FPushed (i : nat) (ok : bool) (** [cmd.done <- err] *)
  | FClose (i : nat)             (** [run] returns after the command *)
  | FTakeResult (i : nat)
  | FSeeClosed (i : nat)
  | FGiveUp (i : nat).

Definition deliveryStep (deadline : bool) (d : delivery) (ev : flushEvent) : option delivery :=
  match ev, dlClient d, dlWaiter d with
  | FAccept _, Selecting, WSend => Some (Delivery Pushing None WResult)
  | FClientEnds _, Selecting, w => Some (Delivery Closed (dlResult d) w)
  | FPushed _ ok, Pushing, w => Some (Delivery Pushed (Some ok) w)
  | FClose _, Pushed, w => Some (Delivery Closed (dlResult d) w)
  | FTakeResult _, c, WResult => if bool_decide (is_Some (dlResult d)) then Some (Delivery c (dlResult d) WReturned) else None
  | FSeeClosed _, Closed, (WSend | WResult) => Some (Delivery Closed (dlResult d) WReturned)
  | FGiveUp _, c, (WSend | WResult) => if deadline then Some (Delivery c (dlResult d) WReturned) else None
  | _, _, _ => None
  end.

Definition eventClient (ev : flushEvent) : option nat :=
  match ev with
  | FDeadline => None
  | FAccept i | FClientEnds i | FPushed i _ | FClose i | FTakeResult i | FSeeClosed i | FGiveUp i => Some i
  end.

Definition flushStep (s : flushing) (ev : flushEvent) : option flushing :=
  match eventClient ev with
  | None => if fsDeadline s then None else Some (Flushing true (fsAll s))
  | Some i =>
      d ← fsAll s !! i; d' ← deliveryStep (fsDeadline s) d ev;
      Some (Flushing (fsDeadline s) (<[i := d']> (fsAll s)))
  end.

(** [wg.Wait] returns. *)
Definition flushed (s : flushing) : Prop := Forall (λ d, dlWaiter d = WReturned) (fsAll s).

Inductive flush_reachable (s0 : flushing) : flushing → Prop :=
  | flush_init : flush_reachable s0 s0
  | flush_step s ev s' : flush_reachable s0 s → flushStep s ev = Some s' → flush_reachable s0 s'.

Definition clientLeft (c : clientState) : nat := match c with Selecting => 3 | Pushing => 2 | Pushed => 1 | Closed => 0 end.
Definition waiterLeft (w : waiter) : nat := match w with WSend => 2 | WResult => 1 | WReturned => 0 end.
Definition deliveryLeft (d : delivery) : nat := clientLeft (dlClient d) + waiterLeft (dlWaiter d).
Definition flushLeft (s : flushing) : nat := sum_list_with deliveryLeft (fsAll s) + (if fsDeadline s then 0 else 1).

(** Before the deadline a goroutine returns only with the result or because the
    connection is closed. *)
Definition delivery_ok (deadline : bool) (d : delivery) : Prop :=
  (dlWaiter d = WReturned → deadline = true ∨ is_Some (dlResult d) ∨ dlClient d = Closed) ∧
  (dlWaiter d = WSend → dlClient d = Selecting ∨ dlClient d = Closed) ∧ (dlClient d = Pushed → is_Some (dlResult d)).

Lemma deliveryStep_spec deadline d ev d' :
  delivery_ok deadline d → deliveryStep deadline d ev = Some d' → delivery_ok deadline d' ∧ (deliveryLeft d' < deliveryLeft d)%nat.
Proof.
  destruct d as [c r w]. unfold delivery_ok, deliveryLeft. cbn. intros (H1 & H2 & H3) Hs.
  destruct ev, c, w; cbn in Hs; try done; try (case_bool_decide; [|done]); try (destruct deadline; [|done]); injection Hs as <-; cbn; (split; [split_and!; intros; try discriminate; auto|lia]).
  naive_solver.
Qed.

Definition flush_ok (s : flushing) : Prop := Forall (delivery_ok (fsDeadline s)) (fsAll s).

Lemma flushStep_spec s ev s' : flush_ok s → flushStep s ev = Some s' → flush_ok s' ∧ (flushLeft s' < flushLeft s)%nat.
Proof.
  destruct s as [dead l]. unfold flushStep, flush_ok, flushLeft. cbn. intros Hok. destruct (eventClient ev) as [i|].
  - destruct (l !! i) as [d|] eqn:Hd; [|done]. cbn. destruct (deliveryStep dead d ev) as [d'|] eqn:E; [|done]. cbn. intros [= <-]. cbn.
    rewrite Forall_lookup in Hok. destruct (deliveryStep_spec dead d ev d' (Hok i d Hd) E) as [Hok' Hl].
    pose proof (sum_list_with_insert deliveryLeft l i d d' Hd). split; [|lia]. apply Forall_insert; [by apply Forall_lookup|done].
  - destruct dead; [done|]. intros [= <-]. cbn. split; [|lia]. eapply Forall_impl; [exact Hok|]. intros d (H1 & H2 & H3). by split_and!; auto.
Qed.

Lemma flush_init_ok webLive html s : flushFinalLiveStatus webLive html = Some s → flush_ok s ∧ length (fsAll s) = size webLive.
Proof.
  unfold flushFinalLiveStatus. change (size webLive) with (length (elements webLive)). destruct (elements webLive) as [|c cs]; [done|]. destruct html; [|done]. intros [= <-].
  split; [|cbn; by rewrite length_fmap]. unfold flush_ok. cbn. apply Forall_cons. split; [by split_and!; auto|].
  apply Forall_fmap, Forall_true. intros ?. by split_and!; auto.
Qed.

(** the delivery of the last page ends: every step brings the end nearer; once
    two seconds have passed, every goroutine that has not returned can return,
    whatever its client does; and when all returned earlier, every page that was
    open has answered, or its connection is closed. *)
Theorem flush_returns webLive html s0 s :
  flushFinalLiveStatus webLive html = Some s0 → flush_reachable s0 s →
  (∀ ev s', flushStep s ev = Some s' → (flushLeft s' < flushLeft s)%nat) ∧
  (∀ i d, fsAll s !! i = Some d → fsDeadline s = true → dlWaiter d ≠ WReturned → is_Some (flushStep s (FGiveUp i))) ∧
  (flushed s → fsDeadline s = false → length (fsAll s) = size webLive ∧ Forall (λ d, is_Some (dlResult d) ∨ dlClient d = Closed) (fsAll s)).
Proof.
  intros [Hok0 Hlen]%flush_init_ok Hr. assert (Hok : flush_ok s ∧ length (fsAll s) = size webLive).
  { induction Hr as [|s ev s' _ [IH Hl] Hs]; [done|]. split; [by eapply flushStep_spec|]. revert Hs. unfold flushStep.
    destruct (eventClient ev) as [i|]; [|by destruct (fsDeadline s); [|intros [= <-]]]. destruct (fsAll s !! i); [|done]. cbn.
    destruct (deliveryStep _ _ _); [|done]. cbn. intros [= <-]. cbn. by rewrite length_insert. }
  destruct Hok as [Hok Hl]. split_and!.
  - intros ev s'. by apply flushStep_spec.
  - intros i [c r w] Hi Hd Hw. unfold flushStep. cbn. rewrite Hi. cbn. rewrite Hd. destruct w; [by destruct c; eexists..|done].
  - intros Hf Hd. split; [done|]. unfold flush_ok, flushed in *. rewrite Forall_forall in *. intros d Hin.
    destruct (Hok d Hin) as (H1 & _). destruct (H1 (Hf d Hin)) as [|?]; [congruence|done].
Qed.

(** ** Examples *)

Lemma flush_returns_witness :
  ∃ s0, flushFinalLiveStatus {[ 7%nat ]} (Ok "page") = Some s0 ∧
    Forall (λ d, is_Some (dlResult d) ∨ dlClient d = Closed) (fsAll (Flushing false [Delivery Pushed (Some true) WReturned])).
Proof.
  exists (Flushing false [Delivery Selecting None WSend]). split; [reflexivity|].
  apply (flush_returns {[ 7%nat ]} (Ok "page") (Flushing false [Delivery Selecting None WSend])); [reflexivity| |by repeat constructor|done].
  apply (flush_step _ (Flushing false [Delivery Pushed (Some true) WResult]) (FTakeResult 0)); [|done].
  apply (flush_step _ (Flushing false [Delivery Pushing None WResult]) (FPushed 0 true)); [|done].
  apply (flush_step _ (Flushing false [Delivery Selecting None WSend]) (FAccept 0)); [|done]. apply flush_init.
Defined.

Lemma exampleFlags_jobs : flags_ok exampleFlags.
Proof. by apply (validateFlags_ok exampleFlags []). Qed.

Lemma execSem_bounds_witness : Z.of_nat (runningNow (Semaphore 1 false [SWaiting; SRunning])) ≤ jobs exampleFlags.
Proof.
  apply (execSem_bounds exampleFlags 2 (Semaphore 1 false [SWaiting; SRunning]) exampleFlags_jobs).
  apply (sem_step exampleFlags 2 (Semaphore 0 false [SWaiting; SWaiting]) (SAcquire 1)); [apply sem_init|done].
Defined.

Definition exFloat : FloatFormat := λ _ _, "0.0".

Definition closeEvents (c : closing) (evs : list closeEvent) : option closing :=
  foldl (λ c ev, c ≫= λ c, closeStep (H := exFloat) exampleFlags c ev) (Some c) evs.

Lemma closeEvents_reachable evs : ∀ c c',
  close_reachable (H := exFloat) exampleFlags exampleServer c → closeEvents c evs = Some c' → close_reachable (H := exFloat) exampleFlags exampleServer c'.
Proof.
  unfold closeEvents. induction evs as [|ev evs IH]; intros c c' Hc; simpl; [by intros [= <-]|].
  destruct (closeStep _ c ev) as [c1|] eqn:E; [|intros Hx; exfalso; clear -Hx; by induction evs]. apply IH. by eapply close_step.
Qed.

Definition exCloseEvents : list closeEvent :=
  [XTick [] 3; XReturn None; XTickPrint; XReporterEnds; XStopped; XShutdown; XPhase 9; XFlushed; XSnapshot [] 9; XPrint; XReports].

Definition exClosed : closing := default (startClosing exampleFlags exampleServer) (closeEvents (startClosing exampleFlags exampleServer) exCloseEvents).

Lemma exClosed_reachable : close_reachable (H := exFloat) exampleFlags exampleServer exClosed.
Proof. apply (closeEvents_reachable exCloseEvents (startClosing exampleFlags exampleServer)); [apply close_init|]. by vm_compute. Qed.

Lemma run_closes_witness :
  length (cgOut exClosed) = 2%nat ∧ ∃ ticks text, cgOut exClosed = ticks ++ [text] ∧ final_line (H := exFloat) exampleFlags exClosed text.
Proof.
  split; [by vm_compute|]. destruct (run_closes (H := exFloat) exampleFlags exampleServer exClosed exClosed_reachable) as [Hend _].
  destruct Hend as (ticks & text & Ho & Hf & _); [by vm_compute|]. by exists ticks, text.
Defined.
