(* ===== verification/DaemonMain.v ===== *)
(** * The process of the history service (cmd/testhistoryd/main.go)

    The configuration from flags and the environment, its checks, what is opened
    before the service listens, and how the process ends. *)

From Stdlib Require Import Ascii.
From S2P Require Import Prelude GoStrings GoFmt Flags HistoryDaemon Main.

(** The flag variables. *)
Record daemonFlags := DaemonFlags {
  listenAddr : string;
  postgresDSN : string;
  scopeID : string;
  bearerToken : string;
  maxConns : Z
}.

Definition envOr (environ : list string) (name fallback : string) : string :=
  let value := Getenv environ name in
  if bool_decide (value = "") then fallback else value.

(** The values without any flag. *)
Definition defaultDaemonFlags (environ : list string) : daemonFlags := {|
  listenAddr := envOr environ "TESTHISTORYD_LISTEN" "127.0.0.1:8080";
  postgresDSN := Getenv environ "TESTHISTORYD_POSTGRES_DSN";
  scopeID := Getenv environ "TESTHISTORYD_SCOPE_ID";
  bearerToken := Getenv environ "TESTHISTORYD_TOKEN";
  maxConns := 16
|}.

(** The conversion [int32(x)]. *)
Definition i32 (z : Z) : Z := (z + 2 ^ 31) `mod` 2 ^ 32 - 2 ^ 31.

(** What PostgreSQL and its client answer. *)
Record daemonWorld := DaemonWorld {
  dwParseConfig : string → option error;
  dwOpen : string → Z → option error;      (** with the maximum of connections *)
  dwMajor : result Z;
  dwSchema : option error;
  dwVersion : result Z
}.

Record service := Service {
  svAddr : string;
  svStore : string;
  svToken : string;
  svMaxConns : Z
}.

Inductive daemonStart :=
  | DExit (code : Z) (msg : string)
  | DServe (sv : service).

(** [main] up to the start of the HTTP server. *)
Definition daemonMain (f : daemonFlags) (w : daemonWorld) : daemonStart :=
  if bool_decide (postgresDSN f = "") then DExit 2 "missing -postgres-dsn or TESTHISTORYD_POSTGRES_DSN"
  else if bool_decide (scopeID f = "") then DExit 2 "missing -scope-id or TESTHISTORYD_SCOPE_ID"
  else if maxConns f <? 1 then DExit 2 "-max-conns must be positive"
  else if bool_decide (is_Some (dwParseConfig w (postgresDSN f))) then DExit 1 "parsing PostgreSQL DSN"
  else
    let conns := i32 (maxConns f) in
    if bool_decide (is_Some (dwOpen w (postgresDSN f) conns)) then DExit 1 "opening PostgreSQL"
    else
      match newPostgresStore true (scopeID f) (dwMajor w) (dwSchema w) (dwVersion w) with
      | Err _ => DExit 1 "initializing PostgreSQL history store"
      | Ok store => DServe (Service (listenAddr f) store (bearerToken f) conns)
      end.

(** What ends the select of [main]: the server returned, or a signal came and
    [Shutdown] returned. *)
Inductive daemonEvent :=
  | EvServer (serverClosed : bool)
  | EvSignal (shutdownErr : option error).

(** The exit status of the process. *)
Definition daemonEnd (ev : daemonEvent) : Z :=
  match ev with
  | EvServer serverClosed => if serverClosed then 0 else 1
  | EvSignal shutdownErr => if bool_decide (is_Some shutdownErr) then 1 else 0
  end.

Lemma i32_id z : - 2 ^ 31 ≤ z < 2 ^ 31 → i32 z = z.
Proof. intros H. unfold i32. rewrite Z.mod_small; lia. Qed.

(** the service starts only with a database, a scope that is a UUID and
    opens at most the connections it was asked for, as long as their number fits
    in 32 bits; a configuration that is not complete ends the process with status
    2 before anything is opened, and every other failure with status 1. *)
Theorem daemonMain_spec f w :
  match daemonMain f w with
  | DServe sv => postgresDSN f ≠ "" ∧ is_Some (parseUUID (scopeID f)) ∧ svToken sv = bearerToken f ∧ 1 ≤ maxConns f ∧
      (maxConns f < 2 ^ 31 → svMaxConns sv = maxConns f) ∧
      dwParseConfig w (postgresDSN f) = None ∧ dwOpen w (postgresDSN f) (svMaxConns sv) = None
  | DExit code _ => (code = 2 ∧ (postgresDSN f = "" ∨ scopeID f = "" ∨ maxConns f < 1)) ∨
      (code = 1 ∧ postgresDSN f ≠ "" ∧ scopeID f ≠ "" ∧ 1 ≤ maxConns f)
  end.
Proof.
  unfold daemonMain. do 2 (case_bool_decide; [by left; auto|]). destruct (Z.ltb_spec (maxConns f) 1); [by left; auto|].
  case_bool_decide as Hp; [by right|]. case_bool_decide as Ho; [by right|]. apply eq_None_not_Some in Hp, Ho.
  destruct (newPostgresStore _ _ _ _ _) as [store|e] eqn:E; [|by right]. cbn [svToken svMaxConns]. split_and!; try done; [|intros ?; apply i32_id; lia].
  revert E. unfold newPostgresStore. simpl. by destruct (parseUUID (scopeID f)).
Qed.

(** The number of connections is checked before it is converted: a number beyond
    32 bits passes the check and is another number, or negative. *)
Lemma maxConns_wraps :
  let w := DaemonWorld (λ _, None) (λ _ _, None) (Ok 17) None (Ok schemaVersion) in
  let f n := DaemonFlags "" "postgres://db" "01234567-89ab-cdef-0123-456789abcdef" "" n in
  (∃ sv, daemonMain (f (2 ^ 31)) w = DServe sv ∧ svMaxConns sv = - 2 ^ 31) ∧ (∃ sv, daemonMain (f (2 ^ 32)) w = DServe sv ∧ svMaxConns sv = 0).
Proof. split; eexists; split; vm_compute; reflexivity. Qed.
