(* ===== verification/ShimAccept.v ===== *)
(** * The connections of the shim (cacheprog.go: [acceptLoop], [cacheShim.close], [reportToolExec])

    [acceptLoop] starts a goroutine for every connection, which its first byte
    gives to a session of cmd/go or to one of the short exchanges.  [close]
    closes the listener, waits for the loop and then for the goroutines, before
    it ends the cache program.  The interleavings are steps of [acceptStep]. *)

From Stdlib Require Import Ascii.
From S2P Require Import Prelude GoStrings CacheTypes CacheShim ShimLife.

(** The first byte of a connection. *)
Definition cacheConnCmdGo : ascii := "C"%char.
Definition cacheConnRegister : ascii := "R"%char.
Definition cacheConnVerified : ascii := "V"%char.
Definition cacheConnToolExec : ascii := "T"%char.

Inductive route := ToSession | ToVerified | ToToolExec | ToRegister | ToNothing.

(** Where the goroutine of a connection goes; [None] is a failed read. *)
Definition routeOf (kind : option ascii) : route :=
  match kind with
  | None => ToNothing
  | Some k =>
      if Ascii.eqb k cacheConnCmdGo then ToSession
      else if Ascii.eqb k cacheConnVerified then ToVerified
      else if Ascii.eqb k cacheConnToolExec then ToToolExec
      else if negb (Ascii.eqb k cacheConnRegister) then ToNothing
      else ToRegister
  end.

(** [reportToolExec]: what it sends, when it gets so far. *)
Definition reportToolExec (socket : string) (dialErr writeErr : option error) (ev : toolExecEvent) : (network * string) * option (ascii * toolExecEvent) :=
  (dialCacheEndpoint socket,
   match dialErr, writeErr with
   | None, None => Some (cacheConnToolExec, ev)
   | _, _ => None
   end).

(** ** Accepting and closing *)

(** [acceptLoop]: in [Accept], with a connection that it has not started a
    goroutine for, or returned ([acceptDone] is closed). *)
Inductive loopState := LAccepting | LAccepted | LEnded.

(** [close]: not called, waiting for the loop, waiting for the connections, and
    done with both. *)
Inductive closeState := CNotCalled | CWaitLoop | CWaitConns | CWaited.

Record accepting := Accepting {
  acListening : bool;
  acLoop : loopState;
  acConns : nat;         (** [connWG] *)
  acClose : closeState
}.

Inductive acceptEvent :=
  | AAccept              (** [Accept] returns a connection *)
  | ASpawn               (** [connWG.Add(1)] and the goroutine *)
  | ALoopEnds            (** [Accept] fails: the listener is closed *)
  | AConnEnds            (** [connWG.Done] *)
  | ACloseCalled         (** [listener.Close] *)
  | ALoopSeen            (** [<-acceptDone] *)
  | AConnsSeen.          (** [connWG.Wait] returns *)

Definition startAccepting : accepting := Accepting true LAccepting 0 CNotCalled.

Definition acceptStep (a : accepting) (ev : acceptEvent) : option accepting :=
  match ev, acLoop a, acClose a with
  | AAccept, LAccepting, c => if acListening a then Some (Accepting (acListening a) LAccepted (acConns a) c) else None
  | ASpawn, LAccepted, c => Some (Accepting (acListening a) LAccepting (S (acConns a)) c)
  | ALoopEnds, LAccepting, c => if acListening a then None else Some (Accepting (acListening a) LEnded (acConns a) c)
  | AConnEnds, l, c => match acConns a with O => None | S n => Some (Accepting (acListening a) l n c) end
  | ACloseCalled, l, CNotCalled => Some (Accepting false l (acConns a) CWaitLoop)
  | ALoopSeen, LEnded, CWaitLoop => Some (Accepting (acListening a) LEnded (acConns a) CWaitConns)
  | AConnsSeen, l, CWaitConns => match acConns a with O => Some (Accepting (acListening a) l 0 CWaited) | S _ => None end
  | _, _, _ => None
  end.

Inductive accept_reachable : accepting → Prop :=
  | accept_init : accept_reachable startAccepting
  | accept_step a ev a' : accept_reachable a → acceptStep a ev = Some a' → accept_reachable a'.

Record accept_ok (a : accepting) : Prop := {
  ao_listening : acListening a = true ↔ acClose a = CNotCalled;
  ao_loop : acClose a = CWaitConns ∨ acClose a = CWaited → acLoop a = LEnded;
  ao_ended : acLoop a = LEnded → acListening a = false;
  ao_conns : acClose a = CWaited → acConns a = 0%nat
}.

Lemma accept_ok_reachable a : accept_reachable a → accept_ok a.
Proof.
  induction 1 as [|a ev a' _ [H1 H2 H3 H4] Hs]; [constructor; simpl; naive_solver|].
  destruct a as [ln lp n c]. cbn in *. destruct ev, lp, c; cbn in Hs; try done; try (destruct ln; try done); try (destruct n; try done);
    injection Hs as <-; constructor; cbn; naive_solver.
Qed.

(** What [close] still waits for, where every connection ends after its work. *)
Definition acceptLeft (a : accepting) : nat :=
  acConns a + (match acLoop a with LAccepting => 1 | LAccepted => 3 | LEnded => 0 end) +
  (match acClose a with CNotCalled => 3 | CWaitLoop => 2 | CWaitConns => 1 | CWaited => 0 end).

(** when [cacheShim.close] goes on to end the cache program, every goroutine
    of a connection has returned and none will be started: nothing happens any
    more.  Until then, once it is called, every step brings it nearer and some
    step is possible, so that [close] waits for nothing but the connections that
    are open. *)
Theorem shim_close_waits a :
  accept_reachable a →
  (acClose a = CWaited → acConns a = 0%nat ∧ acLoop a = LEnded ∧ ∀ ev, acceptStep a ev = None) ∧
  (acClose a ≠ CNotCalled → (∀ ev a', acceptStep a ev = Some a' → (acceptLeft a' < acceptLeft a)%nat) ∧
    (acClose a ≠ CWaited → ∃ ev a', acceptStep a ev = Some a')).
Proof.
  intros [H1 H2 H3 H4]%accept_ok_reachable. destruct a as [ln lp n c]. cbn in *. split.
  - intros ->. rewrite H4, H2 by auto. split_and!; try done. by intros [].
  - intros Hc. assert (ln = false) as -> by (destruct ln; [naive_solver|done]). split.
    + intros ev a' Hs. unfold acceptLeft. destruct ev, lp, c; cbn in Hs; try done; try (destruct n; try done); injection Hs as <-; cbn; lia.
    + intros Hw. destruct c; try done.
      * destruct lp; [exists ALoopEnds|exists ASpawn|exists ALoopSeen]; by eexists.
      * destruct n; [exists AConnsSeen|exists AConnEnds]; by eexists.
Qed.

Lemma shim_close_waits_witness : acceptStep (Accepting false LEnded 0 CWaited) AAccept = None.
Proof.
  apply (shim_close_waits (Accepting false LEnded 0 CWaited)); [|done].
  apply (accept_step (Accepting false LEnded 0 CWaitConns) AConnsSeen); [|done].
  apply (accept_step (Accepting false LEnded 1 CWaitConns) AConnEnds); [|done].
  apply (accept_step (Accepting false LEnded 1 CWaitLoop) ALoopSeen); [|done].
  apply (accept_step (Accepting false LAccepting 1 CWaitLoop) ALoopEnds); [|done].
  apply (accept_step (Accepting false LAccepted 0 CWaitLoop) ASpawn); [|done].
  apply (accept_step (Accepting true LAccepted 0 CNotCalled) ACloseCalled); [|done].
  apply (accept_step startAccepting AAccept); [apply accept_init|done].
Defined.
