(* ===== verification/Stores.v ===== *)
(** * Opening and leaving a run (gotst.go: [NewServer], [Cleanup]; testcache.go: [newDiskTestCache]; history.go: [newDiskHistoryStore])

    Everything a run keeps is below one cache root: the stores that outlive it
    and one directory per run.  Starting a run removes the directories of runs
    that are gone, and leaving it removes its own; [run_leaves_stores] shows that
    neither touches a store or the directory of another run. *)

From Stdlib Require Import Ascii.
From S2P Require Import Prelude GoStrings GoFmt Path Utf8 Flags Profile Args Invocation HistoryTypes TestCache CommandLine Server Discover Capture CaptureFacts LocalCacheFacts Main.

(** ** The stores *)

Definition newDiskTestCache (cacheRoot : string) (mkdirAll : string → option error) : result string :=
  let dir := PathJoin [cacheRoot; "test-results"; "v" +:+ itoa testCacheVersion] in
  match mkdirAll dir with Some e => Err (EWrap "creating test cache directory: " e) | None => Ok dir end.

Definition newDiskHistoryStore (cacheRoot : string) (mkdirAll : string → option error) : result string :=
  let dir := PathJoin [cacheRoot; "history"; "v" +:+ itoa Version] in
  match mkdirAll dir with Some e => Err e | None => Ok dir end.

(** What the system answers while a run is opened. *)
Record openIO := OpenIO {
  oiAbs : result string;
  oiUserCacheDir : result string;
  oiMkdirAll : string → option error;
  oiRunning : Z → bool;
  oiReadDir : string → result (list (string * bool));
  oiPid : Z;
  oiNow : Time;
  oiMkdir : string → option error;
  oiURL : result (string * string);
  oiEnviron : list string
}.

Definition isOk {A} (r : result A) : bool := match r with Ok _ => true | Err _ => false end.

(** [NewServer] with its stores and the directory of the run: what it removes,
    and the state of the run; [None] is a fatal error. *)
Definition openServer (c : commandLine) (profile : runProfile) (tests : testSelection) (io : openIO) : option (list string * Server) :=
  root ← mustCacheRoot (clCacheRoot c) (oiAbs io) (oiUserCacheDir io) (oiMkdirAll io);
  '(removed, dir) ← mustNewCacheDir (Some root) (oiRunning io) (oiReadDir io) (oiPid io) (oiNow io) (oiMkdir io);
  s ← NewServer (clFlags c) profile tests (isOk (newDiskTestCache root (oiMkdirAll io))) (isOk (newDiskHistoryStore root (oiMkdirAll io)))
        (isOk (newHTTPHistoryStore (oiURL io) (oiEnviron io))) root dir (oiNow io);
  Some (removed, s).

(** The directories that outlive a run. *)
Definition storeDirs (root : string) : list string :=
  [PathJoin [root; "test-results"; "v" +:+ itoa testCacheVersion]; PathJoin [root; "history"; "v" +:+ itoa Version];
   PathJoin [root; "build-cache"; "v1"]; PathJoin [root; "build-actions"; "v1"]].

(** [p] is [d] or a directory that [d] is in. *)
Definition covers (p d : string) : Prop := elems p `prefix_of` elems d.

(** ** Names of run directories *)

Lemma digits_no_slash s : forallb isDigit (String.list_ascii_of_string s) = true → ContainsByte s slash = false.
Proof.
  induction s as [|a s IH]; [done|]. cbn [String.list_ascii_of_string forallb ContainsByte]. intros [Ha Hs]%andb_prop. rewrite IH by done.
  destruct (Ascii.eqb_spec a slash) as [->|]; [|done]. done.
Qed.

Lemma pid_normal pid t :
  ContainsByte pid slash = false → ContainsByte t slash = false → normal_elem ("pid" +:+ pid +:+ "-t" +:+ t).
Proof.
  intros Hp Ht. split; [|done]. unfold elem_ok. by rewrite !ContainsByte_append, Hp, Ht.
Qed.

Lemma matchRunDir_normal name pid t : matchRunDir name = Some (pid, t) → normal_elem name.
Proof.
  intros H. rewrite (matchRunDir_Some _ _ _ H). revert H. unfold matchRunDir. destruct (CutPrefix name "pid") as [r1|]; [|done]. cbn [mbind option_bind].
  pose proof (spanDigits_spec r1) as S1. destruct (spanDigits r1) as [p r2]. destruct S1 as [_ S1]. destruct (CutPrefix r2 "-t") as [r3|]; [|done].
  cbn [mbind option_bind]. pose proof (spanDigits_spec r3) as S3. destruct (spanDigits r3) as [q r4]. destruct S3 as [_ S3].
  destruct (_ || _); [done|]. intros [= <- <-]. by apply pid_normal; apply digits_no_slash.
Qed.

Lemma runDirName_normal pid t : 0 ≤ pid → 0 ≤ t → normal_elem (runDirName pid t).
Proof. intros Hp Ht. eapply matchRunDir_normal. by apply matchRunDir_runDirName. Qed.

Lemma runDirName_pid pid t pid' t' : 0 ≤ pid → 0 ≤ t → 0 ≤ pid' → 0 ≤ t' → runDirName pid t = runDirName pid' t' → pid = pid' ∧ t = t'.
Proof.
  intros Hp Ht Hp' Ht' E. pose proof (matchRunDir_runDirName pid t Hp Ht) as Hm. rewrite E, matchRunDir_runDirName in Hm by done.
  injection Hm as H1 H2. split; by apply (inj pretty).
Qed.

(** A directory of a run covers no store. *)
Lemma run_not_store es name d :
  es ≠ [] → Forall normal_elem es → normal_elem name → HasPrefix name "pid" = true → d ∈ storeDirs (abs es) → ¬ covers (abs (es ++ [name])) d.
Proof.
  intros Hne Hes Hn Hp Hd. unfold covers. rewrite elems_abs by (apply Forall_app; auto).
  assert (Hs : ∃ a v, d = abs (es ++ [a; v]) ∧ Forall normal_elem [a; v] ∧ HasPrefix a "pid" = false).
  { unfold storeDirs in Hd. rewrite !PathJoin_abs_list in Hd by (done || (repeat constructor; vm_compute; done)).
    repeat (apply elem_of_cons in Hd as [->|Hd]; [eexists _, _; split_and!; [done|repeat constructor; vm_compute; done|done]|]). by apply elem_of_nil in Hd. }
  destruct Hs as (a & v & -> & Hav & Ha). rewrite elems_abs by (apply Forall_app; auto).
  intros [r E]. rewrite <- app_assoc in E. apply (inj (es ++.)) in E. simplify_eq/=. congruence.
Qed.

Lemma openServer_inv c profile tests io root removed s :
  mustCacheRoot (clCacheRoot c) (oiAbs io) (oiUserCacheDir io) (oiMkdirAll io) = Some root → openServer c profile tests io = Some (removed, s) →
  cacheDir s = PathJoin [root; runDirName (oiPid io) (oiNow io)] ∧ cleanOldCaches (oiRunning io) root (oiReadDir io root) = Some removed.
Proof.
  intros Hr. unfold openServer. rewrite Hr. cbn [mbind option_bind]. unfold mustNewCacheDir. cbn [mbind option_bind].
  destruct (cleanOldCaches _ _ _) as [rm|]; [|done]. cbn [mbind option_bind]. destruct (oiMkdir io _); [done|]. cbn [mbind option_bind].
  destruct (NewServer _ _ _ _ _ _ _ _ _) as [s'|] eqn:En; [|done]. cbn [mbind option_bind]. intros E. assert (rm = removed) as -> by congruence.
  split; [|done]. assert (s' = s) as -> by congruence. revert En. unfold NewServer. destruct (_ && _ && _); [done|].
  destruct (historyEnabled _ _ _); [|done]. cbn [mbind option_bind]. intros En. apply (inj Some) in En. by subst s.
Qed.

(** The run starts from nothing. *)
Lemma openServer_new c profile tests io removed s :
  openServer c profile tests io = Some (removed, s) → pkgs s = ∅ ∧ (canceled s, failFastTriggered s) = (false, false).
Proof.
  unfold openServer. destruct (mustCacheRoot _ _ _ _) as [root|]; [|done]. cbn [mbind option_bind]. destruct (mustNewCacheDir _ _ _ _ _ _) as [[rm dir]|]; [|done]. cbn [mbind option_bind].
  destruct (NewServer _ _ _ _ _ _ _ _ _) as [s'|] eqn:En; [|done]. cbn [mbind option_bind]. intros E. assert (s' = s) as -> by congruence. revert En. unfold NewServer.
  destruct (_ && _ && _); [done|]. destruct (historyEnabled _ _ _); [|done]. cbn [mbind option_bind]. intros En. apply (inj Some) in En. by subst s.
Qed.

(** C22: a run leaves the stores and the other runs alone: neither what it removes
    when it starts nor the directory it removes when it ends is or contains one of
    the stores below the cache root; it removes no directory of a run whose process
    still runs; and what it removes at its end is the directory that it made for
    itself, never that of another process. *)
Theorem run_leaves_stores c profile tests io es removed s :
  es ≠ [] → Forall normal_elem es → 0 ≤ oiPid io → 0 ≤ oiNow io →
  mustCacheRoot (clCacheRoot c) (oiAbs io) (oiUserCacheDir io) (oiMkdirAll io) = Some (abs es) →
  openServer c profile tests io = Some (removed, s) →
  (Cleanup s).1 = Some (abs (es ++ [runDirName (oiPid io) (oiNow io)])) ∧
  (∀ d p, d ∈ storeDirs (abs es) → p ∈ removed ++ option_list (Cleanup s).1 → ¬ covers p d) ∧
  (∀ pid t, 0 ≤ pid < 2 ^ 63 → 0 ≤ t < 2 ^ 63 → oiRunning io pid = true → abs (es ++ [runDirName pid t]) ∉ removed) ∧
  (∀ pid t, 0 ≤ pid → 0 ≤ t → pid ≠ oiPid io → (Cleanup s).1 ≠ Some (abs (es ++ [runDirName pid t]))).
Proof.
  intros Hne Hes Hpid Hnow Hroot [Hdir Hclean]%(openServer_inv _ _ _ _ (abs es)); [|done].
  pose proof (runDirName_normal _ _ Hpid Hnow) as Hown. rewrite PathJoin_abs in Hdir by done.
  assert (Hcl : (Cleanup s).1 = Some (abs (es ++ [runDirName (oiPid io) (oiNow io)]))) by (unfold Cleanup; rewrite Hdir; by rewrite bool_decide_eq_false_2).
  assert (Hrm : ∀ p, p ∈ removed → ∃ name pid t, p = abs (es ++ [name]) ∧ normal_elem name ∧ matchRunDir name = Some (pid, t) ∧ removesRunDir (oiRunning io) name true = true).
  { intros p Hp. revert Hclean. unfold cleanOldCaches. rewrite bool_decide_eq_false_2 by done. destruct (oiReadDir io _) as [entries|]; [|done].
    intros [= <-]. apply list_elem_of_fmap in Hp as ([name isDir] & -> & [Hr _]%list_elem_of_filter). cbn [fst snd] in *.
    assert (Hm := Hr). unfold removesRunDir in Hm. destruct isDir; [|done]. destruct (matchRunDir name) as [[pid t]|] eqn:E; [|done].
    pose proof (matchRunDir_normal _ _ _ E). exists name, pid, t. by rewrite PathJoin_abs. }
  assert (Hpre : ∀ name pid t, matchRunDir name = Some (pid, t) → HasPrefix name "pid" = true).
  { intros name pid t ->%matchRunDir_Some. unfold HasPrefix. by rewrite CutPrefix_append. }
  split_and!; [done| | |].
  - intros d p Hd [(name & pid & t & -> & Hn & Hm & _)%Hrm|Hp]%elem_of_app; [by eapply run_not_store; eauto|].
    rewrite Hcl in Hp. apply list_elem_of_singleton in Hp as ->. by apply run_not_store.
  - intros pid t Hp Ht Hrun (name & pid' & t' & E & Hn & Hm & Hr)%Hrm. pose proof (runDirName_normal pid t ltac:(lia) ltac:(lia)) as Hn'.
    apply abs_inj in E; [|apply Forall_app; auto..]. apply (inj (es ++.)) in E. assert (name = runDirName pid t) as -> by congruence. rewrite removesRunDir_own, Hrun in Hr by done. done.
  - intros pid t Hp Ht Hd. rewrite Hcl. intros E%(inj Some). pose proof (runDirName_normal pid t Hp Ht).
    apply abs_inj in E; [|apply Forall_app; auto..]. apply (inj (es ++.)) in E. assert (E' : runDirName (oiPid io) (oiNow io) = runDirName pid t) by congruence. by apply runDirName_pid in E' as [? _].
Qed.

Definition exOpenIO : openIO :=
  OpenIO (Ok "/cache") (Ok "/home/u/.cache") (λ _, None) (λ pid, bool_decide (pid = 7)) (λ _, Ok [("history", true); ("pid3-t1", true); ("pid7-t2", true); ("pid9", true)])
    8 20 (λ _, None) (Err (EMsg "no URL")) [].

Definition exOpened : list string * Server := default ([], exampleServer) (openServer (defaultCommandLine 4) zeroProfile (TestSelection [] []) exOpenIO).

Lemma run_leaves_stores_witness : exOpened.1 = ["/home/u/.cache/gotst/pid3-t1"] ∧ (Cleanup exOpened.2).1 = Some "/home/u/.cache/gotst/pid8-t20".
Proof.
  split; [by vm_compute|].
  apply (run_leaves_stores (defaultCommandLine 4) zeroProfile (TestSelection [] []) exOpenIO ["home"; "u"; ".cache"; "gotst"] exOpened.1 exOpened.2);
    [done|repeat constructor; vm_compute; done|done|done|by vm_compute|by vm_compute].
Defined.
