(* ===== verification/FleetAlone.v ===== *)
(** * The leader can always finish (distributed.go)

    Helpers come and go, hang, and hold leases.  Whatever they did so far, a
    distributed run that has started can be finished: once the helpers are
    disconnected, the leader's own workers take the tests that are left, one
    after the other, whatever the results of the executions are. *)

From S2P Require Import Prelude GoStrings Flags Path Profile Utf8 Invocation GoFmt Args Sha256 Quote HistoryTypes TestCache Server Fleet FleetInv FleetCommit FleetSteps FleetSystem FleetTheorems FleetGrowth.

(** ** What no event of a started run takes back

    The slots of the leader's own worker [wi] and that it is available, that the
    queue is ready, and everything that ends the run. *)
Record keeps (wi : nat) (st st' : leader) : Prop := {
  kp_worker : ∀ w, workers (flt st) !! wi = Some w →
    ∃ w', workers (flt st') !! wi = Some w' ∧ Slots w' = Slots w ∧ wError w' = wError w;
  kp_ready : ready (flt st') = ready (flt st);
  kp_stopped : stopped (flt st) = true → stopped (flt st') = true;
  kp_canceled : canceled (srv st) = true → canceled (srv st') = true;
  kp_work : length (work (flt st')) = length (work (flt st));
  kp_fdone : fdone (flt st) ≤ fdone (flt st')
}.

#[export] Instance keeps_preorder wi : PreOrder (keeps wi).
Proof.
  split; [by split; eauto|]. intros a b c [W1 R1 S1 C1 K1 F1] [W2 R2 S2 C2 K2 F2]. split; [|congruence|auto|auto|congruence|lia].
  intros w (w' & Hw' & Es & Ee)%W1. apply W2 in Hw' as (w'' & Hw'' & ? & ?). exists w''. split_and!; [done|congruence..].
Qed.

#[export] Instance keeps_snd_preorder {A} wi : PreOrder (λ a b : A * leader, keeps wi a.2 b.2).
Proof. split; [by intros [a st]|]. intros [a st1] [b st2] [c st3]. simpl. apply transitivity. Qed.

(** An update of one worker that leaves its slots and its error alone. *)
Lemma keeps_putWorker wi st wj w w' :
  workers (flt st) !! wj = Some w → (wj = wi → Slots w' = Slots w ∧ wError w' = wError w) → keeps wi st (putWorker st wj w').
Proof.
  intros Hw Hk. split; simpl; try done. intros u Hu. destruct (decide (wj = wi)) as [->|Hne].
  - exists w'. rewrite list_lookup_insert_eq by (by eapply lookup_lt_Some). assert (u = w) as -> by congruence. by destruct (Hk eq_refl).
  - exists u. by rewrite list_lookup_insert_ne.
Qed.

(** An update that leaves the workers alone. *)
Lemma keeps_same wi st st' :
  workers (flt st') = workers (flt st) → ready (flt st') = ready (flt st) → stopped (flt st') = stopped (flt st) →
  (canceled (srv st) = true → canceled (srv st') = true) → length (work (flt st')) = length (work (flt st)) → fdone (flt st) ≤ fdone (flt st') →
  keeps wi st st'.
Proof. intros Hw Hr Hs Hc Hl Hf. split; try done; [rewrite Hw; eauto|by rewrite Hs]. Qed.

Section keeps.
Context `{GoRuntime} (fl : flags) (wi : nat).

Lemma updateRunning_keeps st ti now st' : updateRunningLocked st ti now = Some st' → keeps wi st st'.
Proof using Type.
  unfold updateRunningLocked. grow_binds. destruct (done _); [by intros [= <-]|].
  destruct (runningSince _) as [[] ?]; intros [= <-]; by apply keeps_same.
Qed.

Lemma removeLease_keeps st id now st' : removeLeaseLocked st id now = Some st' → keeps wi st st'.
Proof using Type.
  unfold removeLeaseLocked. destruct (heap (flt st) !! id) as [l|]; [|done]. cbn [mbind option_bind].
  destruct (workers (flt st) !! lWorker l) as [w|] eqn:Hw; [|done]. cbn [mbind option_bind].
  destruct (work (flt st) !! lWork l) as [t|]; [|done]. cbn [mbind option_bind]. intros Hst. etrans; [|by eapply updateRunning_keeps].
  transitivity (putWorker st (lWorker l) (w <| wLeases ::= λ ids, ids ∖ {[id]} |>)); [by eapply keeps_putWorker|].
  destruct (lCancel l); apply keeps_same; simpl; by rewrite ?length_insert.
Qed.

Lemma removeLeases_keeps st ids now st' : removeLeases st ids now = Some st' → keeps wi st st'.
Proof using Type. apply foldl_bind_rel; [apply _|]. intros ? ? ?. apply removeLease_keeps. Qed.

Lemma disconnect_keeps st wj err now st' : wj ≠ wi → disconnect st wj err now = Some st' → keeps wi st st'.
Proof using Type.
  intros Hne. unfold disconnect. destruct (workers (flt st) !! wj) as [w|] eqn:Hw; [|done]. cbn [mbind option_bind].
  destruct (removeLeases _ _ _) as [st1|] eqn:E; [|done]. intros [= <-]. apply removeLeases_keeps in E.
  etrans; [|etrans; [exact E|by apply keeps_same]]. by eapply keeps_putWorker.
Qed.

Lemma finishTest_canceled s task pass d fs err fromCache now s' :
  finishTestLocked s task pass d fs err fromCache now = Some s' → canceled s' = canceled s.
Proof using Type. unfold finishTestLocked. destruct (testAt s task) as [[ps ts]|]; [|done]. cbn [mbind option_bind]. by intros [= <-]. Qed.

Lemma commit_keeps st wj ti w t r now st' :
  workers (flt st) !! wj = Some w → commit fl st wj ti w t r now = Some st' → keeps wi st st'.
Proof using Type.
  intros Hw. unfold commit. cbv zeta.
  match goal with |- context [putWorker ?a wj ?u] => set (st1 := a); set (w1 := u) end.
  assert (Hk1 : keeps wi st (putWorker st1 wj w1)).
  { transitivity st1; [unfold st1; apply keeps_same; simpl; rewrite ?length_insert; try done; lia|].
    apply (keeps_putWorker wi st1 wj w); [done|]. intros _. unfold w1. by destruct (rPassed r), (rCached r). }
  generalize dependent (putWorker st1 wj w1). clear st1 w1. intros st1 Hk1.
  match goal with |- context [if rInfra r then ?a else ?b] =>
    assert (Hk2 : keeps wi st (if rInfra r then a else b)) by (destruct (rInfra r); [etrans; [exact Hk1|by apply keeps_same]|exact Hk1]);
    revert Hk2; generalize (if rInfra r then a else b) end.
  intros st2 Hk2. destruct (testAt (srv st2) (fTask t)) as [[ps ts]|]; [|done]. cbn [mbind option_bind].
  destruct (finishTestLocked _ _ _ _ _ _ _ _) as [s1|] eqn:Ef; [|done]. cbn [mbind option_bind]. apply finishTest_canceled in Ef.
  destruct (work _ !! ti) as [t'|]; [|done]. cbn [mbind option_bind].
  destruct (removeLeases _ _ _) as [st3|] eqn:Er; [|done]. cbn [mbind option_bind]. apply removeLeases_keeps in Er. intros E. apply (inj Some) in E. subst st'.
  etrans; [exact Hk2|]. etrans; [|etrans; [exact Er|]].
  - apply keeps_same; simpl; try done. rewrite Ef. by destruct (rCached r).
  - apply keeps_same; try (by destruct (_ && _)). simpl. destruct (_ && _); simpl; rewrite canceled_printTestResult; done.
Qed.

Lemma accept_keeps st wj r now st' :
  (∀ w, workers (flt st) !! wj = Some w → wj = wi → wID w = "leader") → accept fl st wj r now = Some st' → keeps wi st st'.
Proof using Type.
  intros Hid. unfold accept. destruct (workers (flt st) !! wj) as [w|] eqn:Hw; [|done]. cbn [mbind option_bind]. specialize (Hid w eq_refl).
  case_bool_decide; [by intros [= <-]|]. destruct (heap (flt st) !! rLease r) as [l|]; [|done]. cbn [mbind option_bind].
  destruct (work (flt st) !! lWork l) as [t|]; [|done]. cbn [mbind option_bind]. destruct (_ || _); [by intros [= <-]|].
  case_bool_decide as Hl; cbn [negb]; rewrite ?andb_false_r, ?andb_true_r; [by apply commit_keeps|].
  destruct (rInfra r); [|by apply commit_keeps]. unfold rejectHelper. destruct (removeLeases _ _ _) as [st1|] eqn:E; [|done].
  cbn [mbind option_bind]. intros [= <-]. apply removeLeases_keeps in E. etrans; [|etrans; [exact E|by apply keeps_same]].
  eapply keeps_putWorker; [done|]. intros ->. by destruct Hl; apply Hid.
Qed.

Lemma reportActive_keeps now wj acc e acc' : reportActive now wj acc e = Some acc' → keeps wi acc.2 acc'.2.
Proof using Type.
  destruct acc as [cancel st], e as [id state]. unfold reportActive. grow_binds.
  case_bool_decide; [intros Heq; by simplify_eq/=|]. destruct (negb _); [intros Heq; by simplify_eq/=|]. grow_binds. intros Heq. simplify_eq/=.
  etrans; [|etrans; [by eapply updateRunning_keeps|by apply keeps_same]]. by apply keeps_same.
Qed.

Lemma assign_keeps st wj limit now batch st' : assignLocked fl st wj limit now = Some (batch, st') → keeps wi st st'.
Proof using Type.
  unfold assignLocked. destruct (workers (flt st) !! wj) as [w|]; [|done]. cbn [mbind option_bind]. destruct (_ || _); [by intros [= _ <-]|].
  generalize (@nil workerWork) (foldl (λ a e, i64 (a + e)) 0 (omap (λ l, estimate <$> work (flt st) !! lWork l) (leasesIn (flt st) (wLeases w)))).
  clear w. revert st. induction (Z.to_nat limit) as [|n IH]; intros st bs d; cbn [assignLoop]; [by intros [= _ <-]|].
  destruct (workers (flt st) !! wj) as [w|] eqn:Hw; [|done]. cbn [mbind option_bind]. destruct (_ && _); [by intros [= _ <-]|].
  destruct (nextLocked _ _ _) as [ti|]; [|by intros [= _ <-]]. destruct (work (flt st) !! ti) as [t|]; [|done]. cbn [mbind option_bind].
  intros Ha%IH. etrans; [|exact Ha]. unfold grant. cbv zeta.
  match goal with |- keeps _ _ (putTask ?a _ _) => transitivity a; [|apply keeps_same; simpl; rewrite ?length_insert; done] end.
  match goal with |- keeps _ _ (putWorker ?a _ _) => transitivity a; [by apply keeps_same|] end. by eapply (keeps_putWorker _ _ wj w).
Qed.

Lemma exchange_keeps st wj req now res st' : exchangeLocked fl st wj req now = Some (res, st') → keeps wi st st'.
Proof using Type.
  unfold exchangeLocked. destruct (workers (flt st) !! wj) as [w|] eqn:Hw; [|done]. cbn [mbind option_bind].
  destruct (foldl _ _ _) as [[cancel st1]|] eqn:E; [|done]. cbn [mbind option_bind].
  assert (Hst1 : keeps wi st st1).
  { pose proof (foldl_bind_rel (λ a b : list Z * leader, keeps wi a.2 b.2) _ _ _ _ ltac:(intros ???; apply reportActive_keeps) E) as Hk.
    etrans; [|exact Hk]. by eapply keeps_putWorker. }
  destruct (workers (flt st1) !! wj) as [w1|]; [|done]. cbn [mbind option_bind].
  destruct (negb _ && _); [|by intros [= _ <-]]. destruct (assignLocked _ _ _ _ _) as [[batch st2]|] eqn:Ea; [|done].
  cbn [mbind option_bind]. intros [= _ <-]. etrans; [exact Hst1|by eapply assign_keeps].
Qed.

Lemma localAssign_keeps st wj now now' ls st' : localAssign fl st wj now now' = Some (ls, st') → keeps wi st st'.
Proof using Type.
  unfold localAssign. destruct (_ || _); [by intros [= _ <-]|].
  destruct (assignLocked _ _ _ _ _) as [[batch st1]|] eqn:Ea; [|done]. cbn [mbind option_bind]. apply assign_keeps in Ea.
  destruct batch as [|b bs]; [by intros [= _ <-]|]. destruct (heap (flt st1) !! wwLease b) as [l|]; [|done]. cbn [mbind option_bind].
  destruct (work (flt st1) !! _) as [t|]; [|done]. cbn [mbind option_bind].
  destruct (updateRunningLocked _ _ _) as [st2|] eqn:Eu; [|done]. cbn [mbind option_bind]. intros [= _ <-].
  etrans; [exact Ea|]. etrans; [|by eapply updateRunning_keeps]. by apply keeps_same.
Qed.

(** In every event of a run that has started. *)
Lemma exec_keeps y e y' :
  sys_inv fl y → localW y = Some wi → step fl y e y' → keeps wi (lead y) (lead y') ∧ localW y' = Some wi.
Proof using Type.
  intros Hy Hwi [He E]. destruct (si_local _ _ Hy wi Hwi) as (w & Hw & Hid & _).
  assert (Hacc : ∀ wj r now st', accept fl (lead y) wj r now = Some st' → keeps wi (lead y) st').
  { intros wj r now st'. apply accept_keeps. intros u Hu ->. congruence. }
  destruct e as [name sl now|wj err now|wj r now|wj req now|tasks now|k now now'|k r now| |now|]; cbn [exec enabled] in E, He.
  - injection E as <-. split; [|done]. split; simpl; try done. intros u Hu. exists u. split_and!; [|done..]. by apply lookup_app_l_Some.
  - destruct (disconnect _ _ _ _) as [st|] eqn:Ed; [|done]. injection E as <-. split; [|done]. eapply disconnect_keeps; [|done]. intros ->. by destruct He.
  - destruct (accept _ _ _ _ _) as [st|] eqn:Ea; [|done]. injection E as <-. split; [by eapply Hacc|done].
  - destruct (exchangeLocked _ _ _ _ _) as [[res st]|] eqn:Ex; [|done]. injection E as <-. split; [by eapply exchange_keeps|done].
  - destruct He as [He _]. congruence.
  - rewrite Hwi in E. cbn [mbind option_bind] in E. destruct (localAssign _ _ _ _ _) as [[ls st]|] eqn:El; [|done]. injection E as <-.
    split; [by eapply localAssign_keeps|done].
  - rewrite Hwi in E. cbn [mbind option_bind] in E. destruct (locals y !! k) as [[|id task|]|]; try done.
    destruct (accept _ _ _ _ _) as [st|] eqn:Ea; [|done]. injection E as <-. split; [by eapply Hacc|done].
  - injection E as <-. split; [by apply keeps_same|done].
  - destruct (stopRun _ _) as [st|] eqn:Es; [|done]. injection E as <-. split; [|done]. unfold stopRun in Es.
    etrans; [|by eapply removeLeases_keeps]. by split; simpl; eauto.
  - injection E as <-. split; [|done]. by split; simpl; eauto.
Qed.
End keeps.

Section alone.
Context `{GoRuntime} (fl : flags).

(** The run ends, or has ended. *)
Definition over (y : system) : bool := stopped (flt (lead y)) || canceled (srv (lead y)) || allDone (flt (lead y)).

(** The leader's own workers of a run that has started. *)
Record started (y : system) (wi : nat) : Prop := {
  sd_local : localW y = Some wi;
  sd_worker : ∃ w, workers (flt (lead y)) !! wi = Some w ∧ Slots w = jobs fl ∧ wError w = "";
  sd_ready : ready (flt (lead y)) = true;
  sd_locals : Z.of_nat (length (locals y)) = Z.max 0 (Z.min (jobs fl) (Z.of_nat (length (work (flt (lead y))))));
  sd_exited : LocalExited ∈ locals y → over y = true
}.

Lemma keeps_over wi y y' : sys_inv fl y' → keeps wi (lead y) (lead y') → over y = true → over y' = true.
Proof using Type.
  intros Hy' [_ _ Hs Hc Hl Hf]. unfold over. rewrite !orb_true_iff. intros [[?|?]|Hd]; [auto..|right].
  unfold allDone in *. apply Z.eqb_eq in Hd. apply Z.eqb_eq. pose proof (ci_fdone _ (fi_count _ (si_fleet _ _ Hy'))) as E.
  pose proof (proj1 (sum_bools (fDone <$> work (flt (lead y'))))) as Hb. rewrite <- E, length_fmap in Hb. lia.
Qed.

(** What a step does to the goroutines of the leader. *)
Lemma step_locals y e y' wi :
  localW y = Some wi → step fl y e y' → length (locals y') = length (locals y) ∧ (LocalExited ∈ locals y' → LocalExited ∈ locals y ∨ over y = true).
Proof using Type.
  intros Hwi [He E].
  assert (Hins : ∀ k ls, length (<[k := ls]> (locals y)) = length (locals y) ∧
    (LocalExited ∈ <[k := ls]> (locals y) → LocalExited ∈ locals y ∨ ls = LocalExited)).
  { intros k ls. rewrite length_insert. split; [done|]. intros (i & Hi)%list_elem_of_lookup.
    apply list_lookup_insert_Some in Hi as [(-> & -> & _)|(_ & Hi)]; [by right|left]. by eapply list_elem_of_lookup_2. }
  destruct e as [name sl now|wj err now|wj r now|wj req now|tasks now|k now now'|k r now| |now|]; cbn [exec enabled] in E, He.
  - by injection E as <-; auto.
  - destruct (disconnect _ _ _ _); [|done]. injection E as <-. auto.
  - destruct (accept _ _ _ _ _); [|done]. injection E as <-. auto.
  - destruct (exchangeLocked _ _ _ _ _) as [[??]|]; [|done]. injection E as <-. auto.
  - destruct He as [He _]. congruence.
  - rewrite Hwi in E. cbn [mbind option_bind] in E. destruct (localAssign _ _ _ _ _) as [[ls st]|] eqn:El; [|done]. injection E as <-. simpl.
    destruct (Hins k ls) as [Hlen Hex]. split; [done|]. intros [?| ->]%Hex; [by left|right]. unfold over.
    unfold localAssign in El. destruct (_ || _); [done|]. destruct (assignLocked _ _ _ _ _) as [[[|b bs] st1]|]; [done| |done]. cbn [mbind option_bind] in El.
    destruct (heap _ !! _); [|done]. cbn [mbind option_bind] in El. destruct (work _ !! _); [|done]. cbn [mbind option_bind] in El.
    by destruct (updateRunningLocked _ _ _).
  - rewrite Hwi in E. cbn [mbind option_bind] in E. destruct (locals y !! k) as [[|id task|]|]; try done.
    destruct (accept _ _ _ _ _); [|done]. injection E as <-. simpl. destruct (Hins k LocalIdle) as [Hlen Hex]. split; [done|]. intros [?|?]%Hex; [by left|done].
  - injection E as <-. auto.
  - destruct (stopRun _ _); [|done]. injection E as <-. auto.
  - injection E as <-. auto.
Qed.

Lemma started_step y e y' wi : sys_inv fl y → sys_inv fl y' → started y wi → step fl y e y' → started y' wi.
Proof using Type.
  intros Hy Hy' [Hwi (w & Hw & Hs & He) Hr Hl Hx] Hst. destruct (exec_keeps fl wi y e y' Hy Hwi Hst) as [Hk Hwi'].
  destruct (step_locals y e y' wi Hwi Hst) as [Hlen Hex]. split.
  - done.
  - destruct (kp_worker _ _ _ Hk w Hw) as (w' & ? & ? & ?). exists w'. split_and!; [done|congruence..].
  - by rewrite (kp_ready _ _ _ Hk).
  - by rewrite Hlen, (kp_work _ _ _ Hk).
  - intros [?|?]%Hex; apply (keeps_over wi y y' Hy' Hk); auto.
Qed.

Lemma start_started y tasks now y' wi : sys_inv fl y → localW y = None → exec fl y (EvStart tasks now) = Some y' → localW y' = Some wi → started y' wi.
Proof using Type.
  intros Hy Hn E Hwi. cbn [exec] in E. destruct (startRun fl (lead y) tasks now) as [wj st] eqn:Es. injection E as <-. simpl in Hwi. injection Hwi as ->.
  destruct (startRun_workers fl (lead y) tasks now) as (w & Hws & Hwi & _ & Hsl & _). rewrite Es in Hws, Hwi. simpl in Hws, Hwi. pose proof (si_fleet _ _ Hy) as Hf.
  destruct (not_ready _ (fi_lease _ Hf) (fi_count _ Hf) (si_unstarted _ _ Hy Hn)) as (Hw0 & _).
  pose proof (startRun_work fl (lead y) tasks now Hw0) as Hwork. rewrite Es in Hwork. simpl in Hwork.
  assert (Hlast : workers (flt st) !! wi = Some w) by (rewrite Hws; by apply list_lookup_middle).
  split; simpl; [done| | | |].
  - exists w. split_and!; [done..|]. unfold startRun, addWorker in Es. injection Es as _ <-. simpl in Hws. rewrite alter_app_r_alt, Nat.sub_diag in Hws by done. simpl in Hws.
    apply app_inj_tail in Hws as [_ <-]. done.
  - unfold startRun, addWorker in Es. injection Es as _ <-. done.
  - rewrite Hwork, length_replicate, length_sort_by, length_fmap. lia.
  - by intros [??]%elem_of_replicate.
Qed.

Lemma reachable_started y wi : reachable fl y → localW y = Some wi → started y wi.
Proof using Type.
  intros Hr. revert wi. induction Hr as [y (s & _ & ->)|y e y' Hr IH Hst]; [done|]. intros wi Hwi.
  pose proof (reachable_inv _ _ Hr) as Hy. pose proof (reachable_inv _ _ (reach_step _ _ _ _ Hr Hst)) as Hy'.
  destruct (localW y) as [wj|] eqn:Hn.
  - destruct (exec_keeps fl wj y e y' Hy Hn Hst) as [_ Hwj]. assert (wj = wi) as -> by congruence. apply (started_step y e y'); auto.
  - destruct Hst as [He E]. assert (∃ tasks now, e = EvStart tasks now) as (tasks & now & ->); [|by apply (start_started y tasks now)].
    destruct e as [name sl now|wj err now|wj r now|wj req now|tasks now|k now now'|k r now| |now|]; cbn [exec] in E; try (by eauto);
      try (rewrite Hn in E; done).
    + injection E as <-. simpl in Hwi. congruence.
    + destruct (disconnect _ _ _ _); [|done]. injection E as <-. simpl in Hwi. congruence.
    + destruct (accept _ _ _ _ _); [|done]. injection E as <-. simpl in Hwi. congruence.
    + destruct (exchangeLocked _ _ _ _ _) as [[??]|]; [|done]. injection E as <-. simpl in Hwi. congruence.
    + injection E as <-. simpl in Hwi. congruence.
    + destruct (stopRun _ _); [|done]. injection E as <-. simpl in Hwi. congruence.
    + injection E as <-. simpl in Hwi. congruence.
Qed.

(** ** The leader alone *)

(** The steps by which the leader finishes: helpers are disconnected, its own
    workers take a test, and return with the result that [oracle] gives it. *)
Inductive alone_step (oracle : testTask → workerResult) (y y' : system) : Prop :=
  | AloneLeave wj now : step fl y (EvLeave wj None now) y' → alone_step oracle y y'
  | AloneAssign k now now' : step fl y (EvLocalAssign k now now') y' → alone_step oracle y y'
  | AloneFinish k id task now :
      locals y !! k = Some (LocalExec id task) → step fl y (EvLocalFinish k (oracle task) now) y' → alone_step oracle y y'.

Lemma alone_reachable oracle y y' : reachable fl y → rtc (alone_step oracle) y y' → reachable fl y'.
Proof using Type. intros Hr Hs. induction Hs as [|y y1 y' H1 _ IH]; [done|]. apply IH. destruct H1; by eapply reach_step. Qed.

(** Nobody but the leader's worker [wi] holds a lease. *)
Definition alone (y : system) (wi : nat) : Prop :=
  reachable fl y ∧ localW y = Some wi ∧ ∀ id, id ∈ leases (flt (lead y)) → owner (flt (lead y)) id = Some wi.

(** The tests without a verdict. *)
Definition undone (y : system) : Z := Z.of_nat (length (work (flt (lead y)))) - fdone (flt (lead y)).

Lemma undone_nonneg y : reachable fl y → 0 ≤ undone y.
Proof using Type.
  intros Hr%reachable_inv. unfold undone. rewrite (ci_fdone _ (fi_count _ (si_fleet _ _ Hr))).
  pose proof (proj1 (sum_bools (fDone <$> work (flt (lead y))))) as Hb. rewrite length_fmap in Hb. lia.
Qed.

Lemma leave_all oracle y wi n :
  reachable fl y → localW y = Some wi → (n ≤ length (workers (flt (lead y))))%nat →
  ∃ y', rtc (alone_step oracle) y y' ∧ locals y' = locals y ∧ localW y' = Some wi ∧ length (workers (flt (lead y'))) = length (workers (flt (lead y))) ∧
    ∀ id j, id ∈ leases (flt (lead y')) → owner (flt (lead y')) id = Some j → (j < n)%nat → j = wi.
Proof using Type.
  intros Hr Hwi. induction n as [|n IH]; intros Hn; [exists y; split_and!; [done..|lia]|].
  destruct IH as (y1 & Hs1 & Hl1 & Hw1 & Hlen1 & Ho1); [lia|]. destruct (decide (n = wi)) as [->|Hne].
  { exists y1. split_and!; [done..|]. intros id j Hid Hj Hlt. destruct (decide (j = wi)); [done|]. apply (Ho1 id j); [done..|lia]. }
  pose proof (alone_reachable _ _ _ Hr Hs1) as Hr1. pose proof (reachable_inv _ _ Hr1) as Hy1.
  destruct (lookup_lt_is_Some_2 (workers (flt (lead y1))) n) as [w Hw]; [lia|].
  assert (Hh : helper y1 n) by (split; [congruence|by eexists]).
  destruct (disconnect_inv (lead y1) n w None 0 (si_fleet _ _ Hy1) Hw) as (st & E & Hf & Hl & _ & _ & Hids & Ho & _).
  exists (y1 <| lead := st |>). split_and!.
  - eapply rtc_r; [exact Hs1|]. eapply (AloneLeave _ _ _ n 0). split; [done|]. cbn [exec]. by rewrite E.
  - done.
  - done.
  - simpl. apply (f_equal length) in Hids. rewrite !length_fmap in Hids. congruence.
  - simpl. intros id j Hid Hj Hlt. rewrite (proj1 (Ho id)) in Hj. rewrite Hl, elem_of_difference in Hid. destruct Hid as [Hid Hnot].
    destruct (decide (j = n)) as [->|]; [|by apply (Ho1 id j); [..|lia]]. exfalso. apply Hnot.
    apply (li_worker _ (fi_lease _ (si_fleet _ _ Hy1)) _ _ _ Hw). done.
Qed.

Lemma leave_alone oracle y wi : reachable fl y → localW y = Some wi → ∃ y', rtc (alone_step oracle) y y' ∧ alone y' wi.
Proof using Type.
  intros Hr Hwi. destruct (leave_all oracle y wi (length (workers (flt (lead y)))) Hr Hwi (le_n _)) as (y' & Hs & _ & Hwi' & Hlen & Ho).
  exists y'. split; [done|]. pose proof (alone_reachable _ _ _ Hr Hs) as Hr'. split_and!; [done|done|].
  intros id Hid. pose proof (si_fleet _ _ (reachable_inv _ _ Hr')) as Hf. destruct (lease_inv_lookup _ _ (fi_lease _ Hf) Hid) as (l & w & t & Hl & Hw & _).
  assert (Hown : owner (flt (lead y')) id = Some (lWorker l)) by (unfold owner; by rewrite Hl). rewrite Hown. f_equal.
  apply (Ho id); [done..|]. rewrite <- Hlen. by eapply lookup_lt_Some.
Qed.

(** An execution of the leader ends; it decides its test if the lease is live. *)
Lemma finish_one oracle y wi k id task :
  alone y wi → locals y !! k = Some (LocalExec id task) →
  ∃ y', alone_step oracle y y' ∧ alone y' wi ∧ locals y' = <[k := LocalIdle]> (locals y) ∧ undone y' ≤ undone y ∧
    (over y = false → id ∈ leases (flt (lead y)) → undone y' < undone y).
Proof using Type.
  intros (Hr & Hwi & Ho) Hk. pose proof (reachable_inv _ _ Hr) as Hy. pose proof (si_fleet _ _ Hy) as Hf.
  destruct (localFinish_inv fl y k (oracle task) id task 0 Hy Hk) as (wj & w & st & Hwj & Hw & E & Hcase & Hy').
  assert (wj = wi) as -> by congruence. set (y' := y <| lead := st |> <| locals ::= <[k := LocalIdle]> |>).
  assert (Hst : step fl y (EvLocalFinish k (oracle task) 0) y').
  { split; [cbn [enabled]; eauto|]. cbn [exec]. rewrite Hwi. cbn [mbind option_bind]. by rewrite Hk, E. }
  destruct (exec_keeps fl wi y _ y' Hy Hwi Hst) as [Hkp _]. exists y'. split_and!.
  - by eapply AloneFinish.
  - destruct (accept_shrinks _ _ _ _ _ _ Hf Hcase) as (_ & Hsub & Hown & _). split_and!; [by eapply reach_step|done|].
    intros id' Hid'. change (owner (flt st) id' = Some wi). rewrite Hown. apply Ho, Hsub, Hid'.
  - done.
  - unfold undone. pose proof (kp_work _ _ _ Hkp). pose proof (kp_fdone _ _ _ Hkp). lia.
  - intros [[Hs Hc]%orb_false_elim _]%orb_false_elim Hid. unfold undone. pose proof (kp_work _ _ _ Hkp) as Hl.
    destruct Hcase as [_ [Hno|[?|?]]|_ Hne _ _ _ _ _ _ _ _|l t _ _ _ _ _ _ Hce]; try congruence.
    + exfalso. apply Hno. apply (li_worker _ (fi_lease _ Hf) _ _ _ Hw). simpl. auto.
    + destruct (si_local _ _ Hy wi Hwi) as (w' & Hw' & Hid' & _). congruence.
    + pose proof (ce_fdone _ _ _ _ _ _ Hce) as Hd. change (flt (lead y')) with (flt st) in *. lia.
Qed.

(** The step changes neither [stopped] nor [ended]. *)
Lemma alone_running oracle y y' : reachable fl y → rtc (alone_step oracle) y y' → stopped (flt (lead y')) = stopped (flt (lead y)) ∧ ended y' = ended y.
Proof using Type.
  intros Hr Hs. induction Hs as [|y y1 y' H1 _ IH]; [done|]. pose proof (reachable_inv _ _ Hr) as Hy. pose proof (si_fleet _ _ Hy) as Hf.
  assert (reachable fl y1) as Hr1 by (destruct H1; by eapply reach_step). destruct (IH Hr1) as [-> ->]. clear IH.
  destruct H1 as [wj now [[_ [w Hw]] E]|k now now' [Hk E]|k id task now Hk [_ E]]; cbn [exec enabled] in *.
  - destruct (disconnect_inv (lead y) wj w None now Hf Hw) as (st & Ed & _ & _ & _ & _ & _ & _ & _ & _ & Hsp & _). rewrite Ed in E. by injection E as <-.
  - destruct (localAssign_inv fl y k now now' Hy Hk) as (wi & ls & st & Hwi & Ea & _). rewrite Hwi in E. cbn [mbind option_bind] in E. rewrite Ea in E. injection E as <-.
    destruct (si_local _ _ Hy wi Hwi) as (w & Hw & _).
    destruct (localAssign_spec fl (lead y) wi w now now' Hf Hw) as (ls' & st' & w' & E' & _ & _ & _ & _ & _ & Hsp & _). by simplify_eq/=.
  - destruct (localFinish_inv fl y k (oracle task) id task now Hy Hk) as (wi & w & st & Hwi & Hw & Ea & Hcase & _).
    rewrite Hwi in E. cbn [mbind option_bind] in E. rewrite Hk, Ea in E. injection E as <-. by destruct (accept_shrinks _ _ _ _ _ _ Hf Hcase) as (_ & _ & _ & _ & ? & _).
Qed.

(** Every execution of the leader ends. *)
Lemma finish_all oracle y wi :
  alone y wi → ∃ y', rtc (alone_step oracle) y y' ∧ alone y' wi ∧ undone y' ≤ undone y ∧ executing (locals y') = [].
Proof using Type.
  remember (length (executing (locals y))) as n eqn:Hn. revert y Hn. induction n as [|n IH]; intros y Hn Ha.
  { exists y. split_and!; [done..|]. by apply nil_length_inv. }
  assert (∃ k id task, locals y !! k = Some (LocalExec id task)) as (k & id & task & Hk).
  { destruct (executing (locals y)) as [|id ids] eqn:E; [done|]. assert (Hid : id ∈ executing (locals y)) by (rewrite E; left).
    apply list_elem_of_omap in Hid as (ls & (k & Hk)%list_elem_of_lookup & Hls). destruct ls; try done. eauto. }
  destruct (finish_one oracle y wi k id task Ha Hk) as (y1 & Hs1 & Ha1 & Hl1 & Hu1 & _).
  destruct (IH y1) as (y' & Hs' & Ha' & Hu' & He').
  - rewrite Hl1. apply take_drop_middle in Hk. rewrite <- Hk in Hn |- *. unfold executing in *.
    assert (Hlt : (k < length (locals y))%nat) by (apply (f_equal length) in Hk; rewrite length_app, length_take in Hk; simpl in Hk; lia).
    rewrite insert_app_r_alt by (rewrite length_take; lia). rewrite length_take, Nat.min_l, Nat.sub_diag by lia.
    rewrite !omap_app, !length_app in *. simpl in *. lia.
  - done.
  - exists y'. split_and!; [by eapply rtc_l|done|lia|done].
Qed.

(** A worker that holds nothing is given a test nobody holds. *)
Lemma assign_fresh st wi w now t :
  fleet_inv st → workers (flt st) !! wi = Some w → wLeases w = ∅ → 1 ≤ Slots w → wError w = "" →
  ready (flt st) = true → stopped (flt st) = false → canceled (srv st) = false → t ∈ work (flt st) → fresh t = true →
  ∃ b bs st', assignLocked fl st wi 1 now = Some (b :: bs, st').
Proof using Type.
  intros Hf Hw Hl Hsl He Hr Hs Hc Ht Hfr. unfold assignLocked. rewrite Hw. cbn [mbind option_bind]. rewrite Hr, Hs, Hc, bool_decide_true by done. cbn [negb orb].
  change (Z.to_nat 1) with 1%nat. cbn [assignLoop]. rewrite Hw. cbn [mbind option_bind]. rewrite Hl, size_empty.
  destruct (Z.leb_spec (Slots w) (Z.of_nat 0)); [lia|]. cbn [andb]. unfold nextLocked. rewrite Hw. cbn [mbind option_bind].
  rewrite nextFresh_spec. destruct (chooseFresh w (work (flt st))) as [ti|] eqn:Ec.
  - destruct (chooseFresh_Some _ _ _ Ec) as (u & -> & _). cbn [mbind option_bind]. simpl. eauto.
  - by rewrite (proj1 (chooseFresh_None _ _) Ec t Ht) in Hfr.
Qed.

(** The leader's own worker executes it, under a lease that is live. *)
Lemma localAssign_fresh st wi w now now' t :
  fleet_inv st → workers (flt st) !! wi = Some w → wLeases w = ∅ → 1 ≤ Slots w → wError w = "" →
  ready (flt st) = true → stopped (flt st) || canceled (srv st) || allDone (flt st) = false → t ∈ work (flt st) → fresh t = true →
  ∃ id task st', localAssign fl st wi now now' = Some (LocalExec id task, st') ∧ id ∈ leases (flt st').
Proof using Type.
  intros Hf Hw Hl Hsl He Hr Ho Ht Hfr. unfold localAssign. rewrite Ho. apply orb_false_elim in Ho as [[Hs Hc]%orb_false_elim _].
  destruct (assign_fresh st wi w now t) as (b & bs & st1 & E); try done. rewrite E. cbn [mbind option_bind].
  destruct (assignLocked_spec fl st wi 1 now w Hf Hw) as (bs' & st1' & E' & Hf1 & _ & Hab & _). rewrite E in E'. injection E' as <- <-.
  destruct (ab_new _ _ _ _ Hab b) as (_ & Hlive & ti & now1 & Hh); [left|]. rewrite Hh. cbn [mbind option_bind].
  destruct (lease_inv_lookup _ _ (fi_lease _ Hf1) Hlive) as (l & w2 & t2 & Hl2 & _ & Ht2 & _). rewrite Hh in Hl2. injection Hl2 as <-. simpl lWork in *. rewrite Ht2.
  cbn [mbind option_bind]. edestruct (putLease_inv st1 (wwLease b) _ (WorkLease ti wi now1 now' "running" CancelArmed) now' Hf1 Hlive Hh) as (s' & Eu & _); [done|done|]. simpl lWork in Eu.
  match goal with |- context [updateRunningLocked ?x ti now'] => change x with (putLease st1 (wwLease b) (WorkLease ti wi now1 now' "running" CancelArmed)) end.
  rewrite Eu. cbn [mbind option_bind]. eexists _, _, _. split; [reflexivity|done].
Qed.

(** With nobody holding a lease, a test that has no verdict is fresh. *)
Lemma undone_fresh st : fleet_inv st → leases (flt st) = ∅ → allDone (flt st) = false → ∃ t, t ∈ work (flt st) ∧ fresh t = true.
Proof using Type.
  intros Hf Hl Hd. destruct (list_find (λ t, fDone t = false) (work (flt st))) as [[ti t]|] eqn:Ef.
  - apply list_find_Some in Ef as (Ht & Hn & _). exists t. split; [by eapply list_elem_of_lookup_2|]. unfold fresh. rewrite Hn. cbn [negb andb]. apply bool_decide_true.
    apply set_eq. intros id. rewrite (li_task _ (fi_lease _ Hf) _ _ _ Ht), Hl. set_solver.
  - apply list_find_None in Ef. unfold allDone in Hd. apply Z.eqb_neq in Hd. destruct Hd. rewrite (ci_fdone _ (fi_count _ Hf)).
    induction Ef as [|t ts Ht _ IH]; [done|]. apply not_false_is_true in Ht. rewrite !fmap_cons, Ht. cbn [sumZ foldr Z.b2z length]. unfold sumZ in IH. rewrite IH. lia.
Qed.

(** The leases of the leader's worker are those its goroutines execute. *)
Lemma quiet_leases y wi : alone y wi → canceled (srv (lead y)) = false → executing (locals y) = [] → leases (flt (lead y)) = ∅.
Proof using Type.
  intros (Hr & Hwi & Ho) Hc He. pose proof (reachable_inv _ _ Hr) as Hy. destruct (si_local _ _ Hy wi Hwi) as (w & Hw & _ & _ & Hex).
  apply elem_of_equiv_empty_L. intros id Hid. destruct (Hex Hc id) as (k & task & Hk).
  { apply (li_worker _ (fi_lease _ (si_fleet _ _ Hy)) _ _ _ Hw). auto. }
  assert (Hin : id ∈ executing (locals y)); [|rewrite He in Hin; by apply not_elem_of_nil in Hin].
  apply list_elem_of_omap. exists (LocalExec id task). split; [by eapply list_elem_of_lookup_2|done].
Qed.

(** A goroutine that is free: there is one, and it has not exited. *)
Lemma idle_local y wi t :
  1 ≤ jobs fl → started y wi → over y = false → executing (locals y) = [] → t ∈ work (flt (lead y)) → locals y !! 0%nat = Some LocalIdle.
Proof using Type.
  intros Hj Hsd Ho He Ht. destruct (locals y) as [|ls lss] eqn:El.
  - pose proof (sd_locals _ _ Hsd) as Hl. rewrite El in Hl. destruct (work _); [by apply not_elem_of_nil in Ht|simpl in Hl; lia].
  - destruct ls as [|id task|]; [done|done|]. rewrite (sd_exited _ _ Hsd) in Ho; [done|]. rewrite El. left.
Qed.

(** A goroutine takes a test and returns with its result: one test less. *)
Lemma one_test oracle y wi :
  1 ≤ jobs fl → alone y wi → over y = false → executing (locals y) = [] →
  ∃ y', rtc (alone_step oracle) y y' ∧ alone y' wi ∧ undone y' < undone y.
Proof using Type.
  intros Hj Ha Ho He. pose proof Ha as (Hr & Hwi & _). pose proof (reachable_inv _ _ Hr) as Hy. pose proof (si_fleet _ _ Hy) as Hf.
  pose proof (reachable_started y wi Hr Hwi) as Hsd. destruct (sd_worker _ _ Hsd) as (w & Hw & Hsl & Hwe). pose proof Ho as [[Hs Hc]%orb_false_elim Hd]%orb_false_elim.
  pose proof (quiet_leases y wi Ha Hc He) as Hl0. destruct (undone_fresh _ Hf Hl0 Hd) as (t & Ht & Hfr). pose proof (idle_local y wi t Hj Hsd Ho He Ht) as Hk.
  assert (Hwl : wLeases w = ∅).
  { apply set_eq. intros id. rewrite (li_worker _ (fi_lease _ Hf) _ _ _ Hw), Hl0. set_solver. }
  destruct (localAssign_fresh (lead y) wi w 0 0 t) as (id & task & st & E & Hid); try done; [lia|apply (sd_ready _ _ Hsd)|].
  destruct (localAssign_spec fl (lead y) wi w 0 0 Hf Hw) as (ls & st' & w' & E' & Hf' & Hq & Hw' & _ & Hoth & Hsp & _ & Hcan & Hls). rewrite E in E'. injection E' as <- <-.
  set (y1 := y <| lead := st |> <| locals ::= <[0%nat := LocalExec id task]> |>).
  assert (Hst : step fl y (EvLocalAssign 0 0 0) y1) by (split; [done|]; cbn [exec]; rewrite Hwi; cbn [mbind option_bind]; by rewrite E).
  destruct (exec_keeps fl wi y _ y1 Hy Hwi Hst) as [Hkp _].
  assert (Hdone : fdone (flt st) = fdone (flt (lead y))).
  { rewrite (ci_fdone _ (fi_count _ Hf)), (ci_fdone _ (fi_count _ Hf')). by rewrite (qs_done _ _ Hq). }
  assert (Ha1 : alone y1 wi).
  { split_and!; [by eapply reach_step|done|]. intros id' Hid'. destruct (lease_inv_lookup _ _ (fi_lease _ Hf') Hid') as (l & w2 & t2 & Hl & Hw2 & _ & Hin & _).
    change (owner (flt st) id' = Some wi). unfold owner. rewrite Hl. simpl. f_equal. destruct (decide (lWorker l = wi)) as [|Hne]; [done|]. exfalso.
    rewrite (Hoth _ Hne) in Hw2. apply (li_worker _ (fi_lease _ Hf) _ _ _ Hw2) in Hin as [Hin _]. rewrite Hl0 in Hin. set_solver. }
  assert (Ho1 : over y1 = false).
  { unfold over, allDone. change (flt (lead y1)) with (flt st). change (srv (lead y1)) with (srv st). pose proof (kp_work _ _ _ Hkp) as Hlen.
    change (flt (lead y1)) with (flt st) in Hlen. unfold allDone in Hd. by rewrite Hsp, Hs, Hcan, Hc, Hdone, Hlen. }
  destruct (finish_one oracle y1 wi 0 id task Ha1) as (y2 & Hs2 & Ha2 & _ & _ & Hlt).
  { simpl. apply list_lookup_insert_eq. by eapply lookup_lt_Some. }
  exists y2. split_and!; [|done|].
  - eapply rtc_l; [by eapply AloneAssign|]. by apply rtc_once.
  - specialize (Hlt Ho1 Hid). pose proof (kp_work _ _ _ Hkp) as Hlen. unfold undone in *. change (flt (lead y1)) with (flt st) in *. lia.
Qed.

Lemma alone_finishes oracle y wi :
  1 ≤ jobs fl → alone y wi → ∃ y', rtc (alone_step oracle) y y' ∧ alone y' wi ∧ over y' = true ∧ executing (locals y') = [].
Proof using Type.
  intros Hj Ha. remember (Z.to_nat (undone y)) as n eqn:Hn. revert y Hn Ha. induction (lt_wf n) as [n _ IH]. intros y -> Ha.
  destruct (finish_all oracle y wi Ha) as (y1 & Hs1 & Ha1 & Hu1 & He1). destruct (over y1) eqn:Ho; [by exists y1|].
  destruct (one_test oracle y1 wi Hj Ha1 Ho He1) as (y2 & Hs2 & Ha2 & Hlt). pose proof (undone_nonneg y2 (proj1 Ha2)).
  destruct (IH (Z.to_nat (undone y2)) ltac:(lia) y2 eq_refl Ha2) as (y' & Hs' & Ha' & Ho' & He'). exists y'. split_and!; [|done..].
  etrans; [exact Hs1|]. by etrans.
Qed.

Definition isIdle (ls : localState) : bool := match ls with LocalIdle => true | _ => false end.

(** Once the run is over, every goroutine that is free exits. *)
Lemma exit_all oracle y wi :
  reachable fl y → localW y = Some wi → over y = true → executing (locals y) = [] →
  ∃ y', rtc (alone_step oracle) y y' ∧ (∀ ls, ls ∈ locals y' → ls = LocalExited) ∧ lead y' = lead y ∧ ended y' = ended y.
Proof using Type.
  intros Hr Hwi Ho He. remember (length (filter (λ ls, isIdle ls = true) (locals y))) as n eqn:Hn. revert y Hr Hwi Ho He Hn. induction n as [|n IH]; intros y Hr Hwi Ho He Hn.
  - exists y. split_and!; [done| |done..]. intros ls Hls. destruct ls as [|id task|]; [|exfalso|done].
    + symmetry in Hn. apply nil_length_inv in Hn. assert (Hin : LocalIdle ∈ filter (λ ls, isIdle ls = true) (locals y)) by (by apply list_elem_of_filter). rewrite Hn in Hin. by apply not_elem_of_nil in Hin.
    + assert (Hin : id ∈ executing (locals y)) by (apply list_elem_of_omap; by exists (LocalExec id task)). rewrite He in Hin. by apply not_elem_of_nil in Hin.
  - assert (∃ k, locals y !! k = Some LocalIdle) as [k Hk].
    { destruct (filter _ _) as [|ls lss] eqn:E; [done|]. assert (Hin : ls ∈ filter (λ ls, isIdle ls = true) (locals y)) by (rewrite E; left).
      apply list_elem_of_filter in Hin as [Hid Hin]. destruct ls; try done. by apply list_elem_of_lookup in Hin. }
    set (y1 := y <| locals ::= <[k := LocalExited]> |>).
    assert (Hst : step fl y (EvLocalAssign k 0 0) y1).
    { split; [done|]. cbn [exec]. rewrite Hwi. cbn [mbind option_bind]. unfold localAssign. unfold over in Ho. by rewrite Ho. }
    assert (Hmid : locals y = take k (locals y) ++ LocalIdle :: drop (S k) (locals y)) by (symmetry; by apply take_drop_middle).
    assert (Hmid1 : locals y1 = take k (locals y) ++ LocalExited :: drop (S k) (locals y)) by (simpl; apply insert_take_drop; by eapply lookup_lt_Some).
    destruct (IH y1) as (y' & Hs' & Hall & Hl' & He').
    + by eapply reach_step.
    + done.
    + exact Ho.
    + unfold executing in *. rewrite Hmid, omap_app in He. simpl in He. by rewrite Hmid1, omap_app.
    + rewrite Hmid, filter_app, filter_cons_True, length_app in Hn by done. rewrite Hmid1, filter_app, filter_cons_False, length_app by done. simpl in Hn. lia.
    + exists y'. split_and!; [|done..]. eapply rtc_l; [by eapply AloneAssign|done].
Qed.

(** From wherever a run is, it ends and its goroutines exit. *)
Lemma run_ends oracle y wi :
  1 ≤ jobs fl → reachable fl y → localW y = Some wi → stopped (flt (lead y)) = false →
  ∃ y1 y2 y3, rtc (alone_step oracle) y y1 ∧ step fl y1 (EvStop 0) y2 ∧ rtc (alone_step oracle) y2 y3 ∧
    ended y3 = true ∧ (∀ ls, ls ∈ locals y3 → ls = LocalExited) ∧ (canceled (srv (lead y1)) = false → None ∉ verdicts y3).
Proof using Type.
  intros Hj Hr Hwi Hs. destruct (leave_alone oracle y wi Hr Hwi) as (y0 & Hs0 & Ha0).
  destruct (alone_finishes oracle y0 wi Hj Ha0) as (y1 & Hs1 & Ha1 & Ho & Hex). assert (Hs01 : rtc (alone_step oracle) y y1) by (by etrans).
  destruct (alone_running oracle y y1 Hr Hs01) as [Hst Hen]. pose proof (alone_reachable oracle y y1 Hr Hs01) as Hr1. pose proof (reachable_inv _ _ Hr1) as Hy1.
  destruct (stop_inv fl y1 0 Hy1) as (st & E & Hq & Hy2). set (y2 := y1 <| lead := st |> <| ended := true |>).
  unfold over in Ho. rewrite Hst, Hs in Ho. cbn [orb] in Ho.
  assert (Hstep : step fl y1 (EvStop 0) y2).
  { split; [|cbn [exec]; by rewrite E]. split_and!; [by rewrite (proj1 (proj2 Ha1))| |by rewrite orb_comm].
    destruct (ended y1) eqn:Hend; [|done]. pose proof (si_ended _ _ Hy1 Hend). congruence. }
  pose proof (reach_step _ _ _ _ Hr1 Hstep) as Hr2. pose proof (si_ended _ _ Hy2 eq_refl) as Hs2.
  destruct (exit_all oracle y2 wi Hr2 (proj1 (proj2 Ha1))) as (y3 & Hs3 & Hall & Hl3 & He3); [unfold over; by rewrite (Hs2 : stopped (flt (lead y2)) = true)|done|].
  exists y1, y2, y3. split_and!; [done..|]. intros Hc. rewrite Hc in Ho. cbn [orb] in Ho.
  unfold verdicts. rewrite Hl3. apply (decided_count fl y2 (reachable_inv _ _ Hr2)). unfold allDone in *. apply Z.eqb_eq in Ho. apply Z.eqb_eq. change (flt (lead y2)) with (flt st).
  pose proof (ci_fdone _ (fi_count _ (si_fleet _ _ Hy1))) as H1. pose proof (ci_fdone _ (fi_count _ (si_fleet _ _ Hy2))) as H2. change (lead (y1 <| lead := st |> <| ended := true |>)) with st in H2.
  rewrite (qs_done _ _ Hq) in H2. pose proof (f_equal length (qs_done _ _ Hq)) as H3. rewrite !length_fmap in H3. congruence.
Qed.
End alone.
