(* ===== verification/FleetRun.v ===== *)
(** * A distributed run, from the first phase to the last (gotst.go, distributed.go)

    [Run] of a leader with helpers: discovery, build and listing are those of
    Run.v, and the tests are run by the fleet of FleetSystem.v.  The fleet is
    there before [Run] starts: helpers join, report, leave and come back in every
    phase.  Until [fleet.run] starts the queue they change nothing of the
    [Server] ([unstarted_srv]), so the phases before it are one step here. *)

From S2P Require Import Prelude GoStrings Flags Path Profile Utf8 Invocation GoFmt Args Sha256 Quote CappedBuffer HistoryTypes TestCache Server History Pool CacheTypes Discover Run Fleet FleetInv FleetCommit FleetSteps FleetSystem FleetTheorems FleetGrowth FleetAlone.

(** ** Before the queue is there *)

Section unstarted.
Context `{GoRuntime} (fl : flags).

Lemma no_leases y wi w : sys_inv fl y → localW y = None → workers (flt (lead y)) !! wi = Some w → wLeases w = ∅.
Proof using Type.
  intros Hy Hn Hw. pose proof (si_fleet _ _ Hy) as Hf. destruct (not_ready _ (fi_lease _ Hf) (fi_count _ Hf) (si_unstarted _ _ Hy Hn)) as (_ & _ & Hl & _).
  apply set_eq. intros id. rewrite (li_worker _ (fi_lease _ Hf) _ _ _ Hw), Hl. set_solver.
Qed.

(** A worker without leases reports nothing. *)
Lemma reportActive_idle now wi w es : ∀ acc,
  workers (flt acc.2) !! wi = Some w → wLeases w = ∅ →
  ∃ cancel, foldl (λ a e, a ≫= λ a, reportActive now wi a e) (Some acc) es = Some (cancel, acc.2).
Proof using Type.
  induction es as [|[id state] es IH]; intros [cancel st] Hw Hl; [by eexists|]. simpl in Hw. cbn [foldl mbind option_bind].
  assert (reportActive now wi (cancel, st) (id, state) = Some (cancel ++ [id], st)) as ->.
  { unfold reportActive. rewrite Hw. cbn [mbind option_bind]. rewrite bool_decide_true; [done|]. rewrite Hl. set_solver. }
  by apply (IH (cancel ++ [id], st)).
Qed.

(** The same fleet with another [Server]. *)
Definition onServer (y : system) (s : Server) : system := System (Leader s (flt (lead y))) (localW y) (locals y) (ended y).

Lemma onServer_self y : onServer y (srv (lead y)) = y.
Proof using Type. by destruct y as [[] ? ? ?]. Qed.

(** Without the queue, an event of a helper is one of the fleet alone: it reads
    and changes nothing of the [Server]. *)
Lemma unstarted_exec y e :
  sys_inv fl y → localW y = None → enabled y e → (∀ ts now, e ≠ EvStart ts now) → e ≠ EvCancel →
  ∃ f', ∀ s, exec fl (onServer y s) e = Some (System (Leader s f') None (locals y) (ended y)).
Proof using Type.
  intros Hy Hn He Hne Hnc. unfold onServer. rewrite Hn. pose proof (λ wi w, no_leases y wi w Hy Hn) as Hl. pose proof (si_unstarted _ _ Hy Hn) as Hr. pose proof (si_locals _ _ Hy Hn) as Hls.
  destruct e as [name sl now|wj err now|wj r now|wj req now|tasks now|k now now'|k r now| |now|]; cbn [enabled] in He; try done.
  - exists (flt (addWorker (lead y) name sl false now).2). done.
  - destruct He as [_ [w Hw]]. set (w0 := w <| Connected := false |> <| Left := now |>). set (w1 := match err with Some e => w0 <| wError := Error e |> | None => w0 end).
    exists (flt (notify (putWorker (lead y) wj w1))). intros s. cbn [exec]. unfold disconnect. cbn [lead flt]. rewrite Hw. cbn [mbind option_bind]. fold w0. fold w1. assert (Hw0 : wLeases w1 = ∅) by (unfold w1; destruct err; apply (Hl wj w Hw)).
    rewrite Hw0. unfold removeLeases. rewrite elements_empty. reflexivity.
  - destruct He as [_ [w Hw]]. exists (flt (lead y)). intros s. cbn [exec]. unfold accept. cbn [lead flt]. rewrite Hw. cbn [mbind option_bind].
    rewrite bool_decide_true by (rewrite (Hl wj w Hw); set_solver). reflexivity.
  - destruct He as [_ [w Hw]]. specialize (Hl wj w Hw). set (w1 := w <| LastSeen := now |> <| binaries ::= λ b, list_to_set (Binaries req) ∪ b |>).
    exists (flt (putWorker (lead y) wj w1)). intros s. cbn [exec]. unfold exchangeLocked. cbn [lead flt]. rewrite Hw. cbn [mbind option_bind]. fold w1.
    set (st1 := putWorker (Leader s (flt (lead y))) wj w1). assert (Hw1 : workers (flt st1) !! wj = Some w1) by (apply list_lookup_insert_eq; by eapply lookup_lt_Some).
    destruct (reportActive_idle now wj w1 (Active req) ([], st1) Hw1 Hl) as [cancel Ef]. rewrite Ef. cbn [mbind option_bind snd].
    rewrite Hw1. cbn [mbind option_bind]. unfold assignLocked. rewrite Hw1. cbn [mbind option_bind].
    change (ready (flt st1)) with (ready (flt (lead y))). rewrite Hr. cbn [negb orb mbind option_bind]. by destruct (negb _ && _).
  - by destruct (Hne tasks now).
  - by rewrite Hls in He.
  - destruct He as (id & task & He). by rewrite Hls in He.
  - destruct He as [[? ?] _]. congruence.
  - by exists ((flt (lead y)) <| stopped := true |>).
Qed.

(** So it leads to the same fleet whatever the [Server] is. *)
Lemma unstarted_step y e y' :
  sys_inv fl y → localW y = None → step fl y e y' → (∀ ts now, e ≠ EvStart ts now) → e ≠ EvCancel →
  srv (lead y') = srv (lead y) ∧ localW y' = None ∧ ended y' = ended y ∧ ∀ s, step fl (onServer y s) e (onServer y' s).
Proof using Type.
  intros Hy Hn [He E] Hne Hnc. destruct (unstarted_exec y e Hy Hn He Hne Hnc) as [f' Hf]. pose proof (Hf (srv (lead y))) as Hs. rewrite onServer_self, E in Hs.
  injection Hs as ->. split_and!; [done..|]. intros s. split; [destruct e; try done|apply Hf].
  destruct He as [[wi Hwi] _]. congruence.
Qed.

(** The fleet that helpers made of an empty one is reachable with every [Server]. *)
Lemma unstarted_any y s : reachable fl y → localW y = None → server_ok s → reachable fl (onServer y s).
Proof using Type.
  intros Hr. induction Hr as [y (s0 & _ & ->)|y e y' Hr IH Hst]; intros Hn Hs; [apply reach_init; by exists s|].
  pose proof (reachable_inv _ _ Hr) as Hy. assert (Hny : localW y = None).
  { destruct (localW y) as [wi|] eqn:E; [|done]. destruct (exec_keeps fl wi y e y' Hy E Hst). congruence. }
  assert (Hdec : (∃ ts now, e = EvStart ts now) ∨ e = EvCancel ∨ ((∀ ts now, e ≠ EvStart ts now) ∧ e ≠ EvCancel))
    by (destruct e; eauto; right; right; by split).
  destruct Hdec as [(ts & now & ->)|[->|[Hne Hnc]]].
  - destruct Hst as [_ E]. cbn [exec] in E. destruct (startRun _ _ _ _). by injection E as <-.
  - destruct Hst as [_ E]. injection E as <-. by apply IH.
  - eapply reach_step; [by apply IH|]. by apply (unstarted_step y e y').
Qed.
End unstarted.

(** ** The whole run *)

(** Where [Run] is: in the phases before the tests, in [fleet.run], or returned. *)
Inductive drun := Preparing | Testing (tasks : list testTask) | Returned (err : option error).

Record dist := Dist { dAt : drun; dSys : system }.

Section dist.
Context `{GoRuntime, EventCodec} (fl : flags) (env : runEnv) (lookup : list Key → result (gmap string History)).

(** What the helpers do, in every phase. *)
Definition fromHelper (e : event) : bool :=
  match e with EvJoin _ _ _ | EvLeave _ _ _ | EvResult _ _ _ | EvPoll _ _ _ => true | _ => false end.

(** What happens in [fleet.run] besides: its own workers, and the end of its loop. *)
Definition inRun (e : event) : bool :=
  fromHelper e || match e with EvLocalAssign _ _ _ | EvLocalFinish _ _ _ | EvStop _ => true | _ => false end.

(** [Run] returns: the deferred functions shut the fleet down and set the phase. *)
Definition returns (y : system) (err : option error) (now : Time) : dist :=
  Dist (Returned err) (System (Leader (finishRun (srv (lead y)) err now) ((flt (lead y)) <| stopped := true |>)) (localW y) (locals y) (ended y)).

(** [Run] of a [Server] with a fleet. *)
Inductive dstep : dist → dist → Prop :=
  | DHelper y e y' : fromHelper e = true → step fl y e y' → dstep (Dist Preparing y) (Dist Preparing y')
  | DFail y e s1 now : beforeTests fl (srv (lead y)) env = Some (Some e, s1) →
      dstep (Dist Preparing y) (returns (onServer y s1) (Some e) now)
  | DBuildOnly y s1 now : beforeTests fl (srv (lead y)) env = Some (None, s1) → buildOnly fl = true →
      dstep (Dist Preparing y) (returns (onServer y s1) None now)
  | DNoTests y s1 s2 now now' : beforeTests fl (srv (lead y)) env = Some (None, s1) → buildOnly fl = false →
      prepareTasks fl s1 lookup now = Some (s2, None) →
      dstep (Dist Preparing y) (returns (onServer y s2) None now')
  | DStart y s1 s2 tasks now now' y' : beforeTests fl (srv (lead y)) env = Some (None, s1) → buildOnly fl = false →
      prepareTasks fl s1 lookup now = Some (s2, Some tasks) →
      exec fl (onServer y s2) (EvStart tasks now') = Some y' →
      dstep (Dist Preparing y) (Dist (Testing tasks) y')
  | DRun tasks y e y' : inRun e = true → step fl y e y' → dstep (Dist (Testing tasks) y) (Dist (Testing tasks) y')
  | DReturn tasks y now : ended y = true → (∀ ls, ls ∈ locals y → ls = LocalExited) →
      dstep (Dist (Testing tasks) y) (returns y (runResult (lead y)) now).

(** The steps that need the leader only: its workers take tests and return with
    what [oracle] says, helpers are disconnected, and [run] and [Run] go on. *)
Inductive leader_step (oracle : testTask → workerResult) : dist → dist → Prop :=
  | LAlone tasks y y' : alone_step fl oracle y y' → leader_step oracle (Dist (Testing tasks) y) (Dist (Testing tasks) y')
  | LStop tasks y y' now : step fl y (EvStop now) y' → leader_step oracle (Dist (Testing tasks) y) (Dist (Testing tasks) y')
  | LReturn tasks y now : ended y = true → (∀ ls, ls ∈ locals y → ls = LocalExited) →
      leader_step oracle (Dist (Testing tasks) y) (returns y (runResult (lead y)) now).

Lemma leader_dstep oracle d d' : leader_step oracle d d' → dstep d d'.
Proof using Type.
  intros [tasks y y' Hs|tasks y y' now Hs|tasks y now He Hl].
  - destruct Hs as [wj now Hs|k now now' Hs|k id task now _ Hs]; by (eapply DRun; [|exact Hs]).
  - by (eapply DRun; [|exact Hs]).
  - by apply DReturn.
Qed.

Lemma leader_alone oracle tasks y y' : rtc (alone_step fl oracle) y y' → rtc (leader_step oracle) (Dist (Testing tasks) y) (Dist (Testing tasks) y').
Proof using Type. induction 1; [done|]. eapply rtc_l; [by apply LAlone|done]. Qed.

(** Before [Run]: an empty fleet. *)
Definition dinit (s : Server) : dist := Dist Preparing (System (Leader s newFleet) None [] false).
End dist.

Section phases.
Context `{GoRuntime, EventCodec} (fl : flags) (env : runEnv).
Hypothesis snarf_hash : ∀ text es, decodeSnarf text = Ok es → esExeHash es ≠ "".

(** The tests of the queue are those of [startRun]'s precondition. *)
Lemma prepareTasks_startable s lookup now s2 tasks : Run.fresh s → prepareTasks fl s lookup now = Some (s2, Some tasks) → startable s2 tasks.
Proof using Type.
  intros Hf. unfold prepareTasks. destruct (capturedTestBinaries s) as [|b bs] eqn:Hb; [intros E; congruence|].
  destruct (allTestTasks_spec s now (fresh_ok s Hf)) as (s' & l & Ea & Hok & Hnd & Hl & Hkn). rewrite Ea. cbn [mbind option_bind]. intros E.
  set (sl := loadHistory fl s' l lookup) in E.
  assert (tasks = orderTestTasksByHistory fl sl l) as -> by congruence. assert (Hs2 : s2 = prepareTestEstimates fl sl (orderTestTasksByHistory fl sl l)) by congruence. clear E.
  assert (Hp : pkgs s2 = pkgs s').
  { subst s2. unfold prepareTestEstimates, sl, loadHistory. simpl. destruct (_ || _); [done|]. destruct (historyLoaded _); [done|]. by destruct (lookup _). }
  assert (Hperm : orderTestTasksByHistory fl sl l ≡ₚ l) by apply sort_by_perm. split_and!.
  - unfold server_ok. by rewrite Hp.
  - by rewrite Hperm.
  - intros task Ht. rewrite Hperm in Ht. destruct (Hkn task Ht) as [[[ps ts] Hat] _]. exists ts. rewrite (statusOf_pkgs s' s2 task Hp). unfold statusOf. rewrite Hat. split; [done|].
    apply testAt_Some in Hat as [Hps Hts]. unfold allTestTasks in Ea.
    destruct (binsTasks_spec (capturedTestBinaries s) now s s []) as (s'' & Eb & _ & Hsame); [by apply fresh_ok|done|by intros c (? & ? & _)%elem_of_capturedTestBinaries|].
    rewrite Eb in Ea. injection Ea as -> _. specialize (Hsame (pkg (bin task))). rewrite Hps in Hsame. destruct (pkgs s !! pkg (bin task)) as [ps0|] eqn:Hps0; [|done].
    injection Hsame as Hsame. rewrite Hsame in Hts. apply (pf_tests _ (Hf _ _ Hps0) _ _ Hts).
Qed.

(** No event of a run that has started changes which tests are in the queue. *)
Lemma step_tasks y e y' : reachable fl y → (∀ ts now, e ≠ EvStart ts now) → e ≠ EvCancel → step fl y e y' → fTask <$> work (flt (lead y')) = fTask <$> work (flt (lead y)).
Proof using Type.
  intros Hr Hne Hnc [He E]. destruct (step_total fl y e (reachable_inv _ _ Hr) He) as (y1 & E1 & _ & Heff). assert (y1 = y') as -> by congruence.
  destruct Heff as [Hq _|_ _ _ ?|ts now ? _ _|wi w r _ _ Hc _]; [by apply Hq|done|by destruct (Hne ts now)|].
  destruct Hc as [-> _|_ _ _ _ _ Ht _ _ _ _|l t _ _ _ _ _ _ Hce]; [done|done|by apply Hce].
Qed.

(** The fleet is stopped by the end of [run]'s loop only. *)
Lemma step_stopped y e y' : reachable fl y → inRun e = true → step fl y e y' →
  stopped (flt (lead y)) = ended y → stopped (flt (lead y')) = ended y'.
Proof using Type.
  intros Hr Hin [He E] Hs. pose proof (reachable_inv _ _ Hr) as Hy. pose proof (si_fleet _ _ Hy) as Hf.
  assert (Hacc : ∀ wj r now st w, workers (flt (lead y)) !! wj = Some w → accept fl (lead y) wj r now = Some st → stopped (flt st) = stopped (flt (lead y))).
  { intros wj r now st w Hw Ea. destruct (accept_spec fl (lead y) wj w r now Hf Hw) as (st' & Ea' & _ & Hc). assert (st' = st) as -> by congruence.
    by destruct (accept_shrinks _ _ _ _ _ _ Hf Hc) as (_ & _ & _ & _ & ? & _). }
  destruct e as [name sl now|wj err now|wj r now|wj req now|tasks now|k now now'|k r now| |now|]; try done; cbn [exec enabled] in E, He.
  - by injection E as <-.
  - destruct He as [_ [w Hw]]. destruct (disconnect_inv (lead y) wj w err now Hf Hw) as (st & Ed & _ & _ & _ & _ & _ & _ & _ & _ & Hsp & _). rewrite Ed in E. injection E as <-. simpl. congruence.
  - destruct He as [_ [w Hw]]. destruct (accept fl (lead y) wj r now) as [st|] eqn:Ea; [|done]. injection E as <-. simpl. by rewrite (Hacc _ _ _ _ _ Hw Ea).
  - destruct He as [_ [w Hw]]. destruct (exchangeLocked_spec fl (lead y) wj w req now Hf Hw) as (res & st & w' & Ex & _ & _ & _ & _ & _ & _ & _ & _ & Hsp & _). rewrite Ex in E. injection E as <-. simpl. congruence.
  - destruct (localAssign_inv fl y k now now' Hy He) as (wi & ls & st & Hwi & Ea & _). destruct (si_local _ _ Hy wi Hwi) as (w & Hw & _).
    destruct (localAssign_spec fl (lead y) wi w now now' Hf Hw) as (ls' & st' & w' & E' & _ & _ & _ & _ & _ & Hsp & _). rewrite Hwi in E. cbn [mbind option_bind] in E. rewrite E' in E. injection E as <-. simpl. congruence.
  - destruct He as (id & task & Hk). destruct (localFinish_inv fl y k r id task now Hy Hk) as (wi & w & st & Hwi & Hw & Ea & _). rewrite Hwi in E. cbn [mbind option_bind] in E. rewrite Hk, Ea in E. injection E as <-. simpl.
    by rewrite (Hacc _ _ _ _ _ Hw Ea).
  - destruct (stopRun_spec (lead y) now Hf) as (st & Ed & _ & _ & _ & Hsp & _). rewrite Ed in E. injection E as <-. done.
Qed.

(** What a state of the run says of how it got there. *)
Definition dist_inv (s : Server) (lookup : list Key → result (gmap string History)) (d : dist) : Prop :=
  match dAt d with
  | Preparing => reachable fl (dSys d) ∧ localW (dSys d) = None ∧ ended (dSys d) = false ∧ srv (lead (dSys d)) = s ∧ stopped (flt (lead (dSys d))) = false
  | Testing tasks => reachable fl (dSys d) ∧ fTask <$> work (flt (lead (dSys d))) ≡ₚ tasks ∧
      is_Some (localW (dSys d)) ∧ stopped (flt (lead (dSys d))) = ended (dSys d) ∧
      ∃ s1 s2 now, beforeTests fl s env = Some (None, s1) ∧ prepareTasks fl s1 lookup now = Some (s2, Some tasks)
  | Returned (Some _) => True
  | Returned None => ∃ s1 s2 tasks now, beforeTests fl s env = Some (None, s1) ∧ prepareTasks fl s1 lookup now = Some (s2, tasks) ∧
      ∀ l, tasks = Some l → ∀ task, task ∈ l → ∃ ts, statusOf (srv (lead (dSys d))) task = Some ts ∧ done ts = true ∧ passed ts = true
  end.

Lemma dist_step_inv s lookup d d' :
  pkgs s = ∅ → env_ok env → buildOnly fl = false → dist_inv s lookup d → dstep fl env lookup d d' → dist_inv s lookup d'.
Proof using snarf_hash.
  intros Hs Henv Hbo Hd Hst. destruct Hst as [y e y' He Hst|y e s1 now _|y s1 now _ ?|y s1 s2 now now' Hb _ Hp|y s1 s2 tasks now now' y' Hb _ Hp E|tasks y e y' He Hst|tasks y now Hend Hls]; unfold dist_inv in *; cbn [dAt dSys returns] in *.
  - destruct Hd as (Hr & Hn & Hen & Hsrv & Hsp). assert (Hne : (∀ ts now, e ≠ EvStart ts now) ∧ e ≠ EvCancel) by (by destruct e). destruct Hne as [Hne Hnc].
    destruct (unstarted_step fl y e y' (reachable_inv _ _ Hr) Hn Hst Hne Hnc) as (Hs' & Hn' & Hen' & _). 
    assert (Hin : inRun e = true) by (by destruct e). pose proof (step_stopped y e y' Hr Hin Hst ltac:(congruence)). split_and!; [by eapply reach_step|congruence..].
  - done.
  - congruence.
  - destruct Hd as (_ & _ & _ & <- & _). exists s1, s2, None, now. split_and!; [done..|]. intros l [=].
  - destruct Hd as (Hr & Hn & Hen & <- & Hsp). destruct (beforeTests_fresh fl snarf_hash _ _ _ Hs Henv Hbo Hb) as [Hf _]. pose proof (prepareTasks_startable _ _ _ _ _ Hf Hp) as Hsa.
    assert (Hr' : reachable fl (onServer y s2)) by (apply unstarted_any; [done|done|apply Hsa]). split_and!.
    + eapply reach_step; [exact Hr'|]. split; [|exact E]. by split_and!.
    + cbn [exec] in E. pose proof (si_fleet _ _ (reachable_inv _ _ Hr')) as Hfl. destruct (not_ready _ (fi_lease _ Hfl) (fi_count _ Hfl) (si_unstarted _ _ (reachable_inv _ _ Hr') Hn)) as (Hw & _).
      pose proof (startRun_work fl (lead (onServer y s2)) tasks now' Hw) as Hwork. destruct (startRun _ _ _ _) as [wi st]. injection E as <-. simpl in Hwork |- *. rewrite Hwork, sort_by_perm, <- list_fmap_compose.
      apply reflexive_eq. rewrite <- (list_fmap_id tasks) at 2. by apply list_fmap_ext.
    + cbn [exec] in E. destruct (startRun _ _ _ _) as [wi st]. injection E as <-. by eexists.
    + cbn [exec] in E. unfold startRun, addWorker in E. injection E as <-. simpl. exact Hsp.
    + eauto 6.
  - destruct Hd as (Hr & Hperm & Hwi & Hsp & Hex). assert (Hne : (∀ ts now, e ≠ EvStart ts now) ∧ e ≠ EvCancel) by (by destruct e). destruct Hne as [Hne Hnc].
    split_and!; [by eapply reach_step|by rewrite (step_tasks y e y' Hr Hne Hnc Hst)| |by eapply step_stopped|done].
    destruct Hwi as [wi Hwi]. destruct (exec_keeps fl wi y e y' (reachable_inv _ _ Hr) Hwi Hst) as [_ ->]. by eexists.
  - destruct Hd as (Hr & Hperm & _ & _ & s1 & s2 & now' & Hb & Hp). unfold dist_inv. simpl. destruct (runResult (lead y)) eqn:Hres; [done|]. exists s1, s2, (Some tasks), now'. split_and!; [done..|].
    intros l [= <-] task Ht. rewrite <- Hperm in Ht. apply list_elem_of_fmap in Ht as (t & -> & Ht).
    destruct (runResult_passed (lead y) (sy_ok _ (fi_sync _ (si_fleet _ _ (reachable_inv fl y Hr)))) Hres) as [Hc Hpa].
    destruct (ended_done fl y t Hr Hend Hc Ht) as (ts & Hts & Hdn). exists ts. split_and!; [|done|by apply (Hpa (fTask t))].
    by rewrite <- Hts; apply statusOf_pkgs.
Qed.

Lemma dist_reached_inv s lookup d :
  pkgs s = ∅ → env_ok env → buildOnly fl = false → rtc (dstep fl env lookup) (dinit s) d → dist_inv s lookup d.
Proof using snarf_hash.
  intros Hs Henv Hbo. assert (Hi : dist_inv s lookup (dinit s)).
  2:{ intros Hr. remember (dinit s) as d0 eqn:E. clear E. induction Hr as [|d0 d1 d2 Hst _ IH]; [done|]. by apply IH; eapply dist_step_inv. }
  split_and!; try done. apply reach_init. exists s. split; [|done]. unfold server_ok. rewrite Hs. apply map_Forall_empty.
Qed.

(** While the tests of a run are executed, its fleet is one of FleetSystem.v,
    whose queue is the tests of the run: what is proved of reachable fleets is
    true of every state of [Run]. *)
Theorem dist_runs_fleet s lookup tasks y :
  pkgs s = ∅ → env_ok env → buildOnly fl = false → rtc (dstep fl env lookup) (dinit s) (Dist (Testing tasks) y) →
  reachable fl y ∧ fTask <$> work (flt (lead y)) ≡ₚ tasks.
Proof using snarf_hash. intros Hs Henv Hbo Hr. by destruct (dist_reached_inv _ _ _ Hs Henv Hbo Hr) as (? & ? & _). Qed.


(** When [Run] has returned without an error, every test that was asked for is done and passed. *)
Lemma dist_returned s lookup y :
  pkgs s = ∅ → env_ok env → buildOnly fl = false → rtc (dstep fl env lookup) (dinit s) (Dist (Returned None) y) →
  ∃ s1, beforeTests fl s env = Some (None, s1) ∧ ∀ p t, asked_for s1 env p t →
    ∃ task ts, taskKey task = (ImportPath p, t) ∧ statusOf (srv (lead y)) task = Some ts ∧ done ts = true ∧ passed ts = true.
Proof using snarf_hash.
  intros Hs Henv Hbo Hr. destruct (dist_reached_inv _ _ _ Hs Henv Hbo Hr) as (s1 & s2 & tasks & now & Hb & Hp & Hall). exists s1. split; [done|]. intros p t Ha.
  destruct (beforeTests_spec fl snarf_hash s env s1 p t Hs Henv Hbo Hb Ha) as (F1 & C1 & L1). destruct tasks as [tasks|].
  - assert (Hin : (ImportPath p, t) ∈ taskKey <$> tasks) by (eapply prepareTasks_spec; try done; apply Ha).
    apply list_elem_of_fmap in Hin as (task & Hk & Hin). destruct (Hall tasks eq_refl task Hin) as (ts & ?). by exists task, ts.
  - by destruct (prepareTasks_some fl s1 lookup now s2 None (ImportPath p) C1 Hp).
Qed.

(** a distributed run that reports success ran every test that was asked for.
    From the first phase to the return of [Run], with helpers that join, leave,
    hang, repeat or make up results in every phase and in every order: when [Run]
    returns without an error, each test that a binary of a selected package lists
    and that the selection wants has been decided, and has passed. *)
Theorem dist_success_complete s lookup y :
  pkgs s = ∅ → env_ok env → buildOnly fl = false → rtc (dstep fl env lookup) (dinit s) (Dist (Returned None) y) →
  ∃ s1, beforeTests fl s env = Some (None, s1) ∧ ∀ p t, asked_for s1 env p t →
    ∃ task ts, taskKey task = (ImportPath p, t) ∧ statusOf (srv (lead y)) task = Some ts ∧ done ts = true ∧ passed ts = true.
Proof using snarf_hash. apply dist_returned. Qed.
End phases.

(** ** A small distributed run *)

#[local] Existing Instance testRuntime.
#[local] Existing Instance Run.exampleCodec.

(** A helper joins while the leader builds, takes a test and is never heard of
    again; the leader's two workers run both tests. *)
Definition dx0 : system := after exampleFlags (dSys (dinit emptyServer)) (EvJoin "vm" 1 1).
Definition dxTasks : list testTask := Run.exTasks.
Definition dx1 : system := after exampleFlags (onServer dx0 exPrepared.1) (EvStart dxTasks 10).
Definition dxEvents : list event :=
  [EvLocalAssign 0 11 11; EvPoll 0 (WorkerRequest [] [] []) 12; EvLocalFinish 0 (passResult 0) 13; EvLeave 0 None 14;
   EvLocalAssign 1 15 15; EvLocalFinish 1 (passResult 0) 16; EvStop 17; EvLocalAssign 0 18 18; EvLocalAssign 1 19 19].
Definition dx2 : system := foldl (after exampleFlags) dx1 dxEvents.

Example dx2_ended : ended dx2 = true ∧ locals dx2 = [LocalExited; LocalExited] ∧ runResult (lead dx2) = None.
Proof. vm_compute. split_and!; reflexivity. Qed.

(** The events can happen one after the other. *)
Fixpoint chain (fl : flags) (y : system) (es : list event) : Prop :=
  match es with
  | [] => True
  | e :: es => (enabled y e ∧ inRun e = true ∧ (if exec fl y e then true else false) = true) ∧ chain fl (after fl y e) es
  end.

Lemma chain_steps fl env lookup tasks es y' : ∀ y, chain fl y es → y' = foldl (after fl) y es → rtc (dstep fl env lookup) (Dist (Testing tasks) y) (Dist (Testing tasks) y').
Proof.
  intros y Hc ->. revert y Hc. induction es as [|e es IH]; intros y; [done|]. intros [(He & Hi & Hx) Hc]. eapply rtc_l; [|by apply IH].
  apply (DRun fl env lookup tasks y e); [done|]. split; [done|]. unfold after. by destruct (exec fl y e).
Qed.

Definition dx3 : system := dSys (returns dx2 None 20).

Lemma dx_exits ls : ls ∈ [LocalExited; LocalExited] → ls = LocalExited.
Proof. rewrite !elem_of_cons, elem_of_nil. naive_solver. Qed.

Lemma dx_return : dstep exampleFlags exEnv (λ _, Ok ∅) (Dist (Testing dxTasks) dx2) (Dist (Returned None) dx3).
Proof.
  destruct dx2_ended as (He & Hl & Hr). pose proof (DReturn exampleFlags exEnv (λ _, Ok ∅) dxTasks dx2 20 He) as Hd. rewrite Hr in Hd. apply Hd.
  rewrite Hl. exact dx_exits.
Qed.

Lemma dx_chain : chain exampleFlags dx1 dxEvents.
Proof. repeat (split; [|]); try (vm_compute; reflexivity); try (vm_compute; eauto; fail); try exact I; vm_compute; discriminate. Qed.

Lemma dx_started : rtc (dstep exampleFlags exEnv (λ _, Ok ∅)) (dinit emptyServer) (Dist (Testing dxTasks) dx1).
Proof.
  eapply rtc_l; [apply (DHelper exampleFlags exEnv (λ _, Ok ∅) _ (EvJoin "vm" 1 1) dx0); [done|split; [vm_compute; split; discriminate|reflexivity]]|].
  apply rtc_once. apply (DStart exampleFlags exEnv (λ _, Ok ∅) dx0 exListed exPrepared.1 dxTasks 9 10 dx1); vm_compute; reflexivity.
Qed.

Lemma dx_run : rtc (dstep exampleFlags exEnv (λ _, Ok ∅)) (dinit emptyServer) (Dist (Returned None) dx3).
Proof.
  etrans; [exact dx_started|]. etrans; [apply (chain_steps exampleFlags exEnv (λ _, Ok ∅) dxTasks dxEvents dx2 dx1 dx_chain); unfold dx2; reflexivity|].
  apply rtc_once. exact dx_return.
Qed.

Lemma dist_success_complete_witness : ∃ task ts,
  taskKey task = ("ex/p", "TestA") ∧ statusOf (srv (lead dx3)) task = Some ts ∧ done ts = true ∧ passed ts = true.
Proof.
  destruct (dist_success_complete exampleFlags exEnv exampleCodec_hash emptyServer (λ _, Ok ∅) dx3) as (s1 & Hs1 & Hall).
  - vm_compute. reflexivity.
  - exact exEnv_ok.
  - reflexivity.
  - exact dx_run.
  - assert (s1 = exListed) as -> by (unfold exListed; rewrite Hs1; reflexivity).
    exact (Hall exGoPackage "TestA" exAsked).
Defined.

(** The helper has taken a test and is silent. *)
Definition dxTaken : system := foldl (after exampleFlags) dx1 [EvPoll 0 (WorkerRequest [] [] []) 12].

Lemma dx_taken : rtc (dstep exampleFlags exEnv (λ _, Ok ∅)) (dinit emptyServer) (Dist (Testing dxTasks) dxTaken).
Proof.
  etrans; [exact dx_started|]. apply (chain_steps exampleFlags exEnv (λ _, Ok ∅) dxTasks [EvPoll 0 (WorkerRequest [] [] []) 12]); [|unfold dxTaken; reflexivity].
  split; [|exact I]. split; [split; vm_compute; [discriminate|eauto]|split; vm_compute; reflexivity].
Qed.

