(* ===== verification/Leader.v ===== *)
(** * The leader's process (gotst.go: the end of [main]; worker.go: [startTailcatWorkers]; tailcatstatus.go: [startTailcatStatus])

    What [main] does once it knows that it leads a run: it opens the run, starts
    the listeners that were asked for, runs, and leaves.  What it acquires is
    released by deferred calls, which [log.Fatal] does not run: the exit status,
    what is released and what is left are the outcome here. *)

From Stdlib Require Import Ascii.
From S2P Require Import Prelude GoStrings GoFmt Path Utf8 Quote Flags Profile Args Invocation HistoryTypes TestCache CommandLine Server Discover Capture CaptureFacts LocalCacheFacts Listen Main Stores.

(** ** The tailcat servers *)

Definition workerPort : Z := 5526.

(** Who is given a connection. *)
Inductive tcpHandler := ServeWorker | DeliverStatus.

Section leader.
(** A node's key of package tailcat, and its [IsZero]. *)
Context `{GoRuntime} {NodeKey : Type} (IsZeroKey : NodeKey → bool).

(** [tailcat.PrivateKey], of which the public part is read for two fields. *)
Record privateKey := PrivateKey { kPrivate : NodeKey; kPresharedKey : string; kRegionID : Z }.

(** [tailcat.Server] before it is started; [None] for an ephemeral key. *)
Record tailcatServer := TailcatServer {
  tcPorts : list (Z * Z);                 (** [ServedTCPPorts] *)
  tcOnTCP : Z → option tcpHandler;
  tcKey : option privateKey
}.

(** What the system and the libraries answer. *)
Record leaderIO := LeaderIO {
  liOpen : openIO;
  liReadFile : string → result string;
  liUnmarshal : string → result privateKey;    (** [json.Unmarshal] *)
  liStart : tailcatServer → result string;     (** [Start], and then [TailcatAddr] *)
  liIPString : Addr → string;
  liListen : string → result listener;
  liStatus : result (option ipnStatus);
  liEnviron : list string
}.

(** The key of a key file. *)
Definition readKey (io : leaderIO) (keyFile : string) : result (option privateKey) :=
  if bool_decide (keyFile = "") then Ok None
  else
    match liReadFile io keyFile with
    | Err e => Err e
    | Ok j =>
        match liUnmarshal io j with
        | Err e => Err (EWrap ("parsing " +:+ keyFile +:+ ": ") e)
        | Ok k => if IsZeroKey (kPrivate k) then Err (EMsg (keyFile +:+ " has no private key")) else Ok (Some k)
        end
    end.

Definition startTailcatWorkers (io : leaderIO) (keyFile : string) : result (tailcatServer * string) :=
  match readKey io keyFile with
  | Err e => Err e
  | Ok key =>
      let server := TailcatServer [(workerPort, workerPort)] (λ port, if negb (port =? workerPort) then None else Some ServeWorker) key in
      match liStart io server with
      | Err e => Err e
      | Ok addr => Ok (server, addr)
      end
  end.

Definition startTailcatStatus (io : leaderIO) : result (tailcatServer * string) :=
  let server := TailcatServer [(80, 80)] (λ port, if negb (port =? 80) then None else Some DeliverStatus) None in
  match liStart io server with
  | Err e => Err e
  | Ok addr => Ok (server, addr)
  end.

(** ** The end of main *)

(** What the process acquires, and a deferred call releases. *)
Inductive resource :=
  | RunDir (dir : string)
  | HelperServer (server : tailcatServer)
  | StatusServer (server : tailcatServer)
  | StatusListeners (lns : list listener).

(** How the process ends; of what it prints, the lines that are not of package
    log and the message of [log.Fatal]. *)
Record outcome := Outcome {
  oExit : Z;
  oStderr : list string;
  oStdout : list string;
  oReleased : list resource;   (** in the order of the releases *)
  oLeft : list resource
}.

(** The variables of [main]: what was printed, and the stack of deferred calls. *)
Record leading := Leading { ldStderr : list string; ldStdout : list string; ldDefers : list resource }.

(** [log.Fatal] ends the process at once. *)
Definition fatalExit (l : leading) (msg : string) : outcome := Outcome 1 (ldStderr l ++ [msg]) (ldStdout l) [] (ldDefers l).

(** [main] returns. *)
Definition mainReturns (l : leading) : outcome := Outcome 0 (ldStderr l) (ldStdout l) (ldDefers l) [].

Definition acquire (l : leading) (r : resource) (stderr stdout : list string) : leading :=
  Leading (ldStderr l ++ stderr) (ldStdout l ++ stdout) (r :: ldDefers l).

Definition startHelpers (c : commandLine) (io : leaderIO) (l : leading) : outcome + leading :=
  if negb (distributed (clFlags c)) then inr l
  else
    match startTailcatWorkers io (distKey (clFlags c)) with
    | Err e => inl (fatalExit l ("starting helper listener: " +:+ Error e))
    | Ok (server, addr) => inr (acquire l (HelperServer server) ["# gotst helpers: gotst -helper=" +:+ addr] [])
    end.

Definition startStatus (c : commandLine) (io : leaderIO) (l : leading) : outcome + leading :=
  match listenModeOf (flagListen c) with
  | ListenNone => inr l
  | ListenTailcat =>
      match startTailcatStatus io with
      | Err e => inl (fatalExit l ("starting tailcat status server: " +:+ Error e))
      | Ok (server, addr) =>
          inr (acquire l (StatusServer server) ["# gotst status: tailcat browse " +:+ addr]
            (if bool_decide (Getenv (liEnviron io) "GITHUB_ACTIONS" = "true")
             then ["::notice title=gotst status::tailcat browse " +:+ addr] else []))
      end
  | ListenOn addr =>
      match startStatusListeners (liIPString io) (liListen io) addr (liStatus io) with
      | Err e => inl (fatalExit l ("listening on " +:+ Quote addr +:+ ": " +:+ Error e))
      | Ok (lns, url) => inr (acquire l (StatusListeners lns) (if bool_decide (url = "") then [] else ["# Status: " +:+ url]) [])
      end
  end.

(** The end of [main] for a leader; [run] is what [Run] returns for the opened
    run.  [None] is a fatal error of [NewServer], before which nothing is acquired. *)
Definition leaderMain (c : commandLine) (profile : runProfile) (tests : testSelection) (io : leaderIO) (run : Server → option error) : option outcome :=
  '(_, s) ← openServer c profile tests (liOpen io);
  Some match startHelpers c io (Leading [] [] [RunDir (cacheDir s)]) with
       | inl o => o
       | inr l =>
           match startStatus c io l with
           | inl o => o
           | inr l => match run s with Some e => fatalExit l (Error e) | None => mainReturns l end
           end
       end.

(** ** What is released *)

(** A resource of the listeners: connections go where they are meant to, and a
    server that has a key has a key that is not zero. *)
Definition resource_ok (r : resource) : Prop :=
  match r with
  | HelperServer server => (∀ port h, tcOnTCP server port = Some h ↔ port = workerPort ∧ h = ServeWorker) ∧
      (∀ k, tcKey server = Some k → IsZeroKey (kPrivate k) = false)
  | StatusServer server => (∀ port h, tcOnTCP server port = Some h ↔ port = 80 ∧ h = DeliverStatus) ∧ tcKey server = None
  | _ => True
  end.

Lemma port_handler p port (h h' : tcpHandler) : (if negb (port =? p) then None else Some h') = Some h ↔ port = p ∧ h = h'.
Proof using Type. destruct (Z.eqb_spec port p); cbn [negb]; naive_solver. Qed.

Lemma startTailcatWorkers_ok io keyFile server addr : startTailcatWorkers io keyFile = Ok (server, addr) →
  resource_ok (HelperServer server) ∧ (tcKey server = None ↔ keyFile = "").
Proof using Type.
  unfold startTailcatWorkers, readKey. case_bool_decide as Hk.
  - destruct (liStart _ _); [|done]. intros [= <- _]. split; [split|done]; [intros; apply port_handler|done].
  - destruct (liReadFile _ _); [|done]. destruct (liUnmarshal _ _) as [k|]; [|done]. destruct (IsZeroKey (kPrivate k)) eqn:Hz; [done|].
    destruct (liStart _ _); [|done]. intros [= <- _]. split; [split|done]; [intros; apply port_handler|by intros ? [= <-]].
Qed.

(** A step of [main] goes on with one resource more at most, or ends the process
    with everything left. *)
Definition step_ok (l : leading) (r : outcome + leading) : Prop :=
  match r with
  | inl o => oExit o = 1 ∧ oReleased o = [] ∧ oLeft o = ldDefers l
  | inr l' => ∃ new, ldDefers l' = new ++ ldDefers l ∧ Forall resource_ok new
  end.

Lemma startHelpers_ok c io l : step_ok l (startHelpers c io l).
Proof using Type.
  unfold startHelpers. destruct (distributed _); cbn [negb]; [|by exists []].
  destruct (startTailcatWorkers _ _) as [[server addr]|] eqn:E; [|done]. exists [HelperServer server]. split; [done|]. apply Forall_singleton. by eapply startTailcatWorkers_ok.
Qed.

Lemma startStatus_ok c io l : step_ok l (startStatus c io l).
Proof using Type.
  unfold startStatus. destruct (listenModeOf _) as [| |a]; [by exists []| |].
  - unfold startTailcatStatus. destruct (liStart _ _); [|done]. eexists [_]. split; [done|]. apply Forall_singleton. split; [intros; apply port_handler|done].
  - destruct (startStatusListeners _ _ _ _) as [[lns url]|]; [|done]. exists [StatusListeners lns]. split; [done|]. by apply Forall_singleton.
Qed.

(** What the outcome tells of the run. *)
Record outcome_ok (s : Server) (run : Server → option error) (o : outcome) : Prop := {
  oo_acquired : ∃ new, oReleased o ++ oLeft o = new ++ [RunDir (cacheDir s)] ∧ Forall resource_ok new;
  oo_success : oExit o = 0 → run s = None ∧ oLeft o = [];
  oo_failure : oExit o ≠ 0 → oExit o = 1 ∧ oReleased o = []
}.

Lemma leaderMain_ok c profile tests io run o :
  leaderMain c profile tests io run = Some o → ∃ removed s, openServer c profile tests (liOpen io) = Some (removed, s) ∧ outcome_ok s run o.
Proof using Type.
  unfold leaderMain. destruct (openServer _ _ _ _) as [[removed s]|]; [|done]. cbn [mbind option_bind]. intros E%(inj Some). exists removed, s. split; [done|].
  pose proof (startHelpers_ok c io (Leading [] [] [RunDir (cacheDir s)])) as H1. destruct (startHelpers _ _ _) as [o1|l1]; simpl in H1.
  { subst o1. destruct H1 as (X1 & X2 & X3). split; [exists []; by rewrite X2, X3|congruence|done]. }
  destruct H1 as (n1 & D1 & F1). pose proof (startStatus_ok c io l1) as H2. destruct (startStatus _ _ _) as [o2|l2]; simpl in H2.
  { subst o2. destruct H2 as (X1 & X2 & X3). split; [exists n1; by rewrite X2, X3|congruence|done]. }
  destruct H2 as (n2 & D2 & F2). destruct (run s) eqn:Hr; subst o; (split; simpl; [exists (n2 ++ n1); split; [|by apply Forall_app]|..]; try done).
  - by rewrite D2, D1, app_assoc.
  - by rewrite app_nil_r, D2, D1, app_assoc.
Qed.
End leader.

(** C23: a leader's directory does not outlive it.  When the process ends with status 0,
    [Run] has returned no error and everything acquired has been released, the
    directory of the run after the listeners; when it ends otherwise nothing has
    been released, and the directory is removed by the next leader of the same
    cache root that finds it there and the process gone. *)
Theorem leader_directory `{GoRuntime} {NodeKey} (IsZeroKey : NodeKey → bool) c profile tests io run o es :
  es ≠ [] → Forall normal_elem es → 0 ≤ oiPid (liOpen io) < 2 ^ 63 → 0 ≤ oiNow (liOpen io) < 2 ^ 63 →
  mustCacheRoot (clCacheRoot c) (oiAbs (liOpen io)) (oiUserCacheDir (liOpen io)) (oiMkdirAll (liOpen io)) = Some (abs es) →
  leaderMain IsZeroKey c profile tests io run = Some o →
  let name := runDirName (oiPid (liOpen io)) (oiNow (liOpen io)) in let dir := abs (es ++ [name]) in
  (oExit o = 0 → oLeft o = [] ∧ last (oReleased o) = Some (RunDir dir) ∧ ∃ s, cacheDir s = dir ∧ run s = None) ∧
  (oExit o ≠ 0 → oReleased o = [] ∧ RunDir dir ∈ oLeft o ∧
    ∀ c' profile' tests' io' entries removed' s',
      mustCacheRoot (clCacheRoot c') (oiAbs io') (oiUserCacheDir io') (oiMkdirAll io') = Some (abs es) →
      oiReadDir io' (abs es) = Ok entries → (name, true) ∈ entries → oiRunning io' (oiPid (liOpen io)) = false →
      openServer c' profile' tests' io' = Some (removed', s') → dir ∈ removed').
Proof.
  intros Hne Hes Hpid Hnow Hroot (removed & s & Hopen & [(new & Hacq & _) Hok Hbad])%leaderMain_ok name dir.
  pose proof (runDirName_normal (oiPid (liOpen io)) (oiNow (liOpen io)) (proj1 Hpid) (proj1 Hnow)) as Hn. fold name in Hn.
  destruct (openServer_inv _ _ _ _ _ _ _ Hroot Hopen) as [Hdir _]. rewrite PathJoin_abs in Hdir by done. fold name in Hdir. fold dir in Hdir.
  split; intros Hx.
  - destruct (Hok Hx) as [Hr Hl]. rewrite Hl, app_nil_r in Hacq. split_and!; [done| |by exists s]. rewrite Hacq, last_snoc. by rewrite Hdir.
  - destruct (Hbad Hx) as [_ Hr]. rewrite Hr in Hacq. simpl in Hacq. split_and!; [done|rewrite Hacq, Hdir; apply elem_of_app; right; left|].
    intros c' profile' tests' io' entries removed' s' Hroot' Hread Hin Hgone Hopen'. destruct (openServer_inv _ _ _ _ _ _ _ Hroot' Hopen') as [_ Hclean].
    rewrite Hread in Hclean. destruct (cleanOldCaches_spec _ (abs es) _ _ ltac:(done) Hclean) as [_ Hrm]. specialize (Hrm _ _ Hpid Hnow Hin). rewrite Hgone in Hrm.
    fold name in Hrm. by rewrite PathJoin_abs in Hrm.
Qed.

(** ** Two leaders, one after the other *)

(** The first is asked for helpers with a key file and fails its tests. *)
Definition exLeaderIO : leaderIO (NodeKey := Z) :=
  LeaderIO exOpenIO (λ _, Ok "{}") (λ _, Ok (PrivateKey 5 "psk" 1)) (λ _, Ok "tc1") exAddrString exListen (Err (EMsg "no daemon")) [].

Definition exLeader : commandLine := (defaultCommandLine 4) <| clFlags ::= λ f, f <| distributed := true |> <| distKey := "key.json" |> |> <| flagListen := "localhost:8080" |>.

#[local] Existing Instance testRuntime.

Definition exOutcome : outcome (NodeKey := Z) :=
  default (Outcome 0 [] [] [] []) (leaderMain (Z.eqb 0) exLeader zeroProfile (TestSelection [] []) exLeaderIO (λ _, Some (EMsg "1 test(s) failed"))).

(** The process ends with what it had acquired. *)
Example exOutcome_is : (oExit exOutcome, oStderr exOutcome, length (oLeft exOutcome)) = (1, ["# gotst helpers: gotst -helper=tc1"; "1 test(s) failed"], 3%nat).
Proof. vm_compute. reflexivity. Qed.

Definition exNextIO : openIO :=
  OpenIO (Ok "/cache") (Ok "/home/u/.cache") (λ _, None) (λ _, false) (λ _, Ok [("history", true); ("pid8-t20", true)]) 9 30 (λ _, None) (Err (EMsg "no URL")) [].
Definition exNext : list string * Server := default ([], exampleServer) (openServer (defaultCommandLine 4) zeroProfile (TestSelection [] []) exNextIO).

Lemma leader_directory_witness : abs ["home"; "u"; ".cache"; "gotst"; runDirName 8 20] ∈ exNext.1.
Proof.
  apply (proj2 (leader_directory (Z.eqb 0) exLeader zeroProfile (TestSelection [] []) exLeaderIO (λ _, Some (EMsg "1 test(s) failed")) exOutcome ["home"; "u"; ".cache"; "gotst"]
    ltac:(done) ltac:(repeat constructor; vm_compute; done) ltac:(done) ltac:(done) ltac:(by vm_compute) ltac:(by vm_compute)) ltac:(by vm_compute))
    with (c' := defaultCommandLine 4) (profile' := zeroProfile) (tests' := TestSelection [] []) (io' := exNextIO) (entries := [("history", true); ("pid8-t20", true)]) (s' := exNext.2).
  - vm_compute. reflexivity.
  - vm_compute. reflexivity.
  - vm_compute. right. left.
  - vm_compute. reflexivity.
  - vm_compute. reflexivity.
Defined.
