(* ===== verification/Whole.v ===== *)
(** * The exit status (gotst.go)

    [main], the run that it opens and the tests that the run executes, together:
    what the status 0 of the process says about the tests. *)

From Stdlib Require Import Ascii.
From S2P Require Import Prelude GoStrings GoFmt Path Utf8 Quote Flags Profile Args Invocation CappedBuffer HistoryTypes TestCache ResultCache CommandLine Server History Pool CacheTypes Discover Run Runner RunnerFacts DebugCache Capture CaptureFacts LocalCacheFacts Listen Main Stores Leader.
From S2P Require Import Fleet FleetInv FleetCommit FleetSteps FleetSystem FleetTheorems FleetAlone FleetRun.

(** What executed the tests of a run. *)
Inductive ran := RanNothing | RanPool (pl : pool) | RanFleet (y : system).

Section whole.
Context `{GoRuntime, EventCodec} (fl : flags) (env : runEnv) (lookup : list Key → result (gmap string History)).
Context {C E : Type} `{!ResultCache C E}.

(** [runAllTests] without a fleet. *)
Inductive localTests (s : Server) : option error → ran → Prop :=
  | LocalNone s' now : prepareTasks fl s lookup now = Some (s', None) → localTests s None RanNothing
  | LocalPool s' tasks now pl : prepareTasks fl s lookup now = Some (s', Some tasks) → reached fl s' tasks pl → finished pl →
      localTests s (poolResult pl) (RanPool pl).

(** [Run]: what it returns, and what executed the tests.  The second pass of
    -debug-uncached runs nothing; it starts from the state [s2] that the tests of
    the first pass left. *)
Inductive runs (s : Server) : option error → ran → Prop :=
  | RunsEarly e s1 : distributed fl = false → beforeTests fl s env = Some (Some e, s1) → runs s (Some e) RanNothing
  | RunsBuildOnly s1 : distributed fl = false → beforeTests fl s env = Some (None, s1) → buildOnly fl = true → runs s None RanNothing
  | RunsTests s1 err r : distributed fl = false → beforeTests fl s env = Some (None, s1) → buildOnly fl = false → debugUncached fl = false →
      localTests s1 err r → runs s err r
  | RunsDebug s1 seedErr r s2 (cache : C) tasks now err s3 log :
      distributed fl = false → beforeTests fl s env = Some (None, s1) → buildOnly fl = false → debugUncached fl = true →
      localTests (s1 <| debugPass := 1 |>) seedErr r → secondPass fl s2 cache seedErr tasks now = Some (err, s3, log) → runs s err r
  | RunsFleet err y : distributed fl = true → rtc (dstep fl env lookup) (dinit s) (Dist (Returned err) y) → runs s err (RanFleet y).

(** The test was executed, and passed. *)
Definition passedIn (r : ran) (p t : string) : Prop :=
  match r with
  | RanNothing => False
  | RanPool pl => ∃ task, taskKey task = (p, t) ∧ (task, None) ∈ plReturned pl
  | RanFleet y => ∃ task ts, taskKey task = (p, t) ∧ statusOf (srv (lead y)) task = Some ts ∧ done ts = true ∧ passed ts = true
  end.

Hypothesis snarf_hash : ∀ text es, decodeSnarf text = Ok es → esExeHash es ≠ "".

Lemma localTests_passed s err r p t :
  1 ≤ jobs fl → Run.fresh s → going s = (false, false) → captured s p → listed s p t → isRunnableTopLevelTest t = true →
  localTests s err r → err = None → passedIn r p t.
Proof using Type.
  intros Hj Hf Hg Hc Hl Hr [s' now Hp|s' tasks now pl Hp Hre Hfin] He; [by destruct (prepareTasks_some fl s lookup now s' None p Hc Hp)|].
  by eapply (pool_returned fl s lookup now s' tasks pl p t).
Qed.

(** A run that returns no error has passed every test that was asked for. *)
Lemma runs_passed s err r :
  flags_ok fl → pkgs s = ∅ → going s = (false, false) → env_ok env → buildOnly fl = false → runs s err r → err = None →
  ∃ s1, beforeTests fl s env = Some (None, s1) ∧ ∀ p t, asked_for s1 env p t → passedIn r (ImportPath p) t.
Proof using snarf_hash.
  intros Hfl Hs Hg Henv Hbo Hrun He. pose proof (ok_jobs _ Hfl) as Hj.
  assert (Hloc : ∀ s1 s1' err' r', beforeTests fl s env = Some (None, s1) → pkgs s1' = pkgs s1 → going s1' = going s1 → localTests s1' err' r' → err' = None →
    ∃ s1, beforeTests fl s env = Some (None, s1) ∧ ∀ p t, asked_for s1 env p t → passedIn r' (ImportPath p) t).
  { intros s1 s1' err' r' Hb Hp Hg' Hl He'. exists s1. split; [done|]. intros p t Ha. destruct (beforeTests_fresh fl snarf_hash s env s1 Hs Henv Hbo Hb) as [_ G1].
    destruct (beforeTests_spec fl snarf_hash s env s1 p t Hs Henv Hbo Hb Ha) as (F1 & C1 & L1). eapply (localTests_passed s1'); try done; [..|congruence| | |apply Ha].
    - unfold Run.fresh. by rewrite Hp.
    - unfold captured. by rewrite Hp.
    - unfold listed. by rewrite Hp. }
  destruct Hrun as [e s1 _ _|s1 _ _ ?|s1 err r _ Hb _ _ Hl|s1 seedErr r s2 cache tasks now err s3 log _ Hb _ _ Hl H2|err y _ Hy]; [done|congruence| | |].
  - by apply (Hloc s1 s1 err r).
  - apply (Hloc s1 (s1 <| debugPass := 1 |>) seedErr r); try done. unfold secondPass in H2. destruct seedErr; [congruence|done].
  - subst err. destruct (dist_returned fl env snarf_hash s lookup y Hs Henv Hbo Hy) as (s1 & Hb & Hall). by exists s1.
Qed.
End whole.



(** ** A small run *)

#[local] Existing Instance testRuntime.
#[local] Existing Instance Run.exampleCodec.

Definition wArgs : list string := ["gotst"; "-history=off"; "quick"].
Definition wLeader : commandLine * runProfile * testSelection :=
  match main exampleWorld wArgs [] with Some (AsLeader c profile tests) => (c, profile, tests) | _ => (defaultCommandLine 4, zeroProfile, TestSelection [] []) end.
Definition wFlags : flags := clFlags wLeader.1.1.
Definition wServer : Server := default emptyServer (snd <$> openServer wLeader.1.1 wLeader.1.2 wLeader.2 exOpenIO).
Definition wListed : Server := default emptyServer (snd <$> beforeTests wFlags wServer exEnv).
Definition wPrepared : Server * option (list testTask) := default (emptyServer, None) (prepareTasks wFlags wListed (λ _, Ok ∅) 9).
Definition wTasks : list testTask := default [] wPrepared.2.
Definition wDone : pool := default (startPool emptyServer []) (runEvents wFlags (Pool.workers wFlags wTasks) (startPool wPrepared.1 wTasks) Run.exEvents).
Definition wOutcome : option (outcome (NodeKey := Z)) := leaderMain (Z.eqb 0) wLeader.1.1 wLeader.1.2 wLeader.2 exLeaderIO (λ _, poolResult wDone).

Example wDone_is : (taskKey <$> wTasks, poolResult wDone, oExit <$> wOutcome) = ([("ex/p", "ExampleB"); ("ex/p", "TestA")], None, Some 0).
Proof. vm_compute. reflexivity. Qed.

Lemma wAsked : asked_for wListed exEnv exGoPackage "TestA".
Proof.
  split; try (vm_compute; reflexivity).
  - apply list_elem_of_here.
  - exists []. split; [vm_compute; reflexivity|apply not_elem_of_nil].
  - apply (af_built _ _ _ _ exAsked).
  - apply (af_lists _ _ _ _ exAsked).
Qed.

Lemma wReached : reached wFlags wPrepared.1 wTasks wDone.
Proof. eapply (runEvents_reached _ _ _ Run.exEvents); [constructor|vm_compute; reflexivity]. Qed.

Lemma wRuns : runs (C := gmap string testCacheEntry) (E := unit) wFlags exEnv (λ _, Ok ∅) wServer (poolResult wDone) (RanPool wDone).
Proof.
  apply (RunsTests wFlags exEnv (λ _, Ok ∅) wServer wListed); [vm_compute; reflexivity..|].
  apply (LocalPool wFlags (λ _, Ok ∅) wListed wPrepared.1 wTasks 9 wDone); [vm_compute; reflexivity|exact wReached|].
  split; [|split]; [vm_compute; reflexivity..|left; vm_compute; reflexivity].
Qed.

