(* ===== verification/FleetSummary.v ===== *)
(** * The summary of a distributed run accounts for it (summary.go, distributed.go)

    The workers of a fleet count what they completed, what came from a cache and
    what failed, and [printFleetSummary] prints these counters when [Run] returns.
    They add up to the verdicts of the run. *)

From Stdlib Require Import Ascii.
From S2P Require Import Prelude GoStrings Flags Path Profile Utf8 Invocation GoFmt Args Sha256 Quote CappedBuffer HistoryTypes TestCache Server Fleet FleetInv FleetCommit FleetSteps FleetSystem FleetTheorems FleetGrowth Main Summary.

(** ** Printing *)

(** [printFleetSummary]: what is printed, as the phases and the cells of the table,
    and what is appended to the file of the job summary; [openErr] and [closeErr]
    are the answers of the system for that file. *)
Record printedSummary := PrintedSummary {
  prPhases : string;
  prRows : list (list string);
  prAppended : option (string * string);   (** path and text *)
  prWarning : option string
}.

Definition printFleetSummary `{BusyFormat} (s : Server) (fleet : option Fleet.fleet) (now : Time) (environ : list string)
    (openErr closeErr : option error) : option printedSummary :=
  match fleet with
  | None => None
  | Some f =>
      let sum := fleetSummaryLocked s (workers f) now in
      let path := Getenv environ "GITHUB_STEP_SUMMARY" in
      let '(appended, err) :=
        if bool_decide (path = "") then (None, None)
        else match openErr with
             | Some e => (None, Some e)
             | None => (Some (path, writeMarkdown sum), closeErr)
             end in
      Some (PrintedSummary (phasesString sum) (textRows sum) appended
        ((λ e, "gotst: writing GitHub job summary: " +:+ Error e) <$> err))
  end.

(** ** The counters *)

Definition tally (f : fleet) : Z * Z * Z := (sumZ (Completed <$> workers f), sumZ (Cached <$> workers f), sumZ (Failed <$> workers f)).
Definition counters (w : fleetWorker) : Z * Z * Z := (Completed w, Cached w, Failed w).

Definition add3 (a b : Z * Z * Z) : Z * Z * Z := (a.1.1 + b.1.1, a.1.2 + b.1.2, a.2 + b.2).

(** An update of one worker. *)
Lemma tally_putWorker st wj w w' d :
  workers (flt st) !! wj = Some w → counters w' = add3 (counters w) d → tally (flt (putWorker st wj w')) = add3 (tally (flt st)) d.
Proof.
  intros Hw [= Ec Ea Ef]. unfold tally, add3. simpl. rewrite (sumZ_insert Completed _ _ w w'), (sumZ_insert Cached _ _ w w'), (sumZ_insert Failed _ _ w w') by done.
  rewrite Ec, Ea, Ef. repeat f_equal; lia.
Qed.

Lemma tally_putWorker_same st wj w w' : workers (flt st) !! wj = Some w → counters w' = counters w → tally (flt (putWorker st wj w')) = tally (flt st).
Proof.
  intros Hw Hc. rewrite (tally_putWorker st wj w w' (0, 0, 0) Hw); [|rewrite Hc; unfold add3, counters; simpl; by rewrite !Z.add_0_r].
  unfold add3, tally. simpl. by rewrite !Z.add_0_r.
Qed.

Definition same_tally (st st' : leader) : Prop := tally (flt st') = tally (flt st).

#[export] Instance same_tally_preorder : PreOrder same_tally.
Proof. split; [done|]. unfold same_tally. intros a b c E1 E2. congruence. Qed.

Section tally.
Context `{GoRuntime} (fl : flags).

Lemma same_workers st st' : workers (flt st') = workers (flt st) → same_tally st st'.
Proof using Type. unfold same_tally, tally. by intros ->. Qed.

Lemma updateRunning_tally st ti now st' : updateRunningLocked st ti now = Some st' → same_tally st st'.
Proof using Type.
  unfold updateRunningLocked. grow_binds. destruct (done _); [by intros [= <-]|]. destruct (runningSince _) as [[] ?]; intros [= <-]; by apply same_workers.
Qed.

Lemma removeLease_tally st id now st' : removeLeaseLocked st id now = Some st' → same_tally st st'.
Proof using Type.
  unfold removeLeaseLocked. destruct (heap (flt st) !! id) as [l|]; [|done]. cbn [mbind option_bind].
  destruct (workers (flt st) !! lWorker l) as [w|] eqn:Hw; [|done]. cbn [mbind option_bind]. destruct (work (flt st) !! lWork l) as [t|]; [|done]. cbn [mbind option_bind].
  intros Hst. etrans; [|by eapply updateRunning_tally]. transitivity (putWorker st (lWorker l) (w <| wLeases ::= λ ids, ids ∖ {[id]} |>)); [by eapply tally_putWorker_same|].
  destruct (lCancel l); by apply same_workers.
Qed.

Lemma removeLeases_tally st ids now st' : removeLeases st ids now = Some st' → same_tally st st'.
Proof using Type. apply foldl_bind_rel; [apply _|]. intros ? ? ?. apply removeLease_tally. Qed.

Lemma disconnect_tally st wj err now st' : disconnect st wj err now = Some st' → same_tally st st'.
Proof using Type.
  unfold disconnect. destruct (workers (flt st) !! wj) as [w|] eqn:Hw; [|done]. cbn [mbind option_bind].
  destruct (removeLeases _ _ _) as [st1|] eqn:E; [|done]. intros [= <-]. apply removeLeases_tally in E.
  etrans; [|etrans; [exact E|by apply same_workers]]. eapply tally_putWorker_same; [done|]. by destruct err.
Qed.

Lemma commit_tally st wj ti w t r now st' :
  workers (flt st) !! wj = Some w → commit fl st wj ti w t r now = Some st' →
  tally (flt st') = add3 (tally (flt st)) (1, Z.b2z (rCached r), Z.b2z (negb (rPassed r))).
Proof using Type.
  intros Hw. unfold commit. cbv zeta.
  match goal with |- context [putWorker ?a wj ?u] => set (st1 := a); set (w1 := u) end.
  assert (Hk1 : tally (flt (putWorker st1 wj w1)) = add3 (tally (flt st)) (1, Z.b2z (rCached r), Z.b2z (negb (rPassed r)))).
  { apply (tally_putWorker st1 wj w); [done|]. unfold w1, counters, add3. destruct (rPassed r), (rCached r); simpl; repeat f_equal; lia. }
  generalize dependent (putWorker st1 wj w1). clear st1 w1. intros st1 Hk1.
  match goal with |- context [if rInfra r then ?a else ?b] =>
    assert (Hk2 : same_tally st1 (if rInfra r then a else b)) by (destruct (rInfra r); [by apply same_workers|done]); revert Hk2; generalize (if rInfra r then a else b) end.
  intros st2 Hk2. destruct (testAt (srv st2) (fTask t)) as [[ps ts]|]; [|done]. cbn [mbind option_bind].
  destruct (finishTestLocked _ _ _ _ _ _ _ _) as [s1|]; [|done]. cbn [mbind option_bind].
  destruct (work _ !! ti) as [t'|]; [|done]. cbn [mbind option_bind].
  destruct (removeLeases _ _ _) as [st3|] eqn:Er; [|done]. cbn [mbind option_bind]. apply removeLeases_tally in Er. intros E. apply (inj Some) in E. subst st'.
  rewrite <- Hk1. unfold same_tally in *. rewrite <- Hk2. etrans; [|exact Er]. by destruct (_ && _).
Qed.

Lemma accept_tally st wj r now st' : accept fl st wj r now = Some st' →
  same_tally st st' ∨ tally (flt st') = add3 (tally (flt st)) (1, Z.b2z (rCached r), Z.b2z (negb (rPassed r))).
Proof using Type.
  unfold accept. destruct (workers (flt st) !! wj) as [w|] eqn:Hw; [|done]. cbn [mbind option_bind].
  destruct (bool_decide (rLease r ∉ wLeases w)); [intros [= <-]; by left|]. destruct (heap (flt st) !! rLease r) as [l|]; [|done]. cbn [mbind option_bind].
  destruct (work (flt st) !! lWork l) as [t|]; [|done]. cbn [mbind option_bind]. destruct (_ || _); [intros [= <-]; by left|].
  destruct (_ && _); [|right; by eapply commit_tally]. unfold rejectHelper. destruct (removeLeases _ _ _) as [st1|] eqn:E; [|done].
  cbn [mbind option_bind]. intros [= <-]. left. apply removeLeases_tally in E. etrans; [|etrans; [exact E|by apply same_workers]]. by eapply tally_putWorker_same.
Qed.

Lemma reportActive_tally now wj acc e acc' : reportActive now wj acc e = Some acc' → same_tally acc.2 acc'.2.
Proof using Type.
  destruct acc as [cancel st], e as [id state]. unfold reportActive. grow_binds.
  case_bool_decide; [intros Heq; by simplify_eq/=|]. destruct (negb _); [intros Heq; by simplify_eq/=|]. grow_binds. intros Heq. simplify_eq/=.
  etrans; [|etrans; [by eapply updateRunning_tally|by apply same_workers]]. by apply same_workers.
Qed.

Lemma assign_tally st wj limit now batch st' : assignLocked fl st wj limit now = Some (batch, st') → same_tally st st'.
Proof using Type.
  unfold assignLocked. destruct (workers (flt st) !! wj) as [w|]; [|done]. cbn [mbind option_bind]. destruct (_ || _); [by intros [= _ <-]|].
  generalize (@nil workerWork) (foldl (λ a e, i64 (a + e)) 0 (omap (λ l, estimate <$> work (flt st) !! lWork l) (leasesIn (flt st) (wLeases w)))).
  clear w. revert st. induction (Z.to_nat limit) as [|n IH]; intros st bs d; cbn [assignLoop]; [by intros [= _ <-]|].
  destruct (workers (flt st) !! wj) as [w|] eqn:Hw; [|done]. cbn [mbind option_bind]. destruct (_ && _); [by intros [= _ <-]|].
  destruct (nextLocked _ _ _) as [ti|]; [|by intros [= _ <-]]. destruct (work (flt st) !! ti) as [t|]; [|done]. cbn [mbind option_bind].
  intros Ha%IH. etrans; [|exact Ha]. unfold grant. cbv zeta.
  match goal with |- same_tally _ (putTask ?a _ _) => transitivity a; [|by apply same_workers] end.
  match goal with |- same_tally _ (putWorker ?a _ _) => transitivity a; [by apply same_workers|] end. by eapply (tally_putWorker_same _ wj w).
Qed.

#[local] Instance same_snd_preorder {A} : PreOrder (λ a b : A * leader, same_tally a.2 b.2).
Proof using Type. split; [by intros [a st]|]. intros [a st1] [b st2] [c st3]. simpl. apply transitivity. Qed.

Lemma exchange_tally st wj req now res st' : exchangeLocked fl st wj req now = Some (res, st') → same_tally st st'.
Proof using Type.
  unfold exchangeLocked. destruct (workers (flt st) !! wj) as [w|] eqn:Hw; [|done]. cbn [mbind option_bind].
  destruct (foldl _ _ _) as [[cancel st1]|] eqn:E; [|done]. cbn [mbind option_bind].
  assert (Hst1 : same_tally st st1).
  { pose proof (foldl_bind_rel (λ a b : list Z * leader, same_tally a.2 b.2) _ _ _ _ ltac:(intros ???; apply reportActive_tally) E) as Hk.
    etrans; [|exact Hk]. by eapply tally_putWorker_same. }
  destruct (workers (flt st1) !! wj) as [w1|]; [|done]. cbn [mbind option_bind].
  destruct (negb _ && _); [|by intros [= _ <-]]. destruct (assignLocked _ _ _ _ _) as [[batch st2]|] eqn:Ea; [|done].
  cbn [mbind option_bind]. intros [= _ <-]. etrans; [exact Hst1|by eapply assign_tally].
Qed.

Lemma localAssign_tally st wj now now' ls st' : localAssign fl st wj now now' = Some (ls, st') → same_tally st st'.
Proof using Type.
  unfold localAssign. destruct (_ || _); [by intros [= _ <-]|].
  destruct (assignLocked _ _ _ _ _) as [[batch st1]|] eqn:Ea; [|done]. cbn [mbind option_bind]. apply assign_tally in Ea.
  destruct batch as [|b bs]; [by intros [= _ <-]|]. destruct (heap (flt st1) !! wwLease b) as [l|]; [|done]. cbn [mbind option_bind].
  destruct (work (flt st1) !! _) as [t|]; [|done]. cbn [mbind option_bind].
  destruct (updateRunningLocked _ _ _) as [st2|] eqn:Eu; [|done]. cbn [mbind option_bind]. intros [= _ <-].
  etrans; [exact Ea|]. etrans; [|by eapply updateRunning_tally]. by apply same_workers.
Qed.

(** What a step adds to the counters: nothing, or the one result it brings. *)
Lemma step_tally y e y' : step fl y e y' →
  same_tally (lead y) (lead y') ∨ ∃ wi r, brings y e wi r ∧ tally (flt (lead y')) = add3 (tally (flt (lead y))) (1, Z.b2z (rCached r), Z.b2z (negb (rPassed r))).
Proof using Type.
  intros [He E]. destruct e as [name sl now|wj err now|wj r now|wj req now|tasks now|k now now'|k r now| |now|]; cbn [exec enabled] in E, He.
  - left. injection E as <-. unfold same_tally, tally. simpl. rewrite !fmap_app, !sumZ_app. simpl. by rewrite !Z.add_0_r.
  - left. destruct (disconnect _ _ _ _) as [st|] eqn:Ed; [|done]. injection E as <-. by eapply disconnect_tally.
  - destruct (accept _ _ _ _ _) as [st|] eqn:Ea; [|done]. injection E as <-. destruct (accept_tally _ _ _ _ _ Ea) as [?|Ht]; [by left|right]. eexists _, _. split; [constructor|exact Ht].
  - left. destruct (exchangeLocked _ _ _ _ _) as [[res st]|] eqn:Ex; [|done]. injection E as <-. by eapply exchange_tally.
  - left. destruct (startRun_workers fl (lead y) tasks now) as (w & Hws & _). destruct (startRun fl (lead y) tasks now) as [wi st] eqn:Es. injection E as <-. simpl in Hws |- *.
    unfold startRun, addWorker in Es. injection Es as _ <-. unfold same_tally, tally. simpl. rewrite alter_app_r_alt, Nat.sub_diag by done. simpl. rewrite !fmap_app, !sumZ_app. simpl. by rewrite !Z.add_0_r.
  - left. destruct (localW y) as [wi|]; [|done]. cbn [mbind option_bind] in E. destruct (localAssign _ _ _ _ _) as [[ls st]|] eqn:El; [|done]. injection E as <-. by eapply localAssign_tally.
  - destruct (localW y) as [wi|] eqn:Hwi; [|done]. cbn [mbind option_bind] in E. destruct (locals y !! k) as [[|id task|]|] eqn:Hk; try done.
    destruct (accept _ _ _ _ _) as [st|] eqn:Ea; [|done]. injection E as <-. destruct (accept_tally _ _ _ _ _ Ea) as [?|Ht]; [by left|right]. eexists _, _. split; [by eapply BringsLocal|exact Ht].
  - left. injection E as <-. by apply same_workers.
  - left. destruct (stopRun _ _) as [st|] eqn:Es; [|done]. injection E as <-. unfold stopRun in Es. etrans; [|by eapply removeLeases_tally]. by apply same_workers.
  - left. injection E as <-. by apply same_workers.
Qed.
End tally.

(** ** The verdicts *)

Definition countV (P : testStatus → bool) (vs : list (option testStatus)) : Z := sumZ ((λ v, Z.b2z (from_option P false v)) <$> vs).

Lemma countV_insert P vs ti v : vs !! ti = Some None → countV P (<[ti := Some v]> vs) = countV P vs + Z.b2z (P v).
Proof. intros Hv. unfold countV. rewrite (sumZ_insert _ vs ti None (Some v) Hv). simpl. lia. Qed.

Lemma countV_none P n : countV P (replicate n None) = 0.
Proof. unfold countV. induction n as [|n IH]; [done|]. simpl. exact IH. Qed.

Lemma countV_decided vs : countV (λ _, true) vs = Z.of_nat (length (filter (λ v, v ≠ None) vs)).
Proof. unfold countV. induction vs as [|[v|] vs IH]; [done|..]; rewrite fmap_cons; cbn [sumZ foldr from_option Z.b2z]; fold (sumZ ((λ v, Z.b2z (from_option (λ _ : testStatus, true) false v)) <$> vs)); rewrite IH.
  - rewrite filter_cons_True by done. simpl length. lia.
  - rewrite filter_cons_False by naive_solver. lia.
Qed.

Definition verdictTally (y : system) : Z * Z * Z :=
  (countV (λ _, true) (verdicts y), countV cached (verdicts y), countV (λ ts, negb (passed ts)) (verdicts y)).

Section verdicts.
Context `{GoRuntime} (fl : flags).

Lemma completed_decided y : reachable fl y → sumZ (Completed <$> workers (flt (lead y))) = countV (λ _, true) (verdicts y).
Proof using Type. intros Hr. destruct (fleet_counts fl y Hr) as (E1 & E2 & _). rewrite countV_decided. congruence. Qed.

Lemma brings_unique y e wi r wi' r' : brings y e wi r → brings y e wi' r' → r = r'.
Proof using Type. intros [] Hb; inversion Hb; simplify_eq; congruence. Qed.

(** A step changes the verdicts and the counters together. *)
Lemma step_accounts y e y' : reachable fl y → step fl y e y' → tally (flt (lead y)) = verdictTally y → tally (flt (lead y')) = verdictTally y'.
Proof using Type.
  intros Hr Hst IH. pose proof (reach_step _ _ _ _ Hr Hst) as Hr'. pose proof (completed_decided y Hr) as Hc. pose proof (completed_decided y' Hr') as Hc'.
  assert (Hsame : verdicts y' = verdicts y → tally (flt (lead y')) = verdictTally y').
  { intros Hv. unfold verdictTally. rewrite Hv. change (tally (flt (lead y')) = verdictTally y). rewrite <- IH. destruct (step_tally fl y e y' Hst) as [?|(wi & r & _ & Ht)]; [done|].
    apply (f_equal (λ t, t.1.1)) in Ht. simpl in Ht. rewrite Hv in Hc'. lia. }
  pose proof (reachable_inv _ _ Hr) as Hy. destruct Hst as [He E] eqn:Est. clear Est. destruct (step_total fl y e Hy He) as (y1 & E1 & _ & Heff). assert (y1 = y') as -> by congruence.
  destruct Heff as [Hq _|Hv _ _ _|tasks now -> _ Hv|wi w r Hb Hw Hcase _].
  - apply Hsame. unfold verdicts. by apply quiet_verdicts.
  - by apply Hsame.
  - destruct (step_tally fl y _ y' Hst) as [Ht|(wi & r & Hb & _)]; [|inversion Hb]. destruct He as (Hn & _). pose proof (si_fleet _ _ Hy) as Hf.
    destruct (not_ready _ (fi_lease _ Hf) (fi_count _ Hf) (si_unstarted _ _ Hy Hn)) as (Hw0 & _). unfold verdictTally. rewrite Hv, !countV_none.
    rewrite (Ht : tally (flt (lead y')) = tally (flt (lead y))), IH. unfold verdictTally, verdicts. by rewrite Hw0.
  - destruct (accept_verdicts fl y wi w r (lead y') (locals y') Hy Hw Hcase) as [Hv|[ti [l t ts ts' _ _ _ _ _ _ _ Hnone _ _ Hcm Hv]]]; [by apply Hsame|].
    change (verdicts y' = <[ti := Some (eraseTest ts')]> (verdicts y)) in Hv. unfold verdictTally. rewrite Hv, !(countV_insert _ _ _ _ Hnone).
    destruct (step_tally fl y _ y' Hst) as [Ht|(wi' & r' & Hb' & Ht)].
    + exfalso. apply (f_equal (λ t, t.1.1)) in Ht. simpl in Ht. rewrite Hv, (countV_insert _ _ _ _ Hnone) in Hc'. simpl in Hc'. lia.
    + rewrite Ht, IH, <- (brings_unique _ _ _ _ _ _ Hb Hb'). unfold add3, verdictTally. simpl. by rewrite (cm_cached _ _ _ Hcm), (cm_passed _ _ _ Hcm).
Qed.

Lemma reachable_accounts y : reachable fl y → tally (flt (lead y)) = verdictTally y.
Proof using Type. induction 1 as [y (s & _ & ->)|y e y' Hr IH Hst]; [done|]. by apply (step_accounts y e y'). Qed.
End verdicts.

(** ** The summary *)

(** C34: the summary of a distributed run accounts for it: at every moment of a run, the
    tests, the cached results and the failures that the summary shows for the
    workers add up to the tests that have a verdict, to those whose result came
    from a cache, and to those that failed; and when the run has ended without
    being canceled every test of the queue is among them. *)
Theorem summary_accounts `{GoRuntime} fl y now :
  reachable fl y →
  let rows := sumWorkers (fleetSummaryLocked (srv (lead y)) (workers (flt (lead y))) now) in
  sumZ (wsCompleted <$> rows) = countV (λ _, true) (verdicts y) ∧
  sumZ (wsCached <$> rows) = countV cached (verdicts y) ∧
  sumZ (wsFailed <$> rows) = countV (λ ts, negb (passed ts)) (verdicts y) ∧
  (ended y = true → canceled (srv (lead y)) = false → sumZ (wsCompleted <$> rows) = Z.of_nat (length (work (flt (lead y))))).
Proof.
  intros Hr rows. pose proof (reachable_accounts fl y Hr) as Ht. unfold tally, verdictTally in Ht. injection Ht as H1 H2 H3.
  assert (Hrows : ∀ (g : workerSummary → Z) (h : fleetWorker → Z), (∀ start test w, g (summaryOf start test w) = h w) → g <$> rows = h <$> workers (flt (lead y))).
  { intros g h Hgh. unfold rows, fleetSummaryLocked. destruct (phaseLoop _ _ _) as [phases test]. simpl. rewrite <- list_fmap_compose. apply list_fmap_ext. intros i w _. apply Hgh. }
  rewrite (Hrows wsCompleted Completed), (Hrows wsCached Cached), (Hrows wsFailed Failed) by done. split_and!; [done..|]. intros Hend Hc. rewrite H1.
  destruct (ended_decided fl y Hr Hend) as [?|Hd]; [congruence|]. apply (decided_count fl y (reachable_inv _ _ Hr)) in Hd. unfold allDone in Hd. apply Z.eqb_eq in Hd.
  destruct (fleet_counts fl y Hr) as (E1 & _). rewrite countV_decided. congruence.
Qed.

Lemma summary_accounts_witness :
  let rows := sumWorkers (fleetSummaryLocked (srv (lead ex7)) (workers (flt (lead ex7))) 17) in
  (wsCompleted <$> rows) = [0; 2] ∧ sumZ (wsCompleted <$> rows) = Z.of_nat (length (work (flt (lead ex7)))).
Proof.
  split; [vm_compute; reflexivity|].
  apply (@summary_accounts testRuntime exampleFlags ex7 17 ex7_reachable); vm_compute; reflexivity.
Defined.
