(* ===== verification/HelperMain.v ===== *)
(** * The helper's process (worker.go: [runHelper], [runWorkerConnection]; gotst.go: [main])

    From the address of a leader to the exit of the process.  A helper returns from
    its functions where a leader calls [log.Fatal], so that its deferred calls run:
    it leaves its directory behind only if the system does not let it make one. *)

From Stdlib Require Import Ascii.
From S2P Require Import Prelude GoStrings GoFmt Path Utf8 Quote Flags Profile Args Invocation HistoryTypes TestCache Sha256 CommandLine Server Discover Capture CaptureFacts LocalCacheFacts Fleet Worker Listen Main Stores Leader.

(** What the process acquires. *)
Inductive helperResource := HClient | HConn | HDir (dir : string).

(** What the system, the network and the leader answer; the deadlines of the
    connection are among the errors. *)
Record helperIO := HelperIO {
  hiParseAddr : string → option error;
  hiHostname : string;
  hiDial : string → Z → option error;      (** with the port *)
  hiSend : workerHello → option error;
  hiAnswer : result workerConfig;
  hiDefs : result string;
  hiOpen : openIO;
  hiLoop : Server → option error           (** [workerLoop] *)
}.

Record helperOutcome := HelperOutcome {
  hoExit : Z;
  hoName : option string;                  (** under which it joined *)
  hoReleased : list helperResource;
  hoLeft : list helperResource
}.

Section helper.
Context `{GoRuntime}.

(** The function returns [err], and [main] exits. *)
Definition helperReturns (name : option string) (defers : list helperResource) (err : option error) : helperOutcome :=
  HelperOutcome (if err then 1 else 0) name defers [].

(** [runWorkerConnection] on a connection. *)
Definition runWorkerConnection (c : commandLine) (io : helperIO) (name : string) (defers : list helperResource) : helperOutcome :=
  match hiSend io (hello (clFlags c) name) with
  | Some e => helperReturns None defers (Some e)
  | None =>
      match hiAnswer io with
      | Err e => helperReturns None defers (Some e)
      | Ok config =>
          match configError config with
          | Some e => helperReturns None defers (Some e)
          | None =>
              match hiDefs io with
              | Err e => helperReturns None defers (Some e)
              | Ok root =>
                  match openServer (c <| clFlags := helperFlags (clFlags c) config |>) (helperProfile root config) (TestSelection [] []) (hiOpen io) with
                  | None => HelperOutcome 1 None [] defers   (** [log.Fatal] in [NewServer] *)
                  | Some (_, s) => helperReturns (Some name) (HDir (cacheDir s) :: defers) (hiLoop io (s <| captureHistory := wcHistory config |>))
                  end
              end
          end
      end
  end.

(** [runHelper], and the end of [main]. *)
Definition helperMain (c : commandLine) (io : helperIO) : helperOutcome :=
  match hiParseAddr io (helperAddr (clFlags c)) with
  | Some e => helperReturns None [] (Some e)
  | None =>
      let name := if bool_decide (helperName c = "") then hiHostname io else helperName c in
      match hiDial io (helperAddr (clFlags c)) workerPort with
      | Some e => helperReturns None [HClient] (Some e)
      | None => runWorkerConnection c io name [HConn; HClient]
      end
  end.

(** A branch in which the helper has not joined. *)
Ltac not_joined := split; [done|]; intros _; split; [done|]; set_solver.

(** The helper has joined: the directory it made, and the state its loop starts from. *)
Definition joins (c : commandLine) (io : helperIO) (s : Server) : Prop :=
  ∃ config root removed s0, hiAnswer io = Ok config ∧ configError config = None ∧ hiDefs io = Ok root ∧
    openServer (c <| clFlags := helperFlags (clFlags c) config |>) (helperProfile root config) (TestSelection [] []) (hiOpen io) = Some (removed, s0) ∧
    s = s0 <| captureHistory := wcHistory config |>.

(** a helper leaves nothing behind.  Once it has joined it releases everything in
    the reverse order, its directory first, whatever the leader, the connection and
    its own executions did, and its exit status is 0 exactly if its loop ended
    without an error.  If it does not join it exits with 1 and has made no
    directory. *)
Theorem helper_leaves_nothing c io :
  let o := helperMain c io in
  (∀ name, hoName o = Some name → name = (if bool_decide (helperName c = "") then hiHostname io else helperName c) ∧
    ∃ s, joins c io s ∧ hoReleased o = [HDir (cacheDir s); HConn; HClient] ∧ hoLeft o = [] ∧ hoExit o = (if hiLoop io s then 1 else 0)) ∧
  (hoName o = None → hoExit o = 1 ∧ ∀ dir, HDir dir ∉ hoReleased o ++ hoLeft o).
Proof using Type.
  intros o. unfold o, helperMain. clear o.
  destruct (hiParseAddr io _); [not_joined|]. set (name := if bool_decide _ then _ else _).
  destruct (hiDial io _ _); [not_joined|]. unfold runWorkerConnection.
  destruct (hiSend io _); [not_joined|].
  destruct (hiAnswer io) as [config|] eqn:Ha; [|not_joined].
  destruct (configError config) eqn:Hc; [not_joined|].
  destruct (hiDefs io) as [root|] eqn:Hd; [|not_joined].
  destruct (openServer _ _ _ _) as [[removed s]|] eqn:Ho; [|not_joined].
  split; [|done]. intros n [= <-]. split; [done|]. exists (s <| captureHistory := wcHistory config |>). split_and!; [|done..]. exists config, root, removed, s. by split_and!.
Qed.
End helper.
